(* ===== verification/_CoqProject ===== *)
-Q . S2P
Prelude.v
Hex.v
Float64.v
ChunkMath.v
Interfaces.v
Cipher.v
DataMap.v
Reference.v
Encrypt.v
Decrypt.v
RoundTrip.v
Ranges.v
StreamDec.v
StreamEnc.v
Protocol.v
Tunnel.v
Session.v
Storage.v
Release.v
ReleaseKey.v
Files.v
SelfUpgrade.v
Supervisor.v
Host.v
NodeBinary.v
CliKey.v
CliUpdate.v
Registry.v
Daemon.v
DaemonClient.v
Wallet.v
NodeConfig.v
PayCache.v
Evm.v
Metrics.v
Quote.v
PayProof.v
SingleNode.v
Pricing.v
Verifier.v
Handler.v
NodeSetup.v
Devnet.v
WasmClient.v
NetFetch.v
EndToEnd.v
NetClient.v
NetPayment.v
NetBatch.v
NetMerkle.v
NetData.v
NetFile.v
Upload.v
