(* ===== verification/Prelude.v ===== *)
(** * Verification of exp-ant-wasm: shared prelude

    The repository is a storage network: files are self-encrypted into chunks,
    nodes store chunks that were paid for under the hash of their content, and
    clients in a browser or on a desktop upload and download them.  This library
    models the parts that decide what is stored, paid, accepted and returned, and
    proves them correct.  All paths below are under [src/].

    ** The parts, their files and their state

    Self-encryption ([self_encryption/src]).  [ChunkMath] ([utils.rs]): how a file
    is cut.  [Cipher] ([utils.rs], [encrypt.rs], [decrypt.rs], [cipher.rs]): one
    chunk under the hashes of its neighbours.  [DataMap] ([data_map.rs],
    [chunk.rs]).  [Encrypt], [Decrypt] ([lib.rs]): whole files, data maps that are
    shrunk by encrypting them again, and the search for the root map.  [RoundTrip]
    has their properties, [Ranges] ([lib.rs]) reads of a range.  [StreamDec]
    ([stream_decrypt.rs]) and [StreamEnc] ([stream_encrypt.rs]) are iterators with
    the Rust structs as records; [StreamEnc] is proved equal to [Encrypt].

    The tunnel.  [Protocol] ([ant-protocol/src/chunk.rs] and
    [ant-node/src/ant_protocol/chunk.rs]): messages.  [Tunnel]
    ([ant-protocol/src/pqc_tunnel.rs]): envelopes and the session cipher.
    [Session] ([ant-wasm/src/transport.rs], [ant-node/src/webtransport/server.rs]):
    a client end and a server end that a network connects.

    The node ([ant-node/src]).  [Storage] ([storage/lmdb.rs]): the chunk store; an
    operation is a sequence of steps between which others run, and every database
    call may fail.  [PayCache] ([payment/cache.rs]), [Metrics]
    ([payment/metrics.rs]), [Quote] ([payment/quote.rs]), [PayProof]
    ([payment/proof.rs]), [SingleNode] ([payment/single_node.rs]), [Verifier]
    ([payment/verifier.rs]).  [Handler] ([storage/handler.rs]) joins them in one
    state, [AntProtocol].  [NetFetch] ([client/chunk_protocol.rs],
    [webtransport/server.rs]): asking other nodes.  [Pricing]
    ([payment/pricing.rs]): an estimate of a node's price, over [Float64].

    The start of a node.  [NodeConfig] ([config.rs], [bin/ant-node/cli.rs]): the
    configuration as a TOML tree with its defaults, the files it is looked for in
    and the options over it.  [NodeSetup] ([node.rs]): [NodeBuilder] assembles a
    [Handler] from a configuration and the files of an earlier run.  [Devnet]
    ([devnet.rs], [bin/ant-devnet]): a network of such nodes in one process,
    started, waited for and taken down.

    The node's upgrade ([ant-node/src/upgrade], the task in [node.rs]).  [Release]
    ([monitor.rs], [rollout.rs], [release_cache.rs]): finding an upgrade and
    waiting for its turn, with [Float64] for the delay.  [Files] is a monad of
    file operations that may fail; [SelfUpgrade] ([apply.rs], [binary_cache.rs],
    [signature.rs], [mod.rs]) downloads, checks and installs over it, and
    [ReleaseKey] is the embedded key.

    The browser client.  [WasmClient] ([ant-wasm/src/client.rs], [lib.rs]).
    [EndToEnd] connects it through a session to a node.

    The native client ([ant-client/ant-core/src]).  [NetClient]
    ([data/client/chunk.rs], [cache.rs], [data/network.rs]), [NetPayment]
    ([quote.rs], [payment.rs]), [NetBatch] ([batch.rs]), [NetMerkle]
    ([merkle.rs]), [NetData] ([data.rs]), [NetFile] ([file.rs], over the file
    operations of [Files]).  [Upload] connects a payment and a put to the nodes of
    a close group.

    The node manager of the native client ([ant-client/ant-core/src/node]).
    [Supervisor] ([daemon/supervisor.rs]): node processes, a table and their
    monitor tasks.  [Host] extends the disk of [Files] with directories.
    [NodeBinary] ([binary.rs]): the cache of node binaries.  [Registry]
    ([registry.rs], [mod.rs], [config.rs], option types of [types.rs]): the file
    of nodes and the commands on it, which several processes share through a lock.
    [Daemon] ([daemon/server.rs]): the handlers of the HTTP interface over a copy
    of the registry and the supervisor; a handler is a sequence of steps between
    which others, monitors and other processes run.  [DaemonClient]
    ([daemon/client.rs], [process/detach.rs], [server::start]): finding, starting
    and stopping the daemon through its files and signals.  [Wallet] ([wallet.rs]):
    rewards addresses.  [CliUpdate] ([update.rs] and
    the [update] command of [ant-cli]), with the key in [CliKey]: the command line
    tool updates itself.

    [Hex] is the hexadecimal text that keys, addresses and checksums share.
    [Interfaces] and [Evm] are type classes for third-party code (hashes, AEAD,
    KEM, signatures, brotli, serde formats, the LRU cache, evmlib), each with a
    class of laws that states documented behaviour; [Reference] has concrete
    instances, on which the witnesses run.

    ** How the code is modelled

    Integers are [Z] with the width's wrapping, saturation or check written out.
    Fallible functions return [result], a log line is left out, an error message is
    kept as the text of its format string where its arguments do not matter.  An
    operation on [&mut self] returns the new record, and one that awaits under a
    lock is cut at the await ([stop_begin] and [stop_end] of [Supervisor]): the world
    remembers the stop that has the lock, and a handler of [Daemon] that is dropped
    there gives it back with the node still Stopping.  The clock, random numbers,
    the network, the chain and the scheduler are arguments: a completion order of
    concurrent futures is a function from rounds to indices, and theorems hold for
    all of them; a library call that may fail has a fault function.
    [Path::exists] and its kin answer [false] when the system call fails; the class
    [Stats] of [Files] says when they work, and [stats_work] that they always do.
    [drop_dir] of [Files] (a temporary directory or a spill that is removed) may fail
    and leave files behind.  Calls of a wallet that fail tell the transactions they
    have made; the log of [NetBatch] keeps every call ([wallet_calls]).

    Recursion that is not structural has fuel: [encrypt_fuel] (2n+4 for n chunks:
    each level of shrinking makes fewer chunks), 101 levels in the root map search
    as in the code, one round per peer in [put_rounds], one per future in
    [completions] and [buffer_unordered], and in [data_download] one per step of
    every fetch.  That the fuel is enough is a theorem each time
    ([encrypt_terminates], [put_stops_at_majority], [buffer_unordered_perm],
    [buffered_gets_spec]).  In [NetFile] an upload needs more than the number of
    chunks, and a download [download_fuel], one for each chunk of the root map.
    [Devnet] polls as often as its timeout allows ([stabilization_rounds_enough]).

    ** What is proved

    C1-C7: files are cut, encrypted, shrunk, found and decrypted again, as a whole,
    in ranges and in streams; every file whose data map is shrunk twice is lost (C4,
    when no chunk of level 1 opens with the keys of level 0).  C8-C10: a handshake
    agrees on keys and authenticates the server, a session implements calls.
    C11, C12: the store implements a bounded content-addressed map under every
    interleaving and failure.  C13, C14: the median node is paid, and a payment is
    accepted exactly when it should be.  C15, C16: the node's handler stores only
    what was paid for and serves what it acknowledged.  C17-C20: a node that its
    builder assembled is paid at the address that it checks, keeps its identity and
    its chunks over restarts (an existing key file is only safe while looking for it
    works), and a devnet that is ready is as configured.  C21:
    relaying.  C22, C23: what the browser client returns is verified, and it gets a
    node's file.  C24-C28, C33-C36: storing at a close group ends and is
    replicated, quotes do not depend on their order, no payment of a batch is
    repeated and none but a failed one lost, merkle proofs are accepted, uploaded files and data
    download, and a download appears at once or not at all.  C29, C30: an upgrade
    on offer is applied, and only an authentic one.  C31, C32: the supervisor's
    table is well-formed, crash loops end and stable nodes are restarted for ever.
    C37-C40: cached binaries were served whole, the registry is changed by one
    command at a time whatever fails, the daemon's copies agree with it (both lose
    nodes when looking for the registry file fails), and the
    command line tool is replaced only by signed releases.
    Beside them stand [stream_ranges_are_slices] of [StreamDec],
    [root_search_parallel_agrees] of [RoundTrip], [envelopes_round_trip] of
    [Tunnel], [new_chunk_reported_once] of [Storage], [metrics_survive_restart] of
    [Metrics], [quotes_verify] of [Quote], [only_paid_addresses_pass] of
    [Verifier], [requests_are_answered_in_kind] of [Handler], [proofs_round_trip]
    of [PayProof], [cache_confirms_only_inserted] of [PayCache],
    [prices_are_bounded] of [Pricing], [stop_signals_only_the_daemon] and
    [started_daemon_is_found] of [DaemonClient], and [saved_config_is_loaded] and [peers_come_from_the_first_source] of
    [NodeConfig].

    Lemmas without a number show what the code does not do:
    [missing_chunks_are_silent] of [StreamDec], [failed_open_breaks_session] of
    [Session], [network_fetch_relays_other_chunk] of [NetFetch],
    [shrunk_files_cannot_be_downloaded] of [WasmClient],
    [shrunk_data_cannot_be_downloaded] of [NetData], [stopped_node_comes_back],
    [old_crash_loops_go_on], [uptime_after_clean_exit] and [dropped_stop_is_final] of
    [Supervisor], [unseen_registry_is_lost] of [Registry],
    [unseen_registry_empties_the_daemon] of [Daemon], [unseen_key_is_replaced] of
    [NodeSetup], [failed_payment_is_lost] of [NetBatch], [fallback_pays_again] of
    [NetFile],
    [other_build_is_ignored] of [NodeBinary], [removed_nodes_are_inherited] of
    [Registry], [reset_forgets_a_node] of [Daemon], [stale_port_is_reported],
    [reused_pid_prevents_start] and [slow_daemon_is_started_twice] of
    [DaemonClient],
    [managers_and_nodes_agree] of [Wallet],
    [default_config_cannot_be_saved], [file_payment_is_discarded] and
    [file_address_is_ignored] of [NodeConfig], [no_address_no_node] and
    [file_address_does_not_start_a_node] of [NodeSetup],
    [default_devnet_removes_the_nodes] and [many_nodes_panic] of [Devnet].

    ** Not modelled

    The logarithm in floating point that the price formula uses, which is a
    parameter of [Pricing], as the price is of its client; the loop of a running node that waits for
    signals and routes messages ([RunningNode] of [node.rs] apart from the upgrade
    task); the manifest of a devnet and its local blockchain; the parsing of the
    command line; the daemon's socket and event stream, its foreground process
    that waits for Ctrl-C; the native client's own devnet
    ([ant-core/src/node/devnet.rs]), language bindings and tools: input and output
    around the modelled parts; Windows variants; TLS, QUIC, the peer-to-peer
    network and JavaScript glue, which are third-party code. *)

From Stdlib Require Import ZArith Lia Strings.Byte Sorting.Sorted.
From stdpp Require Import base decidable countable list strings gmap.


(** ** Bytes

    A Rust [u8] is a [Byte.byte]; [Vec<u8>], [&[u8]], [bytes::Bytes] and a
    fixed-size array are lists of them. *)

Abbreviation byte := Byte.byte.
Abbreviation bytes := (list Byte.byte).

#[export] Instance byte_eq_dec : EqDecision byte := Byte.byte_eq_dec.

#[export] Program Instance byte_countable : Countable byte := {|
  encode b := N.succ_pos (Byte.to_N b);
  decode p := Byte.of_N (Pos.pred_N p)
|}.
Next Obligation.
  intros b. cbn. destruct b; reflexivity.
Qed.

#[export] Instance byte_inhabited : Inhabited byte := populate x00.

Definition byte_to_Z (b : byte) : Z := Z.of_N (Byte.to_N b).

(** Truncating conversion, Rust's [as u8]. *)
Definition byte_of_Z (z : Z) : byte :=
  default x00 (Byte.of_N (Z.to_N (z mod 256))).

(** Length of a slice as a [usize]. *)
Definition lenZ {A} (l : list A) : Z := Z.of_nat (length l).

(** Rust's [&l[s..e]] for [s <= e <= len]; the callers' bounds are theorems. *)
Definition slice {A} (l : list A) (s e : Z) : list A :=
  take (Z.to_nat (e - s)) (drop (Z.to_nat s) l).

(** ** Machine integers *)

Definition usize_modulus : Z := 2 ^ 64.
Definition u64_max : Z := 2 ^ 64 - 1.
Definition u32_max : Z := 2 ^ 32 - 1.

(** Wrapping [usize] addition and subtraction (release profile). *)
Definition wadd (a b : Z) : Z := (a + b) mod usize_modulus.
Definition wsub (a b : Z) : Z := (a - b) mod usize_modulus.
(** [saturating_sub] on an unsigned type. *)
Definition sat_sub (a b : Z) : Z := Z.max 0 (a - b).

(** [z.to_le_bytes()] and [z.to_be_bytes()] of an [n]-byte unsigned integer,
    and the inverse readings. *)
Fixpoint le_bytes (n : nat) (z : Z) : bytes :=
  match n with
  | O => []
  | S n' => byte_of_Z z :: le_bytes n' (z / 256)
  end.

Fixpoint from_le (l : bytes) : Z :=
  match l with
  | [] => 0
  | b :: l' => byte_to_Z b + 256 * from_le l'
  end.

Definition be_bytes (n : nat) (z : Z) : bytes := rev (le_bytes n z).
Definition from_be (l : bytes) : Z := from_le (rev l).

(** ** Results

    [Result<A, E>] with the error type first, so that [result E] is a monad
    and stdpp's do-notation is Rust's [?]. *)

Inductive result (E A : Type) : Type :=
| Ok (a : A)
| Err (e : E).
Arguments Ok {E A} _.
Arguments Err {E A} _.

#[export] Instance result_ret {E} : MRet (result E) := fun A a => Ok a.
#[export] Instance result_bind {E} : MBind (result E) := fun A B f r =>
  match r with Ok a => f a | Err e => Err e end.
#[export] Instance result_fmap {E} : FMap (result E) := fun A B f r =>
  match r with Ok a => Ok (f a) | Err e => Err e end.

(** Computations with a state that may fail; a failure keeps the state. *)
Definition stres (S E A : Type) : Type := S -> result E A * S.

#[export] Instance stres_ret {S E} : MRet (stres S E) := fun A a s => (Ok a, s).
#[export] Instance stres_bind {S E} : MBind (stres S E) := fun A B f m s =>
  match m s with (Ok a, s') => f a s' | (Err e, s') => (Err e, s') end.

Definition st_lift {S E A} (r : result E A) : stres S E A := fun s => (r, s).

(** The result as a value. *)
Definition st_try {S E A} (m : stres S E A) : stres S E (result E A) := fun s =>
  let '(r, s') := m s in (Ok r, s').

Fixpoint st_map {S E A B} (f : A -> stres S E B) (l : list A) : stres S E (list B) :=
  match l with
  | [] => mret []
  | a :: l => b ← f a; bs ← st_map f l; mret (b :: bs)
  end.

Definition map_err {E F A} (f : E -> F) (r : result E A) : result F A :=
  match r with Ok a => Ok a | Err e => Err (f e) end.

Definition ok_or {E A} (o : option A) (e : E) : result E A :=
  match o with Some a => Ok a | None => Err e end.

Definition is_ok {E A} (r : result E A) : bool :=
  match r with Ok _ => true | Err _ => false end.

(** [Result::ok]. *)
Definition res_ok {E A} (r : result E A) : option A :=
  match r with Ok a => Some a | Err _ => None end.

(** [iter.map(f).collect::<Result<Vec<_>>>()]: stops at the first error. *)
Fixpoint try_map {E A B} (f : A -> result E B) (l : list A) : result E (list B) :=
  match l with
  | [] => Ok []
  | a :: l' => b ← f a; bs ← try_map f l'; mret (b :: bs)
  end.

(** A [for] loop whose body may return early with an error. *)
Fixpoint try_fold {E A S} (f : S -> A -> result E S) (s : S) (l : list A) : result E S :=
  match l with
  | [] => Ok s
  | a :: l' => s' ← f s a; try_fold f s' l'
  end.

(** [enumerate()], from index [i]. *)
Fixpoint enumerate_from {A} (i : Z) (l : list A) : list (Z * A) :=
  match l with
  | [] => []
  | a :: l' => (i, a) :: enumerate_from (i + 1) l'
  end.
Definition enumerate {A} (l : list A) : list (Z * A) := enumerate_from 0 l.

(** [0..n] as a list of [usize]. *)
Definition rangeZ (n : Z) : list Z := Z.of_nat <$> seq 0 (Z.to_nat n).

(** ** Automation *)

Create HintDb ant.

(** Case analysis on the scrutinee of the first [match] in the goal. *)
Ltac destruct_match :=
  match goal with
  | |- context [match ?x with _ => _ end] => destruct x eqn:?
  end.

Ltac destruct_match_in H :=
  match type of H with
  | context [match ?x with _ => _ end] => destruct x eqn:?
  end.

(** Booleans of [Z] comparisons to propositions, everywhere. *)
Ltac b2p :=
  repeat match goal with
  | H : (_ <? _)%Z = true |- _ => apply Z.ltb_lt in H
  | H : (_ <? _)%Z = false |- _ => apply Z.ltb_ge in H
  | H : (_ <=? _)%Z = true |- _ => apply Z.leb_le in H
  | H : (_ <=? _)%Z = false |- _ => apply Z.leb_gt in H
  | H : (_ =? _)%Z = true |- _ => apply Z.eqb_eq in H
  | H : (_ =? _)%Z = false |- _ => apply Z.eqb_neq in H
  | H : _ && _ = true |- _ => apply andb_prop in H as [? ?]
  | H : _ || _ = false |- _ => apply orb_false_elim in H as [? ?]
  | H : negb _ = true |- _ => apply negb_true_iff in H
  | H : negb _ = false |- _ => apply negb_false_iff in H
  end.

(** Invert a successful (or failing) chain of [?]. *)
Ltac inv_bind H :=
  repeat (unfold mbind, result_bind, mret, result_ret, fmap, result_fmap in H;
          match type of H with
          | match ?x with Ok _ => _ | Err _ => _ end = _ =>
              destruct x eqn:?; try discriminate H
          | Ok _ = Ok _ => injection H as H; try subst
          end).

(** ** Lemmas: bytes and integer encodings *)

Lemma byte_to_Z_range b : (0 <= byte_to_Z b < 256)%Z.
Proof.
  unfold byte_to_Z. pose proof (Byte.to_N_bounded b). lia.
Qed.

Lemma byte_of_Z_to_Z b : byte_of_Z (byte_to_Z b) = b.
Proof.
  unfold byte_of_Z. rewrite Z.mod_small by apply byte_to_Z_range.
  unfold byte_to_Z. rewrite N2Z.id, Byte.of_to_N. done.
Qed.

Lemma byte_to_Z_of_Z z : byte_to_Z (byte_of_Z z) = (z mod 256)%Z.
Proof.
  unfold byte_of_Z. pose proof (Z.mod_pos_bound z 256 eq_refl).
  destruct (Byte.of_N (Z.to_N (z mod 256))) as [b|] eqn:E; simpl.
  - apply Byte.to_of_N in E. unfold byte_to_Z. rewrite E. lia.
  - apply Byte.of_N_None_iff in E. lia.
Qed.

Lemma byte_to_Z_inj b1 b2 : byte_to_Z b1 = byte_to_Z b2 -> b1 = b2.
Proof. intros H. rewrite <- (byte_of_Z_to_Z b1), H. apply byte_of_Z_to_Z. Qed.

Lemma length_le_bytes n z : length (le_bytes n z) = n.
Proof. revert z; induction n; intros z; simpl; auto. Qed.

Lemma length_be_bytes n z : length (be_bytes n z) = n.
Proof. unfold be_bytes. rewrite length_rev. apply length_le_bytes. Qed.

Lemma from_le_bytes n z :
  (0 <= z < 256 ^ Z.of_nat n)%Z -> from_le (le_bytes n z) = z.
Proof.
  revert z; induction n as [|n IH]; intros z Hz; simpl.
  - simpl in Hz. lia.
  - rewrite byte_to_Z_of_Z, IH.
    + pose proof (Z.div_mod z 256). lia.
    + rewrite Nat2Z.inj_succ, Z.pow_succ_r in Hz by lia.
      split; [apply Z.div_pos; lia | apply Z.div_lt_upper_bound; lia].
Qed.

Lemma from_be_bytes n z :
  (0 <= z < 256 ^ Z.of_nat n)%Z -> from_be (be_bytes n z) = z.
Proof. intros H. unfold from_be, be_bytes. rewrite rev_involutive. by apply from_le_bytes. Qed.

Lemma from_le_range l : (0 <= from_le l < 256 ^ lenZ l)%Z.
Proof.
  unfold lenZ. induction l as [|b l IH]; [simpl; lia|].
  cbn [from_le length]. rewrite Nat2Z.inj_succ, Z.pow_succ_r by lia.
  pose proof (byte_to_Z_range b). lia.
Qed.

Lemma le_bytes_from_le l : le_bytes (length l) (from_le l) = l.
Proof.
  induction l as [|b l IH]; [done|]. cbn [length le_bytes from_le].
  pose proof (byte_to_Z_range b). f_equal.
  - apply byte_to_Z_inj. rewrite byte_to_Z_of_Z.
    rewrite (Z.mul_comm 256), Z.mod_add by lia. apply Z.mod_small; lia.
  - rewrite (Z.mul_comm 256), Z.div_add by lia.
    rewrite Z.div_small by lia. rewrite Z.add_0_l. done.
Qed.

Lemma le_bytes_inj n z1 z2 :
  (0 <= z1 < 256 ^ Z.of_nat n)%Z -> (0 <= z2 < 256 ^ Z.of_nat n)%Z ->
  le_bytes n z1 = le_bytes n z2 -> z1 = z2.
Proof.
  intros H1 H2 H. rewrite <- (from_le_bytes n z1), <- (from_le_bytes n z2) by done.
  by rewrite H.
Qed.

Lemma be_bytes_inj n z1 z2 :
  (0 <= z1 < 256 ^ Z.of_nat n)%Z -> (0 <= z2 < 256 ^ Z.of_nat n)%Z ->
  be_bytes n z1 = be_bytes n z2 -> z1 = z2.
Proof.
  intros H1 H2 H. rewrite <- (from_be_bytes n z1), <- (from_be_bytes n z2) by done.
  by rewrite H.
Qed.

#[global] Arguments le_bytes : simpl never.
#[global] Arguments be_bytes : simpl never.

(** ** Lemmas: lists *)

Lemma lenZ_app {A} (l1 l2 : list A) : lenZ (l1 ++ l2) = (lenZ l1 + lenZ l2)%Z.
Proof. unfold lenZ. rewrite length_app. lia. Qed.

Lemma lenZ_nonneg {A} (l : list A) : (0 <= lenZ l)%Z.
Proof. unfold lenZ. lia. Qed.

Lemma lenZ_slice {A} (l : list A) s e :
  (0 <= s <= e)%Z -> (e <= lenZ l)%Z -> lenZ (slice l s e) = (e - s)%Z.
Proof. intros. unfold slice, lenZ in *. rewrite length_take, length_drop. lia. Qed.

Lemma slice_app_adjacent {A} (l : list A) a b c :
  (0 <= a <= b)%Z -> (b <= c)%Z -> slice l a b ++ slice l b c = slice l a c.
Proof.
  intros. unfold slice.
  replace (Z.to_nat (c - a)) with (Z.to_nat (b - a) + Z.to_nat (c - b))%nat by lia.
  replace (Z.to_nat b) with (Z.to_nat a + Z.to_nat (b - a))%nat by lia.
  rewrite <- drop_drop, <- take_take_drop. done.
Qed.

Lemma slice_full {A} (l : list A) : slice l 0 (lenZ l) = l.
Proof. unfold slice, lenZ. rewrite drop_0. apply take_ge. lia. Qed.

Lemma length_enumerate_from {A} i (l : list A) :
  length (enumerate_from i l) = length l.
Proof. revert i; induction l; intros i; simpl; auto. Qed.

Lemma enumerate_from_app {A} i (l1 l2 : list A) :
  enumerate_from i (l1 ++ l2) = enumerate_from i l1 ++ enumerate_from (i + lenZ l1) l2.
Proof.
  revert i; induction l1 as [|a l1 IH]; intros i; unfold lenZ in *.
  - simpl. by rewrite Z.add_0_r.
  - cbn [app enumerate_from length]. rewrite IH.
    by replace (i + 1 + Z.of_nat (length l1))%Z with (i + Z.of_nat (S (length l1)))%Z by lia.
Qed.

Lemma lookup_enumerate_from {A} i (l : list A) k :
  enumerate_from i l !! k = (fun a => ((i + Z.of_nat k)%Z, a)) <$> l !! k.
Proof.
  revert i k; induction l as [|a l IH]; intros i [|k]; simpl; try done.
  - do 2 f_equal. lia.
  - rewrite IH. destruct (l !! k); simpl; [|done].
    replace (i + 1 + Z.of_nat k)%Z with (i + Z.of_nat (S k))%Z by lia. done.
Qed.

Lemma length_rangeZ n : length (rangeZ n) = Z.to_nat n.
Proof. unfold rangeZ. by rewrite length_fmap, length_seq. Qed.

Lemma elem_of_rangeZ n i : i ∈ rangeZ n <-> (0 <= i < n)%Z.
Proof.
  unfold rangeZ. rewrite list_elem_of_fmap. setoid_rewrite elem_of_seq. split.
  - intros (k & -> & Hk). lia.
  - intros H. exists (Z.to_nat i). lia.
Qed.

Lemma rangeZ_succ n : (0 <= n)%Z -> rangeZ (n + 1) = rangeZ n ++ [n].
Proof.
  intros H. unfold rangeZ. replace (Z.to_nat (n + 1)) with (S (Z.to_nat n)) by lia.
  rewrite seq_S, fmap_app. simpl. do 2 f_equal. lia.
Qed.

(** ** Lemmas: results *)

Lemma try_map_Ok_Forall2 {E A B} (f : A -> result E B) l l' :
  try_map f l = Ok l' <-> Forall2 (fun a b => f a = Ok b) l l'.
Proof.
  revert l'; induction l as [|a l IH]; intros l'; simpl.
  - split; [intros [= <-]; constructor | by inversion 1].
  - split.
    + intros H. inv_bind H. constructor; [done|]. by apply IH.
    + inversion 1 as [|? b ? l'' Hb Hl]; subst. unfold mbind, result_bind.
      rewrite Hb. apply IH in Hl. rewrite Hl. done.
Qed.

Lemma try_map_length {E A B} (f : A -> result E B) l l' :
  try_map f l = Ok l' -> length l' = length l.
Proof. intros H%try_map_Ok_Forall2. symmetry. by eapply Forall2_length. Qed.

Lemma try_map_ext {E A B} (f g : A -> result E B) l :
  Forall (fun a => f a = g a) l -> try_map f l = try_map g l.
Proof. induction 1 as [|a l Ha _ IH]; simpl; [done|]. by rewrite Ha, IH. Qed.

Lemma try_fold_app {E A S} (f : S -> A -> result E S) s l1 l2 :
  try_fold f s (l1 ++ l2) = (s' ← try_fold f s l1; try_fold f s' l2).
Proof.
  revert s; induction l1 as [|a l1 IH]; intros s; simpl; [done|].
  unfold mbind, result_bind in *. destruct (f s a); [apply IH | done].
Qed.

#[export] Hint Resolve byte_to_Z_range lenZ_nonneg : ant.

(** ** Stable sorting

    [sort_by]/[sort_by_key] of the standard library: the stable sort by a key;
    insertion sort computes the same list as any stable sort. *)

Section Sort.
Context {A : Type} (key : A -> Z).

Fixpoint insert_by (x : A) (l : list A) : list A :=
  match l with
  | [] => [x]
  | y :: l' => if (key x <=? key y)%Z then x :: y :: l' else y :: insert_by x l'
  end.

Fixpoint sort_by_key (l : list A) : list A :=
  match l with
  | [] => []
  | x :: l' => insert_by x (sort_by_key l')
  end.

Definition key_sorted (l : list A) : Prop :=
  StronglySorted (fun x y => (key x <= key y)%Z) l.

Lemma insert_by_perm x l : insert_by x l ≡ₚ x :: l.
Proof.
  induction l as [|y l IH]; simpl; [done|].
  destruct (key x <=? key y)%Z; [done|]. rewrite IH. constructor.
Qed.

Lemma sort_by_key_perm l : sort_by_key l ≡ₚ l.
Proof. induction l as [|x l IH]; simpl; [done|]. by rewrite insert_by_perm, IH. Qed.

Lemma insert_by_sorted x l : key_sorted l -> key_sorted (insert_by x l).
Proof.
  induction 1 as [|y l Hl IH Hy]; simpl.
  - repeat constructor.
  - destruct (key x <=? key y)%Z eqn:E; b2p.
    + constructor; [by constructor|]. constructor; [done|].
      eapply Forall_impl; [exact Hy|]. simpl. lia.
    + constructor; [done|]. rewrite insert_by_perm. constructor; [lia|done].
Qed.

Lemma sort_by_key_sorted l : key_sorted (sort_by_key l).
Proof. induction l; simpl; [constructor | by apply insert_by_sorted]. Qed.

Lemma sort_by_key_id l : key_sorted l -> sort_by_key l = l.
Proof.
  induction 1 as [|x l Hl IH Hx]; simpl; [done|]. rewrite IH.
  destruct Hx as [|y l Hy Hr]; simpl; [done|].
  by assert ((key x <=? key y)%Z = true) as -> by lia.
Qed.

Lemma length_sort_by_key l : length (sort_by_key l) = length l.
Proof. by rewrite sort_by_key_perm. Qed.

End Sort.

(** [Vec::insert]; out of range it panics, which the callers exclude. *)
Definition vec_insert {A} (i : nat) (x : A) (l : list A) : list A :=
  take i l ++ x :: drop i l.

Lemma try_map_app {E A B} (f : A -> result E B) l1 l2 :
  try_map f (l1 ++ l2) = (a ← try_map f l1; b ← try_map f l2; Ok (a ++ b)).
Proof.
  induction l1 as [|x l1 IH]; cbn.
  - unfold mbind, result_bind. by destruct (try_map f l2).
  - rewrite IH. unfold mbind, result_bind, mret, result_ret.
    destruct (f x); [|done]. destruct (try_map f l1); [|done]. by destruct (try_map f l2).
Qed.

Lemma rangeZ_split k n :
  (0 <= k <= n)%Z -> rangeZ n = rangeZ k ++ ((fun i => k + i)%Z <$> rangeZ (n - k)).
Proof.
  intros H. unfold rangeZ.
  replace (Z.to_nat n) with (Z.to_nat k + Z.to_nat (n - k))%nat by lia.
  rewrite seq_app, fmap_app. f_equal. rewrite Nat.add_0_l.
  rewrite <- (Nat.add_0_r (Z.to_nat k)) at 1. rewrite <- fmap_add_seq.
  rewrite <- !list_fmap_compose. apply list_fmap_ext. intros i j _. simpl. lia.
Qed.

Lemma rangeZ_lookup n i :
  (0 <= i < n)%Z -> rangeZ n !! Z.to_nat i = Some i.
Proof.
  intros H. unfold rangeZ. rewrite list_lookup_fmap, lookup_seq_lt by lia.
  simpl. f_equal. lia.
Qed.

Lemma rangeZ_sorted n : StronglySorted Z.le (rangeZ n).
Proof.
  unfold rangeZ. generalize 0%nat. induction (Z.to_nat n) as [|m IH]; intros k; simpl.
  - constructor.
  - constructor; [apply IH|]. rewrite Forall_fmap. apply Forall_forall.
    intros x Hx%elem_of_seq. simpl. lia.
Qed.

Lemma key_sorted_zip_with {A B} (key : A -> Z) (f : Z -> B -> A) xs bs :
  (forall i b, key (f i b) = i) -> StronglySorted Z.le xs ->
  key_sorted key (zip_with f xs bs).
Proof.
  intros Hf Hs. revert bs. induction Hs as [|i xs Hs IH Hi]; intros [|b bs]; simpl; try constructor.
  - apply IH.
  - clear IH Hs. revert bs. induction Hi as [|j js Hij _ IH]; intros [|b' bs]; simpl; constructor.
    + rewrite !Hf. done.
    + apply IH.
Qed.
