(* ===== verification/Hex.v ===== *)
(** * Hexadecimal text

    [hex::encode] and [hex::decode], which several components use for addresses and
    names: [encode] writes lower case, [decode] reads either case and refuses an odd
    length. *)

From Stdlib Require Import ZArith Lia Strings.Ascii Strings.String.
From stdpp Require Import base decidable list strings.
From S2P Require Import Prelude.

Local Open Scope Z_scope.

Definition hex_char (n : Z) : ascii := ascii_of_N (Z.to_N (if n <? 10 then 48 + n else 87 + n)).

Definition hex_encode (b : bytes) : string :=
  foldr (fun x s => String (hex_char (byte_to_Z x / 16)) (String (hex_char (byte_to_Z x mod 16)) s)) EmptyString b.

Definition hex_digit (c : ascii) : option Z :=
  let n := Z.of_N (N_of_ascii c) in
  if (48 <=? n) && (n <=? 57) then Some (n - 48)
  else if (65 <=? n) && (n <=? 70) then Some (n - 55)
  else if (97 <=? n) && (n <=? 102) then Some (n - 87)
  else None.

Fixpoint hex_decode (s : string) : option bytes :=
  match s with
  | EmptyString => Some []
  | String a (String b s') =>
      x ← hex_digit a; y ← hex_digit b; rest ← hex_decode s';
      Some (byte_of_Z (16 * x + y) :: rest)
  | String _ EmptyString => None
  end.

(** [char::is_ascii_hexdigit]. *)
Definition is_ascii_hexdigit (c : ascii) : bool :=
  let n := N_of_ascii c in
  ((48 <=? n) && (n <=? 57) || (65 <=? n) && (n <=? 70) || (97 <=? n) && (n <=? 102))%N.

Definition all_hex (s : string) : bool := forallb is_ascii_hexdigit (list_ascii_of_string s).

Lemma hex_digit_is c : is_ascii_hexdigit c = match hex_digit c with Some _ => true | None => false end.
Proof. destruct c as [[] [] [] [] [] [] [] []]; reflexivity. Qed.

Lemma hex_digits_byte b :
  hex_digit (hex_char (byte_to_Z b / 16)) = Some (byte_to_Z b / 16) /\
  hex_digit (hex_char (byte_to_Z b mod 16)) = Some (byte_to_Z b mod 16).
Proof. destruct b; split; reflexivity. Qed.

Lemma hex_decode_encode b : hex_decode (hex_encode b) = Some b.
Proof.
  induction b as [|x b IH]; [done|]. cbn [hex_encode foldr hex_decode]. fold (hex_encode b).
  destruct (hex_digits_byte x) as [-> ->]. cbn [mbind option_bind]. rewrite IH. cbn [mbind option_bind].
  rewrite <- Z.div_mod by lia. by rewrite byte_of_Z_to_Z.
Qed.

#[export] Instance hex_encode_inj : Inj (=) (=) hex_encode.
Proof. intros a b Hab. apply (f_equal hex_decode) in Hab. rewrite !hex_decode_encode in Hab. by injection Hab. Qed.

Lemma length_hex_encode b : String.length (hex_encode b) = (2 * length b)%nat.
Proof. induction b as [|x b IH]; [done|]. cbn [hex_encode foldr String.length length]. fold (hex_encode b). lia. Qed.

Lemma all_hex_encode b : all_hex (hex_encode b) = true.
Proof.
  induction b as [|x b IH]; [done|]. unfold all_hex. cbn [hex_encode foldr list_ascii_of_string forallb]. fold (hex_encode b).
  rewrite !hex_digit_is. destruct (hex_digits_byte x) as [-> ->]. exact IH.
Qed.

(** What is decoded: pairs of digits. *)
Lemma hex_decode_spec n s : String.length s = (2 * n)%nat ->
  match hex_decode s with Some b => all_hex s = true /\ length b = n | None => all_hex s = false end.
Proof.
  revert s. induction n as [|n IH]; intros s Hs; [by destruct s|].
  destruct s as [|a [|b s]]; cbn [String.length] in Hs; [lia..|]. specialize (IH s ltac:(lia)).
  unfold all_hex in *. cbn [list_ascii_of_string forallb hex_decode]. rewrite !hex_digit_is.
  destruct (hex_digit a) as [x|], (hex_digit b) as [y|]; cbn [mbind option_bind andb]; try done.
  destruct (hex_decode s) as [rest|]; cbn [mbind option_bind]; [|exact IH]. destruct IH as [-> <-]. done.
Qed.
