(* ===== verification/Float64.v ===== *)
(** * Rust's [f64]

    IEEE 754 binary64 by the standard library's executable specification
    [SpecFloat]: conversions from and to [u64], arithmetic, and the bounds on
    rounding that [Release] and [Pricing] use.  The value of a positive float is
    [m * 2 ^ e]; [val] is that value scaled by a power of two, so that bounds are on
    integers. *)

From Stdlib Require Import ZArith Lia Floats.SpecFloat.
From stdpp Require Import base decidable tactics.
From S2P Require Import Prelude.

Local Open Scope Z_scope.

Definition f64_prec : Z := 53.
Definition f64_emax : Z := 1024.

(** [x as f64] of an integer, and [*] and [/]. *)
Definition f64_of_Z (z : Z) : spec_float := binary_normalize f64_prec f64_emax z 0 false.
Definition f64_mul : spec_float -> spec_float -> spec_float := SFmul f64_prec f64_emax.
Definition f64_div : spec_float -> spec_float -> spec_float := SFdiv f64_prec f64_emax.
Definition f64_add : spec_float -> spec_float -> spec_float := SFadd f64_prec f64_emax.
Definition f64_sub : spec_float -> spec_float -> spec_float := SFsub f64_prec f64_emax.

Definition f64_one : spec_float := S754_finite false 4503599627370496 (-52).
(** [f64::EPSILON], [2 ^ -52]. *)
Definition f64_epsilon : spec_float := S754_finite false 4503599627370496 (-104).

Definition is_finite (x : spec_float) : bool :=
  match x with S754_zero _ | S754_finite _ _ _ => true | _ => false end.

(** [x as u64]: towards zero, saturating; [NaN] gives 0. *)
Definition u64_of_f64 (x : spec_float) : Z :=
  match x with
  | S754_zero _ | S754_nan => 0
  | S754_infinity s => if s then 0 else u64_max
  | S754_finite s m e =>
      if s then 0 else Z.min u64_max (if 0 <=? e then Z.pos m * 2 ^ e else Z.pos m / 2 ^ (- e))
  end.

Lemma u64_of_f64_max x : u64_of_f64 x <= u64_max.
Proof. destruct x as [s|[]| |[] m e]; cbn; unfold u64_max; lia. Qed.

Definition scale : Z := 5000.
Definition val (m e : Z) : Z := m * 2 ^ (e + scale).

(** ** Rounding never crosses a representable number *)

Lemma digits2_pos_bounds p :
  2 ^ (Z.pos (digits2_pos p) - 1) <= Z.pos p < 2 ^ Z.pos (digits2_pos p).
Proof.
  induction p as [p IH|p IH|]; cbn [digits2_pos]; [| |cbn; lia];
    rewrite Pos2Z.inj_succ; replace (Z.succ _ - 1) with (Z.succ (Z.pos (digits2_pos p) - 1)) by lia;
    rewrite !Z.pow_succ_r by lia; lia.
Qed.

Lemma iter_pos_add {A} (f : A -> A) p x : iter_pos f p x = Nat.iter (Pos.to_nat p) f x.
Proof.
  revert x. induction p as [p IH|p IH|]; intros x; cbn [iter_pos]; rewrite ?IH.
  - rewrite <- Nat.iter_add, <- Nat.iter_succ_r. f_equal. lia.
  - rewrite <- Nat.iter_add. f_equal. lia.
  - reflexivity.
Qed.

(** Shifting right divides; a set rounding bit means that something was lost. *)
Lemma shr_1_spec m r s : 0 <= m ->
  shr_m (shr_1 (Build_shr_record m r s)) = m / 2 /\
  (shr_r (shr_1 (Build_shr_record m r s)) = true -> m mod 2 = 1).
Proof.
  intros Hm. rewrite <- Zdiv2_div. destruct m as [|[p|p|]|]; cbn; try (split; [reflexivity|]); try discriminate; try lia.
  all: intros _; rewrite ?Pos2Z.inj_xI; try reflexivity.
  rewrite Z.add_comm, Z.mul_comm. apply Z.mod_add. lia.
Qed.

Lemma shr_iter_spec n m r s : 0 <= m ->
  let mrs := Nat.iter n shr_1 (Build_shr_record m r s) in
  shr_m mrs = m / 2 ^ Z.of_nat n /\
  (n <> 0%nat -> shr_r mrs = true -> m mod 2 ^ Z.of_nat n <> 0).
Proof.
  intros Hm. cbv zeta. induction n as [|n [IH1 _]].
  { cbn. rewrite Z.div_1_r. split; [reflexivity | congruence]. }
  rewrite Nat.iter_succ. destruct (Nat.iter n _ _) as [k r' s']. cbn [shr_m shr_r] in IH1.
  assert (0 < 2 ^ Z.of_nat n) as Hp by lia. assert (0 <= k) by (subst; apply Z.div_pos; lia).
  destruct (shr_1_spec k r' s') as [H1 H2]; [assumption|]. rewrite H1.
  rewrite Nat2Z.inj_succ, Z.pow_succ_r, (Z.mul_comm 2) by lia. rewrite <- Z.div_div by lia. split; [congruence|].
  intros _ Hr%H2. subst k. rewrite Z.rem_mul_r by lia. pose proof (Z.mod_pos_bound m _ Hp). lia.
Qed.

Lemma round_nearest_even_cases mrs :
  let r := round_nearest_even (shr_m mrs) (loc_of_shr_record mrs) in
  r = shr_m mrs \/ shr_r mrs = true /\ r = shr_m mrs + 1.
Proof. destruct mrs as [m [] []]; cbn; auto. destruct (Z.even m); auto. Qed.

Lemma val_pow m e n : 0 <= n -> - scale <= e -> val m (e + n) = m * 2 ^ n * 2 ^ (e + scale).
Proof.
  intros Hn He. unfold val. replace (e + n + scale) with (n + (e + scale)) by lia.
  rewrite Z.pow_add_r by lia. ring.
Qed.

Lemma val_div m e n : 0 <= m -> 0 <= n -> - scale <= e ->
  val (m / 2 ^ n) (e + n) <= val m e /\ (m mod 2 ^ n <> 0 -> val (m / 2 ^ n) (e + n) < val m e).
Proof.
  intros Hm Hn He. rewrite val_pow by assumption. unfold val.
  assert (0 < 2 ^ n) by lia. assert (0 < 2 ^ (e + scale)) by lia.
  pose proof (Z.div_mod m (2 ^ n) ltac:(lia)). pose proof (Z.mod_pos_bound m (2 ^ n) ltac:(lia)).
  split; nia.
Qed.

(** A multiple of a power of two leaves room for one unit. *)
Lemma val_succ_le m e M E : - scale <= e <= E -> val m e < val M E -> val (m + 1) e <= val M E.
Proof.
  intros He. replace E with (e + (E - e)) by lia. rewrite val_pow by lia. unfold val.
  assert (0 < 2 ^ (e + scale)) by lia. intros Hlt. apply Z.mul_lt_mono_pos_r in Hlt; [|assumption]. nia.
Qed.

(** The exponent of a value below [M * 2 ^ E] is at most [E] once the mantissa
    has its 53 digits. *)
Lemma fexp_le m e M E : 0 <= m -> 0 < M < 2 ^ 53 -> - scale <= e -> -1074 <= E -> val m e <= val M E ->
  fexp f64_prec f64_emax (Zdigits2 m + e) > e -> fexp f64_prec f64_emax (Zdigits2 m + e) <= E.
Proof.
  intros Hm HM He HE Hv. unfold fexp, emin, f64_prec, f64_emax. destruct m as [|p|p]; cbn [Zdigits2]; [lia| |lia].
  intros _. enough (Z.pos (digits2_pos p) + e <= 53 + E) by lia.
  destruct (digits2_pos_bounds p) as [Hlo _]. unfold val in Hv.
  assert (2 ^ (Z.pos (digits2_pos p) - 1 + (e + scale)) < 2 ^ (53 + (E + scale))) as Hlt.
  { rewrite (Z.pow_add_r 2 (_ - 1)), (Z.pow_add_r 2 53) by (unfold scale in *; lia). assert (0 < 2 ^ (E + scale)) by (apply Z.pow_pos_nonneg; unfold scale; lia).
    assert (0 < 2 ^ (e + scale)) by lia.
    apply Z.le_lt_trans with (M * 2 ^ (E + scale)); [|apply Z.mul_lt_mono_pos_r; lia].
    etransitivity; [|exact Hv]. apply Z.mul_le_mono_nonneg_r; lia. }
  apply Z.pow_lt_mono_r_iff in Hlt; unfold scale in *; lia.
Qed.

Definition room m e M E (l : location) : Prop := l = loc_Exact \/ (val m e < val M E /\ e <= E).

(** One [shr_fexp] and one rounding. *)
Lemma round_le m e l M E : 0 <= m -> 0 < M < 2 ^ 53 -> - scale <= e -> -1074 <= E ->
  val m e <= val M E -> room m e M E l ->
  let '(mrs, e') := shr_fexp f64_prec f64_emax m e l in
  let r := round_nearest_even (shr_m mrs) (loc_of_shr_record mrs) in
  0 <= shr_m mrs <= r /\ val r e' <= val M E /\ e <= e' <= Z.max e E.
Proof.
  intros Hm HM He HE Hv Hl. unfold shr_fexp, shr.
  pose proof (fexp_le m e M E Hm HM He HE Hv) as Hf.
  destruct (fexp f64_prec f64_emax (Zdigits2 m + e) - e) as [|p|p] eqn:En.
  2: { rewrite iter_pos_add. destruct (shr_record_of_loc m l) as [m0 r s] eqn:E0.
       assert (m0 = m) as -> by (destruct l as [|[]]; injection E0; auto).
       destruct (shr_iter_spec (Pos.to_nat p) m r s Hm) as [H1 H2]. rewrite positive_nat_Z in H1, H2.
       destruct (val_div m e (Z.pos p)) as [H3 H4]; [lia..|].
       specialize (Hf ltac:(lia)).
       destruct (round_nearest_even_cases (Nat.iter (Pos.to_nat p) shr_1 (Build_shr_record m r s))) as [-> | [Hr ->]];
         rewrite H1; (split; [pose proof (Z.div_pos m (2 ^ Z.pos p)); lia|]); (split; [|lia]); [lia|].
       apply val_succ_le; [lia|]. specialize (H2 ltac:(lia) Hr). specialize (H4 H2). lia. }
  all: assert (shr_m (shr_record_of_loc m l) = m) as Hs by (destruct l as [|[]]; reflexivity).
  all: destruct (round_nearest_even_cases (shr_record_of_loc m l)) as [-> | [Hr ->]]; rewrite Hs;
    (split; [lia|]); (split; [|lia]); [assumption|].
  all: destruct Hl as [-> | [Hlt Hle]]; [discriminate | apply val_succ_le; [lia | assumption]].
Qed.

Definition below (x : spec_float) (e M E : Z) : Prop :=
  match x with
  | S754_zero _ => True
  | S754_finite s m e' => s = false /\ val (Z.pos m) e' <= val M E /\ e <= e' <= 971
  | _ => False
  end.

Lemma binary_round_aux_below m e l M E : 0 <= m -> 0 < M < 2 ^ 53 -> - scale <= e -> -1074 <= E ->
  e <= 971 -> E <= 971 -> val m e <= val M E -> room m e M E l ->
  below (binary_round_aux f64_prec f64_emax false m e l) e M E.
Proof.
  intros Hm HM He HE He2 HE2 Hv Hl. unfold binary_round_aux.
  pose proof (round_le m e l M E Hm HM He HE Hv Hl) as H1.
  destruct (shr_fexp f64_prec f64_emax m e l) as [mrs e1].
  set (r := round_nearest_even _ _) in *. destruct H1 as (Hr & Hv1 & He1).
  pose proof (round_le r e1 loc_Exact M E ltac:(lia) HM ltac:(lia) HE Hv1 (or_introl eq_refl)) as H2.
  destruct (shr_fexp f64_prec f64_emax r e1 loc_Exact) as [mrs2 e2]. destruct H2 as (Hr2 & Hv2 & He3).
  destruct (shr_m mrs2) as [|p|p]; [exact I | | lia].
  assert (e2 <=? f64_emax - f64_prec = true) as -> by (unfold f64_emax, f64_prec; lia).
  split; [reflexivity|]. split; [|lia]. etransitivity; [|exact Hv2].
  unfold val. apply Z.mul_le_mono_nonneg_r; [lia|]. lia.
Qed.

(** ** The conversions and operations of the rollout delay *)

Lemma Pos_iter_xO p d : Z.pos (Pos.iter xO p d) = Z.pos p * 2 ^ Z.pos d.
Proof.
  revert p. induction d as [|d IH] using Pos.peano_ind; intros p; [cbn; lia|].
  rewrite Pos.iter_succ, Pos2Z.inj_xO, IH, Pos2Z.inj_succ, Z.pow_succ_r by lia. ring.
Qed.

(** Conversion from [u64] rounds to at most any canonical bound. *)
Lemma f64_of_Z_below z M E : 0 <= z -> 0 < M < 2 ^ 53 -> -1074 <= E <= 971 -> val z 0 <= val M E ->
  below (f64_of_Z z) (-1074) M E.
Proof.
  intros Hz HM HE Hv. unfold f64_of_Z, binary_normalize. destruct z as [|p|p]; [exact I | | lia].
  unfold binary_round, shl_align. set (f := fexp _ _ _).
  assert (-1074 <= f) by (unfold f, fexp, emin, f64_prec, f64_emax; lia).
  assert (forall m e, -1074 <= e <= 0 -> val (Z.pos m) e = val (Z.pos p) 0 ->
    below (binary_round_aux f64_prec f64_emax false (Z.pos m) e loc_Exact) (-1074) M E) as Hb.
  { intros m e He Heq. rewrite <- Heq in Hv.
    pose proof (binary_round_aux_below (Z.pos m) e loc_Exact M E ltac:(lia) HM ltac:(unfold scale; lia)
      ltac:(lia) ltac:(lia) ltac:(lia) Hv (or_introl eq_refl)) as Hb.
    unfold below in *. destruct (binary_round_aux _ _ _ _ _ _); auto. intuition lia. }
  destruct (f - 0) as [|d|d] eqn:Ed; [apply Hb; [lia | reflexivity].. |].
  apply Hb; [lia|]. rewrite Pos_iter_xO. replace 0 with (f + Z.pos d) by lia.
  rewrite val_pow by (unfold scale; lia). unfold val. ring.
Qed.

Lemma exp_lt m e M E : 0 < m -> M < 2 ^ 53 -> - scale <= e -> - scale <= E -> val m e <= val M E -> e < 53 + E.
Proof.
  intros Hm HM He HE Hv. unfold val in Hv.
  assert (2 ^ (e + scale) < 2 ^ (53 + (E + scale))) as Hlt.
  { rewrite (Z.pow_add_r 2 53) by lia. assert (0 < 2 ^ (E + scale)) by (apply Z.pow_pos_nonneg; lia).
    apply Z.lt_le_trans with (2 ^ 53 * 2 ^ (E + scale)); [|lia].
    apply Z.le_lt_trans with (M * 2 ^ (E + scale)); [|apply Z.mul_lt_mono_pos_r; lia].
    assert (0 < 2 ^ (e + scale)) by lia. nia. }
  apply Z.pow_lt_mono_r_iff in Hlt; lia.
Qed.

(** Division by [2 ^ 64] of a value of at most [2 ^ 64]. *)
Lemma f64_div_below x : below x (-1074) (2 ^ 52) 12 ->
  below (f64_div x (S754_finite false 4503599627370496 12)) (-3000) (2 ^ 52) (-52).
Proof.
  destruct x as [s|s| |s m e]; cbn [below]; [intros; exact I | intros [] | intros [] |].
  intros (-> & Hv & He).
  unfold f64_div, SFdiv. cbn [xorb].
  destruct (SFdiv_core_binary f64_prec f64_emax _ _ _ _) as [[q e'] l] eqn:Ec.
  unfold SFdiv_core_binary in Ec. change (Zdigits2 4503599627370496) with 53 in Ec.
  cbn [Zdigits2] in Ec. set (e0 := Z.min _ _) in Ec.
  assert (-1086 <= e0 <= -52 /\ e0 <= e - 12) as [He0 Hle].
  { destruct (digits2_pos_bounds m) as [Hlo _].
    assert (val (2 ^ (Z.pos (digits2_pos m) - 1)) e <= val (2 ^ 52) 12) as Hd.
    { etransitivity; [|exact Hv]. unfold val. apply Z.mul_le_mono_nonneg_r; lia. }
    assert (2 ^ (Z.pos (digits2_pos m) - 1 + (e + scale)) <= 2 ^ (52 + (12 + scale))) as Hp.
    { rewrite (Z.pow_add_r 2 (_ - 1)), (Z.pow_add_r 2 52) by (unfold scale; lia). exact Hd. }
    apply Z.pow_le_mono_r_iff in Hp; [|lia | unfold scale; lia].
    unfold e0, fexp, emin, f64_prec, f64_emax. lia. }
  remember (e - 12 - e0) as k eqn:Hkd in Ec.
  assert (match k with Z.pos _ => Z.shiftl (Z.pos m) k | 0 => Z.pos m | Z.neg _ => 0 end = Z.pos m * 2 ^ k) as Hk.
  { destruct k; [lia | apply Z.shiftl_mul_pow2; lia | lia]. }
  rewrite Hk in Ec. clear Hk. assert (0 <= k) as Hk0 by lia. assert (0 < 2 ^ k) by lia.
  pose proof (Z.div_mod (Z.pos m * 2 ^ k) 4503599627370496 ltac:(lia)) as Hdm.
  pose proof (Z.mod_pos_bound (Z.pos m * 2 ^ k) 4503599627370496 ltac:(lia)) as Hmod.
  unfold Z.div, Z.modulo in Hdm, Hmod.
  destruct (Z.div_eucl (Z.pos m * 2 ^ k) 4503599627370496) as [q0 r]. injection Ec as <- <- <-.
  assert (Z.pos m * 2 ^ k * 2 ^ (e0 + scale) <= 2 ^ 52 * 2 ^ scale) as Htop.
  { rewrite <- Z.mul_assoc, <- Z.pow_add_r by (unfold scale; lia).
    replace (k + (e0 + scale)) with (e + (scale - 12)) by lia.
    unfold val in Hv. replace (e + scale) with (12 + (e + (scale - 12))) in Hv by lia.
    rewrite (Z.pow_add_r 2 12), (Z.pow_add_r 2 12 scale) in Hv by (unfold scale; lia). lia. }
  assert (val (2 ^ 52) (-52) = 2 ^ scale) as Hone
    by (unfold val; rewrite <- Z.pow_add_r by (unfold scale; lia); f_equal; lia).
  assert (0 < 2 ^ (e0 + scale)) as Hpos by (apply Z.pow_pos_nonneg; unfold scale; lia).
  set (B := 2 ^ (e0 + scale)) in *. set (T := 2 ^ scale) in *.
  assert (0 <= q0) as Hq by (assert (0 < Z.pos m * 2 ^ k) by lia; nia).
  assert (val q0 e0 <= T /\ (r <> 0 -> val q0 e0 < T)) as [Hv1 Hv2] by (unfold val; fold B; split; nia).
  pose proof (binary_round_aux_below q0 e0 (new_location 4503599627370496 r) (2 ^ 52) (-52)
    Hq ltac:(lia) ltac:(unfold scale; lia) ltac:(lia) ltac:(lia) ltac:(lia)) as Hb.
  rewrite Hone in Hb. specialize (Hb Hv1).
  assert (room q0 e0 (2 ^ 52) (-52) (new_location 4503599627370496 r)) as Hroom.
  { destruct (decide (r = 0)) as [->|Hr]; [left; reflexivity | right]. rewrite Hone. split; [auto | lia]. }
  specialize (Hb Hroom).
  unfold below in *. destruct (binary_round_aux _ _ _ _ _ _); auto. intuition lia.
Qed.

(** Multiplying a canonical float by a value of at most one. *)
Lemma f64_mul_below x M E : below x (-3000) (2 ^ 52) (-52) -> Z.pos M < 2 ^ 53 -> -1000 <= E <= 900 ->
  below (f64_mul x (S754_finite false M E)) (-4000) (Z.pos M) E.
Proof.
  destruct x as [s|s| |s m e]; cbn [below]; [intros; exact I | intros [] | intros [] |].
  intros (-> & Hv & He) HM HE.
  assert (val (2 ^ 52) (-52) = 2 ^ scale) as Hone
    by (unfold val; rewrite <- Z.pow_add_r by (unfold scale; lia); f_equal; lia).
  pose proof (exp_lt (Z.pos m) e (2 ^ 52) (-52) ltac:(lia) ltac:(lia) ltac:(unfold scale; lia)
    ltac:(unfold scale; lia) Hv) as Hlt.
  assert (val (Z.pos (m * M)) (e + E) <= val (Z.pos M) E) as Hp.
  { rewrite Hone in Hv. unfold val in *. rewrite Pos2Z.inj_mul.
    replace (e + E + scale) with ((e + 3500) + (E + 1500)) by (unfold scale; lia).
    replace (e + scale) with ((e + 3500) + 1500) in Hv by (unfold scale; lia).
    replace (E + scale) with (3500 + (E + 1500)) by (unfold scale; lia).
    replace scale with (3500 + 1500) in Hv by (unfold scale; lia).
    rewrite (Z.pow_add_r 2 (e + 3500) 1500), (Z.pow_add_r 2 3500 1500), Z.mul_assoc in Hv by lia.
    rewrite (Z.pow_add_r 2 (e + 3500) (E + 1500)), (Z.pow_add_r 2 3500 (E + 1500)) by lia.
    apply Z.mul_le_mono_pos_r in Hv; [|apply Z.pow_pos_nonneg; lia].
    assert (0 <= 2 ^ (E + 1500)) as HA by (clear Hv; lia). revert Hv HA.
    generalize (2 ^ (E + 1500)), (2 ^ (e + 3500)), (2 ^ 3500). intros a b d Hv HA.
    replace (Z.pos m * Z.pos M * (b * a)) with (Z.pos m * b * (Z.pos M * a)) by ring.
    replace (Z.pos M * (d * a)) with (d * (Z.pos M * a)) by ring.
    apply Z.mul_le_mono_nonneg_r; [|exact Hv]. apply Z.mul_nonneg_nonneg; [lia | exact HA]. }
  pose proof (binary_round_aux_below (Z.pos (m * M)) (e + E) loc_Exact (Z.pos M) E ltac:(lia) ltac:(lia)
    ltac:(unfold scale; lia) ltac:(lia) ltac:(lia) ltac:(lia) Hp (or_introl eq_refl)) as Hb.
  unfold f64_mul, SFmul. cbn [xorb]. unfold below in *. destruct (binary_round_aux _ _ _ _ _ _); auto. intuition lia.
Qed.

(** Truncation keeps the bound. *)
Lemma u64_of_f64_le x e M E z : below x e M E -> -4000 <= e -> 0 <= z -> val M E = val z 0 -> u64_of_f64 x <= z.
Proof.
  destruct x as [s|s| |s m e']; cbn [below u64_of_f64]; [lia | intros [] | intros [] |].
  intros (-> & Hv & He) He1 Hz Heq. rewrite Heq in Hv. unfold val in Hv. rewrite Z.add_0_l in Hv.
  etransitivity; [apply Z.le_min_r|]. destruct (0 <=? e') eqn:Ee; b2p.
  - rewrite Z.pow_add_r, Z.mul_assoc in Hv by (unfold scale; lia).
    apply Z.mul_le_mono_pos_r in Hv; [exact Hv | unfold scale; lia].
  - apply Z.div_le_upper_bound; [lia|].
    assert (2 ^ scale = 2 ^ (- e') * 2 ^ (e' + scale)) as Hs
      by ((rewrite <- Z.pow_add_r by (unfold scale; lia)); f_equal; lia).
    rewrite Hs, Z.mul_assoc in Hv. apply Z.mul_le_mono_pos_r in Hv; [lia|].
    apply Z.pow_pos_nonneg; unfold scale; lia.
Qed.

Lemma digits2_pos_iter_xO p d : digits2_pos (Pos.iter xO p d) = (digits2_pos p + d)%positive.
Proof.
  induction d as [|d IH] using Pos.peano_ind; [cbn; lia|].
  rewrite Pos.iter_succ. cbn [digits2_pos]. rewrite IH. lia.
Qed.

(** Integers below [2 ^ 53] convert exactly. *)
Lemma f64_of_Z_exact p : Z.pos p < 2 ^ 53 -> exists M E,
  f64_of_Z (Z.pos p) = S754_finite false M E /\
  Z.pos M < 2 ^ 53 /\ -52 <= E <= 0 /\ val (Z.pos M) E = val (Z.pos p) 0.
Proof.
  intros Hp. destruct (digits2_pos_bounds p) as [Hlo Hhi].
  assert (Z.pos (digits2_pos p) <= 53) as Hd.
  { enough (Z.pos (digits2_pos p) - 1 < 53) by lia. apply (Z.pow_lt_mono_r_iff 2); lia. }
  set (d := Z.pos (digits2_pos p)) in *.
  exists (fst (shl_align p 0 (d - 53))), (d - 53).
  assert (Z.pos (fst (shl_align p 0 (d - 53))) = Z.pos p * 2 ^ (53 - d) /\
          Zdigits2 (Z.pos (fst (shl_align p 0 (d - 53)))) = 53 /\ snd (shl_align p 0 (d - 53)) = d - 53) as (HM & HD & HE).
  { unfold shl_align. destruct (d - 53 - 0) as [|k|k] eqn:Ek; [| lia |]; cbn [fst snd Zdigits2].
    - fold d. replace (53 - d) with 0 by lia. lia.
    - rewrite Pos_iter_xO, digits2_pos_iter_xO, Pos2Z.inj_add. fold d.
      split; [f_equal; f_equal; lia | lia]. }
  assert (Z.pos (fst (shl_align p 0 (d - 53))) < 2 ^ 53) as HM53.
  { rewrite HM. replace (2 ^ 53) with (2 ^ d * 2 ^ (53 - d)) by ((rewrite <- Z.pow_add_r by lia); f_equal; lia).
    apply Z.mul_lt_mono_pos_r; [lia | exact Hhi]. }
  split; [|split; [exact HM53 | split; [lia|]]].
  - unfold f64_of_Z, binary_normalize, binary_round. fold d.
    replace (fexp f64_prec f64_emax (d + 0)) with (d - 53) by (unfold fexp, emin, f64_prec, f64_emax; lia).
    destruct (shl_align p 0 (d - 53)) as [M E] eqn:Es. cbn [fst snd] in *. subst E.
    unfold binary_round_aux.
    assert (shr_fexp f64_prec f64_emax (Z.pos M) (d - 53) loc_Exact = (Build_shr_record (Z.pos M) false false, d - 53)) as Hs.
    { unfold shr_fexp. rewrite HD. replace (fexp f64_prec f64_emax (53 + (d - 53)) - (d - 53)) with 0
        by (unfold fexp, emin, f64_prec, f64_emax; lia). reflexivity. }
    rewrite Hs. cbn [shr_m loc_of_shr_record round_nearest_even]. rewrite Hs. cbn [shr_m].
    assert (d - 53 <=? f64_emax - f64_prec = true) as -> by (unfold f64_emax, f64_prec; lia). reflexivity.
  - rewrite HM. replace (val (Z.pos p) 0) with (val (Z.pos p) ((d - 53) + (53 - d))) by (f_equal; lia).
    rewrite val_pow by (unfold scale; lia). reflexivity.
Qed.

(** [scale] stays folded: its power of two is far too large to compute with. *)
Lemma val_lt h m e : 0 <= e -> h < m * 2 ^ e -> val h 0 < val m e.
Proof.
  intros He Hh. unfold val. rewrite (Z.pow_add_r 2 e) by (unfold scale; lia). rewrite Z.mul_assoc.
  apply Z.mul_lt_mono_pos_r; [apply Z.pow_pos_nonneg; unfold scale; lia | exact Hh].
Qed.

(** A fraction [h / u64::MAX] of [n], computed in floating point and truncated,
    is at most [n]. *)
Lemma f64_fraction_le h n : 0 <= h < 2 ^ 64 -> 0 <= n < 2 ^ 53 ->
  0 <= u64_of_f64 (f64_mul (f64_div (f64_of_Z h) (f64_of_Z u64_max)) (f64_of_Z n)) <= n.
Proof.
  intros Hh Hn. set (x := f64_mul _ _).
  assert (0 <= u64_of_f64 x) as H0.
  { unfold u64_of_f64, u64_max. destruct x as [s|[]| |[] m e]; try lia.
    destruct (0 <=? e) eqn:E; b2p; [lia|]. pose proof (Z.div_pos (Z.pos m) (2 ^ (- e))). lia. }
  split; [exact H0|]. unfold x. clear x H0.
  change (f64_of_Z u64_max) with (S754_finite false 4503599627370496 12).
  pose proof (f64_div_below (f64_of_Z h)) as Hdiv. specialize (Hdiv (f64_of_Z_below h (2 ^ 52) 12
    ltac:(lia) ltac:(lia) ltac:(lia) ltac:(apply Z.lt_le_incl, val_lt; lia))).
  destruct n as [|p|p]; [| |lia].
  { change (f64_of_Z 0) with (S754_zero false). unfold f64_mul. destruct (f64_div _ _); cbn in *; lia. }
  destruct (f64_of_Z_exact p) as (M & E & -> & HM & HE & Heq); [lia|].
  apply (u64_of_f64_le _ (-4000) (Z.pos M) E); [|lia | lia | exact Heq].
  apply f64_mul_below; [exact Hdiv | exact HM | lia].
Qed.

(** ** A quotient of integers that is at least one *)

(** A float with a mantissa of [k] digits or more; the value is at least one when
    the exponent adds up. *)
Definition one_or_more (m e : Z) : Prop := 0 < m /\ 1 <= Zdigits2 m + e.

Lemma Zdigits2_ge m k : 0 < m -> 1 <= k -> k <= Zdigits2 m <-> 2 ^ (k - 1) <= m.
Proof.
  destruct m as [|p|p]; [lia| |lia]. intros _ Hk. cbn [Zdigits2].
  destruct (digits2_pos_bounds p) as [Hlo Hhi]. split; intros H.
  - etransitivity; [|exact Hlo]. apply Z.pow_le_mono_r; lia.
  - enough (k - 1 < Z.pos (digits2_pos p)) by lia. apply (Z.pow_lt_mono_r_iff 2); lia.
Qed.

Lemma Zdigits2_mono m n : 0 < m <= n -> Zdigits2 m <= Zdigits2 n.
Proof.
  intros Hmn. destruct m as [|p|p]; [lia| |lia]. cbn [Zdigits2]. apply Zdigits2_ge; [lia..|].
  etransitivity; [|apply Hmn]. apply digits2_pos_bounds.
Qed.

(** Rounding keeps it, at an exponent at which one can be written. *)
Lemma round_one_or_more m e l : one_or_more m e ->
  let '(mrs, e') := shr_fexp f64_prec f64_emax m e l in
  one_or_more (shr_m mrs) e' /\
  one_or_more (round_nearest_even (shr_m mrs) (loc_of_shr_record mrs)) e' /\ -52 <= e'.
Proof.
  intros [Hm Hd]. unfold shr_fexp, shr.
  set (n := fexp f64_prec f64_emax (Zdigits2 m + e) - e).
  assert (n = Z.max (Zdigits2 m - 53) (-1074 - e)) as Hn by (unfold n, fexp, emin, f64_prec, f64_emax; lia).
  assert (shr_m (shr_record_of_loc m l) = m) as Hs by (destruct l as [|[]]; reflexivity).
  assert (forall mrs e', one_or_more (shr_m mrs) e' ->
    one_or_more (round_nearest_even (shr_m mrs) (loc_of_shr_record mrs)) e') as Hr.
  { intros mrs e' [H1 H2]. destruct (round_nearest_even_cases mrs) as [-> | [_ ->]]; [done|].
    split; [lia|]. pose proof (Zdigits2_mono (shr_m mrs) (shr_m mrs + 1)). lia. }
  assert (one_or_more (shr_m (shr_record_of_loc m l)) e) as H0 by (rewrite Hs; by split).
  destruct n as [|p|p] eqn:En.
  - split; [exact H0|]. split; [apply Hr, H0 | lia].
  - assert (one_or_more (shr_m (iter_pos shr_1 p (shr_record_of_loc m l))) (e + Z.pos p)) as Ho.
    { rewrite iter_pos_add. destruct (shr_record_of_loc m l) as [m0 r s]. cbn in Hs. subst m0.
      destruct (shr_iter_spec (Pos.to_nat p) m r s ltac:(lia)) as [-> _]. rewrite positive_nat_Z.
      assert (2 ^ (Zdigits2 m - Z.pos p - 1) <= m / 2 ^ Z.pos p) as Hq.
      { apply Z.div_le_lower_bound; [lia|]. rewrite <- Z.pow_add_r by lia.
        replace (Z.pos p + _) with (Zdigits2 m - 1) by lia. apply Zdigits2_ge; lia. }
      assert (0 < m / 2 ^ Z.pos p) as Hp by (assert (0 < 2 ^ (Zdigits2 m - Z.pos p - 1)) by (apply Z.pow_pos_nonneg; lia); lia).
      split; [done|]. enough (Zdigits2 m - Z.pos p <= Zdigits2 (m / 2 ^ Z.pos p)) by lia.
      apply Zdigits2_ge; lia. }
    split; [exact Ho|]. split; [apply Hr, Ho | lia].
  - split; [exact H0|]. split; [apply Hr, H0 | lia].
Qed.

Definition at_least_one (x : spec_float) : Prop :=
  match x with
  | S754_infinity s => s = false
  | S754_finite s m e => s = false /\ one_or_more (Z.pos m) e /\ -52 <= e
  | _ => False
  end.

Lemma at_least_one_leb x : at_least_one x -> SFleb f64_one x = true.
Proof.
  destruct x as [s|s| |s m e]; cbn [at_least_one]; [done | by intros -> | done |].
  intros (-> & [_ Hd] & He). unfold f64_one, SFleb, SFcompare.
  destruct (Z.compare_spec (-52) e) as [<-| |]; [|done | lia].
  assert (2 ^ (53 - 1) <= Z.pos m) as Hm by (apply Zdigits2_ge; lia).
  change (2 ^ (53 - 1)) with (Z.pos 4503599627370496) in Hm.
  revert Hm. generalize 4503599627370496%positive. intros c Hm.
  fold (Pos.compare c m). destruct (Pos.compare_spec c m); [reflexivity | reflexivity | lia].
Qed.

Lemma binary_round_aux_one m e l : one_or_more m e ->
  at_least_one (binary_round_aux f64_prec f64_emax false m e l).
Proof.
  intros Hm. unfold binary_round_aux. pose proof (round_one_or_more m e l Hm) as H1.
  destruct (shr_fexp f64_prec f64_emax m e l) as [mrs e1]. destruct H1 as (_ & Hr & _).
  pose proof (round_one_or_more _ e1 loc_Exact Hr) as H2.
  destruct (shr_fexp f64_prec f64_emax _ e1 loc_Exact) as [mrs2 e2]. destruct H2 as ([H2 H3] & _ & He).
  destruct (shr_m mrs2) as [|p|p]; [lia| |lia]. destruct (_ <=? _); [|done]. by repeat split.
Qed.

Lemma f64_div_one m1 e1 m2 e2 :
  - scale <= e1 -> - scale <= e2 -> val (Z.pos m2) e2 <= val (Z.pos m1) e1 ->
  Zdigits2 (Z.pos m1) + e1 - (Zdigits2 (Z.pos m2) + e2) <= 53 ->
  at_least_one (f64_div (S754_finite false m1 e1) (S754_finite false m2 e2)).
Proof.
  intros He1 He2 Hv Hd. unfold f64_div, SFdiv. cbn [xorb].
  destruct (SFdiv_core_binary f64_prec f64_emax _ _ _ _) as [[q e'] l] eqn:Ec.
  unfold SFdiv_core_binary in Ec. set (e0 := Z.min _ _) in Ec.
  assert (e0 <= 0 /\ e0 <= e1 - e2) as [He0 Hle] by (unfold e0, fexp, emin, f64_prec, f64_emax; lia).
  remember (e1 - e2 - e0) as k eqn:Hkd in Ec.
  assert (match k with Z.pos _ => Z.shiftl (Z.pos m1) k | 0 => Z.pos m1 | Z.neg _ => 0 end = Z.pos m1 * 2 ^ k) as Hk.
  { destruct k; [lia | apply Z.shiftl_mul_pow2; lia | lia]. }
  rewrite Hk in Ec. clear Hk.
  pose proof (Z.div_le_lower_bound (Z.pos m1 * 2 ^ k) (Z.pos m2) (2 ^ (- e0)) ltac:(lia)) as Hq. unfold Z.div in Hq.
  destruct (Z.div_eucl (Z.pos m1 * 2 ^ k) (Z.pos m2)) as [q0 r]. injection Ec as <- <- <-.
  apply binary_round_aux_one. assert (2 ^ (- e0) <= q0) as Hq0.
  { apply Hq. unfold val in Hv. apply (Z.mul_le_mono_pos_r _ _ (2 ^ (e2 + scale))); [lia|].
    rewrite <- !Z.mul_assoc, <- !Z.pow_add_r by lia.
    replace (- e0 + (e2 + scale)) with ((e2 + scale) + - e0) by lia.
    replace (k + (e2 + scale)) with ((e1 + scale) + - e0) by lia.
    rewrite (Z.pow_add_r 2 (e2 + scale)), (Z.pow_add_r 2 (e1 + scale)), !Z.mul_assoc by lia.
    apply Z.mul_le_mono_nonneg_r; [lia | exact Hv]. }
  assert (0 < 2 ^ (- e0)) by lia. split; [lia|].
  enough (1 - e0 <= Zdigits2 q0) by lia. apply Zdigits2_ge; [lia..|]. by replace (1 - e0 - 1) with (- e0) by lia.
Qed.

(** Integers below [2 ^ 53] divide to at least one when they should. *)
Lemma f64_div_at_least_one a b : 0 < b <= a -> a < 2 ^ 53 ->
  SFleb f64_one (f64_div (f64_of_Z a) (f64_of_Z b)) = true.
Proof.
  intros Hab Ha. apply at_least_one_leb. destruct a as [|a|a]; [lia| |lia]. destruct b as [|b|b]; [lia| |lia].
  destruct (f64_of_Z_exact a) as (M & E & -> & HM & HE & Hv); [lia|].
  destruct (f64_of_Z_exact b) as (N & F & -> & HN & HF & Hw); [lia|].
  apply f64_div_one; [unfold scale; lia..| |].
  - rewrite Hv, Hw. unfold val. apply Z.mul_le_mono_nonneg_r; lia.
  - assert (Zdigits2 (Z.pos M) <= 53).
    { cbn [Zdigits2]. destruct (digits2_pos_bounds M) as [Hlo _].
      enough (Z.pos (digits2_pos M) - 1 < 53) by lia. apply (Z.pow_lt_mono_r_iff 2); lia. }
    enough (1 <= Zdigits2 (Z.pos N) + F) by lia.
    enough (1 - F <= Zdigits2 (Z.pos N)) by lia. apply Zdigits2_ge; [lia..|].
    replace (1 - F - 1) with (- F) by lia. unfold val in Hw.
    apply (Z.mul_le_mono_pos_r _ _ (2 ^ (F + scale))); [unfold scale; lia|].
    rewrite <- Z.pow_add_r by (unfold scale; lia). rewrite Hw. replace (- F + (F + scale)) with (0 + scale) by lia.
    rewrite <- (Z.mul_1_l (2 ^ (0 + scale))) at 1. apply Z.mul_le_mono_nonneg_r; lia.
Qed.
