(* ===== verification/ChunkMath.v ===== *)
(** * Chunk geometry: how a file of a given size is cut into chunks

    [self_encryption/src/utils.rs] (sizes, positions and predecessors of the
    chunks) and the size constants of [self_encryption/src/lib.rs].  [usize]
    is [Z]; that no operation here leaves the range of the type is part of the
    theorems. *)

From Stdlib Require Import ZArith Lia.
From stdpp Require Import base list.
From S2P Require Import Prelude.

Local Open Scope Z_scope.

(** The compile-time configuration: [MAX_CHUNK_SIZE] is read from the build
    environment and defaults to 4_190_208. *)
Class Config := { MAX_CHUNK_SIZE : Z }.

Definition DEFAULT_MAX_CHUNK_SIZE : Z := 4190208.
Definition default_config : Config := {| MAX_CHUNK_SIZE := DEFAULT_MAX_CHUNK_SIZE |}.

Definition MIN_CHUNK_SIZE : Z := 1.
Definition MIN_ENCRYPTABLE_BYTES : Z := 3 * MIN_CHUNK_SIZE.

Definition get_num_chunks_with_variable_max (file_size max_chunk_size : Z) : Z :=
  if file_size <? 3 * MIN_CHUNK_SIZE then 0
  else if file_size <? 3 * max_chunk_size then 3
  else if file_size mod max_chunk_size =? 0 then file_size / max_chunk_size
  else file_size / max_chunk_size + 1.

Definition get_chunk_size_with_variable_max
    (file_size chunk_index max_chunk_size : Z) : Z :=
  if file_size <? 3 * MIN_CHUNK_SIZE then 0
  else if file_size <? 3 * max_chunk_size then
    if chunk_index <? 2 then file_size / 3
    else file_size - 2 * (file_size / 3)
  else
    let total_chunks := get_num_chunks_with_variable_max file_size max_chunk_size in
    if chunk_index <? total_chunks - 2 then max_chunk_size
    else
      let remainder := file_size mod max_chunk_size in
      let penultimate := total_chunks - 2 =? chunk_index in
      if remainder =? 0 then max_chunk_size
      else if remainder <? MIN_CHUNK_SIZE then
        if penultimate then max_chunk_size - MIN_CHUNK_SIZE
        else MIN_CHUNK_SIZE + remainder
      else if penultimate then max_chunk_size
      else remainder.

Section Geometry.
Context `{Config}.

Definition get_num_chunks (file_size : Z) : Z :=
  get_num_chunks_with_variable_max file_size MAX_CHUNK_SIZE.

Definition get_chunk_size (file_size chunk_index : Z) : Z :=
  get_chunk_size_with_variable_max file_size chunk_index MAX_CHUNK_SIZE.

Definition get_start_position (file_size chunk_index : Z) : Z :=
  let total_chunks := get_num_chunks file_size in
  if total_chunks =? 0 then 0
  else
    let last := total_chunks - 1 =? chunk_index in
    let first_chunk_size := get_chunk_size file_size 0 in
    if last
    then first_chunk_size * (chunk_index - 1) + get_chunk_size file_size (chunk_index - 1)
    else first_chunk_size * chunk_index.

Definition get_start_end_positions (file_size chunk_index : Z) : Z * Z :=
  if get_num_chunks file_size =? 0 then (0, 0)
  else
    let start := get_start_position file_size chunk_index in
    (start, start + get_chunk_size file_size chunk_index).

Definition get_chunk_index (file_size position : Z) : Z :=
  let num_chunks := get_num_chunks file_size in
  if num_chunks =? 0 then 0
  else
    let chunk_size := get_chunk_size file_size 0 in
    let remainder := file_size mod chunk_size in
    if (remainder =? 0) || (MIN_CHUNK_SIZE <=? remainder)
       || (position <? file_size - remainder - MIN_CHUNK_SIZE)
    then Z.min (position / chunk_size) (num_chunks - 1)
    else num_chunks - 1.

End Geometry.

(** The indices of the two predecessors whose hashes enter a chunk's key. *)
Definition get_n_1_n_2 (chunk_index total_num_chunks : Z) : option (Z * Z) :=
  if total_num_chunks <? 3 then None
  else if total_num_chunks <=? chunk_index then None
  else if chunk_index =? 0 then Some (total_num_chunks - 1, total_num_chunks - 2)
  else if chunk_index =? 1 then Some (0, total_num_chunks - 1)
  else Some (chunk_index - 1, chunk_index - 2).

(** ** A reference description of the cut

    [small] files (below three maximal chunks) are cut in three; others in
    maximal chunks, the last of which takes what is left. *)

Section Facts.
Context `{Config}.
Context (HM : 1 <= MAX_CHUNK_SIZE).

Lemma num_chunks_zero_iff fs : 0 <= fs -> get_num_chunks fs = 0 <-> fs < MIN_ENCRYPTABLE_BYTES.
Proof.
  intros Hfs.
  unfold get_num_chunks, get_num_chunks_with_variable_max, MIN_ENCRYPTABLE_BYTES, MIN_CHUNK_SIZE.
  destruct (fs <? 3 * 1) eqn:E1; b2p; [lia|].
  destruct (fs <? 3 * MAX_CHUNK_SIZE) eqn:E2; b2p; [lia|].
  assert (3 <= fs / MAX_CHUNK_SIZE) by (apply Z.div_le_lower_bound; lia).
  destruct (fs mod MAX_CHUNK_SIZE =? 0); lia.
Qed.

Lemma num_chunks_ge_3 fs : MIN_ENCRYPTABLE_BYTES <= fs -> 3 <= get_num_chunks fs.
Proof.
  intros Hfs.
  unfold get_num_chunks, get_num_chunks_with_variable_max, MIN_ENCRYPTABLE_BYTES, MIN_CHUNK_SIZE in *.
  destruct (fs <? 3 * 1) eqn:E1; b2p; [lia|].
  destruct (fs <? 3 * MAX_CHUNK_SIZE) eqn:E2; b2p; [lia|].
  assert (3 <= fs / MAX_CHUNK_SIZE) by (apply Z.div_le_lower_bound; lia).
  destruct (fs mod MAX_CHUNK_SIZE =? 0); lia.
Qed.

(** The shape of the cut: a base size [c], at least 1, and an index [i] either
    before the last chunk (size [c]) or the last one (the rest). *)
Lemma geometry_shape fs :
  MIN_ENCRYPTABLE_BYTES <= fs ->
  let n := get_num_chunks fs in
  let c := get_chunk_size fs 0 in
  1 <= c <= MAX_CHUNK_SIZE /\ c * (n - 1) < fs /\
  (fs < 3 * MAX_CHUNK_SIZE -> c = fs / 3 /\ n = 3) /\
  (3 * MAX_CHUNK_SIZE <= fs -> c = MAX_CHUNK_SIZE /\ fs <= c * n) /\
  (forall i, 0 <= i < n - 1 -> get_chunk_size fs i = c) /\
  get_chunk_size fs (n - 1) = fs - c * (n - 1).
Proof.
  intros Hfs n c. pose proof (num_chunks_ge_3 fs Hfs) as Hn. fold n in Hn.
  subst c. unfold get_chunk_size, get_chunk_size_with_variable_max.
  unfold MIN_ENCRYPTABLE_BYTES, MIN_CHUNK_SIZE in *.
  destruct (fs <? 3 * 1) eqn:E1; b2p; [lia|].
  destruct (fs <? 3 * MAX_CHUNK_SIZE) eqn:E2; b2p.
  - assert (n = 3) as ->.
    { unfold n, get_num_chunks, get_num_chunks_with_variable_max, MIN_CHUNK_SIZE.
      destruct (fs <? 3 * 1) eqn:?; b2p; [lia|].
      destruct (fs <? 3 * MAX_CHUNK_SIZE) eqn:?; b2p; lia. }
    pose proof (Z.div_mod fs 3 ltac:(lia)). pose proof (Z.mod_pos_bound fs 3 ltac:(lia)).
    change (0 <? 2) with true. change (3 - 1 <? 2) with false. cbn [negb].
    repeat split; try lia.
    intros i Hi. destruct (i <? 2) eqn:?; b2p; lia.
  - fold (get_num_chunks fs). fold n.
    pose proof (Z.div_mod fs MAX_CHUNK_SIZE) as Hfloor. specialize (Hfloor ltac:(lia)).
    pose proof (Z.mod_pos_bound fs MAX_CHUNK_SIZE) as Hr. specialize (Hr ltac:(lia)).
    assert (Hn' : (fs mod MAX_CHUNK_SIZE = 0 /\ n = fs / MAX_CHUNK_SIZE) \/
                  (fs mod MAX_CHUNK_SIZE <> 0 /\ n = fs / MAX_CHUNK_SIZE + 1)).
    { unfold n, get_num_chunks, get_num_chunks_with_variable_max, MIN_CHUNK_SIZE.
      destruct (fs <? 3 * 1) eqn:?; b2p; [lia|].
      destruct (fs <? 3 * MAX_CHUNK_SIZE) eqn:?; b2p; [lia|].
      destruct (fs mod MAX_CHUNK_SIZE =? 0) eqn:?; b2p; auto. }
    assert ((0 <? n - 2) = true) as -> by lia.
    assert ((n - 1 <? n - 2) = false) as -> by lia.
    assert ((n - 2 =? n - 1) = false) as -> by lia.
    set (r := fs mod MAX_CHUNK_SIZE) in *. set (q := fs / MAX_CHUNK_SIZE) in *.
    repeat split; try nia.
    + intros i Hi. destruct (i <? n - 2) eqn:?; [done|]; b2p.
      assert ((n - 2 =? i) = true) as -> by lia.
      destruct (r =? 0) eqn:?, (r <? 1) eqn:?; b2p; lia.
    + destruct (r =? 0) eqn:?; b2p; [nia|].
      destruct (r <? 1) eqn:?; b2p; nia.
Qed.

Lemma start_position_eq fs i :
  MIN_ENCRYPTABLE_BYTES <= fs -> 0 <= i < get_num_chunks fs ->
  get_start_position fs i = get_chunk_size fs 0 * i.
Proof.
  intros Hfs Hi. pose proof (geometry_shape fs Hfs) as (Hc & _ & _ & _ & Hsz & _).
  pose proof (num_chunks_ge_3 fs Hfs). unfold get_start_position.
  assert ((get_num_chunks fs =? 0) = false) as -> by lia.
  destruct (get_num_chunks fs - 1 =? i) eqn:E; b2p; [|done].
  rewrite (Hsz (i - 1)) by lia. lia.
Qed.

Lemma start_end_eq fs i :
  MIN_ENCRYPTABLE_BYTES <= fs -> 0 <= i < get_num_chunks fs ->
  get_start_end_positions fs i =
    (get_chunk_size fs 0 * i,
     if i =? get_num_chunks fs - 1 then fs else get_chunk_size fs 0 * (i + 1)).
Proof.
  intros Hfs Hi. pose proof (geometry_shape fs Hfs) as (Hc & _ & _ & _ & Hsz & Hlast).
  pose proof (num_chunks_ge_3 fs Hfs). unfold get_start_end_positions.
  assert ((get_num_chunks fs =? 0) = false) as -> by lia.
  rewrite start_position_eq by done. f_equal.
  destruct (i =? get_num_chunks fs - 1) eqn:E; b2p.
  - subst i. rewrite Hlast. lia.
  - rewrite (Hsz i) by lia. lia.
Qed.

Lemma get_chunk_index_eq fs p :
  MIN_ENCRYPTABLE_BYTES <= fs ->
  get_chunk_index fs p = Z.min (p / get_chunk_size fs 0) (get_num_chunks fs - 1).
Proof.
  intros Hfs. pose proof (geometry_shape fs Hfs) as (Hc & _). pose proof (num_chunks_ge_3 fs Hfs).
  unfold get_chunk_index. assert ((get_num_chunks fs =? 0) = false) as -> by lia.
  unfold MIN_CHUNK_SIZE. assert (Hpos : 0 < get_chunk_size fs 0) by lia.
  pose proof (Z.mod_pos_bound fs _ Hpos).
  destruct (fs mod _ =? 0) eqn:?, (1 <=? fs mod _) eqn:?; b2p; cbn [orb]; try done; lia.
Qed.

(** *** Consequences used by the encryption and decryption models *)

Lemma start_end_bounds fs i :
  MIN_ENCRYPTABLE_BYTES <= fs -> 0 <= i < get_num_chunks fs ->
  let '(s, e) := get_start_end_positions fs i in 0 <= s < e /\ e <= fs.
Proof.
  intros Hfs Hi. rewrite start_end_eq by done.
  pose proof (geometry_shape fs Hfs) as (Hc & Hlt & _).
  destruct (i =? get_num_chunks fs - 1) eqn:E; b2p; nia.
Qed.

Lemma start_end_first fs :
  MIN_ENCRYPTABLE_BYTES <= fs -> (get_start_end_positions fs 0).1 = 0.
Proof.
  intros Hfs. pose proof (num_chunks_ge_3 fs Hfs).
  rewrite start_end_eq by lia. simpl. lia.
Qed.

Lemma start_end_adjacent fs i :
  MIN_ENCRYPTABLE_BYTES <= fs -> 0 <= i -> i + 1 < get_num_chunks fs ->
  (get_start_end_positions fs i).2 = (get_start_end_positions fs (i + 1)).1.
Proof.
  intros Hfs Hi Hn. rewrite !start_end_eq by lia. simpl.
  destruct (i =? get_num_chunks fs - 1) eqn:E; b2p; lia.
Qed.

Lemma start_end_last fs :
  MIN_ENCRYPTABLE_BYTES <= fs ->
  (get_start_end_positions fs (get_num_chunks fs - 1)).2 = fs.
Proof.
  intros Hfs. pose proof (num_chunks_ge_3 fs Hfs).
  rewrite start_end_eq by lia. simpl. by rewrite Z.eqb_refl.
Qed.

Lemma n_1_n_2_range i n n1 n2 :
  0 <= i -> get_n_1_n_2 i n = Some (n1, n2) ->
  0 <= n1 < n /\ 0 <= n2 < n /\ n1 <> i /\ n2 <> i /\ n1 <> n2 /\ i < n /\ 3 <= n.
Proof.
  intros Hi. unfold get_n_1_n_2.
  destruct (n <? 3) eqn:?; [done|]. destruct (n <=? i) eqn:?; [done|].
  destruct (i =? 0) eqn:?; [|destruct (i =? 1) eqn:?]; intros [= <- <-]; b2p; lia.
Qed.

Lemma n_1_n_2_defined i n :
  3 <= n -> 0 <= i < n -> exists n1 n2, get_n_1_n_2 i n = Some (n1, n2).
Proof.
  intros Hn Hi. unfold get_n_1_n_2.
  destruct (n <? 3) eqn:?; b2p; [lia|]. destruct (n <=? i) eqn:?; b2p; [lia|].
  destruct (i =? 0); [eauto|]. destruct (i =? 1); eauto.
Qed.

(** For a chunk after the second, the predecessors are the two before it, so
    it can be encrypted in file order. *)
Lemma n_1_n_2_later i n n1 n2 :
  2 <= i -> get_n_1_n_2 i n = Some (n1, n2) -> n1 = i - 1 /\ n2 = i - 2.
Proof.
  intros Hi. unfold get_n_1_n_2.
  destruct (n <? 3) eqn:?; [done|]. destruct (n <=? i) eqn:?; [done|].
  destruct (i =? 0) eqn:?; b2p; [lia|]. destruct (i =? 1) eqn:?; b2p; [lia|].
  intros [= <- <-]. lia.
Qed.

End Facts.

(** ** The slices of a file *)

Section Slices.
Context `{Config}.
Context (HM : 1 <= MAX_CHUNK_SIZE).

Definition chunk_slice {A} (data : list A) (i : Z) : list A :=
  let '(s, e) := get_start_end_positions (lenZ data) i in slice data s e.

Lemma concat_slices_prefix {A} (data : list A) k :
  MIN_ENCRYPTABLE_BYTES <= lenZ data -> 0 <= k <= get_num_chunks (lenZ data) ->
  concat (chunk_slice data <$> rangeZ k) =
    slice data 0 (if k =? get_num_chunks (lenZ data) then lenZ data
                  else (get_start_end_positions (lenZ data) k).1).
Proof.
  intros Hd Hk. pose proof (num_chunks_ge_3 HM _ Hd) as Hn.
  destruct Hk as [Hk0 Hk]. revert Hk. pattern k.
  apply natlike_ind; [| |done]; clear k Hk0.
  - intros _. assert ((0 =? get_num_chunks (lenZ data)) = false) as -> by lia.
    rewrite (start_end_first HM) by done. done.
  - intros k Hk0 IH Hk. rewrite <- Z.add_1_r, rangeZ_succ, fmap_app, concat_app by lia.
    rewrite IH by lia. cbn [fmap list_fmap concat]. rewrite app_nil_r.
    assert ((k =? get_num_chunks (lenZ data)) = false) as -> by lia.
    unfold chunk_slice.
    pose proof (start_end_bounds HM (lenZ data) k Hd ltac:(lia)) as Hb.
    destruct (get_start_end_positions (lenZ data) k) as [s e] eqn:Ese. simpl.
    rewrite slice_app_adjacent by lia. f_equal.
    destruct (k + 1 =? get_num_chunks (lenZ data)) eqn:E; b2p.
    + pose proof (start_end_last HM _ Hd) as Hl. rewrite <- E in Hl.
      replace (k + 1 - 1) with k in Hl by lia. by rewrite Ese in Hl.
    + pose proof (start_end_adjacent HM (lenZ data) k Hd Hk0 ltac:(lia)) as Ha.
      by rewrite Ese in Ha.
Qed.

(** The chunks, in index order, are the file. *)
Lemma concat_slices {A} (data : list A) :
  MIN_ENCRYPTABLE_BYTES <= lenZ data ->
  concat (chunk_slice data <$> rangeZ (get_num_chunks (lenZ data))) = data.
Proof.
  intros Hd. pose proof (num_chunks_ge_3 HM _ Hd).
  rewrite concat_slices_prefix by lia. rewrite Z.eqb_refl. apply slice_full.
Qed.

Lemma lenZ_chunk_slice {A} (data : list A) i :
  MIN_ENCRYPTABLE_BYTES <= lenZ data -> 0 <= i < get_num_chunks (lenZ data) ->
  lenZ (chunk_slice data i) =
    (get_start_end_positions (lenZ data) i).2 - (get_start_end_positions (lenZ data) i).1.
Proof.
  intros Hd Hi. pose proof (start_end_bounds HM _ _ Hd Hi) as Hb. unfold chunk_slice.
  destruct (get_start_end_positions (lenZ data) i) as [s e]. simpl. apply lenZ_slice; lia.
Qed.

End Slices.

(** ** Properties *)

(** Every chunk of a file has between one and [MAX_CHUNK_SIZE] bytes, with
    one exception: the third chunk of a file of exactly
    [3 * MAX_CHUNK_SIZE - 1] bytes has [MAX_CHUNK_SIZE + 1] bytes. *)
Lemma chunk_size_bounds `{Config} (fs i : Z)
    (HM : 1 <= MAX_CHUNK_SIZE) (Hfs : MIN_ENCRYPTABLE_BYTES <= fs)
    (Hi : 0 <= i < get_num_chunks fs) :
  1 <= get_chunk_size fs i /\
  (get_chunk_size fs i <= MAX_CHUNK_SIZE \/
   (fs = 3 * MAX_CHUNK_SIZE - 1 /\ i = 2 /\ get_chunk_size fs i = MAX_CHUNK_SIZE + 1)).
Proof.
  pose proof (num_chunks_ge_3 HM fs Hfs) as Hn.
  pose proof (geometry_shape HM fs Hfs) as (Hc & Hlt & Hsm & Hbig & Hsz & Hl).
  destruct (decide (i = get_num_chunks fs - 1)) as [->|]; [|rewrite Hsz by lia; lia].
  rewrite Hl. split; [lia|].
  destruct (decide (fs < 3 * MAX_CHUNK_SIZE)) as [Hs|Hs].
  - destruct (Hsm Hs) as [-> ->]. unfold MIN_ENCRYPTABLE_BYTES, MIN_CHUNK_SIZE in Hfs.
    pose proof (Z.div_mod fs 3 ltac:(lia)). pose proof (Z.mod_pos_bound fs 3 ltac:(lia)).
    destruct (decide (fs = 3 * MAX_CHUNK_SIZE - 1)) as [Heq|]; [right | left; lia]. lia.
  - destruct (Hbig ltac:(lia)) as [-> ?]. left. nia.
Qed.

(** C1: [get_start_end_positions] cuts a file of at least
    [MIN_ENCRYPTABLE_BYTES] bytes into consecutive non-empty ranges that cover
    it, and [get_chunk_index] inverts it: a position inside the file lies in the
    range of exactly the chunk that [get_chunk_index] returns.  Every range has at
    most [MAX_CHUNK_SIZE] bytes with one exception: the third chunk of a file of
    exactly [3 * MAX_CHUNK_SIZE - 1] bytes has [MAX_CHUNK_SIZE + 1]. *)
Theorem chunk_ranges_partition_file `{Config} (fs p i : Z)
    (HM : 1 <= MAX_CHUNK_SIZE) (Hfs : MIN_ENCRYPTABLE_BYTES <= fs) (Hp : 0 <= p < fs) :
  let n := get_num_chunks fs in
  3 <= n /\ 0 <= get_chunk_index fs p < n /\
  (0 <= i < n ->
   let '(s, e) := get_start_end_positions fs i in
   0 <= s < e /\ e <= fs /\ (s <= p < e <-> i = get_chunk_index fs p) /\
   (e - s <= MAX_CHUNK_SIZE \/
    (fs = 3 * MAX_CHUNK_SIZE - 1 /\ i = 2 /\ e - s = MAX_CHUNK_SIZE + 1))).
Proof.
  pose proof (num_chunks_ge_3 HM fs Hfs) as Hn.
  pose proof (geometry_shape HM fs Hfs) as (Hc & Hlt & Hsm & Hbig & Hsize & Hlast).
  set (c := get_chunk_size fs 0) in *. set (n := get_num_chunks fs) in *.
  rewrite (get_chunk_index_eq HM) by done. fold c n.
  pose proof (Z.div_mod p c ltac:(lia)). pose proof (Z.mod_pos_bound p c ltac:(lia)).
  assert (0 <= p / c) by (apply Z.div_pos; lia).
  split; [done|]. split; [lia|]. intros Hi.
  pose proof (start_end_bounds HM fs i Hfs Hi) as Hb.
  pose proof (chunk_size_bounds fs i HM Hfs Hi) as [_ Hsz].
  rewrite (start_end_eq HM) in * by done. fold c n in Hb |- *.
  destruct (i =? n - 1) eqn:E; b2p; (split; [lia|]; split; [lia|]; split; [nia|]).
  - subst i. rewrite Hlast in Hsz. nia.
  - rewrite (Hsize i) in Hsz by lia. nia.
Qed.

Theorem chunk_ranges_partition_file_witness :
  let c : Config := {| MAX_CHUNK_SIZE := 5 |} in
  3 <= get_num_chunks 17 /\ get_chunk_index 17 12 = 2.
Proof.
  set (c := {| MAX_CHUNK_SIZE := 5 |}). cbv zeta.
  destruct (@chunk_ranges_partition_file c 17 12 2) as (H1 & _ & H2);
    [vm_compute; discriminate | vm_compute; discriminate | split; reflexivity || (vm_compute; discriminate) |].
  split; [exact H1 |].
  assert (Hi : 0 <= 2 < @get_num_chunks c 17) by (split; [discriminate | reflexivity]).
  specialize (H2 Hi). destruct H2 as (_ & _ & H2 & _).
  symmetry. apply H2. split; [discriminate | reflexivity].
Defined.


