(* ===== verification/Interfaces.v ===== *)
(** * Interfaces of the third-party code

    The cryptographic primitives, the compressor, the serializers and the
    caches that the repository calls but does not contain are type classes of
    operations.  The documented behaviour the program relies on is a second
    class of laws, assumed only by the theorems that need it; the module
    [Reference] gives a concrete instance of each, with its laws proved. *)

From Stdlib Require Import ZArith.
From stdpp Require Import base list strings.
From S2P Require Import Prelude.

Local Open Scope Z_scope.

(** [blake3::hash], and [Hasher::new_derive_key(ctx).update(m)] read for [n]
    bytes with [finalize_xof().fill(..)] ([blake3::derive_key] reads 32). *)
Class Blake3 := {
  blake3_hash : bytes -> bytes;
  blake3_derive_key : string -> bytes -> nat -> bytes
}.

Class Blake3Laws `{Blake3} : Prop := {
  blake3_hash_length m : length (blake3_hash m) = 32%nat;
  blake3_derive_key_length c m n : length (blake3_derive_key c m n) = n
}.

(** [ChaCha20Poly1305::new(key).encrypt(nonce, pt)] and [.decrypt(nonce, ct)]. *)
Class Aead := {
  chacha_encrypt : bytes -> bytes -> bytes -> option bytes;
  chacha_decrypt : bytes -> bytes -> bytes -> option bytes
}.

Class AeadLaws `{Aead} : Prop := {
  chacha_round_trip k n m c :
    chacha_encrypt k n m = Some c -> chacha_decrypt k n c = Some m;
  chacha_length k n m c : chacha_encrypt k n m = Some c -> lenZ c = lenZ m + 16
}.

(** ML-KEM-768 ([fips203]): key generation and encapsulation take their
    randomness; [try_from_bytes] of a key or a ciphertext is a validity test. *)
Class Kem := {
  kem_keygen : bytes -> option (bytes * bytes);
  kem_ek_valid : bytes -> bool;
  kem_encaps : bytes -> bytes -> option (bytes * bytes);
  kem_ct_valid : bytes -> bool;
  kem_decaps : bytes -> bytes -> option bytes
}.

Class KemLaws `{Kem} : Prop := {
  kem_keygen_spec r ek dk :
    kem_keygen r = Some (ek, dk) -> lenZ ek = 1184 /\ kem_ek_valid ek = true;
  kem_encaps_spec r r' ek dk ss ct :
    kem_keygen r = Some (ek, dk) -> kem_encaps r' ek = Some (ss, ct) ->
    lenZ ct = 1088 /\ kem_ct_valid ct = true /\ kem_decaps dk ct = Some ss
}.

(** ML-DSA-65 ([fips204], [saorsa_pqc]); the [_valid] tests are those of the
    [from_bytes] conversions, and [dsa_keypair] says that a public and a
    secret key belong together. *)
Class Dsa := {
  dsa_keypair : bytes -> bytes -> Prop;
  dsa_pk_valid : bytes -> bool;
  dsa_sk_valid : bytes -> bool;
  dsa_sig_valid : bytes -> bool;
  dsa_sign : bytes -> bytes -> option bytes;
  dsa_verify : bytes -> bytes -> bytes -> bool
}.

Class DsaLaws `{Dsa} : Prop := {
  dsa_keypair_spec pk sk : dsa_keypair pk sk -> lenZ pk = 1952 /\ dsa_pk_valid pk = true;
  dsa_sign_spec pk sk m sg :
    dsa_keypair pk sk -> dsa_sign sk m = Some sg -> lenZ sg = 3309 /\ dsa_verify pk m sg = true;
  dsa_sk_valid_spec pk sk : dsa_keypair pk sk -> dsa_sk_valid sk = true;
  dsa_sig_valid_spec pk sk m sg :
    dsa_keypair pk sk -> dsa_sign sk m = Some sg -> dsa_sig_valid sg = true
}.

(** [brotli::BrotliCompress] at a quality, and [BrotliDecompress]. *)
Class Brotli := {
  brotli_compress : Z -> bytes -> option bytes;
  brotli_decompress : bytes -> option bytes
}.

Class BrotliLaws `{Brotli} : Prop := {
  brotli_round_trip q m c : brotli_compress q m = Some c -> brotli_decompress c = Some m
}.

(** The serde back ends the crates use. *)
Inductive format := bincode | postcard | rmp_serde | serde_json.

(** [to_vec]/[serialize] and [from_slice]/[deserialize] of a format at a type. *)
Class Codec (f : format) (A : Type) := {
  ser : A -> option bytes;
  de : bytes -> option A
}.
Arguments ser f {A Codec} _.
Arguments de f {A Codec} _.

Class CodecLaws (f : format) (A : Type) `{Codec f A} : Prop := {
  ser_de a b : ser f a = Some b -> de f b = Some a
}.

(** [lru::LruCache<K, V>].  [lru_peek] reads without touching the order. *)
Class Lru (K V : Type) := {
  lru : Type;
  lru_new : Z -> lru;
  lru_peek : lru -> K -> option V;
  lru_get : lru -> K -> option V * lru;
  lru_put : lru -> K -> V -> lru;
  lru_pop : lru -> K -> lru;
  lru_clear : lru -> lru;
  lru_len : lru -> Z;
  lru_cap : lru -> Z
}.
Arguments lru K V {Lru}.
Arguments lru_new K V {Lru} _.

(** A cache holds at most its capacity; [get] returns what [peek] sees and
    forgets nothing; [put] makes its key present and may drop others but never
    invents or changes a binding. *)
Class LruLaws (K V : Type) `{Lru K V} : Prop := {
  lru_new_empty c k : lru_peek (lru_new K V c) k = None;
  lru_new_len c : lru_len (lru_new K V c) = 0;
  lru_new_cap c : lru_cap (lru_new K V c) = c;
  lru_get_value l k : fst (lru_get l k) = lru_peek l k;
  lru_get_peek l k k' : lru_peek (snd (lru_get l k)) k' = lru_peek l k';
  lru_get_len l k : lru_len (snd (lru_get l k)) <= lru_len l;
  lru_get_cap l k : lru_cap (snd (lru_get l k)) = lru_cap l;
  lru_put_same l k v : 1 <= lru_cap l -> lru_peek (lru_put l k v) k = Some v;
  lru_put_value l k v v' : lru_peek (lru_put l k v) k = Some v' -> v' = v;
  lru_put_other l k v k' v' :
    k' <> k -> lru_peek (lru_put l k v) k' = Some v' -> lru_peek l k' = Some v';
  lru_put_len l k v :
    1 <= lru_cap l -> lru_len l <= lru_cap l -> lru_len (lru_put l k v) <= lru_cap l;
  lru_put_cap l k v : lru_cap (lru_put l k v) = lru_cap l;
  lru_pop_same l k : lru_peek (lru_pop l k) k = None;
  lru_pop_other l k k' : k' <> k -> lru_peek (lru_pop l k) k' = lru_peek l k';
  lru_pop_cap l k : lru_cap (lru_pop l k) = lru_cap l;
  lru_clear_empty l k : lru_peek (lru_clear l) k = None;
  lru_clear_len l : lru_len (lru_clear l) = 0;
  lru_clear_cap l : lru_cap (lru_clear l) = lru_cap l
}.
