(* ===== verification/Cipher.v ===== *)
(** * Chunk encryption and decryption

    [self_encryption/src/]: [error.rs], [hash.rs], [cipher.rs], [encrypt.rs],
    the single-chunk part of [decrypt.rs], and the key schedule of [utils.rs].
    BLAKE3, ChaCha20-Poly1305 and Brotli are parameters. *)

From Stdlib Require Import ZArith Lia.
From stdpp Require Import base list strings.
From S2P Require Import Prelude Interfaces ChunkMath.

Local Open Scope Z_scope.

(** [Error]; a message with interpolated values is its format string. *)
Inductive Error :=
| Compression
| Cipher (msg : string)
| Encryption
| Decryption (msg : string)
| Io
| Generic (msg : string)
| Bincode
| Deserialise
| NumParse
| Rng
| Poison
| Python (msg : string).

#[export] Instance Error_eq_dec : EqDecision Error.
Proof. solve_decision. Defined.

(** A [XorName] is its 32 bytes. *)
Abbreviation XorName := bytes (only parsing).

Definition HASH_SIZE : Z := 32.
Definition KEY_SIZE : Z := 32.
Definition NONCE_SIZE : Z := 12.
Definition PAD_SIZE : Z := HASH_SIZE * 3 - KEY_SIZE - NONCE_SIZE.
Definition COMPRESSION_QUALITY : Z := 6.

Definition xor_byte (a b : byte) : byte := byte_of_Z (Z.lxor (byte_to_Z a) (byte_to_Z b)).

(** The first [n] elements of [l.iter().cycle()]. *)
Definition cycle {A} (n : nat) (l : list A) : list A := take n (concat (repeat l n)).

Definition xor (data pad : bytes) : bytes :=
  zip_with xor_byte data (cycle (length data) pad).

Section Cipher.
Context `{Blake3, Aead, Brotli}.

Definition content_hash (content : bytes) : XorName := blake3_hash content.

Definition cipher_encrypt (data key nonce : bytes) : result Error bytes :=
  ok_or (chacha_encrypt key nonce data) Encryption.

Definition cipher_decrypt (encrypted_data key nonce : bytes) : result Error bytes :=
  ok_or (chacha_decrypt key nonce encrypted_data) (Decryption "Decrypt failed with {e}").

(** The input of the key derivation of one chunk. *)
Definition context_material (src_hash n_1_src_hash n_2_src_hash : XorName)
    (chunk_index child_level : Z) : bytes :=
  src_hash ++ n_1_src_hash ++ n_2_src_hash ++ le_bytes 8 chunk_index ++ le_bytes 8 child_level.

Definition get_pki (src_hash n_1_src_hash n_2_src_hash : XorName)
    (chunk_index child_level : Z) : bytes * bytes * bytes :=
  let output := blake3_derive_key "self_encryption/chunk/v2"
    (context_material src_hash n_1_src_hash n_2_src_hash chunk_index child_level)
    (Z.to_nat (PAD_SIZE + KEY_SIZE + NONCE_SIZE)) in
  let pad := slice output 0 PAD_SIZE in
  let key := slice output PAD_SIZE (PAD_SIZE + KEY_SIZE) in
  let nonce := slice output (PAD_SIZE + KEY_SIZE) (lenZ output) in
  (pad, key, nonce).

(** [chunk_hashes.get(i)] for a [usize]. *)
Definition get_hash (chunk_hashes : list XorName) (i : Z) : option XorName :=
  chunk_hashes !! Z.to_nat i.

Definition get_pad_key_and_nonce (chunk_index : Z) (chunk_hashes : list XorName)
    (child_level : Z) : result Error (bytes * bytes * bytes) :=
  '(n_1, n_2) ← ok_or (get_n_1_n_2 chunk_index (lenZ chunk_hashes))
    (if lenZ chunk_hashes <? 3
     then Generic "total_num_chunks must be at least 3, got {total_num_chunks}"
     else Generic "chunk_index {chunk_index} out of bounds for total_num_chunks {total_num_chunks}");
  src_hash ← ok_or (get_hash chunk_hashes chunk_index)
    (Generic "chunk_index {chunk_index} out of bounds");
  n_1_src_hash ← ok_or (get_hash chunk_hashes n_1) (Generic "n_1 index {n_1} out of bounds");
  n_2_src_hash ← ok_or (get_hash chunk_hashes n_2) (Generic "n_2 index {n_2} out of bounds");
  mret (get_pki src_hash n_1_src_hash n_2_src_hash chunk_index child_level).

Definition encrypt_chunk (content : bytes) (pki : bytes * bytes * bytes) : result Error bytes :=
  let '(pad, key, nonce) := pki in
  compressed ← ok_or (brotli_compress COMPRESSION_QUALITY content) Compression;
  encrypted ← cipher_encrypt compressed key nonce;
  mret (xor encrypted pad).

Definition decrypt_chunk (chunk_index : Z) (content : bytes) (src_hashes : list XorName)
    (child_level : Z) : result Error bytes :=
  '(pad, key, nonce) ← get_pad_key_and_nonce chunk_index src_hashes child_level;
  let xored := xor content pad in
  decrypted ← cipher_decrypt xored key nonce;
  ok_or (brotli_decompress decrypted) Compression.

(** [verify_chunk] of [lib.rs]: a chunk under its name. *)
Definition verify_chunk (name : XorName) (bs : bytes) : result Error bytes :=
  let calculated_hash := content_hash bs in
  if decide (calculated_hash <> name)
  then Err (Generic "Chunk content hash mismatch. Expected: {name:?}, Got: {calculated_hash:?}")
  else Ok bs.

End Cipher.

(** ** Lemmas *)

Lemma lxor_mod_small a b : 0 <= a < 256 -> 0 <= b < 256 -> Z.lxor a b mod 256 = Z.lxor a b.
Proof.
  intros Ha Hb. rewrite <- (Z.mod_small a 256), <- (Z.mod_small b 256) by assumption. change 256 with (2 ^ 8).
  apply Z.bits_inj'. intros n Hn. destruct (Z.lt_ge_cases n 8).
  - by rewrite Z.mod_pow2_bits_low.
  - by rewrite Z.lxor_spec, !Z.mod_pow2_bits_high.
Qed.

Lemma xor_byte_involutive a b : xor_byte (xor_byte a b) b = a.
Proof.
  unfold xor_byte. rewrite byte_to_Z_of_Z, lxor_mod_small by apply byte_to_Z_range. rewrite Z.lxor_assoc, Z.lxor_nilpotent, Z.lxor_0_r. apply byte_of_Z_to_Z.
Qed.

Lemma length_cycle {A} n (l : list A) : l <> [] -> length (cycle n l) = n.
Proof.
  intros Hl. unfold cycle. rewrite length_take.
  enough (n <= length (concat (repeat l n)))%nat by lia.
  destruct l as [|a l]; [done|]. clear Hl.
  induction n as [|n IH]; simpl; [lia|]. rewrite length_app. lia.
Qed.

Lemma xor_involutive data pad : pad <> [] -> xor (xor data pad) pad = data.
Proof.
  intros Hp. unfold xor.
  rewrite length_zip_with, length_cycle, Nat.min_id by done.
  pose proof (length_cycle (length data) pad Hp) as Hl.
  revert Hl. generalize (cycle (length data) pad).
  induction data as [|d data IH]; intros [|c cs]; simpl; try done.
  intros [= Hl]. by rewrite xor_byte_involutive, IH.
Qed.

Section CipherFacts.
Context `{Blake3, Aead, Brotli} `{!Blake3Laws, !AeadLaws, !BrotliLaws}.

Lemma length_pad a b c i l : length (get_pki a b c i l).1.1 = 52%nat.
Proof.
  unfold get_pki. simpl. unfold slice. rewrite length_take, length_drop, blake3_derive_key_length.
  reflexivity.
Qed.

Lemma content_hash_length c : length (content_hash c) = 32%nat.
Proof. apply blake3_hash_length. Qed.

(** With enough hashes the key schedule is defined, and picks the entries the
    index computation names. *)
Lemma get_pad_key_and_nonce_spec i hs lvl :
  3 <= lenZ hs -> 0 <= i < lenZ hs ->
  exists s n1 n2, get_pad_key_and_nonce i hs lvl = Ok (get_pki s n1 n2 i lvl).
Proof.
  intros Hn Hi. unfold get_pad_key_and_nonce.
  destruct (n_1_n_2_defined i (lenZ hs) Hn Hi) as (n1 & n2 & E).
  rewrite E. simpl. unfold mbind, result_bind.
  pose proof (n_1_n_2_range i (lenZ hs) n1 n2 ltac:(lia) E) as Hr. unfold get_hash, lenZ in *.
  destruct (lookup_lt_is_Some_2 hs (Z.to_nat i)) as [s ->]; [lia|].
  destruct (lookup_lt_is_Some_2 hs (Z.to_nat n1)) as [s1 ->]; [lia|].
  destruct (lookup_lt_is_Some_2 hs (Z.to_nat n2)) as [s2 ->]; [lia|].
  simpl. eauto.
Qed.

(** From the third chunk on, the key depends only on the hashes so far. *)
Lemma get_pad_key_and_nonce_prefix i hs hs' lvl :
  2 <= i -> lenZ hs = i + 1 ->
  get_pad_key_and_nonce i (hs ++ hs') lvl = get_pad_key_and_nonce i hs lvl.
Proof.
  intros Hi Hl. unfold get_pad_key_and_nonce. rewrite lenZ_app. rewrite Hl.
  destruct (n_1_n_2_defined i (i + 1)) as (n1 & n2 & E); [lia|lia|].
  pose proof (lenZ_nonneg hs').
  destruct (n_1_n_2_defined i (i + 1 + lenZ hs')) as (m1 & m2 & E'); [lia|lia|].
  destruct (n_1_n_2_later _ _ _ _ Hi E) as [-> ->].
  destruct (n_1_n_2_later _ _ _ _ Hi E') as [-> ->].
  rewrite E, E'. unfold get_hash, lenZ in *. simpl. unfold mbind, result_bind.
  rewrite !lookup_app_l by lia. done.
Qed.

(** A chunk decrypts to what was encrypted under the same key. *)
Lemma decrypt_encrypt_chunk i hs lvl content pki enc :
  3 <= lenZ hs -> 0 <= i < lenZ hs ->
  get_pad_key_and_nonce i hs lvl = Ok pki ->
  encrypt_chunk content pki = Ok enc ->
  decrypt_chunk i enc hs lvl = Ok content.
Proof.
  intros Hn Hi Hk He. unfold decrypt_chunk. rewrite Hk. simpl.
  destruct (get_pad_key_and_nonce_spec i hs lvl Hn Hi) as (s & n1 & n2 & Hs).
  rewrite Hk in Hs. injection Hs as ->.
  pose proof (length_pad s n1 n2 i lvl) as Hpad.
  destruct (get_pki s n1 n2 i lvl) as [[pad key] nonce]. simpl in Hpad.
  unfold encrypt_chunk in He. inv_bind He.
  rewrite xor_involutive by (destruct pad; done).
  unfold cipher_encrypt, cipher_decrypt in *.
  destruct (brotli_compress COMPRESSION_QUALITY content) eqn:Hb; [|done].
  simplify_eq/=. destruct (chacha_encrypt key nonce _) eqn:Hc; [|done]. simplify_eq/=.
  rewrite (chacha_round_trip _ _ _ _ Hc). simpl.
  unfold mbind, result_bind. by rewrite (brotli_round_trip _ _ _ Hb).
Qed.

End CipherFacts.
