(* ===== verification/DataMap.v ===== *)
(** * The data map

    [self_encryption/src/data_map.rs]: [ChunkInfo], [DataMap] and its binary
    serialization.  The serde derive of the versioned wrapper is bincode's, a
    parameter; the version check is the file's own. *)

From Stdlib Require Import ZArith Lia.
From stdpp Require Import base list strings.
From S2P Require Import Prelude Interfaces Cipher.

Local Open Scope Z_scope.

Record ChunkInfo := mkChunkInfo {
  index : Z;
  dst_hash : XorName;
  src_hash : XorName;
  src_size : Z
}.

Record DataMap := mkDataMap {
  chunk_identifiers : list ChunkInfo;
  child : option Z
}.

#[export] Instance ChunkInfo_eq_dec : EqDecision ChunkInfo.
Proof. solve_decision. Defined.
#[export] Instance DataMap_eq_dec : EqDecision DataMap.
Proof. solve_decision. Defined.

Module DataMap.
Definition new (keys : list ChunkInfo) : DataMap :=
  {| chunk_identifiers := sort_by_key index keys; child := None |}.

Definition with_child (keys : list ChunkInfo) (c : Z) : DataMap :=
  {| chunk_identifiers := sort_by_key index keys; child := Some c |}.

Definition infos (dm : DataMap) : list ChunkInfo := chunk_identifiers dm.

Definition len (dm : DataMap) : Z := lenZ (chunk_identifiers dm).

Definition is_child (dm : DataMap) : bool :=
  match child dm with Some _ => true | None => false end.

Definition total_size (keys : list ChunkInfo) : Z :=
  fold_left (fun acc chunk => acc + src_size chunk) keys 0.

Definition original_file_size (dm : DataMap) : Z := total_size (chunk_identifiers dm).
End DataMap.

(** The struct that the non-human-readable [Serialize]/[Deserialize] impls of
    [DataMap] hand to the format. *)
Record VersionedDataMap := mkVersioned {
  version : Z;
  v_chunk_identifiers : list ChunkInfo;
  v_child : option Z
}.

Section DataMapBytes.
Context `{!Codec bincode VersionedDataMap}.

Definition to_versioned (dm : DataMap) : VersionedDataMap :=
  {| version := 1; v_chunk_identifiers := chunk_identifiers dm; v_child := child dm |}.

Definition from_versioned (v : VersionedDataMap) : option DataMap :=
  if version v =? 1
  then Some {| chunk_identifiers := v_chunk_identifiers v; child := v_child v |}
  else None.

(** The error of both is bincode's. *)
Definition to_bytes (dm : DataMap) : option bytes := ser bincode (to_versioned dm).

Definition from_bytes (bs : bytes) : option DataMap :=
  v ← de bincode bs; from_versioned v.

Lemma from_bytes_to_bytes `{!CodecLaws bincode VersionedDataMap} dm b :
  to_bytes dm = Some b -> from_bytes b = Some dm.
Proof.
  intros H%ser_de. unfold from_bytes. rewrite H. simpl. by destruct dm.
Qed.

End DataMapBytes.

(** What the Rust types of a data map guarantee: 64-bit integers, 32-byte
    names, a length that is a [usize]. *)
Definition usize_ok (z : Z) : Prop := 0 <= z < usize_modulus.

Definition info_wf (info : ChunkInfo) : Prop :=
  usize_ok (index info) /\ length (dst_hash info) = 32%nat /\
  length (src_hash info) = 32%nat /\ usize_ok (src_size info).

Definition map_wf (dm : DataMap) : Prop :=
  Forall info_wf (chunk_identifiers dm) /\ usize_ok (lenZ (chunk_identifiers dm)) /\
  match child dm with Some c => usize_ok c | None => True end.

#[export] Instance usize_ok_dec z : Decision (usize_ok z).
Proof. unfold usize_ok. apply _. Defined.
#[export] Instance info_wf_dec info : Decision (info_wf info).
Proof. unfold info_wf. apply _. Defined.
#[export] Instance map_wf_dec dm : Decision (map_wf dm).
Proof. unfold map_wf. destruct (child dm); apply _. Defined.

Definition extract_hashes (data_map : DataMap) : list XorName :=
  src_hash <$> DataMap.infos data_map.

(** The size of a serialized map: bincode's fixed-width encoding spends 80
    bytes on a chunk (two 8-byte integers, two 32-byte names) and at most 18 on
    the rest (version byte, length, optional child). *)
Class DataMapSize `{Codec bincode VersionedDataMap} : Prop := {
  data_map_size dm b :
    to_bytes dm = Some b -> 80 * DataMap.len dm <= lenZ b <= 18 + 80 * DataMap.len dm
}.
