(* ===== verification/Reference.v ===== *)
(** * Concrete instances of the interfaces

    Executable stand-ins for the third-party code, each with its laws proved:
    they show that the laws the theorems assume can hold together, and let the
    witnesses evaluate.  The hash and the cipher are toys of the right shape
    (a 32-byte digest, a 16-byte tag); the bincode layout of a data map and the
    least-recently-used cache are the real ones. *)

From Stdlib Require Import ZArith Lia Strings.Byte.
From stdpp Require Import base list strings gmap.
From S2P Require Import Prelude ChunkMath Interfaces Cipher DataMap.

Local Open Scope Z_scope.

(** ** Hash, cipher, compressor *)

Definition toy_fold (m : bytes) : Z :=
  fold_left (fun acc b => Z.land (acc * 16777619 + byte_to_Z b + 1) 18446744073709551615) m 2166136261.

Definition toy_hash (m : bytes) : bytes := le_bytes 32 (toy_fold m).

Definition toy_xof (m : bytes) (n : nat) : bytes :=
  take n (flat_map (fun k => toy_hash (le_bytes 8 (Z.of_nat k) ++ m)) (seq 0 (S (n / 32)))).

Lemma length_toy_hash m : length (toy_hash m) = 32%nat.
Proof. apply length_le_bytes. Qed.

Lemma length_toy_xof m n : length (toy_xof m n) = n.
Proof.
  unfold toy_xof. rewrite length_take.
  enough (Hl : forall s k, length (flat_map (fun k => toy_hash (le_bytes 8 (Z.of_nat k) ++ m))
             (seq s k)) = (32 * k)%nat).
  { rewrite Hl. pose proof (Nat.div_mod n 32). pose proof (Nat.mod_upper_bound n 32). lia. }
  intros s k. revert s. induction k as [|k IH]; intros s; [done|].
  cbn [seq flat_map]. rewrite length_app, IH, length_toy_hash. lia.
Qed.

#[export] Instance toy_blake3 : Blake3 := {|
  blake3_hash := toy_hash;
  blake3_derive_key ctx m n := toy_xof m n
|}.

#[export] Instance toy_blake3_laws : Blake3Laws.
Proof. split; intros; [apply length_toy_hash | apply length_toy_xof]. Qed.

Definition toy_tag (key nonce m : bytes) : bytes := take 16 (toy_hash (key ++ nonce ++ m)).

#[export] Instance toy_aead : Aead := {|
  chacha_encrypt key nonce m := Some (m ++ toy_tag key nonce m);
  chacha_decrypt key nonce c :=
    let n := (length c - 16)%nat in
    let m := take n c in
    if decide (length c < 16)%nat then None
    else if decide (drop n c = toy_tag key nonce m) then Some m else None
|}.

#[export] Instance toy_aead_laws : AeadLaws.
Proof.
  assert (Ht : forall k n m, length (toy_tag k n m) = 16%nat).
  { intros k n m. unfold toy_tag. rewrite length_take, length_toy_hash. done. }
  split; intros k n m c; cbn [chacha_encrypt chacha_decrypt toy_aead]; intros [= <-].
  2: { rewrite lenZ_app. unfold lenZ. rewrite Ht. lia. }
  rewrite length_app, Ht. destruct (decide _); [lia|].
  replace (length m + 16 - 16)%nat with (length m) by lia.
  rewrite take_app_length, drop_app_length. by rewrite decide_True.
Qed.

#[export] Instance identity_brotli : Brotli := {|
  brotli_compress q m := Some m;
  brotli_decompress m := Some m
|}.

#[export] Instance identity_brotli_laws : BrotliLaws.
Proof. split. by intros q m c [= <-]. Qed.

(** ** Key encapsulation and signatures

    A shared secret and a signature that anyone can compute, of the right
    sizes. *)

Definition pad_to (n : nat) (b : bytes) : bytes := take n (b ++ replicate n x00).

Lemma length_pad_to n b : length (pad_to n b) = n.
Proof. unfold pad_to. rewrite length_take, length_app, length_replicate. lia. Qed.

Lemma lenZ_pad_to n b : lenZ (pad_to n b) = Z.of_nat n.
Proof. unfold lenZ. by rewrite length_pad_to. Qed.

#[export] Instance toy_kem : Kem := {|
  kem_keygen r := let ek := pad_to 1184 r in Some (ek, ek);
  kem_ek_valid ek := lenZ ek =? 1184;
  kem_encaps r ek := let ct := pad_to 1088 r in Some (toy_hash (ek ++ ct), ct);
  kem_ct_valid ct := lenZ ct =? 1088;
  kem_decaps dk ct := Some (toy_hash (dk ++ ct))
|}.

#[export] Instance toy_kem_laws : KemLaws.
Proof.
  split; cbn [kem_keygen kem_ek_valid kem_encaps kem_ct_valid kem_decaps toy_kem].
  - intros r ek dk [= <- <-]. by rewrite lenZ_pad_to.
  - intros r r' ek dk ss ct [= <- <-] [= <- <-]. by rewrite lenZ_pad_to.
Qed.

#[export] Instance toy_dsa : Dsa := {|
  dsa_keypair pk sk := pk = sk /\ lenZ pk = 1952;
  dsa_pk_valid pk := lenZ pk =? 1952;
  dsa_sk_valid sk := true;
  dsa_sig_valid sg := lenZ sg =? 3309;
  dsa_sign sk m := Some (pad_to 3309 (toy_hash (sk ++ m)));
  dsa_verify pk m sg := bool_decide (sg = pad_to 3309 (toy_hash (pk ++ m)))
|}.

#[export] Instance toy_dsa_laws : DsaLaws.
Proof.
  split; cbn [dsa_keypair dsa_pk_valid dsa_sign dsa_verify toy_dsa].
  - intros pk sk [-> Hl]. by rewrite Hl.
  - intros pk sk m sg [-> Hl] [= <-]. rewrite lenZ_pad_to. by rewrite bool_decide_eq_true_2.
  - done.
  - intros pk sk m sg _ [= <-]. cbn [dsa_sig_valid toy_dsa]. by rewrite lenZ_pad_to.
Qed.

(** A signature scheme with short keys, for examples that sign a lot. *)
Definition short_dsa : Dsa := {|
  dsa_keypair pk sk := pk = sk;
  dsa_pk_valid _ := true;
  dsa_sk_valid _ := true;
  dsa_sig_valid _ := true;
  dsa_sign sk m := Some (sk ++ m);
  dsa_verify pk m sg := bool_decide (sg = pk ++ m)
|}.

(** ** bincode's layout of a versioned data map *)

(** Readers: a value and the rest of the input. *)
Definition take_bytes (n : nat) (b : bytes) : option (bytes * bytes) :=
  if decide (n <= length b)%nat then Some (take n b, drop n b) else None.

Definition read_u64 (b : bytes) : option (Z * bytes) :=
  '(x, r) ← take_bytes 8 b; Some (from_le x, r).

Definition write_info (i : ChunkInfo) : bytes :=
  le_bytes 8 (index i) ++ dst_hash i ++ src_hash i ++ le_bytes 8 (src_size i).

Definition read_info (b : bytes) : option (ChunkInfo * bytes) :=
  '(i, b) ← read_u64 b; '(d, b) ← take_bytes 32 b; '(s, b) ← take_bytes 32 b;
  '(z, b) ← read_u64 b;
  Some ({| index := i; dst_hash := d; src_hash := s; src_size := z |}, b).

Fixpoint read_infos (n : nat) (b : bytes) : option (list ChunkInfo * bytes) :=
  match n with
  | O => Some ([], b)
  | S n' => '(i, b) ← read_info b; '(l, b) ← read_infos n' b; Some (i :: l, b)
  end.

Definition write_child (c : option Z) : bytes :=
  match c with None => [x00] | Some z => x01 :: le_bytes 8 z end.

Definition read_child (b : bytes) : option (option Z * bytes) :=
  match b with
  | x00 :: b => Some (None, b)
  | x01 :: b => '(z, b) ← read_u64 b; Some (Some z, b)
  | _ => None
  end.

Definition versioned_wf (v : VersionedDataMap) : Prop :=
  0 <= version v < 256 /\ map_wf (mkDataMap (v_chunk_identifiers v) (v_child v)).

#[export] Instance versioned_wf_dec v : Decision (versioned_wf v).
Proof. unfold versioned_wf. apply _. Defined.

#[export] Instance bincode_data_map : Codec bincode VersionedDataMap := {|
  ser v :=
    if decide (versioned_wf v) then
      Some (le_bytes 1 (version v) ++ le_bytes 8 (lenZ (v_chunk_identifiers v)) ++
            concat (write_info <$> v_chunk_identifiers v) ++ write_child (v_child v))
    else None;
  de b :=
    '(ver, b) ← take_bytes 1 b; '(n, b) ← read_u64 b;
    '(l, b) ← (if n <=? lenZ b then read_infos (Z.to_nat n) b else None);
    '(c, b) ← read_child b;
    Some (mkVersioned (from_le ver) l c)
|}.

Lemma take_bytes_app n l r : length l = n -> take_bytes n (l ++ r) = Some (l, r).
Proof.
  intros <-. unfold take_bytes. rewrite length_app.
  rewrite decide_True by lia. by rewrite take_app_length, drop_app_length.
Qed.

Lemma read_u64_app z r : usize_ok z -> read_u64 (le_bytes 8 z ++ r) = Some (z, r).
Proof.
  intros Hz. unfold read_u64. rewrite take_bytes_app by apply length_le_bytes. cbn [mbind option_bind].
  by rewrite from_le_bytes.
Qed.

Lemma read_info_app i r : info_wf i -> read_info (write_info i ++ r) = Some (i, r).
Proof.
  intros (Hi & Hd & Hs & Hz). unfold read_info, write_info. rewrite <- !app_assoc.
  rewrite read_u64_app by done. cbn [mbind option_bind].
  rewrite take_bytes_app by done. cbn [mbind option_bind].
  rewrite take_bytes_app by done. cbn [mbind option_bind].
  rewrite read_u64_app by done. cbn [mbind option_bind]. by destruct i.
Qed.

Lemma read_infos_app l r :
  Forall info_wf l -> read_infos (length l) (concat (write_info <$> l) ++ r) = Some (l, r).
Proof.
  induction 1 as [|i l Hi _ IH]; [done|]. cbn [length read_infos fmap list_fmap concat].
  rewrite <- app_assoc, read_info_app by done. cbn [mbind option_bind]. by rewrite IH.
Qed.

Lemma length_write_info i : info_wf i -> length (write_info i) = 80%nat.
Proof.
  intros (_ & Hd & Hs & _). unfold write_info. rewrite !length_app, !length_le_bytes. lia.
Qed.

Lemma length_write_infos l :
  Forall info_wf l -> length (concat (write_info <$> l)) = (80 * length l)%nat.
Proof.
  induction 1 as [|i l Hi _ IH]; [done|]. rewrite fmap_cons. cbn [concat length].
  rewrite length_app, length_write_info, IH by done. lia.
Qed.

#[export] Instance bincode_data_map_laws : CodecLaws bincode VersionedDataMap.
Proof.
  split. intros [ver l c] b. cbn [ser de bincode_data_map v_chunk_identifiers v_child version].
  destruct (decide _) as [(Hv & Hl & Hn & Hc)|]; [|done]. intros Hb%(inj Some). subst b.
  cbn [v_chunk_identifiers v_child child chunk_identifiers] in *.
  rewrite take_bytes_app by done. cbn [mbind option_bind].
  rewrite read_u64_app by done. cbn [mbind option_bind].
  assert ((lenZ l <=? lenZ (concat (write_info <$> l) ++ write_child c)) = true) as ->.
  { apply Z.leb_le. rewrite lenZ_app. unfold lenZ. rewrite length_write_infos by done. lia. }
  replace (Z.to_nat (lenZ l)) with (length l) by (unfold lenZ; lia).
  rewrite read_infos_app by done. cbn [mbind option_bind].
  rewrite (from_le_bytes 1) by (cbn in *; lia).
  destruct c as [c|]; [|done]. cbn [write_child read_child].
  rewrite <- (app_nil_r (le_bytes 8 c)), read_u64_app by done. done.
Qed.

#[export] Instance bincode_data_map_size : DataMapSize.
Proof.
  split. intros [l c] b. unfold to_bytes, to_versioned. cbn [ser bincode_data_map].
  destruct (decide _) as [(Hv & Hl & Hn & Hc)|]; [|done]. intros Hb%(inj Some). subst b.
  cbn [v_chunk_identifiers v_child child chunk_identifiers] in *.
  unfold DataMap.len. cbn [chunk_identifiers]. unfold lenZ.
  rewrite !length_app, !length_le_bytes, length_write_infos by done.
  destruct c as [c|]; cbn [write_child length]; rewrite ?length_le_bytes; lia.
Qed.

Lemma bincode_data_map_total dm : map_wf dm -> is_Some (to_bytes dm).
Proof.
  intros Hw. unfold to_bytes. cbn [ser bincode_data_map]. rewrite decide_True; [eauto|].
  split; [done|]. by destruct dm.
Qed.

(** ** A least-recently-used cache

    Entries from the most to the least recently used. *)

Section LruList.
Context {K V : Type} `{!EqDecision K}.

Record lru_list := mkLru { lru_capacity : Z; lru_entries : list (K * V) }.

Fixpoint assoc (l : list (K * V)) (k : K) : option V :=
  match l with
  | [] => None
  | (k', v) :: l' => if decide (k' = k) then Some v else assoc l' k
  end.

Definition remove_key (l : list (K * V)) (k : K) : list (K * V) :=
  filter (fun p => p.1 <> k) l.

Lemma assoc_remove_same l k : assoc (remove_key l k) k = None.
Proof.
  unfold remove_key. induction l as [|[k' v] l IH]; [done|]. rewrite filter_cons. cbn.
  destruct (decide (k' <> k)); [|done]. cbn. by rewrite decide_False.
Qed.

Lemma assoc_remove_other l k k' : k' <> k -> assoc (remove_key l k) k' = assoc l k'.
Proof.
  intros Hk. unfold remove_key. induction l as [|[k0 v] l IH]; [done|]. rewrite filter_cons. cbn.
  destruct (decide (k0 <> k)); cbn.
  - by destruct (decide (k0 = k')).
  - destruct (decide (k0 = k')) as [->|]; [|done]. by destruct n.
Qed.

Lemma assoc_take n l k v : assoc (take n l) k = Some v -> assoc l k = Some v.
Proof.
  revert n. induction l as [|[k' w] l IH]; intros [|n]; cbn; try done.
  destruct (decide (k' = k)); [done|]. apply IH.
Qed.

Lemma length_remove_key l k : (length (remove_key l k) <= length l)%nat.
Proof. apply length_filter. Qed.

Lemma length_remove_present l k v :
  assoc l k = Some v -> (length (remove_key l k) < length l)%nat.
Proof.
  unfold remove_key. induction l as [|[k' w] l IH]; [done|]. rewrite filter_cons. cbn.
  destruct (decide (k' = k)) as [->|Hn].
  - rewrite decide_False by (intros Hx; by apply Hx).
    intros _. pose proof (length_remove_key l k). unfold remove_key in *. lia.
  - rewrite decide_True by done. intros H%IH. cbn. lia.
Qed.

End LruList.
Arguments lru_list : clear implicits.

#[export] Instance lru_list_lru {K V} `{!EqDecision K} : Lru K V := {|
  lru := lru_list K V;
  lru_new cap := mkLru cap [];
  lru_peek l k := assoc (lru_entries l) k;
  lru_get l k :=
    match assoc (lru_entries l) k with
    | Some v => (Some v, mkLru (lru_capacity l) ((k, v) :: remove_key (lru_entries l) k))
    | None => (None, l)
    end;
  lru_put l k v :=
    mkLru (lru_capacity l)
      (take (Z.to_nat (lru_capacity l)) ((k, v) :: remove_key (lru_entries l) k));
  lru_pop l k := mkLru (lru_capacity l) (remove_key (lru_entries l) k);
  lru_clear l := mkLru (lru_capacity l) [];
  lru_len l := lenZ (lru_entries l);
  lru_cap l := lru_capacity l
|}.

#[export] Instance lru_list_laws {K V} `{!EqDecision K} : LruLaws K V.
Proof.
  split; cbn.
  - done.
  - done.
  - done.
  - intros l k. by destruct (assoc _ _).
  - intros l k k'. destruct (assoc (lru_entries l) k) as [v|] eqn:E; [|done]. cbn.
    destruct (decide (k = k')) as [<-|]; [done|]. by apply assoc_remove_other.
  - intros l k. destruct (assoc (lru_entries l) k) as [v|] eqn:E; cbn; [|lia].
    pose proof (length_remove_present _ _ _ E). unfold lenZ. cbn. lia.
  - intros l k. by destruct (assoc _ _).
  - intros l k v Hc. destruct (Z.to_nat _) eqn:E; [lia|]. cbn. by rewrite decide_True.
  - intros l k v v'. destruct (Z.to_nat _); cbn; [done|]. rewrite decide_True by done. by intros [= <-].
  - intros l k v k' v' Hk. intros H%assoc_take. cbn in H.
    rewrite decide_False in H by done. by rewrite assoc_remove_other in H.
  - intros l k v Hc _. unfold lenZ. rewrite length_take. lia.
  - done.
  - intros l k. apply assoc_remove_same.
  - intros l k k' Hk. by apply assoc_remove_other.
  - done.
  - done.
  - done.
  - done.
Qed.

(** ** A codec for a table of values *)

Section Table.
Context {A : Type} `{!EqDecision A}.

Definition swap_pair {X Y} (p : X * Y) : Y * X := (p.2, p.1).

Definition table_codec {f} (tbl : list (A * bytes)) : Codec f A := {|
  ser a := assoc tbl a;
  de b := assoc (swap_pair <$> tbl) b
|}.

Lemma assoc_in {K V} `{!EqDecision K} (l : list (K * V)) k v : assoc l k = Some v -> (k, v) ∈ l.
Proof.
  induction l as [|[k' w] l IH]; cbn; [done|]. destruct (decide (k' = k)) as [->|].
  - intros [= ->]. by left.
  - intros Hk. right. auto.
Qed.

Lemma table_codec_laws {f} (tbl : list (A * bytes)) :
  NoDup (snd <$> tbl) -> @CodecLaws f A (table_codec tbl).
Proof.
  intros Hn. split. cbn. intros a b Ha. induction tbl as [|[a' b'] tbl IH]; [done|].
  cbn in *. apply NoDup_cons in Hn as [Hb' Hn]. destruct (decide (a' = a)) as [->|].
  - injection Ha as ->. by rewrite decide_True.
  - rewrite decide_False; [by apply IH|]. intros ->. apply Hb'.
    apply list_elem_of_fmap. exists (a, b). split; [done|]. by apply assoc_in.
Qed.

End Table.
