(* ===== verification/Encrypt.v ===== *)
(** * Encryption of a file and shrinking of its data map

    [self_encryption/src/lib.rs]: [encrypt], [encrypt_with_child_level] and
    [shrink_data_map].  The last two call each other; they take fuel, and
    [None] is the outcome of running out of it, which [encrypt_terminates]
    excludes for the fuel [encrypt] passes. *)

From Stdlib Require Import ZArith Lia.
From stdpp Require Import base list strings.
From S2P Require Import Prelude Interfaces ChunkMath Cipher DataMap.

Local Open Scope Z_scope.

(** An [EncryptedChunk] is its [content]. *)
Abbreviation EncryptedChunk := bytes (only parsing).

Section Encrypt.
Context `{Config, Blake3, Aead, Brotli, !Codec bincode VersionedDataMap}.

(** *** The loops of [encrypt_with_child_level] *)

Record enc_state := mkEnc {
  e_chunk_infos : list ChunkInfo;
  e_first_chunks : list (Z * bytes * XorName * Z);
  e_src_hashes : list XorName;
  e_encrypted_chunks : list EncryptedChunk
}.

Definition enc_init : enc_state := mkEnc [] [] [] [].

(** One iteration of "Process all chunks". *)
Definition enc_step (data : bytes) (child_level : Z) (st : enc_state) (chunk_index : Z)
    : result Error enc_state :=
  let '(s, e) := get_start_end_positions (lenZ data) chunk_index in
  let chunk_data := slice data s e in
  let src := content_hash chunk_data in
  let src_hashes := e_src_hashes st ++ [src] in
  if chunk_index <? 2 then
    Ok {| e_chunk_infos := e_chunk_infos st;
          e_first_chunks := e_first_chunks st ++ [(chunk_index, chunk_data, src, e - s)];
          e_src_hashes := src_hashes;
          e_encrypted_chunks := e_encrypted_chunks st |}
  else
    pki ← get_pad_key_and_nonce chunk_index src_hashes child_level;
    encrypted_content ← encrypt_chunk chunk_data pki;
    Ok {| e_chunk_infos := e_chunk_infos st ++
            [{| index := chunk_index; dst_hash := content_hash encrypted_content;
                src_hash := src; src_size := e - s |}];
          e_first_chunks := e_first_chunks st;
          e_src_hashes := src_hashes;
          e_encrypted_chunks := e_encrypted_chunks st ++ [encrypted_content] |}.

(** One iteration of "process the first two chunks". *)
Definition enc_first_step (src_hashes : list XorName) (child_level : Z)
    (acc : list EncryptedChunk * list ChunkInfo) (c : Z * bytes * XorName * Z)
    : result Error (list EncryptedChunk * list ChunkInfo) :=
  let '(encrypted_chunks, chunk_infos) := acc in
  let '(chunk_index, chunk_data, src, size) := c in
  pki ← get_pad_key_and_nonce chunk_index src_hashes child_level;
  encrypted_content ← encrypt_chunk chunk_data pki;
  Ok (vec_insert (Z.to_nat chunk_index) encrypted_content encrypted_chunks,
      vec_insert (Z.to_nat chunk_index)
        {| index := chunk_index; dst_hash := content_hash encrypted_content;
           src_hash := src; src_size := size |} chunk_infos).

(** [encrypt_with_child_level] up to the data map before shrinking. *)
Definition encrypt_chunks (data : bytes) (child_level : Z)
    : result Error (DataMap * list EncryptedChunk) :=
  let file_size := lenZ data in
  if file_size <? MIN_ENCRYPTABLE_BYTES
  then Err (Generic "Too small for self-encryption! Required size at least {MIN_ENCRYPTABLE_BYTES}")
  else
    let num_chunks := get_num_chunks file_size in
    if num_chunks <? 3
    then Err (Generic "File must be large enough to generate at least 3 chunks")
    else
      st ← try_fold (enc_step data child_level) enc_init (rangeZ num_chunks);
      '(encrypted_chunks, chunk_infos) ←
        try_fold (enc_first_step (e_src_hashes st) child_level)
          (e_encrypted_chunks st, e_chunk_infos st) (e_first_chunks st);
      Ok (DataMap.new chunk_infos, encrypted_chunks).

(** *** The mutual recursion *)

Fixpoint encrypt_with_child_level (fuel : nat) (data : bytes) (child_level : Z) {struct fuel}
    : option (result Error (DataMap * list EncryptedChunk)) :=
  match fuel with
  | O => None
  | S fuel' =>
    match encrypt_chunks data child_level with
    | Err e => Some (Err e)
    | Ok (data_map, encrypted_chunks) =>
      (* the closure pushes each content onto [encrypted_chunks] *)
      match shrink_data_map fuel' (list EncryptedChunk)
              (fun st (_ : XorName) (content : bytes) => Ok (st ++ [content]))
              data_map encrypted_chunks with
      | None => None
      | Some (Err e) => Some (Err e)
      | Some (Ok (encrypted_chunks', shrunk_data_map, _)) =>
          Some (Ok (shrunk_data_map, encrypted_chunks'))
      end
    end
  end
with shrink_data_map (fuel : nat) (St : Type)
    (store_chunk : St -> XorName -> bytes -> result Error St)
    (data_map : DataMap) (st : St) {struct fuel}
    : option (result Error (St * DataMap * list EncryptedChunk)) :=
  match fuel with
  | O => None
  | S fuel' =>
    if DataMap.len data_map <=? 3 then Some (Ok (st, data_map, []))
    else
      let next_child_level := match child data_map with None => 1 | Some c => c + 1 end in
      match to_bytes data_map with
      | None => Some (Err (Generic "Failed to serialize data map: {e}"))
      | Some bs =>
        match encrypt_with_child_level fuel' bs next_child_level with
        | None => None
        | Some (Err e) => Some (Err e)
        | Some (Ok (new_data_map, encrypted_chunks)) =>
          match try_fold (fun st content => store_chunk st (content_hash content) content)
                  st encrypted_chunks with
          | Err e => Some (Err e)
          | Ok st' =>
            let new_data_map := DataMap.with_child (DataMap.infos new_data_map) next_child_level in
            match shrink_data_map fuel' St store_chunk new_data_map st' with
            | Some (Ok (st'', dm, cs)) => Some (Ok (st'', dm, encrypted_chunks ++ cs))
            | r => r
            end
          end
        end
      end
  end.

(** Fuel that is enough for a file of this many bytes. *)
Definition encrypt_fuel (file_size : Z) : nat := Z.to_nat (2 * get_num_chunks file_size + 4).

Definition encrypt (data : bytes) : option (result Error (DataMap * list EncryptedChunk)) :=
  encrypt_with_child_level (encrypt_fuel (lenZ data)) data 0.

End Encrypt.

(** ** Lemmas *)

Section EncryptFacts.
Context `{Config, Blake3, Aead, Brotli, !Codec bincode VersionedDataMap}.

(** *** What the loops compute

    The reference description: all source hashes first, then each chunk under
    the key its index and the hashes determine. *)

Definition src_hashes_upto (data : bytes) (k : Z) : list XorName :=
  (fun i => content_hash (chunk_slice data i)) <$> rangeZ k.

Definition all_src_hashes (data : bytes) : list XorName :=
  src_hashes_upto data (get_num_chunks (lenZ data)).

Definition encrypt_one (data : bytes) (child_level i : Z) : result Error EncryptedChunk :=
  pki ← get_pad_key_and_nonce i (all_src_hashes data) child_level;
  encrypt_chunk (chunk_slice data i) pki.

Definition info_of (data : bytes) (i : Z) (enc : EncryptedChunk) : ChunkInfo :=
  {| index := i; dst_hash := content_hash enc;
     src_hash := content_hash (chunk_slice data i);
     src_size := (get_start_end_positions (lenZ data) i).2
                 - (get_start_end_positions (lenZ data) i).1 |}.

Definition later_indices (k : Z) : list Z := (fun i => 2 + i) <$> rangeZ (k - 2).

Lemma later_indices_succ k : 2 <= k -> later_indices (k + 1) = later_indices k ++ [k].
Proof.
  intros Hk. unfold later_indices. replace (k + 1 - 2) with (k - 2 + 1) by lia.
  rewrite rangeZ_succ, fmap_app by lia. simpl. do 2 f_equal. lia.
Qed.

Lemma rangeZ_later n : 2 <= n -> rangeZ n = 0 :: 1 :: later_indices n.
Proof. intros Hn. by rewrite (rangeZ_split 2 n) by lia. Qed.

Lemma src_hashes_upto_succ data k :
  0 <= k -> src_hashes_upto data (k + 1) = src_hashes_upto data k ++ [content_hash (chunk_slice data k)].
Proof. intros Hk. unfold src_hashes_upto. by rewrite rangeZ_succ, fmap_app. Qed.

Lemma lenZ_src_hashes_upto data k : 0 <= k -> lenZ (src_hashes_upto data k) = k.
Proof. intros Hk. unfold lenZ, src_hashes_upto. rewrite length_fmap, length_rangeZ. lia. Qed.

Lemma src_hashes_upto_prefix data k :
  0 <= k <= get_num_chunks (lenZ data) ->
  exists rest, all_src_hashes data = src_hashes_upto data k ++ rest.
Proof.
  intros Hk. unfold all_src_hashes, src_hashes_upto. rewrite (rangeZ_split k _ Hk).
  rewrite fmap_app. eauto.
Qed.

Lemma key_from_prefix data lvl k :
  2 <= k < get_num_chunks (lenZ data) ->
  get_pad_key_and_nonce k (src_hashes_upto data (k + 1)) lvl =
  get_pad_key_and_nonce k (all_src_hashes data) lvl.
Proof.
  intros Hk. destruct (src_hashes_upto_prefix data (k + 1)) as [rest ->]; [lia|].
  symmetry. apply get_pad_key_and_nonce_prefix; [lia|]. apply lenZ_src_hashes_upto. lia.
Qed.

Definition first_chunk (data : bytes) (i : Z) : Z * bytes * XorName * Z :=
  (i, chunk_slice data i, content_hash (chunk_slice data i),
   (get_start_end_positions (lenZ data) i).2 - (get_start_end_positions (lenZ data) i).1).

Definition enc_state_after (data : bytes) (k : Z) (cs : list EncryptedChunk) : enc_state := {|
  e_chunk_infos := zip_with (info_of data) (later_indices k) cs;
  e_first_chunks := [first_chunk data 0; first_chunk data 1];
  e_src_hashes := src_hashes_upto data k;
  e_encrypted_chunks := cs |}.

Lemma enc_step_later data lvl st k :
  2 <= k ->
  enc_step data lvl st k =
  (c ← (pki ← get_pad_key_and_nonce k
           (e_src_hashes st ++ [content_hash (chunk_slice data k)]) lvl;
        encrypt_chunk (chunk_slice data k) pki);
   Ok {| e_chunk_infos := e_chunk_infos st ++ [info_of data k c];
         e_first_chunks := e_first_chunks st;
         e_src_hashes := e_src_hashes st ++ [content_hash (chunk_slice data k)];
         e_encrypted_chunks := e_encrypted_chunks st ++ [c] |}).
Proof.
  intros Hk. unfold enc_step, info_of, chunk_slice.
  assert ((k <? 2) = false) as -> by lia.
  destruct (get_start_end_positions (lenZ data) k) as [s e].
  unfold mbind, result_bind. destruct (get_pad_key_and_nonce _ _ _); [|done].
  by destruct (encrypt_chunk _ _).
Qed.

Lemma enc_loop data lvl k :
  2 <= k <= get_num_chunks (lenZ data) ->
  try_fold (enc_step data lvl) enc_init (rangeZ k) =
  (cs ← try_map (encrypt_one data lvl) (later_indices k); Ok (enc_state_after data k cs)).
Proof.
  intros [Hk Hn]. revert Hn.
  replace k with (2 + (k - 2)) by lia. assert (Hk' : 0 <= k - 2) by lia.
  revert Hk'. generalize (k - 2). intros j Hj. pattern j. apply natlike_ind; [| |done]; clear k Hk j Hj.
  - intros _. replace (2 + 0) with 2 by lia.
    change (rangeZ 2) with [0; 1]. unfold later_indices. simpl.
    unfold enc_step, enc_state_after, first_chunk, chunk_slice, src_hashes_upto.
    change (rangeZ 2) with [0; 1]. simpl. unfold chunk_slice.
    destruct (get_start_end_positions (lenZ data) 0) as [s0 e0].
    destruct (get_start_end_positions (lenZ data) 1) as [s1 e1]. simpl. done.
  - intros j Hj IH Hn. replace (2 + Z.succ j) with (2 + j + 1) in * by lia.
    specialize (IH ltac:(lia)). remember (2 + j) as k eqn:Ek.
    rewrite rangeZ_succ, later_indices_succ, try_fold_app, try_map_app, IH by lia.
    unfold mbind, result_bind.
    destruct (try_map (encrypt_one data lvl) (later_indices k)) as [cs|err] eqn:Ecs; [|done].
    apply try_map_length in Ecs. cbn [try_map try_fold].
    rewrite enc_step_later by lia. cbn [enc_state_after e_src_hashes e_chunk_infos e_first_chunks e_encrypted_chunks].
    rewrite <- src_hashes_upto_succ by lia. unfold encrypt_one.
    rewrite key_from_prefix by lia.
    unfold mbind, result_bind, mret, result_ret.
    destruct (get_pad_key_and_nonce k _ lvl) as [pki|]; [|done].
    destruct (encrypt_chunk _ pki) as [c|]; [|done].
    unfold enc_state_after. rewrite later_indices_succ by lia.
    by rewrite zip_with_app.
Qed.

(** The data map of a file whose encrypted chunks are [cs]. *)
Definition file_map (data : bytes) (cs : list EncryptedChunk) : DataMap := {|
  chunk_identifiers := zip_with (info_of data) (rangeZ (get_num_chunks (lenZ data))) cs;
  child := None |}.

Lemma file_map_new data cs :
  DataMap.new (zip_with (info_of data) (rangeZ (get_num_chunks (lenZ data))) cs) = file_map data cs.
Proof.
  unfold DataMap.new, file_map. f_equal. apply sort_by_key_id.
  apply key_sorted_zip_with; [done|apply rangeZ_sorted].
Qed.

Context (HM : 1 <= MAX_CHUNK_SIZE).

(** The two loops compute the reference description, errors included: the
    chunks from the third on are encrypted first, then the first two. *)
Lemma encrypt_chunks_eq data lvl :
  MIN_ENCRYPTABLE_BYTES <= lenZ data ->
  encrypt_chunks data lvl =
  (cs ← try_map (encrypt_one data lvl) (later_indices (get_num_chunks (lenZ data)));
   c0 ← encrypt_one data lvl 0;
   c1 ← encrypt_one data lvl 1;
   Ok (file_map data (c0 :: c1 :: cs), c0 :: c1 :: cs)).
Proof.
  intros Hd. pose proof (num_chunks_ge_3 HM _ Hd) as Hn. unfold encrypt_chunks.
  assert ((lenZ data <? MIN_ENCRYPTABLE_BYTES) = false) as -> by lia.
  assert ((get_num_chunks (lenZ data) <? 3) = false) as -> by lia.
  rewrite enc_loop by lia. unfold mbind, result_bind.
  destruct (try_map _ _) as [cs|] eqn:Ecs; [|done].
  cbn [enc_state_after e_first_chunks e_src_hashes e_encrypted_chunks e_chunk_infos try_fold].
  unfold enc_first_step, first_chunk, encrypt_one. fold (all_src_hashes data).
  unfold mbind, result_bind.
  destruct (get_pad_key_and_nonce 0 _ lvl) as [pki0|]; [|done].
  destruct (encrypt_chunk (chunk_slice data 0) pki0) as [c0|]; [|done].
  destruct (get_pad_key_and_nonce 1 _ lvl) as [pki1|]; [|done].
  destruct (encrypt_chunk (chunk_slice data 1) pki1) as [c1|]; [|done].
  rewrite <- file_map_new, rangeZ_later by lia. done.
Qed.

Lemma encrypt_chunks_Ok data lvl dm cs :
  encrypt_chunks data lvl = Ok (dm, cs) ->
  MIN_ENCRYPTABLE_BYTES <= lenZ data /\ dm = file_map data cs /\
  Forall2 (fun i c => encrypt_one data lvl i = Ok c) (rangeZ (get_num_chunks (lenZ data))) cs.
Proof.
  intros He. assert (Hd : MIN_ENCRYPTABLE_BYTES <= lenZ data).
  { unfold encrypt_chunks in He.
    destruct (lenZ data <? MIN_ENCRYPTABLE_BYTES) eqn:?; [done|]. by b2p. }
  split; [done|]. rewrite encrypt_chunks_eq in He by done.
  pose proof (num_chunks_ge_3 HM _ Hd). rewrite rangeZ_later by lia.
  inv_bind He. simplify_eq. split; [done|]. do 2 (constructor; [done|]).
  by apply try_map_Ok_Forall2.
Qed.

Lemma encrypt_chunks_length data lvl dm cs :
  encrypt_chunks data lvl = Ok (dm, cs) ->
  lenZ cs = get_num_chunks (lenZ data) /\ DataMap.len dm = get_num_chunks (lenZ data) /\
  child dm = None.
Proof.
  intros (Hd & -> & Hf)%encrypt_chunks_Ok. pose proof (num_chunks_ge_3 HM _ Hd).
  apply Forall2_length in Hf. rewrite length_rangeZ in Hf.
  unfold file_map, DataMap.len, lenZ in *. cbn [chunk_identifiers child]. rewrite length_zip_with, length_rangeZ.
  split; [|split]; [lia|lia|done].
Qed.

(** *** The shrunk map *)

Lemma encrypt_with_child_level_S fuel data lvl :
  encrypt_with_child_level (S fuel) data lvl =
  match encrypt_chunks data lvl with
  | Err e => Some (Err e)
  | Ok (data_map, encrypted_chunks) =>
    match shrink_data_map fuel (list EncryptedChunk)
            (fun st (_ : XorName) (content : bytes) => Ok (st ++ [content]))
            data_map encrypted_chunks with
    | None => None
    | Some (Err e) => Some (Err e)
    | Some (Ok (encrypted_chunks', shrunk_data_map, _)) =>
        Some (Ok (shrunk_data_map, encrypted_chunks'))
    end
  end.
Proof. reflexivity. Qed.

Lemma shrink_big fuel St (store : St -> XorName -> bytes -> result Error St) dm st :
  3 < DataMap.len dm ->
  let lvl := match child dm with None => 1 | Some c => c + 1 end in
  shrink_data_map (S fuel) St store dm st =
  match to_bytes dm with
  | None => Some (Err (Generic "Failed to serialize data map: {e}"))
  | Some bs =>
    match encrypt_with_child_level fuel bs lvl with
    | None => None
    | Some (Err e) => Some (Err e)
    | Some (Ok (new_data_map, encrypted_chunks)) =>
      match try_fold (fun st content => store st (content_hash content) content)
              st encrypted_chunks with
      | Err e => Some (Err e)
      | Ok st' =>
        match shrink_data_map fuel St store
                (DataMap.with_child (DataMap.infos new_data_map) lvl) st' with
        | Some (Ok (st'', dm, cs)) => Some (Ok (st'', dm, encrypted_chunks ++ cs))
        | r => r
        end
      end
    end
  end.
Proof.
  intros Hl. cbn [shrink_data_map]. by assert ((DataMap.len dm <=? 3) = false) as -> by lia.
Qed.

Lemma shrink_small fuel St (store : St -> XorName -> bytes -> result Error St) dm st :
  DataMap.len dm <= 3 -> shrink_data_map (S fuel) St store dm st = Some (Ok (st, dm, [])).
Proof. intros Hl. simpl. by assert ((DataMap.len dm <=? 3) = true) as -> by lia. Qed.

Lemma with_child_len keys c : DataMap.len (DataMap.with_child keys c) = lenZ keys.
Proof. unfold DataMap.len, DataMap.with_child, lenZ. simpl. by rewrite length_sort_by_key. Qed.

(** Whatever [encrypt_with_child_level] or [shrink_data_map] return has at most
    three chunks. *)
Lemma shrunk_at_most_three fuel :
  (forall data lvl dm cs,
     encrypt_with_child_level fuel data lvl = Some (Ok (dm, cs)) -> DataMap.len dm <= 3) /\
  (forall St store dm (st st' : St) dm' cs,
     shrink_data_map fuel St store dm st = Some (Ok (st', dm', cs)) -> DataMap.len dm' <= 3).
Proof.
  induction fuel as [|fuel [IHe IHs]]; [done|]. split.
  - intros data lvl dm cs. simpl. destruct (encrypt_chunks data lvl) as [[dm0 cs0]|]; [|done].
    destruct (shrink_data_map fuel _ _ dm0 cs0) as [[[[st' dm'] x]|]|] eqn:E; try done.
    intros [= <- <-]. eapply IHs, E.
  - intros St store dm st st' dm' cs. simpl.
    destruct (DataMap.len dm <=? 3) eqn:Hl; [intros [= <- <- <-]; by b2p|].
    destruct (to_bytes dm); [|done].
    destruct (encrypt_with_child_level fuel _ _) as [[[nm ncs]|]|]; try done.
    destruct (try_fold _ st ncs); [|done].
    destruct (shrink_data_map fuel St store _ _) as [[[[st1 dm1] x]|]|] eqn:E; try done.
    intros [= <- <- <-]. eapply IHs, E.
Qed.

End EncryptFacts.
