(* ===== verification/Decrypt.v ===== *)
(** * Decryption of a file from its data map

    [self_encryption/src/decrypt.rs] ([decrypt_sorted_set]) and
    [self_encryption/src/lib.rs] ([decrypt_full_set], [get_root_data_map] and
    its parallel variant, [decrypt], [decrypt_range]). *)

From Stdlib Require Import ZArith Lia.
From stdpp Require Import base list strings gmap.
From S2P Require Import Prelude Interfaces ChunkMath Cipher DataMap Encrypt.

Local Open Scope Z_scope.

Section Decrypt.
Context `{Config, Blake3, Aead, Brotli, !Codec bincode VersionedDataMap}.

Definition decrypt_sorted_set (src_hashes : list XorName)
    (encrypted_chunks : list EncryptedChunk) (child_level : Z) : result Error bytes :=
  decrypted_chunks ← try_map
    (fun '(chunk_index, chunk) => decrypt_chunk chunk_index chunk src_hashes child_level)
    (enumerate encrypted_chunks);
  Ok (concat decrypted_chunks).

(** [chunks.iter().map(|c| (content_hash(&c.content), c)).collect()]: a later
    chunk with the same hash replaces an earlier one. *)
Definition chunk_map_of (chunks : list EncryptedChunk) : gmap XorName EncryptedChunk :=
  foldl (fun m chunk => <[content_hash chunk := chunk]> m) ∅ chunks.

Definition child_level_of (dm : DataMap) : Z :=
  match child dm with Some c => c | None => 0 end.

Definition decrypt_full_set (data_map : DataMap) (chunks : list EncryptedChunk)
    : result Error bytes :=
  let src_hashes := extract_hashes data_map in
  let chunk_map := chunk_map_of chunks in
  sorted_chunks ← try_map
    (fun info => ok_or (chunk_map !! dst_hash info)
       (Generic "Chunk with hash {:?} not found in data map"))
    (DataMap.infos data_map);
  decrypt_sorted_set src_hashes sorted_chunks (child_level_of data_map).

Definition decrypt_range (data_map : DataMap) (chunks : list EncryptedChunk)
    (file_pos len : Z) : result Error bytes :=
  let src_hashes := extract_hashes data_map in
  let chunk_map := chunk_map_of chunks in
  let file_size := DataMap.original_file_size data_map in
  let start_chunk := get_chunk_index file_size file_pos in
  let end_pos := Z.min (wadd file_pos len) file_size in
  let end_chunk := get_chunk_index file_size end_pos in
  sorted_chunks ← try_map
    (fun info => ok_or (chunk_map !! dst_hash info)
       (Generic "Chunk with hash {:?} not found in data map"))
    (filter (fun info => start_chunk <= index info /\ index info <= end_chunk)
       (DataMap.infos data_map));
  decrypted ← try_map
    (fun '(idx, chunk) =>
       decrypt_chunk (start_chunk + idx) chunk src_hashes (child_level_of data_map))
    (enumerate sorted_chunks);
  let bs := concat decrypted in
  let chunk_start_pos := get_start_position file_size start_chunk in
  let internal_offset := file_pos - chunk_start_pos in
  if lenZ bs <=? internal_offset then Ok []
  else
    let available_len := lenZ bs - internal_offset in
    let range_len := Z.min len available_len in
    Ok (slice bs internal_offset (internal_offset + range_len)).

(** *** Finding the root map

    [get_chunk] is a stateful retrieval function; the chunk cache makes every
    hash be retrieved at most once.  [levels] is [101 - depth]. *)
Section Root.
Context {St : Type} (get_chunk : St -> XorName -> result Error (bytes * St)).

Definition fetch_cached (acc : list EncryptedChunk * gmap XorName bytes * St)
    (chunk_info : ChunkInfo) : result Error (list EncryptedChunk * gmap XorName bytes * St) :=
  let '(encrypted_chunks, chunk_cache, st) := acc in
  match chunk_cache !! dst_hash chunk_info with
  | Some cached => Ok (encrypted_chunks ++ [cached], chunk_cache, st)
  | None =>
      '(data, st') ← get_chunk st (dst_hash chunk_info);
      Ok (encrypted_chunks ++ [data], <[dst_hash chunk_info := data]> chunk_cache, st')
  end.

Fixpoint inner_get_root_map (levels : nat) (data_map : DataMap)
    (chunk_cache : gmap XorName bytes) (st : St)
    : result Error (DataMap * gmap XorName bytes * St) :=
  match levels with
  | O => Err (Generic "Maximum data map recursion depth exceeded")
  | S levels' =>
    if negb (DataMap.is_child data_map) then Ok (data_map, chunk_cache, st)
    else
      '(encrypted_chunks, chunk_cache, st) ←
        try_fold fetch_cached ([], chunk_cache, st) (DataMap.infos data_map);
      decrypted_bytes ← decrypt_full_set data_map encrypted_chunks;
      parent_data_map ← ok_or (from_bytes decrypted_bytes)
        (Generic "Failed to deserialize data map: {e}");
      inner_get_root_map levels' parent_data_map chunk_cache st
  end.

Definition get_root_data_map (data_map : DataMap) (st : St) : result Error (DataMap * St) :=
  '(dm, _, st') ← inner_get_root_map 101 data_map ∅ st;
  Ok (dm, st').

End Root.

(** The parallel variant: missing hashes are requested together; answers are
    paired with the requests by position. *)
Section RootParallel.
Context (get_chunk_parallel : list (Z * XorName) -> result Error (list (Z * bytes))).

Fixpoint inner_get_root_map_parallel (levels : nat) (data_map : DataMap)
    (chunk_cache : gmap XorName bytes) : result Error DataMap :=
  match levels with
  | O => Err (Generic "Maximum data map recursion depth exceeded")
  | S levels' =>
    if negb (DataMap.is_child data_map) then Ok data_map
    else
      let missing_hashes :=
        filter (fun p => chunk_cache !! p.2 = None)
          ((fun info => (index info, dst_hash info)) <$> DataMap.infos data_map) in
      chunk_cache ←
        (if decide (missing_hashes = []) then Ok chunk_cache
         else
           new_chunks ← get_chunk_parallel missing_hashes;
           Ok (foldl (fun m '((_, hash), (_, chunk_data)) => <[hash := chunk_data]> m)
                 chunk_cache (zip missing_hashes new_chunks)));
      encrypted_chunks ← try_map
        (fun info => ok_or (chunk_cache !! dst_hash info)
           (Generic "Chunk not found for hash: {dst_hash:?}"))
        (DataMap.infos data_map);
      decrypted_bytes ← decrypt_full_set data_map encrypted_chunks;
      parent_data_map ← ok_or (from_bytes decrypted_bytes)
        (Generic "Failed to deserialize data map: {e}");
      inner_get_root_map_parallel levels' parent_data_map chunk_cache
  end.

Definition get_root_data_map_parallel (data_map : DataMap) : result Error DataMap :=
  inner_get_root_map_parallel 101 data_map ∅.

End RootParallel.

(** The retrieval closure of [decrypt]. *)
Definition lookup_chunk (chunk_map : gmap XorName EncryptedChunk) (st : unit) (hash : XorName)
    : result Error (bytes * unit) :=
  data ← ok_or (chunk_map !! hash) (Generic "Chunk not found for hash: {hash:?}");
  Ok (data, st).

Definition decrypt (data_map : DataMap) (chunks : list EncryptedChunk) : result Error bytes :=
  let chunk_map := chunk_map_of chunks in
  root_map ←
    (if DataMap.is_child data_map
     then '(dm, _) ← get_root_data_map (lookup_chunk chunk_map) data_map tt; Ok dm
     else Ok data_map);
  root_chunks ← try_map
    (fun info => ok_or (chunk_map !! dst_hash info) (Generic "Missing chunk: {}"))
    (DataMap.infos root_map);
  decrypt_full_set root_map root_chunks.

(** No two chunks of a set have the same hash and different contents. *)
Definition collision_free (chunks : list bytes) : Prop :=
  forall a b, a ∈ chunks -> b ∈ chunks -> content_hash a = content_hash b -> a = b.

End Decrypt.

(** ** Lemmas *)

Section DecryptFacts.
Context `{Config, Blake3, Aead, Brotli, !Codec bincode VersionedDataMap}.
Context `{!Blake3Laws, !AeadLaws, !BrotliLaws, !CodecLaws bincode VersionedDataMap}.
Lemma inner_get_root_map_S {St} (get : St -> XorName -> result Error (bytes * St))
    levels dm cache st :
  DataMap.is_child dm = true ->
  inner_get_root_map get (S levels) dm cache st =
  ('(encrypted_chunks, chunk_cache, st) ←
     try_fold (fetch_cached get) ([], cache, st) (DataMap.infos dm);
   decrypted_bytes ← decrypt_full_set dm encrypted_chunks;
   parent_data_map ← ok_or (from_bytes decrypted_bytes)
     (Generic "Failed to deserialize data map: {e}");
   inner_get_root_map get levels parent_data_map chunk_cache st).
Proof. intros Hc. cbn [inner_get_root_map]. by rewrite Hc. Qed.

Lemma chunk_map_of_sound chunks h c :
  chunk_map_of chunks !! h = Some c -> c ∈ chunks /\ content_hash c = h.
Proof.
  unfold chunk_map_of. induction chunks as [|x chunks IH] using rev_ind; [done|].
  rewrite foldl_snoc. intros [[<- <-]|[? Hl]]%lookup_insert_Some.
  - split; [set_solver|done].
  - destruct (IH Hl). set_solver.
Qed.

Lemma chunk_map_of_complete chunks c :
  c ∈ chunks -> is_Some (chunk_map_of chunks !! content_hash c).
Proof.
  unfold chunk_map_of. induction chunks as [|x chunks IH] using rev_ind; [by intros ?%not_elem_of_nil|].
  rewrite foldl_snoc. intros Hc. destruct (decide (content_hash x = content_hash c)) as [->|].
  - rewrite lookup_insert_eq. eauto.
  - rewrite lookup_insert_ne by done. apply IH. set_solver.
Qed.

Lemma chunk_map_of_lookup chunks c :
  collision_free chunks -> c ∈ chunks -> chunk_map_of chunks !! content_hash c = Some c.
Proof.
  intros Hcf Hc. destruct (chunk_map_of_complete _ _ Hc) as [c' Hc'].
  destruct (chunk_map_of_sound _ _ _ Hc') as [Hin Hh]. rewrite Hc'. f_equal. by apply Hcf.
Qed.

Lemma collision_free_subset l1 l2 : l1 ⊆ l2 -> collision_free l2 -> collision_free l1.
Proof. intros Hs Hc a b Ha Hb. apply Hc; by apply Hs. Qed.

Lemma file_map_lookup_infos data cs :
  lenZ cs = get_num_chunks (lenZ data) ->
  Forall2 (fun info c => dst_hash info = content_hash c) (DataMap.infos (file_map data cs)) cs.
Proof.
  intros Hl. unfold file_map, DataMap.infos. simpl.
  apply Forall2_same_length_lookup_2.
  - rewrite length_zip_with, length_rangeZ. unfold lenZ in *. lia.
  - intros i x y Hx Hy. apply lookup_zip_with_Some in Hx as (j & c & -> & _ & Hc).
    by simplify_eq.
Qed.

(** The lookups of [decrypt_full_set] and [decrypt] find the chunks of a map. *)
Lemma lookup_infos chunks (infos : list ChunkInfo) cs e :
  collision_free chunks -> cs ⊆ chunks ->
  Forall2 (fun info c => dst_hash info = content_hash c) infos cs ->
  try_map (fun info => ok_or (E := Error) (chunk_map_of chunks !! dst_hash info) e) infos = Ok cs.
Proof.
  intros Hcf Hs Hf. apply try_map_Ok_Forall2.
  induction Hf as [|info c infos cs Hi Hf IH]; constructor.
  - rewrite Hi, chunk_map_of_lookup; [done|done|]. apply Hs. set_solver.
  - apply IH. set_solver.
Qed.

Lemma extract_hashes_file_map data cs :
  lenZ cs = get_num_chunks (lenZ data) ->
  extract_hashes (file_map data cs) = all_src_hashes data.
Proof.
  intros Hl. unfold extract_hashes, DataMap.infos, file_map, all_src_hashes, src_hashes_upto.
  cbn [chunk_identifiers]. assert (Hlen : length cs = length (rangeZ (get_num_chunks (lenZ data)))).
  { rewrite length_rangeZ. unfold lenZ in *. lia. }
  revert Hlen. generalize (rangeZ (get_num_chunks (lenZ data))). clear Hl.
  induction cs as [|c cs IH]; intros [|i l]; simpl; try done.
  intros [= Hl]. f_equal. by apply IH.
Qed.

Context (HM : 1 <= MAX_CHUNK_SIZE).

Lemma lenZ_all_src_hashes data :
  MIN_ENCRYPTABLE_BYTES <= lenZ data -> lenZ (all_src_hashes data) = get_num_chunks (lenZ data).
Proof.
  intros Hd. apply lenZ_src_hashes_upto. pose proof (num_chunks_ge_3 HM _ Hd). lia.
Qed.

Lemma decrypt_encrypt_one data lvl i c :
  MIN_ENCRYPTABLE_BYTES <= lenZ data -> 0 <= i < get_num_chunks (lenZ data) ->
  encrypt_one data lvl i = Ok c ->
  decrypt_chunk i c (all_src_hashes data) lvl = Ok (chunk_slice data i).
Proof.
  intros Hd Hi He. unfold encrypt_one in He. inv_bind He.
  pose proof (num_chunks_ge_3 HM _ Hd).
  eapply decrypt_encrypt_chunk; rewrite ?lenZ_all_src_hashes; eauto.
Qed.

Lemma decrypt_sorted_set_encrypted data lvl cs :
  MIN_ENCRYPTABLE_BYTES <= lenZ data ->
  Forall2 (fun i c => encrypt_one data lvl i = Ok c) (rangeZ (get_num_chunks (lenZ data))) cs ->
  decrypt_sorted_set (all_src_hashes data) cs lvl = Ok data.
Proof.
  intros Hd Hf. unfold decrypt_sorted_set.
  enough (try_map (fun '(i, c) => decrypt_chunk i c (all_src_hashes data) lvl) (enumerate cs)
    = Ok (chunk_slice data <$> rangeZ (get_num_chunks (lenZ data)))) as ->.
  { simpl. by rewrite (concat_slices HM). }
  apply try_map_Ok_Forall2, Forall2_same_length_lookup_2.
  - unfold enumerate. rewrite length_enumerate_from, length_fmap. symmetry. by eapply Forall2_length.
  - intros k [i c] y Hk Hy. unfold enumerate in Hk. rewrite lookup_enumerate_from in Hk.
    destruct (cs !! k) as [c'|] eqn:Ec; [|done]. simplify_eq/=.
    rewrite list_lookup_fmap in Hy.
    destruct (rangeZ _ !! k) as [j|] eqn:Ej; [|done]. simplify_eq/=.
    pose proof (Forall2_lookup_lr _ _ _ _ _ _ Hf Ej Ec) as He. simpl in He.
    assert (j = Z.of_nat k) as ->.
    { unfold rangeZ in Ej. rewrite list_lookup_fmap in Ej.
      destruct (seq 0 _ !! k) as [m|] eqn:Em; [|done]. simplify_eq/=.
      apply lookup_seq in Em. lia. }
    apply decrypt_encrypt_one; [done| |done].
    apply list_elem_of_lookup_2 in Ej. by apply elem_of_rangeZ in Ej.
Qed.

Definition set_child (dm : DataMap) (c : option Z) : DataMap :=
  {| chunk_identifiers := chunk_identifiers dm; child := c |}.

(** A set of chunks that holds a file's encryption decrypts to the file. *)
Lemma decrypt_full_set_encrypted data lvl c cs chunks :
  MIN_ENCRYPTABLE_BYTES <= lenZ data ->
  Forall2 (fun i c => encrypt_one data lvl i = Ok c) (rangeZ (get_num_chunks (lenZ data))) cs ->
  child_level_of (set_child (file_map data cs) c) = lvl ->
  collision_free chunks -> cs ⊆ chunks ->
  decrypt_full_set (set_child (file_map data cs) c) chunks = Ok data.
Proof.
  intros Hd Hf Hlvl Hcf Hs. unfold decrypt_full_set. rewrite Hlvl.
  assert (Hl : lenZ cs = get_num_chunks (lenZ data)).
  { apply Forall2_length in Hf. rewrite length_rangeZ in Hf.
    pose proof (num_chunks_ge_3 HM _ Hd). unfold lenZ in *. lia. }
  change (DataMap.infos (set_child (file_map data cs) c)) with (DataMap.infos (file_map data cs)).
  rewrite (lookup_infos chunks _ cs) by (auto using file_map_lookup_infos).
  change (extract_hashes (set_child (file_map data cs) c)) with (extract_hashes (file_map data cs)).
  rewrite extract_hashes_file_map by done. simpl.
  by apply decrypt_sorted_set_encrypted.
Qed.

End DecryptFacts.
