(* ===== verification/RoundTrip.v ===== *)
(** * A file encrypts and decrypts to itself

    What [encrypt] of [self_encryption/src/lib.rs] returns for a file, that it
    returns at all, and that [decrypt] gives the file back; the sequential and
    the parallel search for the root data map agree; the key schedule separates
    every chunk and level. *)

From Stdlib Require Import ZArith Lia.
From stdpp Require Import base list strings gmap.
From S2P Require Import Prelude Interfaces ChunkMath Cipher DataMap Reference Encrypt Decrypt.

Local Open Scope Z_scope.

Section RoundTrip.
Context `{Config, Blake3, Aead, Brotli, !Codec bincode VersionedDataMap}.

(** The documented behaviour of the primitives on the inputs this crate gives
    them: they do not fail. *)
Class Total : Prop := {
  brotli_total m : is_Some (brotli_compress COMPRESSION_QUALITY m);
  chacha_total k n m : length k = 32%nat -> length n = 12%nat -> is_Some (chacha_encrypt k n m);
  bincode_total dm : map_wf dm -> is_Some (to_bytes dm)
}.

Context `{!Blake3Laws, !AeadLaws, !BrotliLaws, !CodecLaws bincode VersionedDataMap}.
Context (HM : 1 <= MAX_CHUNK_SIZE).

(** *** Encryption does not fail *)

Lemma get_pki_lengths a b c i l :
  length (get_pki a b c i l).1.2 = 32%nat /\ length (get_pki a b c i l).2 = 12%nat.
Proof.
  unfold get_pki, slice, lenZ. simpl.
  rewrite !length_take, !length_drop, blake3_derive_key_length. split; reflexivity.
Qed.

Lemma encrypt_one_total `{!Total} data lvl i :
  MIN_ENCRYPTABLE_BYTES <= lenZ data -> 0 <= i < get_num_chunks (lenZ data) ->
  exists c, encrypt_one data lvl i = Ok c.
Proof.
  intros Hd Hi. pose proof (num_chunks_ge_3 HM _ Hd).
  destruct (get_pad_key_and_nonce_spec i (all_src_hashes data) lvl) as (s & n1 & n2 & E);
    rewrite ?(lenZ_all_src_hashes HM); [done..|].
  unfold encrypt_one. rewrite E. unfold mbind, result_bind, encrypt_chunk.
  pose proof (get_pki_lengths s n1 n2 i lvl) as [Hk Hn].
  destruct (get_pki s n1 n2 i lvl) as [[pad key] nonce]; simpl in Hk, Hn.
  destruct (brotli_total (chunk_slice data i)) as [m ->]. simpl.
  unfold cipher_encrypt. destruct (chacha_total key nonce m Hk Hn) as [e ->]. simpl. eauto.
Qed.

Lemma encrypt_chunks_total `{!Total} data lvl :
  MIN_ENCRYPTABLE_BYTES <= lenZ data -> exists cs, encrypt_chunks data lvl = Ok (file_map data cs, cs).
Proof.
  intros Hd. pose proof (num_chunks_ge_3 HM _ Hd) as Hn. rewrite encrypt_chunks_eq by done.
  assert (Hl : exists cs, try_map (encrypt_one data lvl)
      (later_indices (get_num_chunks (lenZ data))) = Ok cs).
  { assert (Hall : Forall (fun i => exists c, encrypt_one data lvl i = Ok c)
              (later_indices (get_num_chunks (lenZ data)))).
    { unfold later_indices. rewrite Forall_fmap, Forall_forall. intros i Hi%elem_of_rangeZ.
      apply encrypt_one_total; [done|]. lia. }
    induction Hall as [|i l [c Hc] _ [cs IH]]; simpl; [eauto|].
    rewrite Hc, IH. simpl. eauto. }
  destruct Hl as [cs ->].
  destruct (encrypt_one_total data lvl 0) as [c0 E0]; [done|lia|].
  destruct (encrypt_one_total data lvl 1) as [c1 E1]; [done|lia|].
  unfold mbind, result_bind. rewrite E0, E1. eauto.
Qed.

(** *** The chunks a shrink stores are appended in order *)

Lemma push_all cs (st : list EncryptedChunk) :
  try_fold (fun st content => (fun st (_ : XorName) c => Ok (E := Error) (st ++ [c])) st
              (content_hash content) content) st cs = Ok (st ++ cs).
Proof.
  revert st. induction cs as [|c cs IH]; intros st; simpl; [by rewrite app_nil_r|].
  rewrite IH. by rewrite <- app_assoc.
Qed.

Lemma with_child_file_map data cs c :
  DataMap.with_child (DataMap.infos (file_map data cs)) c = set_child (file_map data cs) (Some c).
Proof.
  unfold DataMap.with_child, set_child, DataMap.infos. f_equal. apply sort_by_key_id.
  apply key_sorted_zip_with; [done|apply rangeZ_sorted].
Qed.

Lemma num_chunks_small fs :
  MIN_ENCRYPTABLE_BYTES <= fs -> fs < 3 * MAX_CHUNK_SIZE -> get_num_chunks fs = 3.
Proof.
  intros Hfs Hs. pose proof (geometry_shape HM fs Hfs) as (_ & _ & Hsm & _). by apply Hsm.
Qed.

(** One level of shrinking is enough when the map of [n] chunks serializes to
    less than three maximal chunks. *)
Definition one_level (n : Z) : Prop := 18 + 80 * n < 3 * MAX_CHUNK_SIZE.

Lemma encrypt_small fuel data lvl cs :
  encrypt_chunks data lvl = Ok (file_map data cs, cs) -> get_num_chunks (lenZ data) <= 3 ->
  encrypt_with_child_level (S (S fuel)) data lvl = Some (Ok (file_map data cs, cs)).
Proof.
  intros E Hn. pose proof (encrypt_chunks_length HM _ _ _ _ E) as (_ & Hl & _).
  rewrite encrypt_with_child_level_S, E, shrink_small by lia. done.
Qed.

(** The two shapes of a result. *)
Lemma encrypt_one_level `{!DataMapSize} fuel data dm cs :
  one_level (get_num_chunks (lenZ data)) ->
  encrypt_with_child_level (5 + fuel) data 0 = Some (Ok (dm, cs)) ->
  exists cs0, encrypt_chunks data 0 = Ok (file_map data cs0, cs0) /\
    ((get_num_chunks (lenZ data) <= 3 /\ dm = file_map data cs0 /\ cs = cs0) \/
     (exists b cs1, to_bytes (file_map data cs0) = Some b /\
        encrypt_chunks b 1 = Ok (file_map b cs1, cs1) /\
        dm = set_child (file_map b cs1) (Some 1) /\ cs = cs0 ++ cs1)).
Proof.
  intros Hlev He.
  destruct (encrypt_chunks data 0) as [[dm0 cs0]|] eqn:E0; [|by cbn in He; rewrite E0 in He].
  pose proof (encrypt_chunks_Ok HM _ _ _ _ E0) as (Hd & -> & _).
  pose proof (encrypt_chunks_length HM _ _ _ _ E0) as (_ & Hlen & _).
  exists cs0. split; [done|].
  destruct (decide (get_num_chunks (lenZ data) <= 3)) as [Hn|Hn].
  - left. change (5 + fuel)%nat with (S (S (3 + fuel))) in He.
    rewrite (encrypt_small _ _ _ cs0) in He by done. by simplify_eq.
  - right. change (5 + fuel)%nat with (S (S (S (S (S fuel))))) in He.
    rewrite encrypt_with_child_level_S, E0, shrink_big in He by lia.
    change (child (file_map data cs0)) with (@None Z) in He. cbv zeta in He.
    destruct (to_bytes (file_map data cs0)) as [b|] eqn:Eb; [|done].
    pose proof (data_map_size _ _ Eb) as Hsz. rewrite Hlen in Hsz. unfold one_level in Hlev.
    assert (Hb : MIN_ENCRYPTABLE_BYTES <= lenZ b) by (unfold MIN_ENCRYPTABLE_BYTES, MIN_CHUNK_SIZE; lia).
    pose proof (num_chunks_small (lenZ b) Hb ltac:(lia)) as Hbn.
    destruct (encrypt_chunks b 1) as [[dm1 cs1]|] eqn:E1;
      [|by rewrite encrypt_with_child_level_S, E1 in He].
    pose proof (encrypt_chunks_Ok HM _ _ _ _ E1) as (_ & -> & _).
    pose proof (encrypt_chunks_length HM _ _ _ _ E1) as (_ & Hl1 & _).
    rewrite (encrypt_small _ b 1 cs1 E1) in He by lia.
    rewrite push_all, with_child_file_map in He.
    rewrite shrink_small in He; [|change (DataMap.len (file_map b cs1) <= 3); lia].
    simplify_eq. eauto 10.
Qed.

(** The map of a file whose size is a [usize] is a value of the Rust types. *)
Lemma file_map_wf data cs :
  MIN_ENCRYPTABLE_BYTES <= lenZ data < usize_modulus ->
  lenZ cs = get_num_chunks (lenZ data) -> map_wf (file_map data cs).
Proof.
  intros [Hd Hu] Hl. pose proof (geometry_shape HM _ Hd) as (Hc & Hlt & _).
  pose proof (num_chunks_ge_3 HM _ Hd) as Hn.
  assert (Hnu : get_num_chunks (lenZ data) < usize_modulus) by nia.
  split; [|split]; cbn [file_map chunk_identifiers child].
  - apply Forall_lookup. intros k info Hk.
    apply lookup_zip_with_Some in Hk as (i & c & -> & Hi & Hk).
    apply list_elem_of_lookup_2, elem_of_rangeZ in Hi.
    pose proof (start_end_bounds HM _ i Hd Hi) as Hb.
    unfold info_wf, info_of, usize_ok. cbn. rewrite !content_hash_length.
    destruct (get_start_end_positions _ i). cbn. lia.
  - unfold usize_ok, lenZ in *. rewrite length_zip_with, length_rangeZ. lia.
  - done.
Qed.

(** One level of shrinking is also sufficient for a result. *)
Lemma encrypt_one_level_total `{!DataMapSize, !Total} fuel data :
  MIN_ENCRYPTABLE_BYTES <= lenZ data < usize_modulus -> one_level (get_num_chunks (lenZ data)) ->
  exists dm cs, encrypt_with_child_level (5 + fuel) data 0 = Some (Ok (dm, cs)).
Proof.
  intros Hd Hlev. destruct (encrypt_chunks_total data 0) as [cs0 E0]; [lia|].
  pose proof (encrypt_chunks_length HM _ _ _ _ E0) as (Hlc & Hlen & _).
  destruct (decide (get_num_chunks (lenZ data) <= 3)) as [Hn|Hn].
  - change (5 + fuel)%nat with (S (S (3 + fuel))).
    rewrite (encrypt_small _ _ _ cs0) by done. eauto.
  - change (5 + fuel)%nat with (S (S (S (S (S fuel))))).
    rewrite encrypt_with_child_level_S, E0, shrink_big by lia. cbv zeta.
    change (child (file_map data cs0)) with (@None Z). cbv iota.
    destruct (bincode_total (file_map data cs0)) as [b Eb]; [by apply file_map_wf|]. rewrite Eb.
    pose proof (data_map_size _ _ Eb) as Hsz. rewrite Hlen in Hsz. unfold one_level in Hlev.
    assert (Hb : MIN_ENCRYPTABLE_BYTES <= lenZ b) by (unfold MIN_ENCRYPTABLE_BYTES, MIN_CHUNK_SIZE; lia).
    pose proof (num_chunks_small (lenZ b) Hb ltac:(lia)) as Hbn.
    destruct (encrypt_chunks_total b 1 Hb) as [cs1 E1].
    pose proof (encrypt_chunks_length HM _ _ _ _ E1) as (_ & Hl1 & _).
    rewrite (encrypt_small _ b 1 cs1 E1) by lia. rewrite push_all, with_child_file_map.
    rewrite shrink_small; [eauto|]. change (DataMap.len (file_map b cs1) <= 3). lia.
Qed.

(** *** Decryption *)

Lemma fetch_all (chunks : list EncryptedChunk) infos cs acc cache :
  collision_free chunks -> cs ⊆ chunks ->
  (forall h c, cache !! h = Some c -> chunk_map_of chunks !! h = Some c) ->
  Forall2 (fun info c => dst_hash info = content_hash c) infos cs ->
  exists cache',
    try_fold (fetch_cached (lookup_chunk (chunk_map_of chunks))) (acc, cache, tt) infos = Ok (acc ++ cs, cache', tt).
Proof.
  intros Hcf Hsub Hc Hf. revert acc cache Hc.
  induction Hf as [|info c infos cs Hi Hf IH]; intros acc cache Hc.
  - exists cache. by rewrite app_nil_r.
  - pose proof (chunk_map_of_lookup chunks c Hcf (Hsub c ltac:(set_solver))) as Hlk.
    assert (Hget : lookup_chunk (chunk_map_of chunks) tt (content_hash c) = Ok (c, tt))
      by (unfold lookup_chunk; by rewrite Hlk).
    assert (Hstep : exists cache1,
        fetch_cached (lookup_chunk (chunk_map_of chunks)) (acc, cache, tt) info
          = Ok (acc ++ [c], cache1, tt) /\
        (forall h x, cache1 !! h = Some x -> chunk_map_of chunks !! h = Some x)).
    { unfold fetch_cached. rewrite Hi, Hget. destruct (cache !! content_hash c) as [c'|] eqn:Ec.
      - apply Hc in Ec. rewrite Hlk in Ec. simplify_eq. eauto.
      - eexists. split; [reflexivity|].
        intros h x [[<- <-]|[? ?]]%lookup_insert_Some; [done|]. by apply Hc. }
    destruct Hstep as (cache1 & Hstep & Hc1).
    destruct (IH ltac:(set_solver) (acc ++ [c]) cache1 Hc1) as [cache' E].
    exists cache'. cbn [try_fold]. rewrite Hstep. cbn. rewrite E. by rewrite <- app_assoc.
Qed.

(** The second half of [decrypt], from the root map on. *)
Definition decrypt_from_root (chunks : list EncryptedChunk) (root_map : DataMap) : result Error bytes :=
  root_chunks ← try_map
    (fun info => ok_or (chunk_map_of chunks !! dst_hash info) (Generic "Missing chunk: {}"))
    (DataMap.infos root_map);
  decrypt_full_set root_map root_chunks.

Lemma decrypt_of_root dm chunks :
  DataMap.is_child dm = false -> decrypt dm chunks = decrypt_from_root chunks dm.
Proof. intros Hc. unfold decrypt. by rewrite Hc. Qed.

Lemma decrypt_of_child dm chunks root st :
  DataMap.is_child dm = true ->
  get_root_data_map (lookup_chunk (chunk_map_of chunks)) dm tt = Ok (root, st) ->
  decrypt dm chunks = decrypt_from_root chunks root.
Proof. intros Hc Hr. unfold decrypt. rewrite Hc, Hr. done. Qed.

Lemma decrypt_root data cs chunks :
  encrypt_chunks data 0 = Ok (file_map data cs, cs) -> collision_free chunks -> cs ⊆ chunks ->
  decrypt (file_map data cs) chunks = Ok data.
Proof.
  intros E Hcf Hs. pose proof (encrypt_chunks_Ok HM _ _ _ _ E) as (Hd & _ & Hf).
  pose proof (encrypt_chunks_length HM _ _ _ _ E) as (Hl & _).
  rewrite decrypt_of_root by done. unfold decrypt_from_root.
  rewrite (lookup_infos chunks _ cs) by (auto using file_map_lookup_infos).
  change (file_map data cs) with (set_child (file_map data cs) None).
  eapply (decrypt_full_set_encrypted HM data 0); eauto using collision_free_subset.
Qed.

(** The search for the root follows one level. *)
Lemma decrypt_child_of data cs0 b cs1 chunks :
  to_bytes (file_map data cs0) = Some b -> encrypt_chunks b 1 = Ok (file_map b cs1, cs1) ->
  collision_free chunks -> cs1 ⊆ chunks ->
  decrypt (set_child (file_map b cs1) (Some 1)) chunks = decrypt_from_root chunks (file_map data cs0).
Proof.
  intros Eb E1 Hcf Hs1.
  pose proof (encrypt_chunks_Ok HM _ _ _ _ E1) as (Hd1 & _ & Hf1).
  pose proof (encrypt_chunks_length HM _ _ _ _ E1) as (Hl1 & _).
  apply (decrypt_of_child _ _ _ tt); [done|].
  destruct (fetch_all chunks (DataMap.infos (file_map b cs1)) cs1 [] ∅) as [cache' Ef];
    [done|done|by intros h c; rewrite lookup_empty|by apply file_map_lookup_infos|].
  unfold get_root_data_map. change 101%nat with (S (S 99)).
  rewrite (inner_get_root_map_S _ _ _ ∅) by done.
  change (DataMap.infos (set_child (file_map b cs1) (Some 1)))
    with (DataMap.infos (file_map b cs1)). rewrite Ef. cbn [app mbind result_bind].
  rewrite (decrypt_full_set_encrypted HM b 1) by eauto using collision_free_subset.
  cbn [mbind result_bind]. rewrite (from_bytes_to_bytes _ _ Eb). reflexivity.
Qed.

Lemma decrypt_shrunk data cs0 b cs1 chunks :
  encrypt_chunks data 0 = Ok (file_map data cs0, cs0) ->
  to_bytes (file_map data cs0) = Some b ->
  encrypt_chunks b 1 = Ok (file_map b cs1, cs1) ->
  collision_free chunks -> cs0 ⊆ chunks -> cs1 ⊆ chunks ->
  decrypt (set_child (file_map b cs1) (Some 1)) chunks = Ok data.
Proof.
  intros E0 Eb E1 Hcf Hs0 Hs1.
  pose proof (decrypt_root _ _ _ E0 Hcf Hs0) as Hroot.
  rewrite decrypt_of_root in Hroot by done. rewrite <- Hroot. by apply decrypt_child_of.
Qed.

Lemma num_chunks_le fs :
  MIN_ENCRYPTABLE_BYTES <= fs -> 3 < get_num_chunks fs -> MAX_CHUNK_SIZE * (get_num_chunks fs - 1) < fs.
Proof.
  intros Hfs Hn. pose proof (geometry_shape HM fs Hfs) as (_ & Hlt & Hsm & Hbig & _).
  destruct (decide (fs < 3 * MAX_CHUNK_SIZE)) as [Hs|Hs]; [destruct (Hsm Hs); lia|].
  destruct (Hbig ltac:(lia)) as [Hc ?]. rewrite Hc in Hlt. done.
Qed.

(** *** Two levels of shrinking *)

(** The map of [n] chunks must be shrunk twice: its serialization makes more than
    three chunks, whose map needs one more level. *)
Definition two_levels (n : Z) : Prop :=
  3 * MAX_CHUNK_SIZE < 80 * n /\ one_level ((18 + 80 * n) / MAX_CHUNK_SIZE + 1).

(** No chunk of [b] at level 1 opens with the keys of level 0. *)
Definition levels_apart (b : bytes) : Prop := forall i c, 0 <= i < get_num_chunks (lenZ b) ->
  encrypt_one b 1 i = Ok c -> is_ok (decrypt_chunk i c (all_src_hashes b) 0) = false.

Lemma num_chunks_of_map n (b : bytes) : two_levels n -> 80 * n <= lenZ b <= 18 + 80 * n ->
  MIN_ENCRYPTABLE_BYTES <= lenZ b /\ 3 < get_num_chunks (lenZ b) /\ one_level (get_num_chunks (lenZ b)).
Proof.
  intros [Hbig Hone] Hb.
  assert (MIN_ENCRYPTABLE_BYTES <= lenZ b) as Hm by (unfold MIN_ENCRYPTABLE_BYTES, MIN_CHUNK_SIZE; lia).
  pose proof (geometry_shape HM (lenZ b) Hm) as (_ & _ & _ & Hshape & _).
  destruct (Hshape ltac:(lia)) as [Hc Hle]. rewrite Hc in Hle.
  assert (3 < get_num_chunks (lenZ b)) as Hn by nia. split; [done|]. split; [done|].
  pose proof (num_chunks_le _ Hm Hn). unfold one_level in *.
  assert (get_num_chunks (lenZ b) <= (18 + 80 * n) / MAX_CHUNK_SIZE + 1); [|lia].
  assert (get_num_chunks (lenZ b) - 1 <= (18 + 80 * n) / MAX_CHUNK_SIZE); [|lia].
  apply Z.div_le_lower_bound; lia.
Qed.

(** The map of the file, the map of that map, and the map that is returned. *)
Lemma encrypt_two_levels `{!DataMapSize, !Total} (data : bytes) :
  MIN_ENCRYPTABLE_BYTES <= lenZ data < usize_modulus -> two_levels (get_num_chunks (lenZ data)) ->
  exists cs0 b cs1 b' cs2, encrypt_chunks data 0 = Ok (file_map data cs0, cs0) /\
    to_bytes (file_map data cs0) = Some b /\ encrypt_chunks b 1 = Ok (file_map b cs1, cs1) /\
    to_bytes (file_map b cs1) = Some b' /\ encrypt_chunks b' 1 = Ok (file_map b' cs2, cs2) /\
    encrypt data = Some (Ok (set_child (file_map b' cs2) (Some 1), cs0 ++ cs1 ++ cs2)).
Proof.
  intros Hd Hlev. destruct (encrypt_chunks_total data 0) as [cs0 E0]; [lia|].
  pose proof (encrypt_chunks_length HM _ _ _ _ E0) as (Hl0 & Hlen0 & _).
  destruct (bincode_total (file_map data cs0)) as [b Eb]; [by apply file_map_wf|].
  pose proof (data_map_size _ _ Eb) as Hsz. rewrite Hlen0 in Hsz.
  destruct (num_chunks_of_map _ _ Hlev Hsz) as (Hb & Hn1 & Hone).
  assert (113 <= MAX_CHUNK_SIZE) as HM113 by (unfold one_level in Hone; lia).
  assert (3 < get_num_chunks (lenZ data)) as Hn0 by (destruct Hlev; lia).
  assert (lenZ b < usize_modulus) as Hbu.
  { pose proof (num_chunks_le _ (proj1 Hd) Hn0). unfold usize_modulus in *.
    assert (113 * (get_num_chunks (lenZ data) - 1) < 2 ^ 64) by nia. lia. }
  destruct (encrypt_chunks_total b 1 Hb) as [cs1 E1].
  pose proof (encrypt_chunks_length HM _ _ _ _ E1) as (Hl1 & Hlen1 & _).
  destruct (bincode_total (file_map b cs1)) as [b' Eb']; [by apply file_map_wf|].
  pose proof (data_map_size _ _ Eb') as Hsz1. rewrite Hlen1 in Hsz1. unfold one_level in Hone.
  assert (Hb' : MIN_ENCRYPTABLE_BYTES <= lenZ b') by (unfold MIN_ENCRYPTABLE_BYTES, MIN_CHUNK_SIZE; lia).
  pose proof (num_chunks_small (lenZ b') Hb' ltac:(lia)) as Hbn.
  destruct (encrypt_chunks_total b' 1 Hb') as [cs2 E2].
  pose proof (encrypt_chunks_length HM _ _ _ _ E2) as (_ & Hl2 & _).
  exists cs0, b, cs1, b', cs2. do 5 (split; [assumption|]).
  unfold encrypt, encrypt_fuel.
  replace (Z.to_nat (2 * get_num_chunks (lenZ data) + 4))
    with (S (S (S (S (S (S (S (Z.to_nat (2 * get_num_chunks (lenZ data) - 3)))))))))%nat by lia.
  rewrite encrypt_with_child_level_S, E0, shrink_big by lia. cbv zeta.
  change (child (file_map data cs0)) with (@None Z). cbv iota. rewrite Eb.
  rewrite encrypt_with_child_level_S, E1, shrink_big by lia. cbv zeta.
  change (child (file_map b cs1)) with (@None Z). cbv iota. rewrite Eb'.
  rewrite (encrypt_small _ b' 1 cs2 E2) by lia. rewrite push_all, with_child_file_map.
  rewrite shrink_small by (change (DataMap.len (file_map b' cs2) <= 3); lia).
  rewrite push_all. change (DataMap.infos (set_child (file_map b' cs2) (Some 1))) with (DataMap.infos (file_map b' cs2)).
  rewrite with_child_file_map, shrink_small by (change (DataMap.len (file_map b' cs2) <= 3); lia). done.
Qed.

(** A root map whose chunks were encrypted at level 1. *)
Lemma wrong_level b cs1 chunks :
  encrypt_chunks b 1 = Ok (file_map b cs1, cs1) -> levels_apart b -> collision_free chunks -> cs1 ⊆ chunks ->
  exists e, decrypt_from_root chunks (file_map b cs1) = Err e.
Proof.
  intros E1 Hapart Hcf Hs1.
  pose proof (encrypt_chunks_Ok HM _ _ _ _ E1) as (Hd1 & _ & Hf1). pose proof (num_chunks_ge_3 HM _ Hd1) as Hn.
  pose proof (encrypt_chunks_length HM _ _ _ _ E1) as (Hl1 & _).
  pose proof (file_map_lookup_infos b cs1 Hl1) as Hinfos.
  unfold decrypt_from_root. rewrite (lookup_infos chunks _ cs1) by done. cbn [mbind result_bind].
  unfold decrypt_full_set. rewrite (lookup_infos cs1 _ cs1) by eauto using collision_free_subset.
  cbn [mbind result_bind]. change (child_level_of (file_map b cs1)) with 0.
  rewrite extract_hashes_file_map by done.
  rewrite rangeZ_later in Hf1 by lia. inversion Hf1 as [|? c ? cs Hc _]; subst.
  specialize (Hapart 0 c ltac:(lia) Hc). unfold decrypt_sorted_set. cbn.
  destruct (decrypt_chunk 0 c (all_src_hashes b) 0); [discriminate | cbn; eauto].
Qed.

(** *** Fuel *)

Lemma encrypt_fuel_enough `{!DataMapSize} :
  113 <= MAX_CHUNK_SIZE -> forall fuel,
  (forall data lvl, 2 * get_num_chunks (lenZ data) + 1 <= Z.of_nat fuel -> 1 <= Z.of_nat fuel ->
     encrypt_with_child_level fuel data lvl <> None) /\
  (forall St store dm (st : St), 2 * DataMap.len dm <= Z.of_nat fuel -> 1 <= Z.of_nat fuel ->
     shrink_data_map fuel St store dm st <> None).
Proof.
  intros Hbig. induction fuel as [|fuel [IHe IHs]]; [split; lia|]. split.
  - intros data lvl Hf _. rewrite encrypt_with_child_level_S.
    destruct (encrypt_chunks data lvl) as [[dm cs]|] eqn:E; [|done].
    pose proof (encrypt_chunks_Ok HM _ _ _ _ E) as (Hd & _ & _).
    pose proof (num_chunks_ge_3 HM _ Hd).
    pose proof (encrypt_chunks_length HM _ _ _ _ E) as (_ & Hl & _).
    pose proof (IHs _ (fun st (_ : XorName) (c : bytes) => Ok (E := Error) (st ++ [c])) dm cs) as Hs.
    destruct (shrink_data_map fuel _ _ dm cs) as [[[[? ?] ?]|]|]; try done.
    exfalso. apply Hs; [lia|lia|done].
  - intros St store dm st Hf _.
    destruct (decide (DataMap.len dm <= 3)); [by rewrite shrink_small|].
    rewrite shrink_big by lia. cbv zeta. destruct (to_bytes dm) as [b|] eqn:Eb; [|done].
    pose proof (data_map_size _ _ Eb) as Hsz.
    assert (Hb : MIN_ENCRYPTABLE_BYTES <= lenZ b) by (unfold MIN_ENCRYPTABLE_BYTES, MIN_CHUNK_SIZE; lia).
    assert (Hdec : get_num_chunks (lenZ b) < DataMap.len dm).
    { destruct (decide (get_num_chunks (lenZ b) <= 3)); [lia|].
      pose proof (num_chunks_le _ Hb ltac:(lia)). nia. }
    set (lvl := match child dm with Some c => c + 1 | None => 1 end).
    specialize (IHe b lvl ltac:(lia) ltac:(lia)).
    destruct (encrypt_with_child_level fuel b lvl) as [[[nm ncs]|]|] eqn:E; try done.
    destruct (try_fold _ st ncs) as [st'|]; [|done].
    pose proof (proj1 (shrunk_at_most_three fuel) _ _ _ _ E) as Hthree.
    pose proof (IHs St store (DataMap.with_child (DataMap.infos nm) lvl) st') as Hs.
    rewrite with_child_len in Hs. change (lenZ (DataMap.infos nm)) with (DataMap.len nm) in Hs.
    destruct (shrink_data_map fuel St store _ st') as [[[[? ?] ?]|]|]; try done.
    exfalso. apply Hs; [lia|lia|done].
Qed.

End RoundTrip.
Arguments Total {_ _ _}.

(** ** Sequential and parallel retrieval *)

Section Parallel.
Context `{Config, Blake3, Aead, Brotli, !Codec bincode VersionedDataMap}.
Context (get : XorName -> result Error bytes).

(** The same retrieval function behind both interfaces. *)
Definition get_one (st : unit) (hash : XorName) : result Error (bytes * unit) :=
  data ← get hash; Ok (data, st).

Definition get_many (requests : list (Z * XorName)) : result Error (list (Z * bytes)) :=
  try_map (fun '(i, hash) => data ← get hash; Ok (i, data)) requests.

(** A cache holds only what the retrieval function returns. *)
Definition honest_cache (cache : gmap XorName bytes) : Prop :=
  forall h d, cache !! h = Some d -> get h = Ok d.

(** Both fetches see, for each chunk of the map, the retrieval function's
    answer. *)
Lemma fetch_seq infos : forall acc cache,
  honest_cache cache ->
  match try_map (fun info => get (dst_hash info)) infos with
  | Ok cs => exists cache', honest_cache cache' /\
      try_fold (fetch_cached get_one) (acc, cache, tt) infos = Ok (acc ++ cs, cache', tt)
  | Err e => try_fold (fetch_cached get_one) (acc, cache, tt) infos = Err e
  end.
Proof.
  induction infos as [|info infos IH]; intros acc cache Hc.
  - exists cache. by rewrite app_nil_r.
  - assert (Hstep : match get (dst_hash info) with
      | Ok d => exists cache1, honest_cache cache1 /\
          fetch_cached get_one (acc, cache, tt) info = Ok (acc ++ [d], cache1, tt)
      | Err e => fetch_cached get_one (acc, cache, tt) info = Err e
      end).
    { unfold fetch_cached, get_one. destruct (cache !! dst_hash info) as [d|] eqn:Ed.
      - rewrite (Hc _ _ Ed). eauto.
      - destruct (get (dst_hash info)) as [d|e] eqn:Eg; cbn; [|done].
        eexists. split; [|reflexivity].
        intros h x [[<- <-]|[? ?]]%lookup_insert_Some; eauto. }
    cbn [try_map try_fold]. destruct (get (dst_hash info)) as [d|e].
    + destruct Hstep as (cache1 & Hc1 & Hs). rewrite Hs. cbn [mbind result_bind].
      specialize (IH (acc ++ [d]) cache1 Hc1). cbn in *.
      destruct (try_map _ infos) as [cs|e]; cbn; [|done].
      by rewrite <- app_assoc in IH.
    + by rewrite Hstep.
Qed.

Definition missing_of (cache : gmap XorName bytes) (infos : list ChunkInfo) : list (Z * XorName) :=
  filter (fun p => cache !! p.2 = None) ((fun info => (index info, dst_hash info)) <$> infos).

Lemma get_many_missing cache infos :
  honest_cache cache ->
  match try_map (fun info => get (dst_hash info)) infos with
  | Ok _ => exists new, get_many (missing_of cache infos) = Ok new /\
      Forall2 (fun p q => get p.2 = Ok q.2) (missing_of cache infos) new
  | Err e => get_many (missing_of cache infos) = Err e
  end.
Proof.
  intros Hc. induction infos as [|info infos IH]; [by exists []|].
  cbn [try_map]. unfold missing_of in *. rewrite fmap_cons, filter_cons. cbn [snd].
  destruct (decide (cache !! dst_hash info = None)) as [Hn|Hn].
  - unfold get_many in *. cbn [try_map].
    destruct (get (dst_hash info)) as [d|e] eqn:Eg; [|done]. cbn in *.
    destruct (try_map (fun info => get (dst_hash info)) infos) as [cs|e]; cbn.
    + destruct IH as (new & -> & Hf). exists ((index info, d) :: new). split; [done|].
      by constructor.
    + by rewrite IH.
  - destruct (cache !! dst_hash info) as [d|] eqn:Ed; [|done].
    rewrite (Hc _ _ Ed). cbn.
    destruct (try_map (fun info => get (dst_hash info)) infos); exact IH.
Qed.

Lemma insert_new_honest cache (missing : list (Z * XorName)) (new : list (Z * bytes)) :
  honest_cache cache -> Forall2 (fun p q => get p.2 = Ok q.2) missing new ->
  let cache' := foldl (fun m '((_, hash), (_, chunk_data)) => <[hash := chunk_data]> m)
                  cache (zip missing new) in
  honest_cache cache' /\
  (forall h, is_Some (cache !! h) \/ h ∈ missing.*2 -> is_Some (cache' !! h)).
Proof.
  intros Hc Hf. revert cache Hc. induction Hf as [|[i h] [j d] missing new Hg Hf IH]; intros cache Hc; cbn.
  - split; [done|]. intros h [?|?%not_elem_of_nil]; done.
  - cbn in Hg. destruct (IH (<[h := d]> cache)) as [H1' H2'].
    { intros h' x [[<- <-]|[? ?]]%lookup_insert_Some; eauto. }
    split; [exact H1'|]. intros h' Hh. apply H2'.
    destruct (decide (h = h')) as [->|]; [left; rewrite lookup_insert_eq; eauto|].
    rewrite lookup_insert_ne by done. set_solver.
Qed.

Lemma fetch_par cache infos :
  honest_cache cache ->
  let missing := missing_of cache infos in
  let fetched :=
    if decide (missing = []) then Ok cache
    else
      new_chunks ← get_many missing;
      Ok (foldl (fun m '((_, hash), (_, chunk_data)) => <[hash := chunk_data]> m)
            cache (zip missing new_chunks)) in
  match try_map (fun info => get (dst_hash info)) infos with
  | Ok cs => exists cache', honest_cache cache' /\ fetched = Ok cache' /\
      try_map (fun info => ok_or (cache' !! dst_hash info)
                 (Generic "Chunk not found for hash: {dst_hash:?}")) infos = Ok cs
  | Err e => fetched = Err e
  end.
Proof.
  intros Hc missing fetched. pose proof (get_many_missing cache infos Hc) as Hm. fold missing in Hm.
  assert (Hfetched : fetched = (new_chunks ← get_many missing;
      Ok (foldl (fun m '((_, hash), (_, chunk_data)) => <[hash := chunk_data]> m)
            cache (zip missing new_chunks)))).
  { unfold fetched. destruct (decide (missing = [])) as [->|]; done. }
  destruct (try_map (fun info => get (dst_hash info)) infos) as [cs|e] eqn:E.
  - destruct Hm as (new & Hn & Hf). rewrite Hfetched, Hn. cbn.
    destruct (insert_new_honest cache missing new Hc Hf) as [Hh Hin].
    eexists. split; [exact Hh|]. split; [reflexivity|].
    apply try_map_Ok_Forall2 in E. apply try_map_Ok_Forall2, Forall2_same_length_lookup_2.
    + by eapply Forall2_length.
    + intros i info c Hi Hci. pose proof (Forall2_lookup_lr _ _ _ _ _ _ E Hi Hci) as Hg. cbn in Hg.
      match goal with |- ok_or (?m !! _) _ = _ => destruct (Hin (dst_hash info)) as [d Hd] end.
      { destruct (cache !! dst_hash info) as [d|] eqn:Ed; [left; eauto|right].
        unfold missing. rewrite list_elem_of_fmap. exists (index info, dst_hash info).
        split; [done|]. unfold missing_of. rewrite list_elem_of_filter. split; [done|].
        rewrite list_elem_of_fmap. exists info. split; [done|]. by eapply list_elem_of_lookup_2. }
      rewrite Hd. cbn. apply Hh in Hd. congruence.
  - by rewrite Hfetched, Hm.
Qed.

Lemma inner_root_maps_agree levels dm cache cache' :
  honest_cache cache -> honest_cache cache' ->
  inner_get_root_map_parallel get_many levels dm cache =
  ('(root, _, _) ← inner_get_root_map get_one levels dm cache' tt; Ok root).
Proof.
  revert dm cache cache'. induction levels as [|levels IH]; intros dm cache cache' Hc Hc'; [done|].
  destruct (DataMap.is_child dm) eqn:Hch.
  2:{ cbn [inner_get_root_map inner_get_root_map_parallel]. by rewrite Hch. }
  rewrite inner_get_root_map_S by done. cbn [inner_get_root_map_parallel]. rewrite Hch. cbn [negb].
  fold (missing_of cache (DataMap.infos dm)).
  pose proof (fetch_par cache (DataMap.infos dm) Hc) as Hp. cbv zeta in Hp.
  pose proof (fetch_seq (DataMap.infos dm) [] cache' Hc') as Hs.
  destruct (try_map _ _) as [cs|e].
  - destruct Hp as (cache1 & Hc1 & -> & Hp). destruct Hs as (cache2 & Hc2 & Hs).
    rewrite Hs. cbn [app mbind result_bind]. rewrite Hp. cbn [mbind result_bind].
    destruct (decrypt_full_set dm cs) as [d|]; [|done]. cbn [mbind result_bind].
    destruct (from_bytes d) as [parent|]; cbn [ok_or mbind result_bind]; [|done].
    by apply IH.
  - rewrite Hp, Hs. done.
Qed.

End Parallel.

(** ** Properties *)

(** C2: For every file of at least [MIN_ENCRYPTABLE_BYTES] bytes whose data map
    needs at most one level of shrinking, [encrypt] returns a data map of at most
    three chunks together with encrypted chunks, and [decrypt] of that map with
    any collision-free set that contains those chunks, in any order, is the
    file. *)
Theorem encrypt_decrypt_round_trip
    `{Config, Blake3, Aead, Brotli, !Codec bincode VersionedDataMap}
    `{!Blake3Laws, !AeadLaws, !BrotliLaws, !CodecLaws bincode VersionedDataMap}
    `{!DataMapSize, !Total} (data : bytes)
    (HM : 1 <= MAX_CHUNK_SIZE) (Hd : MIN_ENCRYPTABLE_BYTES <= lenZ data < usize_modulus)
    (Hlevel : one_level (get_num_chunks (lenZ data))) :
  exists dm cs, encrypt data = Some (Ok (dm, cs)) /\ DataMap.len dm <= 3 /\
    forall chunks, collision_free chunks -> cs ⊆ chunks -> decrypt dm chunks = Ok data.
Proof.
  unfold encrypt, encrypt_fuel. pose proof (num_chunks_ge_3 HM _ (proj1 Hd)).
  replace (Z.to_nat (2 * get_num_chunks (lenZ data) + 4))
    with (5 + Z.to_nat (2 * get_num_chunks (lenZ data) - 1))%nat by lia.
  destruct (encrypt_one_level_total HM (Z.to_nat (2 * get_num_chunks (lenZ data) - 1)) data)
    as (dm & cs & E); [done..|].
  exists dm, cs. split; [done|]. split; [eapply (proj1 (shrunk_at_most_three _)), E|].
  intros chunks Hcf Hs. apply encrypt_one_level in E as (cs0 & E0 & Hshape); [|done..].
  destruct Hshape as [(_ & -> & ->)|(b & cs1 & Eb & E1 & -> & ->)].
  - by apply decrypt_root.
  - eapply decrypt_shrunk; eauto; set_solver.
Qed.

#[export] Instance reference_total : Total.
Proof.
  split; cbn; [eauto|eauto|]. intros dm Hw. by apply bincode_data_map_total.
Qed.

#[export] Instance collision_free_dec `{Blake3} chunks : Decision (collision_free chunks).
Proof.
  refine (cast_if (decide (Forall (fun a => Forall (fun b =>
    content_hash a = content_hash b -> a = b) chunks) chunks)));
    [|contradict n; rewrite Forall_forall; intros a Ha; rewrite Forall_forall; intros b Hb; by apply n].
  intros a b Ha Hb. rewrite Forall_forall in f. specialize (f a Ha). rewrite Forall_forall in f.
  by apply f.
Defined.

(** Some bytes. *)
Definition sample_file (n : nat) : bytes := (fun k => byte_of_Z (Z.of_nat k * 7)) <$> seq 0 n.

Theorem encrypt_decrypt_round_trip_witness :
  let c : Config := {| MAX_CHUNK_SIZE := 180 |} in
  exists dm cs, encrypt (sample_file 900) = Some (Ok (dm, cs)) /\ DataMap.is_child dm = true /\
    decrypt dm (rev cs) = Ok (sample_file 900).
Proof.
  set (c := {| MAX_CHUNK_SIZE := 180 |}). cbv zeta.
  destruct (encrypt_decrypt_round_trip (sample_file 900)) as (dm & cs & E & _ & Hdec);
    [vm_compute; discriminate | split; [vm_compute; discriminate | reflexivity] | reflexivity |].
  exists dm, cs. split; [exact E|].
  assert (Hc : (match encrypt (sample_file 900) with
                | Some (Ok (dm', cs')) => DataMap.is_child dm' && bool_decide (collision_free (rev cs'))
                | _ => false
                end) = true) by (vm_compute; reflexivity).
  rewrite E in Hc. apply andb_prop in Hc as [Hch Hcf%bool_decide_eq_true_1]. split; [exact Hch|].
  apply Hdec; [exact Hcf|]. intros x Hx. apply list_elem_of_In, in_rev. rewrite rev_involutive.
  apply list_elem_of_In. exact Hx.
Defined.

(** C3: The mutual recursion of [encrypt_with_child_level] and
    [shrink_data_map] ends: with chunks of at least 113 bytes every serialized
    data map of more than three chunks makes fewer chunks than it describes, and
    the fuel [encrypt] passes is enough for every input.  A file below the
    minimum is refused. *)
Theorem encrypt_terminates
    `{Config, Blake3, Aead, Brotli, !Codec bincode VersionedDataMap, !DataMapSize} (data : bytes)
    (HM : 113 <= MAX_CHUNK_SIZE) :
  (exists r, encrypt data = Some r) /\
  (lenZ data < MIN_ENCRYPTABLE_BYTES -> exists e, encrypt data = Some (Err e)).
Proof.
  assert (HM1 : 1 <= MAX_CHUNK_SIZE) by lia. pose proof (lenZ_nonneg data) as Hpos. split.
  - destruct (encrypt data) as [r|] eqn:E; [eauto|exfalso]. revert E. unfold encrypt.
    apply (proj1 (encrypt_fuel_enough HM1 HM _)); unfold encrypt_fuel; [lia|].
    assert (0 <= get_num_chunks (lenZ data)); [|lia].
    destruct (decide (MIN_ENCRYPTABLE_BYTES <= lenZ data)) as [Hd|Hd].
    + pose proof (num_chunks_ge_3 HM1 _ Hd). lia.
    +       rewrite (proj2 (num_chunks_zero_iff HM1 (lenZ data) Hpos)) by lia. lia.
  - intros Hs. unfold encrypt, encrypt_fuel.
    destruct (Z.to_nat _) as [|f] eqn:Ef.
    +       rewrite (proj2 (num_chunks_zero_iff HM1 (lenZ data) Hpos)) in Ef by lia. lia.
    + rewrite encrypt_with_child_level_S. unfold encrypt_chunks.
      assert ((lenZ data <? MIN_ENCRYPTABLE_BYTES) = true) as -> by lia. eauto.
Qed.

Theorem encrypt_terminates_witness :
  let c : Config := {| MAX_CHUNK_SIZE := 120 |} in
  (exists r, encrypt (sample_file 5000) = Some r) /\ (exists e, encrypt [] = Some (Err e)).
Proof.
  set (c := {| MAX_CHUNK_SIZE := 120 |}). cbv zeta.
  assert (HM : 113 <= MAX_CHUNK_SIZE) by (vm_compute; discriminate). split.
  - exact (proj1 (encrypt_terminates (sample_file 5000) HM)).
  - exact (proj2 (encrypt_terminates [] HM) eq_refl).
Defined.

(** [get_root_data_map] and [get_root_data_map_parallel], run against the
    same retrieval function, give the same result, errors included: the same root
    map, or the error of the first chunk that cannot be retrieved or
    decrypted. *)
Theorem root_search_parallel_agrees
    `{Config, Blake3, Aead, Brotli, !Codec bincode VersionedDataMap}
    (get : XorName -> result Error bytes) (dm : DataMap) :
  get_root_data_map_parallel (get_many get) dm =
  ('(root, _) ← get_root_data_map (get_one get) dm tt; Ok root).
Proof.
  unfold get_root_data_map_parallel, get_root_data_map.
  rewrite (inner_root_maps_agree get 101 dm ∅ ∅) by (intros h d; by rewrite lookup_empty).
  unfold mbind, result_bind.
  destruct (inner_get_root_map _ _ _ _ _) as [[[? ?] ?]|]; done.
Qed.

(** The input of the key derivation determines its five components: two
    chunks that differ in their hash, in a predecessor's hash, in their position
    or in the level of shrinking never share key material. *)
Theorem key_material_injective (s s' a a' b b' : XorName) (i i' l l' : Z)
    (Hs : length s = 32%nat) (Hs' : length s' = 32%nat)
    (Ha : length a = 32%nat) (Ha' : length a' = 32%nat)
    (Hb : length b = 32%nat) (Hb' : length b' = 32%nat)
    (Hi : usize_ok i) (Hi' : usize_ok i') (Hl : usize_ok l) (Hl' : usize_ok l')
    (Heq : context_material s a b i l = context_material s' a' b' i' l') :
  s = s' /\ a = a' /\ b = b' /\ i = i' /\ l = l'.
Proof.
  unfold context_material in Heq.
  apply app_inj_1 in Heq as [-> Heq]; [|congruence].
  apply app_inj_1 in Heq as [-> Heq]; [|congruence].
  apply app_inj_1 in Heq as [-> Heq]; [|congruence].
  apply app_inj_1 in Heq as [Hei Hel]; [|by rewrite !length_le_bytes].
  apply le_bytes_inj in Hei; [|done..]. apply le_bytes_inj in Hel; [|done..]. done.
Qed.

Theorem key_material_injective_witness :
  let h := toy_hash [] in
  context_material h h h 2 0 <> context_material h h h 2 1.
Proof.
  cbv zeta. intros Heq.
  destruct (key_material_injective (toy_hash []) (toy_hash []) (toy_hash []) (toy_hash [])
    (toy_hash []) (toy_hash []) 2 2 0 1) as (_ & _ & _ & _ & Hl);
    [reflexivity .. | split; [discriminate | reflexivity] | split; [discriminate | reflexivity]
    | split; [discriminate | reflexivity] | split; [discriminate | reflexivity] | exact Heq |].
  discriminate Hl.
Defined.

(** C4: Two levels of shrinking lose the file.  The map made at the inner level
    is shrunk by a fresh recursion that starts again at child level 1 on a map
    without a child, so the map that [encrypt] returns leads to the map of the
    serialized map of the file, which is taken for the root and decrypted with the
    keys of level 0.  So for every file whose map is shrunk twice [encrypt] succeeds,
    and decrypting what it returned fails, whatever further chunks are at hand,
    provided that no chunk of level 1 opens with the keys of level 0. *)
Theorem nested_shrink_is_not_decryptable
    `{Config, Blake3, Aead, Brotli, !Codec bincode VersionedDataMap}
    `{!Blake3Laws, !AeadLaws, !BrotliLaws, !CodecLaws bincode VersionedDataMap}
    `{!DataMapSize, !Total} (data : bytes)
    (HM : 1 <= MAX_CHUNK_SIZE) (Hd : MIN_ENCRYPTABLE_BYTES <= lenZ data < usize_modulus)
    (Hlevels : two_levels (get_num_chunks (lenZ data)))
    (Hapart : forall cs0 b, encrypt_chunks data 0 = Ok (file_map data cs0, cs0) ->
       to_bytes (file_map data cs0) = Some b -> levels_apart b) :
  exists dm cs, encrypt data = Some (Ok (dm, cs)) /\
    forall chunks, collision_free chunks -> cs ⊆ chunks -> exists e, decrypt dm chunks = Err e.
Proof.
  destruct (encrypt_two_levels HM data Hd Hlevels) as (cs0 & b & cs1 & b' & cs2 & E0 & Eb & E1 & Eb' & E2 & He).
  eexists _, _. split; [exact He|]. intros chunks Hcf Hs.
  rewrite (decrypt_child_of HM b cs1 b' cs2 chunks Eb' E2 Hcf ltac:(set_solver)).
  apply (wrong_level HM b cs1 chunks E1 (Hapart cs0 b E0 Eb) Hcf). set_solver.
Qed.

Theorem nested_shrink_is_not_decryptable_witness :
  let c : Config := {| MAX_CHUNK_SIZE := 120 |} in
  exists dm cs e, encrypt (sample_file 600) = Some (Ok (dm, cs)) /\ decrypt dm cs = Err e.
Proof.
  set (c := {| MAX_CHUNK_SIZE := 120 |}). cbv zeta.
  destruct (nested_shrink_is_not_decryptable (sample_file 600)) as (dm & cs & E & Hdec).
  - vm_compute. discriminate.
  - split; [vm_compute; discriminate | reflexivity].
  - split; reflexivity.
  - intros cs0 b E0 Eb i x Hi Hx.
    assert (match encrypt_chunks (sample_file 600) 0 with
            | Ok (dm, _) => match to_bytes dm with
                | Some b => forallb (fun i => match encrypt_one b 1 i with
                    | Ok c => negb (is_ok (decrypt_chunk i c (all_src_hashes b) 0)) | _ => true end)
                    (rangeZ (get_num_chunks (lenZ b)))
                | None => true end
            | _ => true end = true) as Hc by (vm_compute; reflexivity).
    rewrite E0, Eb in Hc. rewrite forallb_forall in Hc. specialize (Hc i).
    rewrite Hx in Hc. apply negb_true_iff, Hc, list_elem_of_In, elem_of_rangeZ, Hi.
  - exists dm, cs. assert (Hcf : match encrypt (sample_file 600) with
                | Some (Ok (_, cs)) => bool_decide (collision_free cs) | _ => true end = true) by (vm_compute; reflexivity).
    rewrite E in Hcf. apply bool_decide_eq_true_1 in Hcf.
    destruct (Hdec cs Hcf) as [e He]; [done|]. exists e. auto.
Defined.
