(* ===== verification/Ranges.v ===== *)
(** * Reading a range of an encrypted file

    [decrypt_range] of [self_encryption/src/lib.rs] decrypts only the chunks a
    range touches; the facts on runs of chunks are shared with the streaming
    reader. *)

From Stdlib Require Import ZArith Lia Sorting.Sorted.
From stdpp Require Import base list strings gmap.
From S2P Require Import Prelude Interfaces ChunkMath Cipher DataMap Reference Encrypt Decrypt.
From S2P Require Import RoundTrip.

Local Open Scope Z_scope.

(** The indices [a..=b]. *)
Definition span (a b : Z) : list Z := (fun i => a + i) <$> rangeZ (b - a + 1).

Lemma elem_of_span a b i : i ∈ span a b <-> a <= i <= b.
Proof.
  unfold span. rewrite list_elem_of_fmap. split.
  - intros (k & -> & Hk%elem_of_rangeZ). lia.
  - intros Hi. exists (i - a). rewrite elem_of_rangeZ. lia.
Qed.

Lemma span_lookup a b k : (k < Z.to_nat (b - a + 1))%nat -> span a b !! k = Some (a + Z.of_nat k).
Proof.
  intros Hk. unfold span. rewrite list_lookup_fmap.
  rewrite <- (Nat2Z.id k) at 1. rewrite rangeZ_lookup by lia. done.
Qed.

Lemma length_span a b : length (span a b) = Z.to_nat (b - a + 1).
Proof. unfold span. by rewrite length_fmap, length_rangeZ. Qed.

Lemma span_cons a b : a <= b -> span a b = a :: span (a + 1) b.
Proof.
  intros Hab. apply list_eq. intros [|k].
  - rewrite span_lookup by lia. cbn. f_equal. lia.
  - cbn. destruct (decide (S k < Z.to_nat (b - a + 1))%nat).
    + rewrite !span_lookup by lia. f_equal. lia.
    + rewrite !(lookup_ge_None_2 (span _ _)) by (rewrite length_span; lia). reflexivity.
Qed.

Lemma span_nil a b : b < a -> span a b = [].
Proof. intros Hab. unfold span. by replace (rangeZ (b - a + 1)) with (@nil Z) by (unfold rangeZ; by replace (Z.to_nat (b - a + 1)) with 0%nat by lia). Qed.

Lemma slice_slice {A} (l : list A) a b i j :
  0 <= a <= b -> 0 <= i <= j -> a + j <= b -> slice (slice l a b) i j = slice l (a + i) (a + j).
Proof.
  intros Hab Hij Hb. unfold slice. rewrite skipn_firstn_comm, take_take, drop_drop.
  f_equal; [|f_equal]; lia.
Qed.

Lemma filter_none {A} (P : A -> Prop) `{!forall a, Decision (P a)} (l : list A) :
  Forall (fun a => ~ P a) l -> filter P l = [].
Proof. induction 1 as [|x l Hx _ IH]; [done|]. rewrite filter_cons. by rewrite decide_False. Qed.

Lemma filter_all {A} (P : A -> Prop) `{!forall a, Decision (P a)} (l : list A) :
  Forall P l -> filter P l = l.
Proof.
  induction 1 as [|x l Hx _ IH]; [done|]. rewrite filter_cons. rewrite decide_True by done.
  by rewrite IH.
Qed.

Section Runs.
Context `{Config}.
Context (HM : 1 <= MAX_CHUNK_SIZE).

(** A run of consecutive chunks is the slice between its ends. *)
Lemma concat_run {A} (data : list A) a b :
  MIN_ENCRYPTABLE_BYTES <= lenZ data -> 0 <= a <= b -> b < get_num_chunks (lenZ data) ->
  concat (chunk_slice data <$> span a b) =
    slice data (get_start_end_positions (lenZ data) a).1 (get_start_end_positions (lenZ data) b).2.
Proof.
  intros Hd [Ha Hab]. replace b with (a + (b - a)) by lia. assert (Hk : 0 <= b - a) by lia.
  revert Hk. generalize (b - a). intros k Hk. pattern k. apply natlike_ind; [| |done]; clear b Hab k Hk.
  - intros Hn. unfold span. replace (a + 0 - a + 1) with 1 by lia.
    change (rangeZ 1) with [0]. cbn [fmap list_fmap concat]. rewrite app_nil_r. unfold chunk_slice. replace (a + 0) with a by lia.
    by destruct (get_start_end_positions (lenZ data) a).
  - intros k Hk IH Hn. unfold span in *.
    replace (a + Z.succ k - a + 1) with (a + k - a + 1 + 1) by lia.
    rewrite rangeZ_succ, !fmap_app, concat_app, IH by lia. cbn [fmap list_fmap concat].
    rewrite app_nil_r. replace (a + (a + k - a + 1)) with (a + k + 1) by lia.
    replace (a + Z.succ k) with (a + k + 1) in * by lia.
    assert (Hle : 0 <= (get_start_end_positions (lenZ data) a).1
                    <= (get_start_end_positions (lenZ data) (a + k)).2).
    { pose proof (start_end_bounds HM _ (a + k) Hd ltac:(lia)) as Hb.
      rewrite !(start_end_eq HM) in * by lia. cbn [fst snd] in *.
      pose proof (geometry_shape HM _ Hd) as (Hc & _). nia. }
    pose proof (start_end_bounds HM _ (a + k + 1) Hd ltac:(lia)) as Hb2.
    pose proof (start_end_adjacent HM _ (a + k) Hd ltac:(lia) ltac:(lia)) as Hadj.
    unfold chunk_slice. destruct (get_start_end_positions _ (a + k + 1)) as [s e].
    cbn [fst snd] in *. rewrite <- Hadj in Hb2. rewrite <- Hadj. apply slice_app_adjacent; lia.
Qed.

End Runs.

(** ** Decrypting a run *)

Section DecryptRange.
Context `{Config, Blake3, Aead, Brotli, !Codec bincode VersionedDataMap}.
Context `{!Blake3Laws, !AeadLaws, !BrotliLaws}.
Context (HM : 1 <= MAX_CHUNK_SIZE).

Lemma lookup_encrypted data lvl cs i c :
  Forall2 (fun i c => encrypt_one data lvl i = Ok c) (rangeZ (get_num_chunks (lenZ data))) cs ->
  cs !! Z.to_nat i = Some c -> 0 <= i < get_num_chunks (lenZ data) -> encrypt_one data lvl i = Ok c.
Proof.
  intros Hf Hc Hi. eapply (Forall2_lookup_lr _ _ _ _ _ _ Hf); [|exact Hc]. by apply rangeZ_lookup.
Qed.

(** The entries of a map for the chunks [a..=b], and their contents. *)
Definition run_of {A} (cs : list A) (a b : Z) : list A :=
  take (Z.to_nat (b - a + 1)) (drop (Z.to_nat a) cs).

Lemma lookup_run {A} (cs : list A) a b k :
  0 <= a -> (k < Z.to_nat (b - a + 1))%nat -> run_of cs a b !! k = cs !! Z.to_nat (a + Z.of_nat k).
Proof.
  intros Ha Hk. unfold run_of. rewrite lookup_take_lt, lookup_drop by done. f_equal. lia.
Qed.

Lemma length_run {A} (cs : list A) a b n :
  lenZ cs = n -> 0 <= a <= b -> b < n -> length (run_of cs a b) = Z.to_nat (b - a + 1).
Proof. unfold run_of, lenZ. intros. rewrite length_take, length_drop. lia. Qed.

Lemma infos_index data cs k info :
  DataMap.infos (file_map data cs) !! k = Some info -> index info = Z.of_nat k.
Proof.
  unfold DataMap.infos, file_map. cbn [chunk_identifiers].
  intros Hk. apply lookup_zip_with_Some in Hk as (i & c & -> & Hi & _).
  unfold rangeZ in Hi. rewrite list_lookup_fmap in Hi.
  destruct (seq 0 _ !! k) as [m|] eqn:Em; [|done]. simplify_eq/=. apply lookup_seq in Em. lia.
Qed.

Lemma filter_infos data cs a b :
  0 <= a <= b ->
  filter (fun info => a <= index info /\ index info <= b) (DataMap.infos (file_map data cs)) =
  run_of (DataMap.infos (file_map data cs)) a b.
Proof.
  intros Hab. pose proof (infos_index data cs) as Hlk.
  set (l := DataMap.infos (file_map data cs)) in *. clearbody l.
  rewrite <- (take_drop (Z.to_nat a) l) at 1.
  rewrite <- (take_drop (Z.to_nat (b - a + 1)) (drop (Z.to_nat a) l)) at 1.
  rewrite !filter_app.
  rewrite (filter_none _ (take _ l)), (filter_all _ (take _ (drop _ l))), filter_none; [by rewrite app_nil_r| | |]; apply Forall_lookup; intros k info Hk.
  - rewrite !lookup_drop in Hk. apply Hlk in Hk. lia.
  - pose proof (lookup_lt_Some _ _ _ Hk) as Hlt. rewrite length_take in Hlt.
    rewrite lookup_take_lt, lookup_drop in Hk by lia. apply Hlk in Hk. lia.
  - pose proof (lookup_lt_Some _ _ _ Hk) as Hlt. rewrite length_take in Hlt.
    rewrite lookup_take_lt in Hk by lia. apply Hlk in Hk. lia.
Qed.

Lemma decrypt_run data lvl cs a b :
  MIN_ENCRYPTABLE_BYTES <= lenZ data ->
  Forall2 (fun i c => encrypt_one data lvl i = Ok c) (rangeZ (get_num_chunks (lenZ data))) cs ->
  0 <= a <= b -> b < get_num_chunks (lenZ data) ->
  try_map (fun '(idx, c) => decrypt_chunk (a + idx) c (all_src_hashes data) lvl)
    (enumerate (run_of cs a b)) = Ok (chunk_slice data <$> span a b).
Proof.
  intros Hd Hf Hab Hb.
  assert (Hl : lenZ cs = get_num_chunks (lenZ data)).
  { apply Forall2_length in Hf. rewrite length_rangeZ in Hf.
    pose proof (num_chunks_ge_3 HM _ Hd). unfold lenZ in *. lia. }
  apply try_map_Ok_Forall2, Forall2_same_length_lookup_2.
  - unfold enumerate. by rewrite length_enumerate_from, (length_run _ _ _ _ Hl), length_fmap, length_span.
  - intros k [idx c] y Hk Hy. unfold enumerate in Hk. rewrite lookup_enumerate_from in Hk.
    destruct (run_of cs a b !! k) as [c'|] eqn:Ec; [|done]. simplify_eq/=.
    pose proof (lookup_lt_Some _ _ _ Ec) as Hlt. rewrite (length_run _ _ _ _ Hl) in Hlt by done.
    rewrite lookup_run in Ec by lia. rewrite list_lookup_fmap, span_lookup in Hy by done. simplify_eq/=.
    apply (decrypt_encrypt_one HM); [done|lia|].
    eapply lookup_encrypted; [exact Hf|exact Ec|lia].
Qed.

Lemma lenZ_infos data cs : lenZ cs = get_num_chunks (lenZ data) ->
  MIN_ENCRYPTABLE_BYTES <= lenZ data ->
  lenZ (DataMap.infos (file_map data cs)) = get_num_chunks (lenZ data).
Proof.
  intros Hl Hd. pose proof (num_chunks_ge_3 HM _ Hd). unfold DataMap.infos, file_map, lenZ in *.
  cbn [chunk_identifiers]. rewrite length_zip_with, length_rangeZ. lia.
Qed.

(** The sum of the sizes of the first [k] chunks is where they end. *)
Lemma total_size_prefix data cs k :
  MIN_ENCRYPTABLE_BYTES <= lenZ data -> lenZ cs = get_num_chunks (lenZ data) ->
  (k <= length cs)%nat ->
  DataMap.total_size (take k (DataMap.infos (file_map data cs))) =
    if decide (k = 0%nat) then 0
    else (get_start_end_positions (lenZ data) (Z.of_nat k - 1)).2.
Proof.
  intros Hd Hl. induction k as [|k IH]; intros Hk; [done|].
  rewrite decide_False by lia. pose proof (lenZ_infos _ _ Hl Hd) as Hli.
  destruct (lookup_lt_is_Some_2 (DataMap.infos (file_map data cs)) k) as [info Hinfo].
  { unfold lenZ in *. lia. }
  rewrite (take_S_r _ _ _ Hinfo). unfold DataMap.total_size in *. rewrite fold_left_app.
  rewrite IH by lia. cbn [fold_left].
  pose proof (infos_index _ _ _ _ Hinfo) as Hidx.
  unfold DataMap.infos, file_map in Hinfo. cbn [chunk_identifiers] in Hinfo.
  apply lookup_zip_with_Some in Hinfo as (i & c & -> & Hi & _). cbn [info_of index] in Hidx. subst i.
  unfold info_of. cbn [src_size]. replace (Z.of_nat (S k) - 1) with (Z.of_nat k) by lia.
  destruct (decide (k = 0%nat)) as [->|].
  - rewrite (start_end_first HM) by done. cbn. lia.
  - pose proof (start_end_adjacent HM (lenZ data) (Z.of_nat k - 1) Hd ltac:(lia)) as Ha.
    replace (Z.of_nat k - 1 + 1) with (Z.of_nat k) in Ha by lia.
    assert (Z.of_nat k < get_num_chunks (lenZ data)) by (rewrite <- Hl; unfold lenZ; lia).
    rewrite Ha by lia. lia.
Qed.

Lemma original_file_size_file_map data cs c :
  MIN_ENCRYPTABLE_BYTES <= lenZ data -> lenZ cs = get_num_chunks (lenZ data) ->
  DataMap.original_file_size (set_child (file_map data cs) c) = lenZ data.
Proof.
  intros Hd Hl. pose proof (lenZ_infos _ _ Hl Hd) as Hli. pose proof (num_chunks_ge_3 HM _ Hd).
  pose proof (total_size_prefix data cs (length cs) Hd Hl ltac:(lia)) as Ht.
  rewrite take_ge in Ht by (unfold lenZ in *; lia).
  unfold DataMap.original_file_size. cbn [set_child chunk_identifiers].
  change (chunk_identifiers (file_map data cs)) with (DataMap.infos (file_map data cs)). rewrite Ht.
  rewrite decide_False by (unfold lenZ in *; lia).
  replace (Z.of_nat (length cs) - 1) with (get_num_chunks (lenZ data) - 1) by (unfold lenZ in *; lia).
  apply (start_end_last HM); done.
Qed.

(** The bytes of a decrypted run that belong to a range. *)
Lemma range_of_run (data : bytes) s e file_pos len :
  MIN_ENCRYPTABLE_BYTES <= lenZ data -> 0 <= s <= e -> e < get_num_chunks (lenZ data) ->
  let s0 := (get_start_end_positions (lenZ data) s).1 in
  let e0 := (get_start_end_positions (lenZ data) e).2 in
  s0 <= file_pos < e0 -> 0 <= len -> Z.min (file_pos + len) (lenZ data) <= e0 ->
  let bs := concat (chunk_slice data <$> span s e) in
  let off := file_pos - s0 in
  lenZ bs = e0 - s0 /\
  slice bs off (off + Z.min len (lenZ bs - off)) =
    slice data file_pos (Z.min (file_pos + len) (lenZ data)).
Proof.
  intros Hd Hse He s0 e0 Hp Hlen Hend bs off.
  pose proof (start_end_bounds HM _ s Hd ltac:(lia)) as Hs.
  pose proof (start_end_bounds HM _ e Hd ltac:(lia)) as Hee.
  assert (Hbs : bs = slice data s0 e0) by (by apply (concat_run HM)).
  assert (Hb : 0 <= s0 /\ e0 <= lenZ data).
  { subst s0 e0. destruct (get_start_end_positions _ s), (get_start_end_positions _ e).
    cbn in *. lia. }
  assert (Hl : lenZ bs = e0 - s0) by (rewrite Hbs; apply lenZ_slice; lia).
  split; [done|]. rewrite Hl, Hbs. subst off.
  rewrite slice_slice by lia. f_equal; lia.
Qed.

End DecryptRange.

(** ** Properties *)

(** C5: For a root data map, [decrypt_range] returns exactly the bytes of the
    file that the range covers, whatever chunks it crosses: the part of
    [file_pos .. file_pos + len] inside the file, empty when the range starts at
    or after the end. *)
Theorem decrypt_range_is_slice
    `{Config, Blake3, Aead, Brotli, !Codec bincode VersionedDataMap}
    `{!Blake3Laws, !AeadLaws, !BrotliLaws} (data : bytes) (dm : DataMap)
    (cs chunks : list EncryptedChunk) (file_pos len : Z)
    (HM : 1 <= MAX_CHUNK_SIZE) (He : encrypt_chunks data 0 = Ok (dm, cs))
    (Hcf : collision_free chunks) (Hs : cs ⊆ chunks)
    (Hp : 0 <= file_pos) (Hlen : 0 <= len) (Hu : file_pos + len < usize_modulus) :
  decrypt_range dm chunks file_pos len =
    Ok (slice data file_pos (Z.min (file_pos + len) (lenZ data))).
Proof.
  pose proof (encrypt_chunks_Ok HM _ _ _ _ He) as (Hd & -> & Hf).
  pose proof (encrypt_chunks_length HM _ _ _ _ He) as (Hl & _).
  pose proof (num_chunks_ge_3 HM _ Hd) as Hn.
  pose proof (geometry_shape HM _ Hd) as (Hc & Hlt & _ & Hbig & _).
  unfold decrypt_range, wadd.
  change (DataMap.original_file_size (file_map data cs))
    with (DataMap.original_file_size (set_child (file_map data cs) None)).
  rewrite (original_file_size_file_map HM data cs None Hd Hl).
  rewrite Z.mod_small by lia. set (end_pos := Z.min (file_pos + len) (lenZ data)).
  assert (Hle : end_pos <= lenZ data) by lia.
  rewrite !(get_chunk_index_eq HM) by done.
  set (n := get_num_chunks (lenZ data)) in *. set (c := get_chunk_size (lenZ data) 0) in *.
  set (s := Z.min (file_pos / c) (n - 1)). set (e := Z.min (end_pos / c) (n - 1)).
  assert (Hpos : 0 <= file_pos / c) by (apply Z.div_pos; lia).
  pose proof (Z.div_mod file_pos c ltac:(lia)). pose proof (Z.mod_pos_bound file_pos c ltac:(lia)).
  pose proof (Z.div_mod end_pos c ltac:(lia)). pose proof (Z.mod_pos_bound end_pos c ltac:(lia)).
  assert (Hse : 0 <= s <= e).
  { split; [lia|]. destruct (decide (file_pos <= end_pos)).
    - assert (file_pos / c <= end_pos / c) by (apply Z.div_le_mono; lia). lia.
    - assert (n - 1 <= end_pos / c) by (apply Z.div_le_lower_bound; nia). lia. }
  rewrite filter_infos by (done || lia).
  rewrite (lookup_infos chunks _ (run_of cs s e)); [|done|..].
  2: { intros x Hx. apply Hs. unfold run_of in Hx. by apply subseteq_take, subseteq_drop in Hx. }
  2: { unfold run_of. apply Forall2_take, Forall2_drop. by apply file_map_lookup_infos. }
  cbn [mbind result_bind]. rewrite extract_hashes_file_map by done.
  change (child_level_of (file_map data cs)) with 0.
  rewrite (decrypt_run HM) by (done || lia). cbn [mbind result_bind]. cbv zeta.
  rewrite (start_position_eq HM) by lia. fold c.
  assert (Hs0 : (get_start_end_positions (lenZ data) s).1 = c * s)
    by (rewrite (start_end_eq HM) by lia; done).
  assert (He0 : (get_start_end_positions (lenZ data) e).2 =
                  if e =? n - 1 then lenZ data else c * (e + 1))
    by (rewrite (start_end_eq HM) by lia; done).
  destruct (decide (file_pos < lenZ data)) as [Hin|Hout].
  - pose proof (range_of_run HM data s e file_pos len Hd Hse ltac:(lia)) as Hr. cbv zeta in Hr.
    fold end_pos in Hr. rewrite Hs0 in Hr.
    assert (Hb : c * s <= file_pos < (get_start_end_positions (lenZ data) e).2 /\
                 end_pos <= (get_start_end_positions (lenZ data) e).2).
    { assert (c * s <= c * (file_pos / c)) by (apply Z.mul_le_mono_nonneg_l; lia).
      rewrite He0. destruct (e =? n - 1) eqn:Ee; b2p; [lia|].
      assert (e = end_pos / c) by lia. assert (s = file_pos / c) by lia.
      assert (c * (s + 1) <= c * (e + 1)) by (apply Z.mul_le_mono_nonneg_l; lia). lia. }
    specialize (Hr (proj1 Hb) Hlen (proj2 Hb)). destruct Hr as [Hl' Hr].
    assert ((lenZ (concat (chunk_slice data <$> span s e)) <=? file_pos - c * s) = false) as ->
      by (rewrite Hl'; lia).
    f_equal. exact Hr.
  - assert (s = n - 1 /\ e = n - 1) as [-> ->].
    { assert (n - 1 <= file_pos / c) by (apply Z.div_le_lower_bound; nia).
      split; lia. }
    rewrite (concat_run HM) by (done || lia). rewrite He0, Hs0, Z.eqb_refl.
    rewrite lenZ_slice by nia.
    assert ((lenZ data - c * (n - 1) <=? file_pos - c * (n - 1)) = true) as -> by lia.
    unfold slice. replace (Z.to_nat (end_pos - file_pos)) with 0%nat by lia. done.
Qed.

Theorem decrypt_range_is_slice_witness :
  let c : Config := {| MAX_CHUNK_SIZE := 5 |} in
  exists dm cs, encrypt_chunks (sample_file 17) 0 = Ok (dm, cs) /\
    decrypt_range dm cs 4 9 = Ok (slice (sample_file 17) 4 13).
Proof.
  set (c := {| MAX_CHUNK_SIZE := 5 |}). cbv zeta.
  assert (Hc : match encrypt_chunks (sample_file 17) 0 with
               | Ok (_, cs) => bool_decide (collision_free cs) = true
               | Err _ => False
               end) by (vm_compute; reflexivity).
  destruct (encrypt_chunks (sample_file 17) 0) as [[dm cs]|] eqn:E; [|destruct Hc].
  apply bool_decide_eq_true_1 in Hc. exists dm, cs. split; [reflexivity|].
  apply (decrypt_range_is_slice (sample_file 17) dm cs cs 4 9);
    [vm_compute; discriminate | exact E | exact Hc | intros x Hx; exact Hx
    | discriminate | discriminate | reflexivity].
Defined.
