(* ===== verification/StreamDec.v ===== *)
(** * Streaming decryption

    [self_encryption/src/stream_decrypt.rs]: [DecryptionStream] as explicit
    state, its batches, its iterator and its random access methods. *)

From Stdlib Require Import ZArith Lia Sorting.Sorted.
From stdpp Require Import base list strings gmap sorting.
From S2P Require Import Prelude Interfaces ChunkMath Cipher DataMap Reference Encrypt Decrypt.
From S2P Require Import RoundTrip Ranges.

Local Open Scope Z_scope.

(** The fields of the struct other than the retrieval function. *)
Record DecryptionStream := mkStream {
  chunk_infos : list ChunkInfo;
  src_hashes : list XorName;
  child_level : Z;
  current_batch_start : Z;
  current_batch_chunks : list bytes;
  current_batch_index : Z
}.

Section StreamDec.
Context `{Config, Blake3, Aead, Brotli, !Codec bincode VersionedDataMap}.
(** The batch size comes from the environment (10 by default). *)
Context (STREAM_DECRYPT_BATCH_SIZE : Z).
Context (get_chunk_parallel : list (Z * XorName) -> result Error (list (Z * bytes))).

Definition streaming_decrypt (data_map : DataMap) : result Error DecryptionStream :=
  root_map ← (if DataMap.is_child data_map
              then get_root_data_map_parallel get_chunk_parallel data_map
              else Ok data_map);
  Ok {| chunk_infos := sort_by_key index (DataMap.infos root_map);
        src_hashes := extract_hashes root_map;
        child_level := child_level_of root_map;
        current_batch_start := 0;
        current_batch_chunks := [];
        current_batch_index := 0 |}.

(** The loop that decrypts a batch pushes each chunk as it goes: after an error
    the chunks before it are in [current_batch_chunks]. *)
Fixpoint decrypt_batch (s : DecryptionStream) (done : list bytes)
    (work : list (ChunkInfo * (Z * bytes))) : list bytes * result Error unit :=
  match work with
  | [] => (done, Ok tt)
  | (info, (_, encrypted_content)) :: work' =>
      match decrypt_chunk (index info) encrypted_content (src_hashes s) (child_level s) with
      | Ok decrypted_chunk => decrypt_batch s (done ++ [decrypted_chunk]) work'
      | Err e => (done, Err e)
      end
  end.

Definition set_batch (s : DecryptionStream) (start : Z) (chunks : list bytes) (idx : Z)
    : DecryptionStream :=
  {| chunk_infos := chunk_infos s; src_hashes := src_hashes s; child_level := child_level s;
     current_batch_start := start; current_batch_chunks := chunks; current_batch_index := idx |}.

Definition fetch_next_batch (s : DecryptionStream) : result Error bool * DecryptionStream :=
  if lenZ (chunk_infos s) <=? current_batch_start s then (Ok false, s)
  else
    let batch_end :=
      Z.min (current_batch_start s + STREAM_DECRYPT_BATCH_SIZE) (lenZ (chunk_infos s)) in
    let batch_infos := slice (chunk_infos s) (current_batch_start s) batch_end in
    let batch_hashes := (fun info => (index info, dst_hash info)) <$> batch_infos in
    match get_chunk_parallel batch_hashes with
    | Err e => (Err e, s)
    | Ok fetched =>
      let fetched_chunks := sort_by_key fst fetched in
      match decrypt_batch s [] (zip batch_infos fetched_chunks) with
      | (chunks, Ok _) => (Ok true, set_batch s batch_end chunks 0)
      | (chunks, Err e) =>
          (Err e, set_batch s (current_batch_start s) chunks (current_batch_index s))
      end
    end.

(** [Iterator::next]. *)
Definition next_chunk (s : DecryptionStream) : option (result Error bytes) * DecryptionStream :=
  let yield s :=
    match current_batch_chunks s !! Z.to_nat (current_batch_index s) with
    | Some chunk => (Some (Ok chunk), set_batch s (current_batch_start s) (current_batch_chunks s)
                                        (current_batch_index s + 1))
    | None => (None, s)
    end in
  if lenZ (current_batch_chunks s) <=? current_batch_index s then
    match fetch_next_batch s with
    | (Ok true, s') => yield s'
    | (Ok false, s') => (None, s')
    | (Err e, s') => (Some (Err e), s')
    end
  else yield s.

(** The first [n] calls of [next]. *)
Fixpoint next_n (n : nat) (s : DecryptionStream)
    : list (option (result Error bytes)) * DecryptionStream :=
  match n with
  | O => ([], s)
  | S n' => let '(x, s') := next_chunk s in
            let '(xs, s'') := next_n n' s' in (x :: xs, s'')
  end.

(** *** Random access *)

Definition file_size (s : DecryptionStream) : Z := DataMap.total_size (chunk_infos s).

Definition get_chunk_start_position (s : DecryptionStream) (chunk_index : Z) : Z :=
  DataMap.total_size (filter (fun info => index info < chunk_index) (chunk_infos s)).

Fixpoint index_from_infos (accumulated_size : Z) (infos : list ChunkInfo) (position : Z)
    : option Z :=
  match infos with
  | [] => None
  | info :: infos' =>
      if (accumulated_size <=? position) && (position <? accumulated_size + src_size info)
      then Some (index info)
      else index_from_infos (accumulated_size + src_size info) infos' position
  end.

Definition get_chunk_index_from_infos (s : DecryptionStream) (position : Z) : Z :=
  match index_from_infos 0 (chunk_infos s) position with
  | Some i => i
  | None => match last (chunk_infos s) with Some info => index info | None => 0 end
  end.

Definition get_range (s : DecryptionStream) (start len : Z) : result Error bytes :=
  let file_size := file_size s in
  if file_size <=? start then Ok []
  else
    let end_pos := Z.min (wadd start len) file_size in
    let actual_len := wsub end_pos start in
    if actual_len =? 0 then Ok []
    else
      let start_chunk := get_chunk_index_from_infos s start in
      let end_chunk := get_chunk_index_from_infos s (sat_sub end_pos 1) in
      let required_hashes := sort_by_key fst
        ((fun info => (index info, dst_hash info)) <$>
           filter (fun info => start_chunk <= index info /\ index info <= end_chunk)
             (chunk_infos s)) in
      fetched_chunks ← get_chunk_parallel required_hashes;
      let chunk_map : gmap Z bytes := foldl (fun m '(i, c) => <[i := c]> m) ∅ fetched_chunks in
      all_bytes ← try_fold
        (fun acc chunk_index =>
           match chunk_map !! chunk_index with
           | Some encrypted_content =>
               decrypted ← decrypt_chunk chunk_index encrypted_content (src_hashes s) (child_level s);
               Ok (acc ++ decrypted)
           | None => Ok acc
           end)
        [] (span start_chunk end_chunk);
      let start_chunk_pos := get_chunk_start_position s start_chunk in
      let internal_offset := wsub start start_chunk_pos in
      if lenZ all_bytes <=? internal_offset then Ok []
      else
        let available_len := lenZ all_bytes - internal_offset in
        let range_len := Z.min actual_len available_len in
        Ok (slice all_bytes internal_offset (internal_offset + range_len)).

Definition range (s : DecryptionStream) (start end_ : Z) : result Error bytes :=
  get_range s start (sat_sub end_ start).

Definition range_from (s : DecryptionStream) (start : Z) : result Error bytes :=
  get_range s start (sat_sub (file_size s) start).

Definition range_to (s : DecryptionStream) (end_ : Z) : result Error bytes := get_range s 0 end_.

Definition range_full (s : DecryptionStream) : result Error bytes := get_range s 0 (file_size s).

Definition range_inclusive (s : DecryptionStream) (start end_ : Z) : result Error bytes :=
  get_range s start (wadd (sat_sub end_ start) 1).

End StreamDec.

(** ** Lemmas *)

(** Sorting any permutation of a strictly sorted list restores it. *)
Lemma sort_by_key_unique {A} (key : A -> Z) (l l' : list A) :
  StronglySorted (fun x y => key x < key y) l -> l' ≡ₚ l -> sort_by_key key l' = l.
Proof.
  intros Hl Hp. pose proof (sort_by_key_sorted key l') as Hs.
  assert (Hp' : sort_by_key key l' ≡ₚ l) by (by rewrite sort_by_key_perm).
  revert Hs Hp'. generalize (sort_by_key key l'). clear Hp l'.
  induction Hl as [|x l Hl IH Hx]; intros s Hs Hp.
  - by apply Permutation_nil_r in Hp.
  - destruct Hs as [|y s Hs Hy].
    { by apply Permutation_nil_cons in Hp. }
    assert (y = x) as ->.
    { assert (Hin : y ∈ x :: l) by (rewrite <- Hp; left).
      apply elem_of_cons in Hin as [?|Hin]; [done|].
      rewrite Forall_forall in Hx. apply Hx in Hin.
      assert (Hin' : x ∈ y :: s) by (rewrite Hp; left).
      apply elem_of_cons in Hin' as [?|Hin']; [done|].
      rewrite Forall_forall in Hy. apply Hy in Hin'. lia. }
    f_equal. apply IH; [done|]. by apply Permutation_cons_inv in Hp.
Qed.

(** ** Requests for runs of chunks *)

Lemma run_all {A} (l : list A) n : lenZ l = n -> 1 <= n -> run_of l 0 (n - 1) = l.
Proof.
  intros Hn Hn1. unfold run_of. change (Z.to_nat 0) with 0%nat. rewrite drop_0. apply take_ge. unfold lenZ in *. lia.
Qed.

Section Requests.
Context `{Config, Blake3}.
Context (data : bytes) (cs : list EncryptedChunk) (Hl : lenZ cs = get_num_chunks (lenZ data)).

Abbreviation n := (get_num_chunks (lenZ data)).
Abbreviation infos := (DataMap.infos (file_map data cs)).

Definition requests_of (a b : Z) : list (Z * XorName) :=
  (fun info => (index info, dst_hash info)) <$> run_of infos a b.

(** A backend that answers a request for a run with its chunks, in any order. *)
Definition honest_batch (get : list (Z * XorName) -> result Error (list (Z * bytes))) (a b : Z) : Prop :=
  exists answers, get (requests_of a b) = Ok answers /\ answers ≡ₚ zip (span a b) (run_of cs a b).

Lemma length_requests a b : 0 <= a <= b -> b < n -> length (requests_of a b) = Z.to_nat (b - a + 1).
Proof.
  intros Hab Hb. unfold requests_of. rewrite length_fmap. apply (length_run _ a b n); [|done..].
  pose proof (Forall2_length _ _ _ (file_map_lookup_infos data cs Hl)) as Hi. unfold lenZ in *. lia.
Qed.

(** What a request for a run asks for, and its answers in order. *)
Lemma requests_lookup a b i k : 0 <= a <= b -> b < n -> requests_of a b !! i = Some k ->
  (i < Z.to_nat (b - a + 1))%nat /\
  exists c, cs !! Z.to_nat (a + Z.of_nat i) = Some c /\ k = (a + Z.of_nat i, content_hash c).
Proof.
  intros Hab Hb Hi. pose proof (lookup_lt_Some _ _ _ Hi) as Hlt. rewrite length_requests in Hlt by done.
  split; [exact Hlt|]. unfold requests_of in Hi. apply list_lookup_fmap_Some in Hi as (info & -> & Hi).
  rewrite lookup_run in Hi by lia. destruct (Forall2_lookup_l _ _ _ _ _ (file_map_lookup_infos data cs Hl) Hi)
    as (c & Hc & Hh). exists c. split; [exact Hc|]. f_equal; [|exact Hh]. apply infos_index in Hi. lia.
Qed.

Definition answer_for (k : Z * XorName) : Z * bytes := (k.1, default [] (cs !! Z.to_nat k.1)).

Lemma requests_answers a b : 0 <= a <= b -> b < n -> answer_for <$> requests_of a b = zip (span a b) (run_of cs a b).
Proof.
  intros Hab Hb. apply list_eq_same_length with (Z.to_nat (b - a + 1)).
  - rewrite length_zip_with, length_span, (length_run _ a b n) by done. lia.
  - rewrite length_fmap. by apply length_requests.
  - intros i x y Hi Hx Hy. apply list_lookup_fmap_Some in Hx as (k & -> & Hk).
    destruct (requests_lookup a b i k Hab Hb Hk) as (_ & c & Hc & ->).
    apply lookup_zip_with_Some in Hy as (j & c' & -> & Hj & Hc'). rewrite span_lookup in Hj by exact Hi.
    rewrite lookup_run in Hc' by lia. injection Hj as <-. unfold answer_for. cbn [fst]. rewrite Hc. cbn. congruence.
Qed.

End Requests.

Section StreamFacts.
Context `{Config, Blake3, Aead, Brotli, !Codec bincode VersionedDataMap}.
Context `{!Blake3Laws, !AeadLaws, !BrotliLaws}.
Context (HM : 1 <= MAX_CHUNK_SIZE).
Context (data : bytes) (cs : list EncryptedChunk).
Context (Hd : MIN_ENCRYPTABLE_BYTES <= lenZ data).
Context (Hf : Forall2 (fun i c => encrypt_one data 0 i = Ok c) (rangeZ (get_num_chunks (lenZ data))) cs).

Abbreviation n := (get_num_chunks (lenZ data)).
Abbreviation infos := (DataMap.infos (file_map data cs)).

(** A backend that is honest about every run of the file's chunks. *)
Definition honest_backend (get : list (Z * XorName) -> result Error (list (Z * bytes))) : Prop :=
  forall a b, 0 <= a <= b -> b < get_num_chunks (lenZ data) -> honest_batch data cs get a b.

Lemma cs_length : lenZ cs = n.
Proof.
  apply Forall2_length in Hf. rewrite length_rangeZ in Hf.
  pose proof (num_chunks_ge_3 HM _ Hd). unfold lenZ in *. lia.
Qed.

Lemma span_sorted a b : StronglySorted Z.lt (span a b).
Proof.
  unfold span. generalize (Z.to_nat (b - a + 1)) as m. unfold rangeZ. intros m0.
  generalize (Z.to_nat (b - a + 1)) as m. intros m. rewrite <- list_fmap_compose.
  generalize 0%nat. induction m as [|m IH]; intros k; cbn; constructor; [apply IH|].
  rewrite Forall_fmap, Forall_forall. intros x Hx%elem_of_seq. cbn. lia.
Qed.

Lemma sort_answers a b answers :
  answers ≡ₚ zip (span a b) (run_of cs a b) ->
  sort_by_key fst answers = zip (span a b) (run_of cs a b).
Proof.
  apply sort_by_key_unique. generalize (span_sorted a b), (run_of cs a b).
  induction 1 as [|i l Hl IH Hi]; intros [|c l']; cbn; try constructor; [apply IH|].
  clear IH Hl. revert l'. induction Hi as [|j l Hj _ IH]; intros [|c' l']; cbn; constructor; [done|].
  apply IH.
Qed.

Definition stream_of (start : Z) (chunks : list bytes) (idx : Z) : DecryptionStream :=
  {| chunk_infos := infos; src_hashes := all_src_hashes data; child_level := 0;
     current_batch_start := start; current_batch_chunks := chunks; current_batch_index := idx |}.

Lemma infos_sorted : key_sorted index infos.
Proof. apply key_sorted_zip_with; [done|apply rangeZ_sorted]. Qed.

Lemma streaming_decrypt_root get :
  streaming_decrypt get (file_map data cs) = Ok (stream_of 0 [] 0).
Proof.
  unfold streaming_decrypt. cbn [DataMap.is_child file_map child mbind result_bind].
  rewrite sort_by_key_id by apply infos_sorted.
  by rewrite extract_hashes_file_map by apply cs_length.
Qed.

Lemma info_at i info : infos !! Z.to_nat i = Some info -> 0 <= i -> index info = i.
Proof. intros Hi Hp. apply infos_index in Hi. lia. Qed.

(** Decrypting a batch pairs each map entry with its chunk. *)
Lemma decrypt_batch_run s a b :
  0 <= a <= b -> b < n -> src_hashes s = all_src_hashes data -> child_level s = 0 ->
  decrypt_batch s [] (zip (run_of infos a b) (zip (span a b) (run_of cs a b))) =
    (chunk_slice data <$> span a b, Ok tt).
Proof.
  intros Hab Hb Hsrc Hlvl.
  assert (Hgen : forall k acc, (k <= Z.to_nat (b - a + 1))%nat ->
    decrypt_batch s acc (zip (drop k (run_of infos a b)) (drop k (zip (span a b) (run_of cs a b)))) =
    (acc ++ (chunk_slice data <$> drop k (span a b)), Ok tt)).
  { intros k. remember (Z.to_nat (b - a + 1) - k)%nat as m eqn:Em. revert k Em.
    induction m as [|m IH]; intros k Em acc Hk.
    - rewrite (drop_ge (span a b)) by (rewrite length_span; lia).
      rewrite (drop_ge (run_of infos a b)).
      2: { rewrite (length_run _ _ _ n); [lia| |done..]. by apply lenZ_infos; [|apply cs_length|]. }
      cbn. by rewrite app_nil_r.
    - assert (Hlt : (k < Z.to_nat (b - a + 1))%nat) by lia.
      destruct (lookup_lt_is_Some_2 (run_of infos a b) k) as [info Hinfo].
      { rewrite (length_run _ _ _ n); [lia| |done..]. by apply lenZ_infos; [|apply cs_length|]. }
      destruct (lookup_lt_is_Some_2 (run_of cs a b) k) as [c Hc].
      { rewrite (length_run _ _ _ n); [lia|apply cs_length|done..]. }
      rewrite (drop_S _ _ _ Hinfo).
      rewrite (drop_S (zip _ _) (a + Z.of_nat k, c) k).
      2: { apply lookup_zip_with_Some. exists (a + Z.of_nat k), c.
           by rewrite span_lookup by done. }
      rewrite (drop_S (span a b) (a + Z.of_nat k) k) by (by rewrite span_lookup).
      rewrite lookup_run in Hinfo by lia. rewrite lookup_run in Hc by lia.
      cbn [zip zip_with decrypt_batch]. rewrite (info_at _ _ Hinfo) by lia.
      rewrite Hsrc, Hlvl. rewrite (decrypt_encrypt_one HM) ; [|done|lia|].
      2: { eapply lookup_encrypted; [exact Hf|exact Hc|lia]. }
      rewrite fmap_cons.
      replace (acc ++ chunk_slice data (a + Z.of_nat k) :: (chunk_slice data <$> drop (S k) (span a b)))
        with ((acc ++ [chunk_slice data (a + Z.of_nat k)]) ++ (chunk_slice data <$> drop (S k) (span a b)))
        by (by rewrite <- app_assoc).
      apply IH; lia. }
  specialize (Hgen 0%nat []). rewrite !drop_0 in Hgen. apply Hgen. lia.
Qed.

(** *** Sequential iteration *)

Section Iterate.
Context (B : Z) (HB : 1 <= B) (get : list (Z * XorName) -> result Error (list (Z * bytes))).

Lemma batch_requests start :
  (fun info => (index info, dst_hash info)) <$> slice infos start (Z.min (start + B) n) =
  requests_of data cs start (Z.min (start + B) n - 1).
Proof.
  unfold requests_of, run_of, slice. do 3 f_equal. lia.
Qed.

Lemma fetch_next_batch_fails start chunks idx e :
  0 <= start < n -> get (requests_of data cs start (Z.min (start + B) n - 1)) = Err e ->
  fetch_next_batch B get (stream_of start chunks idx) = (Err e, stream_of start chunks idx).
Proof.
  intros Hs He. unfold fetch_next_batch. cbn [stream_of chunk_infos current_batch_start].
  rewrite lenZ_infos by (apply cs_length || done).
  assert ((n <=? start) = false) as -> by lia. by rewrite batch_requests, He.
Qed.

Lemma fetch_next_batch_honest start chunks idx :
  0 <= start < n ->
  let batch_end := Z.min (start + B) n in honest_batch data cs get start (batch_end - 1) ->
  fetch_next_batch B get (stream_of start chunks idx) =
    (Ok true, stream_of batch_end (chunk_slice data <$> span start (batch_end - 1)) 0).
Proof.
  intros Hs batch_end (answers & Ha & Hp). unfold fetch_next_batch. cbn [stream_of chunk_infos current_batch_start].
  rewrite lenZ_infos by (apply cs_length || done). fold batch_end.
  assert ((n <=? start) = false) as -> by lia.
  unfold batch_end. rewrite batch_requests. fold batch_end. rewrite Ha.
  change (slice infos start batch_end)
    with (take (Z.to_nat (batch_end - start)) (drop (Z.to_nat start) infos)).
  replace (batch_end - start) with (batch_end - 1 - start + 1) by lia.
  fold (run_of infos start (batch_end - 1)).
  rewrite (sort_answers _ _ _ Hp), decrypt_batch_run by (done || lia). reflexivity.
Qed.

(** [j] chunks have been yielded; the current batch is the chunks [a .. bs-1]. *)
Definition yielded (j : Z) (s : DecryptionStream) : Prop :=
  exists a bs, 0 <= a <= j /\ j <= bs <= n /\
    s = stream_of bs (chunk_slice data <$> span a (bs - 1)) (j - a).

Lemma lookup_batch a bs j :
  a <= j < bs -> (chunk_slice data <$> span a (bs - 1)) !! Z.to_nat (j - a) = Some (chunk_slice data j).
Proof.
  intros Hj. rewrite list_lookup_fmap, span_lookup by lia. cbn. do 2 f_equal. lia.
Qed.

Lemma lenZ_batch a bs : a <= bs -> lenZ (chunk_slice data <$> span a (bs - 1)) = bs - a.
Proof. intros Ha. unfold lenZ. rewrite length_fmap, length_span. lia. Qed.

Lemma next_chunk_yields j s :
  yielded j s -> j < n -> honest_batch data cs get j (Z.min (j + B) n - 1) ->
  exists s', next_chunk B get s = (Some (Ok (chunk_slice data j)), s') /\ yielded (j + 1) s'.
Proof.
  intros (a & bs & Ha & Hb & ->) Hj Hh. unfold next_chunk.
  cbn [stream_of current_batch_chunks current_batch_index]. rewrite lenZ_batch by lia.
  destruct (bs - a <=? j - a) eqn:E; b2p.
  - assert (bs = j) as -> by lia. fold (stream_of j (chunk_slice data <$> span a (j - 1)) (j - a)).
    rewrite fetch_next_batch_honest by (lia || exact Hh). set (batch_end := Z.min (j + B) n).
    cbn [stream_of current_batch_chunks current_batch_index].
    replace 0%nat with (Z.to_nat (j - j)) by lia.
    change (Z.to_nat 0) with 0%nat. replace 0%nat with (Z.to_nat (j - j)) by lia.
    rewrite lookup_batch by lia. eexists. split; [reflexivity|].
    exists j, batch_end. split; [lia|]. split; [lia|].
    unfold set_batch, stream_of. cbn. f_equal; lia.
  - rewrite lookup_batch by lia. eexists. split; [reflexivity|].
    exists a, bs. split; [lia|]. split; [lia|]. unfold set_batch, stream_of. cbn. f_equal; lia.
Qed.

(** A batch that fails is an item of its own. *)
Lemma next_chunk_fails j s e :
  yielded j s -> j < n -> get (requests_of data cs j (Z.min (j + B) n - 1)) = Err e ->
  exists s', next_chunk B get s = (Some (Err e), s') \/
             (next_chunk B get s = (Some (Ok (chunk_slice data j)), s') /\ yielded (j + 1) s').
Proof.
  intros (a & bs & Ha & Hb & ->) Hj He. unfold next_chunk.
  cbn [stream_of current_batch_chunks current_batch_index]. rewrite lenZ_batch by lia.
  destruct (bs - a <=? j - a) eqn:E; b2p.
  - assert (bs = j) as -> by lia. fold (stream_of j (chunk_slice data <$> span a (j - 1)) (j - a)).
    rewrite (fetch_next_batch_fails _ _ _ e) by (lia || exact He). eexists. by left.
  - rewrite lookup_batch by lia. eexists. right. split; [reflexivity|].
    exists a, bs. split; [lia|]. split; [lia|]. unfold set_batch, stream_of. cbn. f_equal; lia.
Qed.

Lemma next_chunk_ends s : yielded n s -> next_chunk B get s = (None, s).
Proof.
  intros (a & bs & Ha & Hb & ->). assert (bs = n) as -> by lia. unfold next_chunk.
  cbn [stream_of current_batch_chunks current_batch_index]. rewrite lenZ_batch by lia.
  assert ((n - a <=? n - a) = true) as -> by lia. unfold fetch_next_batch.
  cbn [stream_of chunk_infos current_batch_start]. rewrite lenZ_infos by (apply cs_length || done).
  by assert ((n <=? n) = true) as -> by lia.
Qed.

Context (Hget : honest_backend get).

Lemma next_n_yields k : forall j s,
  yielded j s -> j + Z.of_nat k <= n ->
  exists s', next_n B get k s =
      ((fun i => Some (Ok (chunk_slice data (j + i)))) <$> rangeZ (Z.of_nat k), s') /\
    yielded (j + Z.of_nat k) s'.
Proof.
  induction k as [|k IH]; intros j s Hy Hk.
  - exists s. by rewrite Z.add_0_r.
  - destruct (next_chunk_yields j s Hy ltac:(lia) ltac:(apply Hget; destruct Hy as (? & ? & ? & _); lia)) as (s1 & E1 & Hy1).
    destruct (IH (j + 1) s1 Hy1 ltac:(lia)) as (s2 & E2 & Hy2).
    exists s2. split; [|by replace (j + Z.of_nat (S k)) with (j + 1 + Z.of_nat k) by lia].
    cbn [next_n]. rewrite E1, E2. f_equal.
    rewrite (rangeZ_split 1 (Z.of_nat (S k))) by lia. change (rangeZ 1) with [0].
    rewrite fmap_app, fmap_cons, fmap_nil, <- list_fmap_compose. cbn [app].
    rewrite Z.add_0_r. f_equal. replace (Z.of_nat (S k) - 1) with (Z.of_nat k) by lia. apply list_fmap_ext. intros ? i _. cbn. do 3 f_equal. lia.
Qed.

End Iterate.

(** *** Random access *)

Lemma start_of_run i : 0 <= i <= n ->
  DataMap.total_size (take (Z.to_nat i) infos) =
    if i =? n then lenZ data else (get_start_end_positions (lenZ data) i).1.
Proof.
  intros Hi. pose proof cs_length as Hl. rewrite (total_size_prefix HM) by (done || unfold lenZ in *; lia).
  pose proof (num_chunks_ge_3 HM _ Hd) as Hn.
  destruct (decide (Z.to_nat i = 0%nat)) as [H0'|H0'].
  - assert (i = 0) as -> by lia. assert ((0 =? n) = false) as -> by lia.
    by rewrite (start_end_first HM).
  - replace (Z.of_nat (Z.to_nat i) - 1) with (i - 1) by lia.
    destruct (i =? n) eqn:E; b2p; [subst i; by apply (start_end_last HM)|].
    rewrite (start_end_adjacent HM) by (done || lia). f_equal. f_equal. lia.
Qed.

Lemma stream_file_size start chunks idx : file_size (stream_of start chunks idx) = lenZ data.
Proof.
  unfold file_size. cbn [stream_of chunk_infos].
  pose proof (start_of_run n) as Hs. rewrite Z.eqb_refl in Hs.
  pose proof (num_chunks_ge_3 HM _ Hd). rewrite <- Hs by lia.
  rewrite take_ge; [done|]. pose proof (lenZ_infos HM data cs cs_length Hd). unfold lenZ in *. lia.
Qed.

(** The size recorded for a chunk is the length of its range. *)
Lemma size_at i info : infos !! Z.to_nat i = Some info -> 0 <= i ->
  src_size info = (get_start_end_positions (lenZ data) i).2 - (get_start_end_positions (lenZ data) i).1.
Proof.
  intros Hi Hp. pose proof (info_at _ _ Hi Hp) as Hidx. unfold DataMap.infos, file_map in Hi.
  cbn [chunk_identifiers] in Hi. apply lookup_zip_with_Some in Hi as (j & c & -> & _ & _).
  cbn [info_of index] in Hidx. by subst j.
Qed.

Lemma index_from_infos_spec p i :
  0 <= i <= n -> 0 <= p < lenZ data ->
  (i < n -> (get_start_end_positions (lenZ data) i).1 <= p) -> i < n ->
  exists j, index_from_infos (get_start_end_positions (lenZ data) i).1 (drop (Z.to_nat i) infos) p = Some j /\
    i <= j < n /\
    (get_start_end_positions (lenZ data) j).1 <= p < (get_start_end_positions (lenZ data) j).2.
Proof.
  intros Hi Hp. remember (Z.to_nat (n - i)) as m eqn:Em. revert i Hi Em.
  induction m as [|m IH]; intros i Hi Em Hlow Hin; [lia|].
  destruct (lookup_lt_is_Some_2 infos (Z.to_nat i)) as [info Hinfo].
  { pose proof (lenZ_infos HM data cs cs_length Hd). unfold lenZ in *. lia. }
  rewrite (drop_S _ _ _ Hinfo). cbn [index_from_infos].
  rewrite (size_at _ _ Hinfo), (info_at _ _ Hinfo) by lia. specialize (Hlow Hin).
  set (s := (get_start_end_positions (lenZ data) i).1) in *.
  set (e := (get_start_end_positions (lenZ data) i).2) in *.
  replace (s + (e - s)) with e by lia.
  assert ((s <=? p) = true) as -> by lia. cbn [andb].
  destruct (p <? e) eqn:Ee; b2p; [exists i; split; [done|]; lia|].
  destruct (decide (i + 1 < n)) as [Hi1|Hi1].
  - pose proof (start_end_adjacent HM (lenZ data) i Hd ltac:(lia) Hi1) as Ha. fold e in Ha.
    replace (S (Z.to_nat i)) with (Z.to_nat (i + 1)) by lia. rewrite Ha.
    destruct (IH (i + 1)) as (j & Ej & Hj & Hpj); [lia|lia|lia|lia|].
    exists j. split; [done|]. split; [lia|done].
  - assert (i = n - 1) as -> by lia. unfold e in Ee. rewrite (start_end_last HM) in Ee by done. lia.
Qed.

Lemma get_chunk_index_from_infos_spec start chunks idx p :
  0 <= p < lenZ data ->
  let j := get_chunk_index_from_infos (stream_of start chunks idx) p in
  0 <= j < n /\ (get_start_end_positions (lenZ data) j).1 <= p < (get_start_end_positions (lenZ data) j).2.
Proof.
  intros Hp. pose proof (num_chunks_ge_3 HM _ Hd).
  pose proof (start_end_first HM _ Hd) as H0'.
  destruct (index_from_infos_spec p 0) as (j & Ej & Hj & Hpj); [lia|done|lia|lia|].
  rewrite H0' in Ej. unfold get_chunk_index_from_infos. cbn [stream_of chunk_infos].
  rewrite drop_0 in Ej. rewrite Ej. done.
Qed.

Lemma stream_start_position start chunks idx i : 0 <= i < n ->
  get_chunk_start_position (stream_of start chunks idx) i = (get_start_end_positions (lenZ data) i).1.
Proof.
  intros Hi. unfold get_chunk_start_position. cbn [stream_of chunk_infos].
  assert (Hfi : filter (fun info => index info < i) infos = take (Z.to_nat i) infos).
  { rewrite <- (take_drop (Z.to_nat i) infos) at 1. rewrite filter_app.
    rewrite filter_all, filter_none; [by rewrite app_nil_r|..]; apply Forall_lookup; intros k info Hk.
    - rewrite lookup_drop in Hk. apply infos_index in Hk. lia.
    - pose proof (lookup_lt_Some _ _ _ Hk) as Hlt. rewrite length_take in Hlt.
      rewrite lookup_take_lt in Hk by lia. apply infos_index in Hk. lia. }
  rewrite Hfi, start_of_run by lia. by assert ((i =? n) = false) as -> by lia.
Qed.

Lemma required_sorted a b :
  sort_by_key fst ((fun info => (index info, dst_hash info)) <$> run_of infos a b) =
  (fun info => (index info, dst_hash info)) <$> run_of infos a b.
Proof.
  apply sort_by_key_id. unfold key_sorted.
  assert (Hr : StronglySorted (fun x y => index x <= index y) (run_of infos a b)).
  { pose proof infos_sorted as Hs. unfold key_sorted in Hs. unfold run_of.
    rewrite <- (take_drop (Z.to_nat a) infos) in Hs. apply StronglySorted_app_1_r in Hs.
    rewrite <- (take_drop (Z.to_nat (b - a + 1)) (drop _ infos)) in Hs.
    by apply StronglySorted_app_1_l in Hs. }
  induction Hr as [|x l Hl IH Hx]; cbn; constructor; [done|].
  rewrite Forall_fmap. eapply Forall_impl; [exact Hx|]. done.
Qed.

Lemma foldl_insert_lookup (l : list (Z * bytes)) i c :
  NoDup l.*1 -> (i, c) ∈ l ->
  (foldl (fun (m : gmap Z bytes) '(i, c) => <[i := c]> m) ∅ l) !! i = Some c.
Proof.
  induction l as [|[j d] l IH] using rev_ind; intros Hnd Hin; [by apply not_elem_of_nil in Hin|].
  rewrite foldl_snoc. rewrite fmap_app in Hnd. apply NoDup_app in Hnd as (Hnd & Hdis & _).
  apply elem_of_app in Hin as [Hin|Hin].
  - rewrite lookup_insert_ne; [by apply IH|]. intros ->.
    apply (Hdis i); [|by left]. apply list_elem_of_fmap. by exists (i, c).
  - apply list_elem_of_singleton in Hin. simplify_eq. apply lookup_insert_eq.
Qed.

Lemma answers_lookup a b answers i c :
  0 <= a <= b -> b < n -> answers ≡ₚ zip (span a b) (run_of cs a b) ->
  a <= i <= b -> cs !! Z.to_nat i = Some c ->
  (foldl (fun (m : gmap Z bytes) '(i, c) => <[i := c]> m) ∅ answers) !! i = Some c.
Proof.
  intros Hab Hb Hp Hi Hc. apply foldl_insert_lookup.
  - rewrite Hp. rewrite fst_zip.
    2: { rewrite length_span, (length_run cs a b n cs_length) by done. lia. }
    unfold span. apply NoDup_fmap; [intros ? ?; lia|]. unfold rangeZ.
    apply NoDup_fmap; [intros ? ?; lia|]. apply NoDup_seq.
  - rewrite Hp. apply list_elem_of_lookup. exists (Z.to_nat (i - a)).
    apply lookup_zip_with_Some. exists (a + Z.of_nat (Z.to_nat (i - a))), c.
    split; [f_equal; lia|]. split; [apply span_lookup; lia|].
    rewrite lookup_run by lia. by replace (a + Z.of_nat (Z.to_nat (i - a))) with i by lia.
Qed.

Lemma collect_range s (m : gmap Z bytes) l acc :
  src_hashes s = all_src_hashes data -> child_level s = 0 ->
  Forall (fun i => 0 <= i < n /\ exists c, cs !! Z.to_nat i = Some c /\ m !! i = Some c) l ->
  try_fold (fun acc chunk_index =>
      match m !! chunk_index with
      | Some encrypted_content =>
          decrypted ← decrypt_chunk chunk_index encrypted_content (src_hashes s) (child_level s);
          Ok (acc ++ decrypted)
      | None => Ok acc
      end) acc l = Ok (acc ++ concat (chunk_slice data <$> l)).
Proof.
  intros Hs Hl Hall. revert acc. induction Hall as [|i l (Hi & c & Hc & Hm) _ IH]; intros acc.
  - cbn. by rewrite app_nil_r.
  - cbn [try_fold]. rewrite Hm, Hs, Hl.
    rewrite (decrypt_encrypt_one HM data 0 i c) by (done || by eapply lookup_encrypted).
    cbn [mbind result_bind]. rewrite Hs, Hl in IH. rewrite IH, fmap_cons. cbn [concat].
    by rewrite <- app_assoc.
Qed.

(** The stream reads any range of the file, in whatever state the iterator is. *)
Lemma get_range_honest get st chunks idx start len :
  honest_backend get -> lenZ data < usize_modulus ->
  0 <= start -> 0 <= len -> start + len < usize_modulus ->
  get_range get (stream_of st chunks idx) start len =
    Ok (slice data start (Z.min (start + len) (lenZ data))).
Proof.
  intros Hget Hu Hst Hlen Hov. unfold get_range. rewrite stream_file_size.
  assert (Hempty : forall e, e <= start -> Ok (E := Error) [] = Ok (slice data start e)).
  { intros e He. unfold slice. by replace (Z.to_nat (e - start)) with 0%nat by lia. }
  destruct (lenZ data <=? start) eqn:E; b2p; [apply Hempty; lia|].
  unfold wadd, wsub. rewrite (Z.mod_small (start + len)) by lia.
  set (end_pos := Z.min (start + len) (lenZ data)).
  assert (Hend : start <= end_pos <= lenZ data) by lia.
  rewrite (Z.mod_small (end_pos - start)) by lia.
  destruct (end_pos - start =? 0) eqn:E0; b2p; [apply Hempty; lia|].
  replace (sat_sub end_pos 1) with (end_pos - 1) by (unfold sat_sub; lia).
  destruct (get_chunk_index_from_infos_spec st chunks idx start) as [Hs Hsp]; [lia|].
  destruct (get_chunk_index_from_infos_spec st chunks idx (end_pos - 1)) as [He Hep]; [lia|].
  set (s := get_chunk_index_from_infos _ start) in *.
  set (e := get_chunk_index_from_infos _ (end_pos - 1)) in *. clearbody s e.
  assert (Hse : s <= e).
  { destruct (decide (s <= e)) as [|Hlt]; [done|]. exfalso.
    pose proof (geometry_shape HM _ Hd) as (Hc & _). rewrite !(start_end_eq HM) in * by done.
    cbn [fst snd] in *. assert ((e =? n - 1) = false) as Ee by lia. rewrite Ee in Hep.
    assert (get_chunk_size (lenZ data) 0 * (e + 1) <= get_chunk_size (lenZ data) 0 * s)
      by (apply Z.mul_le_mono_nonneg_l; lia). lia. }
  cbn [stream_of chunk_infos]. rewrite filter_infos, required_sorted by lia.
  destruct (Hget s e) as (answers & Ha & Hp); [lia|lia|]. unfold requests_of in Ha. rewrite Ha. cbn [mbind result_bind].
  erewrite (collect_range (stream_of st chunks idx)); [|done..|].
  2: { apply Forall_forall. intros i Hi%elem_of_span. split; [lia|].
       destruct (lookup_lt_is_Some_2 cs (Z.to_nat i)) as [c Hc].
       { pose proof cs_length. unfold lenZ in *. lia. }
       exists c. split; [done|]. apply (answers_lookup s e); (done || lia). }
  cbn [mbind result_bind app]. fold (stream_of st chunks idx).
  rewrite stream_start_position by lia.
  pose proof (range_of_run HM data s e start len Hd ltac:(lia) ltac:(lia)) as Hr. cbv zeta in Hr.
  fold end_pos in Hr. destruct Hr as [Hl Hr]; [lia|lia|lia|].
  pose proof (start_end_bounds HM _ s Hd Hs) as Hsb.
  destruct (get_start_end_positions (lenZ data) s) as [s0 s1]. cbn [fst snd] in *.
  rewrite (Z.mod_small (start - s0)) by lia.
  rewrite Hl. assert ((((get_start_end_positions (lenZ data) e).2 - s0) <=? start - s0) = false) as -> by lia.
  rewrite <- Hl.
  f_equal. rewrite <- Hr. f_equal. rewrite Hl.
  pose proof (start_end_bounds HM _ e Hd He) as Heb.
  destruct (get_start_end_positions (lenZ data) e) as [e0 e1]. cbn [fst snd] in *. lia.
Qed.

End StreamFacts.

(** ** Draining a stream *)

Section Drain.
Context `{Config, Blake3, Aead, Brotli, !Codec bincode VersionedDataMap}.
Context (B : Z) (HB : 1 <= B) (get : list (Z * XorName) -> result Error (list (Z * bytes))).

(** All the items of a stream in one, up to the first error. *)
Fixpoint stream_contents (fuel : nat) (s : DecryptionStream) : option (result Error bytes) :=
  match fuel with
  | O => None
  | S fuel =>
    match next_chunk B get s with
    | (None, _) => Some (Ok [])
    | (Some (Err e), _) => Some (Err e)
    | (Some (Ok chunk), s') => r ← stream_contents fuel s'; Some (rest ← r; Ok (chunk ++ rest))
    end
  end.

Definition stream_started (s : DecryptionStream) : Prop := 0 <= current_batch_start s /\ 0 <= current_batch_index s.

(** The chunks that are still to come, at most. *)
Definition left (s : DecryptionStream) : nat :=
  Z.to_nat (lenZ (chunk_infos s) - current_batch_start s) +
  Z.to_nat (lenZ (current_batch_chunks s) - current_batch_index s).

Lemma decrypt_batch_length s work : forall done chunks,
  decrypt_batch s done work = (chunks, Ok tt) -> length chunks = (length done + length work)%nat.
Proof.
  induction work as [|[info [i b]] work IH]; intros done chunks; cbn [decrypt_batch length].
  { intros [= <-]. lia. }
  destruct (decrypt_chunk _ _ _ _); [|discriminate]. intros E%IH. rewrite E, length_app. cbn [length]. lia.
Qed.

Lemma fetch_next_batch_left s s' : stream_started s ->
  fetch_next_batch B get s = (Ok true, s') ->
  stream_started s' /\ (left s' <= Z.to_nat (lenZ (chunk_infos s) - current_batch_start s))%nat /\
  current_batch_index s' = 0.
Proof.
  intros [Hs _]. unfold fetch_next_batch. destruct (_ <=? _) eqn:E; b2p; [discriminate|].
  set (stop := Z.min _ _). destruct (get _) as [fetched|]; [|discriminate].
  destruct (decrypt_batch _ _ _) as [chunks [[]|e]] eqn:Ed; [|discriminate]. intros [= <-].
  apply decrypt_batch_length in Ed. cbn [length] in Ed. rewrite length_zip_with in Ed.
  assert (length (slice (chunk_infos s) (current_batch_start s) stop) <= Z.to_nat (stop - current_batch_start s))%nat
    by (unfold slice; rewrite length_take; lia).
  unfold stream_started, left, set_batch. cbn. unfold lenZ in *. split; [lia|]. split; [lia | reflexivity].
Qed.

Lemma next_chunk_left s chunk s' : stream_started s -> next_chunk B get s = (Some (Ok chunk), s') ->
  stream_started s' /\ (left s' < left s)%nat.
Proof.
  assert (forall s chunk s', stream_started s ->
    match current_batch_chunks s !! Z.to_nat (current_batch_index s) with
    | Some chunk => (Some (Ok chunk), set_batch s (current_batch_start s) (current_batch_chunks s) (current_batch_index s + 1))
    | None => (None, s)
    end = (Some (Ok (E := Error) chunk), s') -> stream_started s' /\ (left s' < left s)%nat) as Hyield.
  { intros st ch st' [Hs Hi]. destruct (_ !! _) eqn:El; [|discriminate]. intros [= <- <-].
    apply lookup_lt_Some in El. unfold stream_started, left, set_batch. cbn. unfold lenZ. split; [lia | lia]. }
  intros Hst. unfold next_chunk. destruct (_ <=? _); [|by apply Hyield].
  destruct (fetch_next_batch B get s) as [[[]|e] s1] eqn:Ef; [|discriminate..]. intros E.
  destruct (fetch_next_batch_left _ _ Hst Ef) as (Hst1 & Hl & _). destruct (Hyield _ _ _ Hst1 E) as [Hst' Hlt].
  split; [exact Hst'|]. eapply Nat.lt_le_trans; [exact Hlt|]. unfold left at 2. lia.
Qed.

Lemma stream_contents_ends fuel : forall s, stream_started s -> (left s < fuel)%nat -> is_Some (stream_contents fuel s).
Proof.
  induction fuel as [|fuel IH]; intros s Hs Hl; cbn [stream_contents]; [lia|].
  destruct (next_chunk B get s) as [[[chunk|e]|] s'] eqn:E; [|by eexists..].
  destruct (next_chunk_left _ _ _ Hs E) as [Hs' Hlt]. destruct (IH s' Hs') as [r ->]; [lia | by eexists].
Qed.

Lemma streaming_decrypt_started dm s : streaming_decrypt get dm = Ok s ->
  stream_started s /\ left s = length (chunk_infos s).
Proof.
  unfold streaming_decrypt, mbind, result_bind. destruct (if DataMap.is_child dm then _ else _) as [root|]; [|discriminate].
  intros [= <-]. unfold stream_started, left. cbn. unfold lenZ. cbn [length]. lia.
Qed.

End Drain.

(** ** What a stream of a file comes to *)

Section Contents.
Context `{Config, Blake3, Aead, Brotli, !Codec bincode VersionedDataMap}.
Context `{!Blake3Laws, !AeadLaws, !BrotliLaws}.
Context (HM : 1 <= MAX_CHUNK_SIZE) (data : bytes) (cs : list EncryptedChunk).
Context (E : encrypt_chunks data 0 = Ok (file_map data cs, cs)).
Context (B : Z) (HB : 1 <= B) (get : list (Z * XorName) -> result Error (list (Z * bytes))).

Abbreviation n := (get_num_chunks (lenZ data)).

(** A backend whose answers are honest, or else something else holds: a failure, a
    collision. *)
Context (or_else : Prop).
Context (Hget : forall a b, 0 <= a <= b -> b < n ->
  honest_batch data cs get a b \/ (exists e, get (requests_of data cs a b) = Err e) \/ or_else).

Lemma contents_sound fuel : forall j s rest, yielded data cs j s -> 0 <= j <= n ->
  stream_contents B get fuel s = Some (Ok rest) -> rest = concat (chunk_slice data <$> span j (n - 1)) \/ or_else.
Proof.
  pose proof (encrypt_chunks_Ok HM _ _ _ _ E) as (Hd & _ & Hf).
  induction fuel as [|fuel IH]; intros j s rest Hy Hj; cbn [stream_contents]; [discriminate|].
  destruct (decide (j = n)) as [->|Hne].
  { rewrite (next_chunk_ends HM data cs Hd Hf B get s Hy). intros [= <-]. left. by rewrite span_nil by lia. }
  assert (forall s', next_chunk B get s = (Some (Ok (chunk_slice data j)), s') -> yielded data cs (j + 1) s' ->
    (let '(item, s') := next_chunk B get s in match item with
     | None => Some (Ok [])
     | Some (Err e) => Some (Err e)
     | Some (Ok chunk) => r ← stream_contents B get fuel s'; Some (rest ← r; Ok (chunk ++ rest))
     end) = Some (Ok rest) -> rest = concat (chunk_slice data <$> span j (n - 1)) \/ or_else) as Hstep.
  { intros s' -> Hy' Hr. destruct (stream_contents B get fuel s') as [[rest'|e]|] eqn:Es; [|discriminate..].
    injection Hr as <-. rewrite span_cons, fmap_cons by lia. cbn [concat].
    destruct (IH (j + 1) s' rest' Hy' ltac:(lia) Es) as [->|]; auto. }
  intros Hr. destruct (Hget j (Z.min (j + B) n - 1)) as [Hb|[[e He]|]]; [lia | lia | | | by right].
  - destruct (next_chunk_yields HM data cs Hd Hf B HB get j s Hy) as (s' & Es & Hy'); [lia | exact Hb |].
    apply (Hstep s' Es Hy'). destruct (next_chunk B get s) as [[[x|x]|] s2]; exact Hr.
  - destruct (next_chunk_fails HM data cs Hd Hf B get j s e Hy) as (s' & [Es|[Es Hy']]); [lia | exact He | |].
    + by rewrite Es in Hr.
    + apply (Hstep s' Es Hy'). destruct (next_chunk B get s) as [[[x|x]|] s2]; exact Hr.
Qed.

Lemma contents_available fuel : honest_backend data cs get -> forall j s, yielded data cs j s -> 0 <= j <= n ->
  n - j < Z.of_nat fuel -> exists rest, stream_contents B get fuel s = Some (Ok rest).
Proof.
  pose proof (encrypt_chunks_Ok HM _ _ _ _ E) as (Hd & _ & Hf). intros Hh.
  induction fuel as [|fuel IH]; intros j s Hy Hj Hl; cbn [stream_contents]; [lia|].
  destruct (decide (j = n)) as [->|Hne].
  { rewrite (next_chunk_ends HM data cs Hd Hf B get s Hy). by eexists. }
  destruct (next_chunk_yields HM data cs Hd Hf B HB get j s Hy) as (s' & -> & Hy'); [lia | apply Hh; lia |].
  destruct (IH (j + 1) s' Hy') as [rest ->]; [lia | lia |]. by eexists.
Qed.

(** From the start. *)
Lemma file_contents_sound fuel s rest : streaming_decrypt get (file_map data cs) = Ok s ->
  stream_contents B get fuel s = Some (Ok rest) -> rest = data \/ or_else.
Proof.
  pose proof (encrypt_chunks_Ok HM _ _ _ _ E) as (Hd & _ & Hf). pose proof (num_chunks_ge_3 HM _ Hd).
  rewrite (streaming_decrypt_root HM data cs Hd Hf). intros [= <-] Hr.
  apply (contents_sound fuel 0) in Hr as [->|]; [left | by right | | lia].
  - transitivity (concat (chunk_slice data <$> rangeZ n)); [|by apply concat_slices]. do 2 f_equal. unfold span. replace (n - 1 - 0 + 1) with n by lia.
    etransitivity; [|apply list_fmap_id]. by apply list_fmap_ext.
  - exists 0, 0. split; [lia|]. split; [lia | done].
Qed.

Lemma file_contents_available fuel : honest_backend data cs get -> n < Z.of_nat fuel ->
  exists s rest, streaming_decrypt get (file_map data cs) = Ok s /\ stream_contents B get fuel s = Some (Ok rest).
Proof.
  pose proof (encrypt_chunks_Ok HM _ _ _ _ E) as (Hd & _ & Hf). pose proof (num_chunks_ge_3 HM _ Hd). intros Hh Hl.
  exists (stream_of data cs 0 [] 0). rewrite (streaming_decrypt_root HM data cs Hd Hf).
  destruct (contents_available fuel Hh 0 (stream_of data cs 0 [] 0)) as [rest Hr]; [|lia|lia|by exists rest].
  exists 0, 0. split; [lia|]. split; [lia | done].
Qed.

End Contents.

(** ** Streams of shrunk data maps *)

(** The cache after a round: each hash that was asked for has the chunk at its
    position. *)
Lemma paired_cache_lookup (reqs : list (Z * XorName)) (answers : list (Z * bytes)) m i k x :
  NoDup reqs.*2 -> reqs !! i = Some k -> answers !! i = Some x ->
  foldl (fun (m : gmap XorName bytes) '((_, hash), (_, chunk_data)) => <[hash := chunk_data]> m) m (zip reqs answers)
    !! k.2 = Some x.2.
Proof.
  assert (forall reqs answers (m : gmap XorName bytes) h, h ∉ reqs.*2 ->
    foldl (fun (m : gmap XorName bytes) '((_, hash), (_, chunk_data)) => <[hash := chunk_data]> m) m
      (zip reqs answers : list ((Z * XorName) * (Z * bytes))) !! h = m !! h) as Hout.
  { intros rs. induction rs as [|[j h'] rs IH]; intros [|[j' c] ans] m' h Hh; try reflexivity. cbn.
    rewrite fmap_cons, not_elem_of_cons in Hh. destruct Hh as [Hh1 Hh2]. rewrite IH by exact Hh2.
    apply lookup_insert_ne. cbn in Hh1. congruence. }
  revert answers m i. induction reqs as [|[j h] reqs IH]; intros [|[j' c] answers] m [|i] Hnd Hk Hx; try discriminate.
  - injection Hk as <-. injection Hx as <-. cbn. rewrite Hout by (by apply NoDup_cons in Hnd as [? _]). apply lookup_insert_eq.
  - cbn. apply (IH answers _ i); [by apply NoDup_cons in Hnd as [_ ?] | exact Hk | exact Hx].
Qed.

Section Shrunk.
Context `{Config, Blake3, Aead, Brotli, !Codec bincode VersionedDataMap}.
Context `{!Blake3Laws, !AeadLaws, !BrotliLaws, !CodecLaws bincode VersionedDataMap}.
Context (HM : 1 <= MAX_CHUNK_SIZE) (root : DataMap) (b : bytes) (cs : list EncryptedChunk).
Context (Eb : to_bytes root = Some b) (E : encrypt_chunks b 1 = Ok (file_map b cs, cs)).
Context (Hroot : DataMap.is_child root = false) (Hnd : NoDup (content_hash <$> cs)).
Context (get : list (Z * XorName) -> result Error (list (Z * bytes))).

Abbreviation n := (get_num_chunks (lenZ b)).
Abbreviation shrunk_map := (set_child (file_map b cs) (Some 1)).

Lemma shrunk_length : lenZ cs = n /\ 3 <= n.
Proof.
  pose proof (encrypt_chunks_length HM _ _ _ _ E) as (Hl & _). split; [exact Hl|].
  pose proof (encrypt_chunks_Ok HM _ _ _ _ E) as (Hd & _). by apply num_chunks_ge_3.
Qed.

Lemma all_requests : requests_of b cs 0 (n - 1) = (fun info => (index info, dst_hash info)) <$> DataMap.infos shrunk_map.
Proof.
  destruct shrunk_length as [Hl Hn]. unfold requests_of. f_equal.
  change (DataMap.infos shrunk_map) with (DataMap.infos (file_map b cs)). apply run_all.
  2: lia. pose proof (Forall2_length _ _ _ (file_map_lookup_infos b cs Hl)) as Hi. unfold lenZ in *. lia.
Qed.

Lemma requests_hashes : (requests_of b cs 0 (n - 1)).*2 = content_hash <$> cs.
Proof.
  destruct shrunk_length as [Hl Hn]. rewrite all_requests, <- list_fmap_compose.
  change (DataMap.infos shrunk_map) with (DataMap.infos (file_map b cs)).
  pose proof (file_map_lookup_infos b cs Hl) as Hf. revert Hf. clear. generalize (DataMap.infos (file_map b cs)).
  induction 1 as [|info c infos cs' Hi _ IH]; [reflexivity|].
  rewrite !fmap_cons. f_equal; [exact Hi | exact IH].
Qed.

(** The first round of the search asks for all the chunks. *)
Lemma root_search_round levels : inner_get_root_map_parallel get (S levels) shrunk_map ∅ =
  (new_chunks ← get (requests_of b cs 0 (n - 1));
   encrypted_chunks ← try_map
     (fun info => ok_or (foldl (fun m '((_, hash), (_, chunk_data)) => <[hash := chunk_data]> m)
                           (∅ : gmap XorName bytes) (zip (requests_of b cs 0 (n - 1)) new_chunks) !! dst_hash info)
        (Generic "Chunk not found for hash: {dst_hash:?}")) (DataMap.infos shrunk_map);
   decrypted_bytes ← decrypt_full_set shrunk_map encrypted_chunks;
   parent_data_map ← ok_or (from_bytes decrypted_bytes) (Generic "Failed to deserialize data map: {e}");
   inner_get_root_map_parallel get levels parent_data_map
     (foldl (fun m '((_, hash), (_, chunk_data)) => <[hash := chunk_data]> m)
        (∅ : gmap XorName bytes) (zip (requests_of b cs 0 (n - 1)) new_chunks))).
Proof.
  cbn [inner_get_root_map_parallel DataMap.is_child set_child child]. rewrite <- all_requests.
  cbn [negb]. rewrite filter_all by (apply Forall_forall; intros k _; apply lookup_empty).
  rewrite decide_False.
  - destruct (get _); reflexivity.
  - intros Hnil. destruct shrunk_length as [Hl Hn]. apply (f_equal length) in Hnil.
    rewrite (length_requests b cs Hl) in Hnil by lia. cbn in Hnil. lia.
Qed.

(** The order of the answers does not matter: what was paired wrongly is sorted out
    by the hashes of the chunks. *)
Lemma root_search_any_order : honest_batch b cs get 0 (n - 1) -> get_root_data_map_parallel get shrunk_map = Ok root.
Proof.
  intros (answers & Ha & Hp). destruct shrunk_length as [Hl Hn]. unfold get_root_data_map_parallel.
  rewrite (root_search_round 100), Ha. cbn [mbind result_bind].
  rewrite run_all in Hp by lia. assert (answers.*2 ≡ₚ cs) as Hcs.
  { rewrite Hp. rewrite snd_zip; [reflexivity|]. rewrite length_span. unfold lenZ in *. lia. }
  rewrite (proj2 (try_map_Ok_Forall2 _ _ (answers.*2))).
  - cbn [mbind result_bind]. pose proof (encrypt_chunks_Ok HM _ _ _ _ E) as (Hd & _ & Hf).
    rewrite (decrypt_full_set_encrypted HM b 1 (Some 1) cs); [|done|done|done| |by rewrite Hcs].
    + cbn [mbind result_bind]. rewrite (from_bytes_to_bytes _ _ Eb). cbn [ok_or mbind result_bind].
      cbn [inner_get_root_map_parallel]. by rewrite Hroot.
    + intros x y Hx Hy Hh. rewrite Hcs in Hx, Hy. apply list_elem_of_lookup_1 in Hx as [i Hi], Hy as [j Hj].
      assert (i = j) as ->; [|congruence].
      apply (NoDup_lookup _ _ _ (content_hash x) Hnd); apply list_lookup_fmap_Some; eauto.
  - apply Forall2_same_length_lookup_2.
    + rewrite length_fmap. apply Permutation_length in Hp. rewrite Hp, length_zip_with, length_span.
      pose proof (Forall2_length _ _ _ (file_map_lookup_infos b cs Hl)) as Hi.
      change (DataMap.infos shrunk_map) with (DataMap.infos (file_map b cs)). unfold lenZ in *. lia.
    + intros i info c Hi Hc. apply list_lookup_fmap_Some in Hc as (x & -> & Hx).
      rewrite (paired_cache_lookup _ _ _ i (index info, dst_hash info) x); [reflexivity | | | exact Hx].
      * by rewrite requests_hashes.
      * rewrite all_requests, list_lookup_fmap, Hi. reflexivity.
Qed.

Lemma streaming_decrypt_shrunk : honest_batch b cs get 0 (n - 1) ->
  streaming_decrypt get shrunk_map = streaming_decrypt get root.
Proof.
  intros Hh. unfold streaming_decrypt. rewrite Hroot. cbn [DataMap.is_child set_child child].
  by rewrite root_search_any_order.
Qed.

Lemma streaming_decrypt_shrunk_fails e : get (requests_of b cs 0 (n - 1)) = Err e ->
  streaming_decrypt get shrunk_map = Err e.
Proof.
  intros He. unfold streaming_decrypt, get_root_data_map_parallel. cbn [DataMap.is_child set_child child].
  by rewrite (root_search_round 100), He.
Qed.

End Shrunk.

(** ** Properties *)

(** C6: Iterating over the decryption stream of the map of a file (one that was not
    shrunk) yields exactly the chunks of the file, one per call in file order,
    whatever the batch size from 1 on and whatever the order in which the backend
    answers a batch; then the iterator is exhausted and stays so.  The pieces
    concatenate to the file.  With a batch size of 0, which the environment can ask
    for, the iterator is exhausted at once and stays so, without an error. *)
Theorem streaming_decrypt_yields_file
    `{Config, Blake3, Aead, Brotli, !Codec bincode VersionedDataMap}
    `{!Blake3Laws, !AeadLaws, !BrotliLaws} (data : bytes) (dm : DataMap)
    (cs : list EncryptedChunk) (batch_size : Z)
    (get : list (Z * XorName) -> result Error (list (Z * bytes)))
    (HM : 1 <= MAX_CHUNK_SIZE) (He : encrypt_chunks data 0 = Ok (dm, cs))
    (Hget : honest_backend data cs get) :
  exists s0, streaming_decrypt get dm = Ok s0 /\
    (1 <= batch_size -> exists pieces s1,
       next_n batch_size get (length pieces) s0 = ((fun p => Some (Ok p)) <$> pieces, s1) /\
       lenZ pieces = get_num_chunks (lenZ data) /\ concat pieces = data /\
       next_chunk batch_size get s1 = (None, s1)) /\
    (batch_size = 0 -> get [] = Ok [] -> next_chunk batch_size get s0 = (None, s0)).
Proof.
  pose proof (encrypt_chunks_Ok HM _ _ _ _ He) as (Hd & -> & Hf).
  pose proof (num_chunks_ge_3 HM _ Hd) as Hn.
  exists (stream_of data cs 0 [] 0). split; [by apply streaming_decrypt_root|]. split.
  2: { intros -> Hempty. unfold next_chunk, fetch_next_batch. cbn [stream_of chunk_infos current_batch_start
         current_batch_chunks current_batch_index set_batch].
       pose proof (encrypt_chunks_length HM _ _ _ _ He) as (Hl & _).
       destruct (_ <=? 0); [|reflexivity]. destruct (_ <=? 0); [reflexivity|].
       rewrite Z.min_l by apply lenZ_nonneg.
       change (slice _ 0 (0 + 0)) with (@nil ChunkInfo). cbn. rewrite Hempty. reflexivity. }
  intros HB.
  assert (Hy : yielded data cs 0 (stream_of data cs 0 [] 0)).
  { exists 0, 0. split; [lia|]. split; [lia|done]. }
  destruct (next_n_yields HM data cs Hd Hf batch_size HB get Hget
    (Z.to_nat (get_num_chunks (lenZ data))) 0 _ Hy) as (s1 & E1 & Hy1); [lia|].
  exists (chunk_slice data <$> rangeZ (get_num_chunks (lenZ data))), s1. rewrite length_fmap, length_rangeZ, E1.
  split.
  { f_equal. rewrite <- list_fmap_compose. rewrite Z2Nat.id by lia. done. }
  split; [unfold lenZ at 1; rewrite length_fmap, length_rangeZ; lia|].
  split; [by apply concat_slices|]. apply (next_chunk_ends HM data cs Hd Hf).
  by replace (get_num_chunks (lenZ data))
    with (0 + Z.of_nat (Z.to_nat (get_num_chunks (lenZ data)))) by lia.
Qed.

(** A backend over the chunks themselves, answering in reverse order. *)
Definition reverse_backend `{Blake3} (cs : list bytes) (requests : list (Z * XorName))
    : result Error (list (Z * bytes)) :=
  answers ← try_map (fun '(i, h) =>
    c ← ok_or (chunk_map_of cs !! h) (Generic "Chunk not found"); Ok (i, c)) requests;
  Ok (rev answers).

Lemma reverse_backend_honest `{Config, Blake3, Aead, Brotli, !Codec bincode VersionedDataMap}
    `{!Blake3Laws, !AeadLaws, !BrotliLaws} (data : bytes) (dm : DataMap) (cs : list EncryptedChunk) :
  1 <= MAX_CHUNK_SIZE -> encrypt_chunks data 0 = Ok (dm, cs) -> collision_free cs ->
  honest_backend data cs (reverse_backend cs).
Proof.
  intros HM He Hcf a b Hab Hb.
  pose proof (encrypt_chunks_Ok HM _ _ _ _ He) as (Hd & -> & Hf).
  pose proof (encrypt_chunks_length HM _ _ _ _ He) as (Hl & _).
  exists (rev (zip (span a b) (run_of cs a b))). split; [|symmetry; apply Permutation_rev].
  unfold reverse_backend, requests_of.
  assert (E : try_map (fun '(i, h) =>
      c ← ok_or (chunk_map_of cs !! h) (Generic "Chunk not found"); Ok (E := Error) (i, c))
      ((fun info => (index info, dst_hash info)) <$> run_of (DataMap.infos (file_map data cs)) a b)
    = Ok (zip (span a b) (run_of cs a b))); [|by rewrite E].
  apply try_map_Ok_Forall2, Forall2_same_length_lookup_2.
  - rewrite length_fmap, length_zip_with, length_span.
    rewrite (length_run _ a b (get_num_chunks (lenZ data))); [|by apply (lenZ_infos HM)|done..].
    rewrite (length_run cs a b (get_num_chunks (lenZ data))) by done. lia.
  - intros k [i h] [i' c] Hk Hk'. rewrite list_lookup_fmap in Hk.
    destruct (run_of (DataMap.infos _) a b !! k) as [info|] eqn:Ei; [|done]. simplify_eq/=.
    apply lookup_zip_with_Some in Hk' as (j & c' & Heq & Hj & Hc). simplify_eq.
    pose proof (lookup_lt_Some _ _ _ Hj) as Hlt. rewrite length_span in Hlt.
    rewrite span_lookup in Hj by done. rewrite lookup_run in Ei by lia. rewrite lookup_run in Hc by lia.
    simplify_eq. rewrite (info_at data cs _ _ Ei) by lia.
    pose proof (Forall2_lookup_lr _ _ _ _ _ _ (file_map_lookup_infos data cs Hl) Ei Hc) as Hh.
    cbn in Hh. rewrite Hh, chunk_map_of_lookup; [done|done|]. by eapply list_elem_of_lookup_2.
Qed.

Theorem streaming_decrypt_yields_file_witness :
  let c : Config := {| MAX_CHUNK_SIZE := 5 |} in
  exists dm cs s0 pieces s1, encrypt_chunks (sample_file 17) 0 = Ok (dm, cs) /\
    streaming_decrypt (reverse_backend cs) dm = Ok s0 /\
    next_n 3 (reverse_backend cs) (length pieces) s0 = ((fun p => Some (Ok p)) <$> pieces, s1) /\
    concat pieces = sample_file 17.
Proof.
  set (c := {| MAX_CHUNK_SIZE := 5 |}). cbv zeta.
  assert (HM : 1 <= MAX_CHUNK_SIZE) by discriminate.
  assert (Hc : match encrypt_chunks (sample_file 17) 0 with
               | Ok (_, cs) => bool_decide (collision_free cs) = true
               | Err _ => False
               end) by (vm_compute; reflexivity).
  destruct (encrypt_chunks (sample_file 17) 0) as [[dm cs]|] eqn:E; [|destruct Hc].
  apply bool_decide_eq_true_1 in Hc.
  destruct (streaming_decrypt_yields_file (sample_file 17) dm cs 3 (reverse_backend cs) HM E
    (reverse_backend_honest _ _ _ HM E Hc)) as (s0 & E0 & Hpieces & _).
  destruct (Hpieces ltac:(discriminate)) as (pieces & s1 & E1 & _ & E2 & _).
  exists dm, cs, s0, pieces, s1. split; [reflexivity|]. split; [exact E0|].
  split; [exact E1 | exact E2].
Defined.

(** The random access methods of a decryption stream return exactly the
    requested part of the file, at any point of the iteration: [get_range] and
    [range] the bytes of the range inside the file, [range_from] the rest,
    [range_to] the beginning, and [range_full] the whole file. *)
Theorem stream_ranges_are_slices
    `{Config, Blake3, Aead, Brotli, !Codec bincode VersionedDataMap}
    `{!Blake3Laws, !AeadLaws, !BrotliLaws} (data : bytes) (dm : DataMap)
    (cs : list EncryptedChunk) (batch_size : Z) (k : nat)
    (get : list (Z * XorName) -> result Error (list (Z * bytes)))
    (s0 s : DecryptionStream) (start len end_ : Z)
    (HM : 1 <= MAX_CHUNK_SIZE) (He : encrypt_chunks data 0 = Ok (dm, cs))
    (Hu : lenZ data < usize_modulus) (HB : 1 <= batch_size) (Hget : honest_backend data cs get)
    (Hk : Z.of_nat k <= get_num_chunks (lenZ data))
    (Hs0 : streaming_decrypt get dm = Ok s0) (Hs : (next_n batch_size get k s0).2 = s)
    (Hst : 0 <= start) (Hlen : 0 <= len) (Hov : start + len < usize_modulus)
    (Hend : start <= end_ < usize_modulus) :
  get_range get s start len = Ok (slice data start (Z.min (start + len) (lenZ data))) /\
  range get s start end_ = Ok (slice data start (Z.min end_ (lenZ data))) /\
  range_from get s start = Ok (slice data start (lenZ data)) /\
  range_to get s end_ = Ok (slice data 0 (Z.min end_ (lenZ data))) /\
  range_full get s = Ok data.
Proof.
  pose proof (encrypt_chunks_Ok HM _ _ _ _ He) as (Hd & -> & Hf).
  rewrite (streaming_decrypt_root HM data cs Hd Hf) in Hs0. simplify_eq.
  assert (Hy : yielded data cs 0 (stream_of data cs 0 [] 0)).
  { exists 0, 0. pose proof (num_chunks_ge_3 HM _ Hd). split; [lia|]. split; [lia|done]. }
  destruct (next_n_yields HM data cs Hd Hf batch_size HB get Hget k 0 _ Hy) as (s1 & E1 & Hy1); [lia|].
  rewrite E1. destruct Hy1 as (a & bs & _ & _ & ->). cbn [snd].
  pose proof (lenZ_nonneg data).
  pose proof (get_range_honest HM data cs Hd Hf get bs (chunk_slice data <$> span a (bs - 1))
    (0 + Z.of_nat k - a)) as Hr.
  unfold range, range_from, range_to, range_full, sat_sub.
  rewrite !(stream_file_size HM data cs Hd Hf).
  split; [by apply Hr|]. split; [rewrite Hr by (done || lia); do 2 f_equal; lia|]. split.
  { destruct (decide (start <= lenZ data)).
    - rewrite Hr by (done || lia). do 2 f_equal. lia.
    - rewrite Hr by (done || lia). unfold slice.
      by replace (Z.to_nat (lenZ data - start)) with 0%nat by lia;
      replace (Z.to_nat (Z.min (start + Z.max 0 (lenZ data - start)) (lenZ data) - start)) with 0%nat by lia. }
  split; [rewrite Hr by (done || lia); do 2 f_equal; lia|].
  rewrite Hr by (done || lia). rewrite Z.min_id. by rewrite slice_full.
Qed.

Theorem stream_ranges_are_slices_witness :
  let c : Config := {| MAX_CHUNK_SIZE := 5 |} in
  exists dm cs s, encrypt_chunks (sample_file 17) 0 = Ok (dm, cs) /\
    range (reverse_backend cs) s 3 12 = Ok (slice (sample_file 17) 3 12) /\
    range_full (reverse_backend cs) s = Ok (sample_file 17).
Proof.
  set (c := {| MAX_CHUNK_SIZE := 5 |}). cbv zeta.
  assert (HM : 1 <= MAX_CHUNK_SIZE) by discriminate.
  assert (Hc : match encrypt_chunks (sample_file 17) 0 with
               | Ok (dm, cs) => bool_decide (collision_free cs) && is_ok (streaming_decrypt (reverse_backend cs) dm) = true
               | Err _ => False
               end) by (vm_compute; reflexivity).
  destruct (encrypt_chunks (sample_file 17) 0) as [[dm cs]|] eqn:E; [|destruct Hc].
  apply andb_prop in Hc as [Hc Hs]. apply bool_decide_eq_true_1 in Hc.
  destruct (streaming_decrypt (reverse_backend cs) dm) as [s0|] eqn:E0; [|discriminate Hs].
  exists dm, cs, (next_n 3 (reverse_backend cs) 2 s0).2. split; [reflexivity|].
  destruct (stream_ranges_are_slices (sample_file 17) dm cs 3 2 (reverse_backend cs) s0
    (next_n 3 (reverse_backend cs) 2 s0).2 3 4 12 HM E)
    as (_ & H2 & _ & _ & H5);
    [reflexivity | discriminate | exact (reverse_backend_honest _ _ _ HM E Hc) | discriminate | exact E0
    | reflexivity | discriminate | discriminate | reflexivity | split; [discriminate | reflexivity] |].
  split; [exact H2 | exact H5].
Defined.

(** A backend that answers with too few chunks is not noticed: against one
    that answers nothing at all, iteration over any root map ends at once without
    an error, as after the last chunk, and [get_range] returns no bytes. *)
Theorem missing_chunks_are_silent
    `{Config, Blake3, Aead, Brotli, !Codec bincode VersionedDataMap}
    (dm : DataMap) (batch_size start len : Z) (s : DecryptionStream)
    (Hroot : DataMap.is_child dm = false)
    (Hs : streaming_decrypt (fun _ => Ok []) dm = Ok s) :
  (next_chunk batch_size (fun _ => Ok []) s).1 = None /\
  get_range (fun _ => Ok []) s start len = Ok [].
Proof.
  unfold streaming_decrypt in Hs. rewrite Hroot in Hs. cbn in Hs. simplify_eq. split.
  - unfold next_chunk. cbn [current_batch_chunks current_batch_index].
    change (lenZ (@nil bytes) <=? 0) with true. cbv iota. unfold fetch_next_batch.
    cbn [chunk_infos current_batch_start]. destruct (_ <=? 0); [done|]. cbn. 
    by rewrite zip_with_nil_r.
  - unfold get_range. set (s := {| chunk_infos := _ |}) in *.
    destruct (_ <=? start); [done|]. destruct (_ =? 0); [done|]. cbn [mbind result_bind].
    assert (Hn : forall l, try_fold (fun acc chunk_index =>
        match (foldl (fun (m : gmap Z bytes) '(i, c) => <[i:=c]> m) ∅ []) !! chunk_index with
        | Some encrypted_content =>
            decrypted ← decrypt_chunk chunk_index encrypted_content (src_hashes s) (child_level s);
            Ok (acc ++ decrypted)
        | None => Ok acc
        end) [] l = Ok []).
    { induction l as [|i l IH]; [done|]. cbn [try_fold foldl]. rewrite lookup_empty. exact IH. }
    rewrite Hn. cbn [mbind result_bind]. change (lenZ (@nil Byte.byte)) with 0.
    assert (Hw : forall a b, (0 <=? wsub a b) = true).
    { intros a b. apply Z.leb_le. unfold wsub. by apply Z.mod_pos_bound. }
    by rewrite Hw.
Qed.

Theorem missing_chunks_are_silent_witness :
  let c : Config := {| MAX_CHUNK_SIZE := 5 |} in
  exists dm cs s, encrypt_chunks (sample_file 17) 0 = Ok (dm, cs) /\
    streaming_decrypt (fun _ => Ok []) dm = Ok s /\
    (next_chunk 10 (fun _ => Ok []) s).1 = None /\ get_range (fun _ => Ok []) s 0 17 = Ok [].
Proof.
  set (c := {| MAX_CHUNK_SIZE := 5 |}). cbv zeta.
  assert (Hc : match encrypt_chunks (sample_file 17) 0 with
               | Ok (dm, cs) => negb (DataMap.is_child dm) && is_ok (streaming_decrypt (fun _ => Ok []) dm) = true
               | Err _ => False
               end) by (vm_compute; reflexivity).
  destruct (encrypt_chunks (sample_file 17) 0) as [[dm cs]|] eqn:E; [|destruct Hc].
  apply andb_prop in Hc as [Hc Hs]. apply negb_true_iff in Hc.
  destruct (streaming_decrypt (fun _ => Ok []) dm) as [s|] eqn:E0; [|discriminate Hs].
  exists dm, cs, s. split; [reflexivity|]. split; [exact E0|].
  exact (missing_chunks_are_silent dm 10 0 17 s Hc E0).
Defined.
