(* ===== verification/StreamEnc.v ===== *)
(** * Streaming encryption

    [self_encryption/src/stream_encrypt.rs]: [EncryptionStream] as explicit
    state.  The input iterator is the list of pieces it has left.  [None] at the
    outer level of a result is the fuel of the final shrinking running out. *)

From Stdlib Require Import ZArith Lia.
From stdpp Require Import base list strings.
From S2P Require Import Prelude Interfaces ChunkMath Cipher DataMap Reference Encrypt Decrypt.
From S2P Require Import RoundTrip Ranges.

Local Open Scope Z_scope.

Inductive ChunkOrDataMap :=
| Chunk (c : EncryptedChunk)
| FinalMap (dm : DataMap).

Record EncryptionStream := mkStream {
  data_iter : list bytes;
  data_size : Z;
  buffer : bytes;
  chunks_processed : Z;
  total_chunks : Z;
  src_hashes : list (option XorName);
  deferred_chunks : list (option bytes);
  chunk_infos : list (option ChunkInfo);
  input_complete : bool;
  is_complete : bool;
  final_datamap : option DataMap;
  shrinking_chunks : list EncryptedChunk;
  shrinking_chunk_index : Z
}.

(** Assignments to fields. *)
Definition set_input (s : EncryptionStream) iter buf complete : EncryptionStream :=
  mkStream iter (data_size s) buf (chunks_processed s) (total_chunks s) (src_hashes s)
    (deferred_chunks s) (chunk_infos s) complete (is_complete s) (final_datamap s)
    (shrinking_chunks s) (shrinking_chunk_index s).
Definition set_src_hashes (s : EncryptionStream) h : EncryptionStream :=
  mkStream (data_iter s) (data_size s) (buffer s) (chunks_processed s) (total_chunks s) h
    (deferred_chunks s) (chunk_infos s) (input_complete s) (is_complete s) (final_datamap s)
    (shrinking_chunks s) (shrinking_chunk_index s).
Definition set_chunk_infos (s : EncryptionStream) i : EncryptionStream :=
  mkStream (data_iter s) (data_size s) (buffer s) (chunks_processed s) (total_chunks s)
    (src_hashes s) (deferred_chunks s) i (input_complete s) (is_complete s) (final_datamap s)
    (shrinking_chunks s) (shrinking_chunk_index s).
Definition set_deferred (s : EncryptionStream) d : EncryptionStream :=
  mkStream (data_iter s) (data_size s) (buffer s) (chunks_processed s) (total_chunks s)
    (src_hashes s) d (chunk_infos s) (input_complete s) (is_complete s) (final_datamap s)
    (shrinking_chunks s) (shrinking_chunk_index s).
Definition set_progress (s : EncryptionStream) buf k : EncryptionStream :=
  mkStream (data_iter s) (data_size s) buf k (total_chunks s) (src_hashes s)
    (deferred_chunks s) (chunk_infos s) (input_complete s) (is_complete s) (final_datamap s)
    (shrinking_chunks s) (shrinking_chunk_index s).
Definition set_final (s : EncryptionStream) complete dm chunks idx : EncryptionStream :=
  mkStream (data_iter s) (data_size s) (buffer s) (chunks_processed s) (total_chunks s)
    (src_hashes s) (deferred_chunks s) (chunk_infos s) (input_complete s) complete dm chunks idx.

Section StreamEnc.
Context `{Config, Blake3, Aead, Brotli, !Codec bincode VersionedDataMap}.

(** [EncryptionStream::new], which is [stream_encrypt]. *)
Definition stream_encrypt (data_size : Z) (data_iter : list bytes) : result Error EncryptionStream :=
  if data_size <? MIN_ENCRYPTABLE_BYTES
  then Err (Generic "File too small for self-encryption! Required size at least {}")
  else
    let total_chunks := get_num_chunks data_size in
    if total_chunks <? 3
    then Err (Generic "File must be large enough to generate at least 3 chunks")
    else Ok {|
      data_iter := data_iter; data_size := data_size; buffer := []; chunks_processed := 0;
      total_chunks := total_chunks; src_hashes := replicate (Z.to_nat total_chunks) None;
      deferred_chunks := [None; None]; chunk_infos := replicate (Z.to_nat total_chunks) None;
      input_complete := false; is_complete := false; final_datamap := None;
      shrinking_chunks := []; shrinking_chunk_index := 0 |}.

Definition get_processed_bytes (s : EncryptionStream) : Z :=
  fold_left (fun processed i =>
      let '(start, e) := get_start_end_positions (data_size s) i in processed + (e - start))
    (rangeZ (chunks_processed s)) 0.

Definition hash_known (hashes : list (option XorName)) (i : Z) : bool :=
  match hashes !! Z.to_nat i with Some (Some _) => true | _ => false end.

Definition can_encrypt_chunk (s : EncryptionStream) (chunk_index : Z) : bool :=
  if chunk_index <? 2 then forallb (fun h => match h with Some _ => true | None => false end) (src_hashes s)
  else
    match get_n_1_n_2 chunk_index (total_chunks s) with
    | None => false
    | Some (n1, n2) =>
        hash_known (src_hashes s) chunk_index && hash_known (src_hashes s) n1
        && hash_known (src_hashes s) n2
    end.

(** [chunk_infos.get_mut(i).and_then(|c| c.as_mut())]: set the destination hash
    of an entry that exists. *)
Definition fill_dst_hash (infos : list (option ChunkInfo)) (i : Z) (h : XorName)
    : list (option ChunkInfo) :=
  match infos !! Z.to_nat i with
  | Some (Some info) =>
      <[Z.to_nat i := Some {| index := index info; dst_hash := h; src_hash := src_hash info;
                              src_size := src_size info |}]> infos
  | _ => infos
  end.

Definition stream_encrypt_chunk (s : EncryptionStream) (chunk_index : Z) (chunk_data : bytes)
    : result Error EncryptedChunk * EncryptionStream :=
  let r :=
    hashes ← try_fold (fun acc '(i, hash_opt) =>
        match hash_opt with
        | Some hash =>
            if i <? lenZ acc then Ok (<[Z.to_nat i := hash]> acc)
            else Err (Generic "index {i} out of bounds for src_hashes")
        | None => Ok acc
        end)
      (replicate (Z.to_nat (total_chunks s)) (content_hash [])) (enumerate (src_hashes s));
    pki ← get_pad_key_and_nonce chunk_index hashes 0;
    encrypt_chunk chunk_data pki in
  match r with
  | Err e => (Err e, s)
  | Ok encrypted_content =>
      (Ok encrypted_content,
       set_chunk_infos s (fill_dst_hash (chunk_infos s) chunk_index (content_hash encrypted_content)))
  end.

(** *** One turn of the loop of [try_process_chunks] *)
Inductive turn :=
| Continue (s : EncryptionStream)
| Break (s : EncryptionStream)
| Return (r : result Error (option ChunkOrDataMap)) (s : EncryptionStream).

Definition process_chunk (s : EncryptionStream) : turn :=
  let chunk_index := chunks_processed s in
  let '(chunk_start, chunk_end) := get_start_end_positions (data_size s) chunk_index in
  let chunk_size := chunk_end - chunk_start in
  let buffer_start := sat_sub chunk_start (get_processed_bytes s) in
  if (buffer_start + chunk_size <=? lenZ (buffer s)) || input_complete s then
    let actual_chunk_size :=
      if input_complete s then Z.min chunk_size (sat_sub (lenZ (buffer s)) buffer_start)
      else chunk_size in
    if actual_chunk_size =? 0 then Break s
    else if lenZ (buffer s) <? buffer_start + actual_chunk_size then Break s
    else
      let chunk_data := slice (buffer s) buffer_start (buffer_start + actual_chunk_size) in
      let src := content_hash chunk_data in
      if lenZ (src_hashes s) <=? chunk_index
      then Return (Err (Generic "chunk index {chunk_index} out of bounds for src_hashes")) s
      else
      let s := set_src_hashes s (<[Z.to_nat chunk_index := Some src]> (src_hashes s)) in
      if lenZ (chunk_infos s) <=? chunk_index
      then Return (Err (Generic "chunk index {chunk_index} out of bounds for chunk_infos")) s
      else
      let s := set_chunk_infos s (<[Z.to_nat chunk_index := Some
        {| index := chunk_index; dst_hash := content_hash []; src_hash := src;
           src_size := lenZ chunk_data |}]> (chunk_infos s)) in
      let advance s :=
        set_progress s
          (if buffer_start + actual_chunk_size <=? lenZ (buffer s)
           then take (Z.to_nat buffer_start) (buffer s)
                ++ drop (Z.to_nat (buffer_start + actual_chunk_size)) (buffer s)
           else buffer s)
          (chunks_processed s + 1) in
      if chunk_index <? 2 then
        if lenZ (deferred_chunks s) <=? chunk_index
        then Return (Err (Generic "chunk index {chunk_index} out of bounds for deferred_chunks")) s
        else
          Continue (advance (set_deferred s
            (<[Z.to_nat chunk_index := Some chunk_data]> (deferred_chunks s))))
      else if can_encrypt_chunk s chunk_index then
        match stream_encrypt_chunk s chunk_index chunk_data with
        | (Err e, s) => Return (Err e) s
        | (Ok encrypted_chunk, s) => Return (Ok (Some (Chunk encrypted_chunk))) (advance s)
        end
      else Continue (advance s)
  else Break s.

(** *** [finalize_encryption] *)

(** The loop over the deferred chunks: the first one still there is encrypted
    and returned; it has been taken out even when encryption fails. *)
Fixpoint finalize_deferred (s : EncryptionStream) (hashes : list XorName) (indices : list Z)
    : option (result Error EncryptedChunk * EncryptionStream) :=
  match indices with
  | [] => None
  | chunk_index :: indices' =>
    match deferred_chunks s !! Z.to_nat chunk_index with
    | Some (Some chunk_data) =>
        let s := set_deferred s (<[Z.to_nat chunk_index := None]> (deferred_chunks s)) in
        match (pki ← get_pad_key_and_nonce chunk_index hashes 0; encrypt_chunk chunk_data pki) with
        | Err e => Some (Err e, s)
        | Ok encrypted_content =>
            Some (Ok encrypted_content,
              set_chunk_infos s
                (fill_dst_hash (chunk_infos s) chunk_index (content_hash encrypted_content)))
        end
    | _ => finalize_deferred s hashes indices'
    end
  end.

(** Fuel of the final shrinking: one less than [encrypt_fuel] of the file. *)
Definition shrink_fuel (dm : DataMap) : nat := Z.to_nat (2 * DataMap.len dm + 3).

Definition finalize_encryption (s : EncryptionStream)
    : option (result Error (option ChunkOrDataMap) * EncryptionStream) :=
  if is_complete s then Some (Ok None, s)
  else
    match try_map (fun h => ok_or h (Generic "Missing source hash for chunk {i}")) (src_hashes s) with
    | Err e => Some (Err e, s)
    | Ok hashes =>
      match finalize_deferred s hashes (rangeZ (Z.min 2 (total_chunks s))) with
      | Some (Err e, s) => Some (Err e, s)
      | Some (Ok encrypted, s) => Some (Ok (Some (Chunk encrypted)), s)
      | None =>
        match try_map (fun i => ok_or i (Generic "Missing chunk info")) (chunk_infos s) with
        | Err e => Some (Err e, s)
        | Ok infos =>
          let data_map := DataMap.new (sort_by_key index infos) in
          match shrink_data_map (shrink_fuel data_map) unit (fun _ _ _ => Ok tt) data_map tt with
          | None => None
          | Some (Err e) => Some (Err e, s)
          | Some (Ok (_, shrunk_map, shrink_chunks)) =>
            let idx := shrinking_chunk_index s in
            let s := set_final s (is_complete s) (Some shrunk_map) shrink_chunks idx in
            match shrink_chunks !! Z.to_nat idx with
            | Some chunk =>
                Some (Ok (Some (Chunk chunk)),
                      set_final s (is_complete s) (Some shrunk_map) shrink_chunks (idx + 1))
            | None =>
                Some (Ok (Some (FinalMap shrunk_map)),
                      set_final s true (Some shrunk_map) shrink_chunks idx)
            end
          end
        end
      end
    end.

(** [while chunks_processed < total_chunks]: a turn that continues has
    processed one more chunk. *)
Fixpoint process_loop (fuel : nat) (s : EncryptionStream)
    : EncryptionStream + (result Error (option ChunkOrDataMap) * EncryptionStream) :=
  match fuel with
  | O => inl s
  | S fuel' =>
    if chunks_processed s <? total_chunks s then
      match process_chunk s with
      | Continue s' => process_loop fuel' s'
      | Break s' => inl s'
      | Return r s' => inr (r, s')
      end
    else inl s
  end.

Definition try_process_chunks (s : EncryptionStream)
    : option (result Error (option ChunkOrDataMap) * EncryptionStream) :=
  match process_loop (Z.to_nat (total_chunks s - chunks_processed s)) s with
  | inr r => Some r
  | inl s =>
      if input_complete s && (total_chunks s <=? chunks_processed s)
      then finalize_encryption s
      else Some (Ok None, s)
  end.

(** *** [next_internal] *)

(** The loop goes round once per piece of input. *)
Fixpoint next_loop (iter : list bytes) (s : EncryptionStream)
    : option (option (result Error ChunkOrDataMap) * EncryptionStream) :=
  match shrinking_chunks s !! Z.to_nat (shrinking_chunk_index s) with
  | Some chunk =>
      let idx := shrinking_chunk_index s + 1 in
      Some (Some (Ok (Chunk chunk)),
            set_final s (if lenZ (shrinking_chunks s) <=? idx then true else is_complete s)
              (final_datamap s) (shrinking_chunks s) idx)
  | None =>
    if is_complete s then
      Some (match final_datamap s with Some dm => Some (Ok (FinalMap dm)) | None => None end, s)
    else
      match try_process_chunks s with
      | None => None
      | Some (Ok (Some r), s) => Some (Some (Ok r), s)
      | Some (Err e, s) => Some (Some (Err e), s)
      | Some (Ok None, s) =>
        if input_complete s then Some (None, s)
        else
          match iter with
          | piece :: iter' =>
            match try_process_chunks (set_input s iter' (buffer s ++ piece) false) with
            | None => None
            | Some (Ok (Some r), s) => Some (Some (Ok r), s)
            | Some (Err e, s) => Some (Some (Err e), s)
            | Some (Ok None, s) => next_loop iter' s
            end
          | [] =>
            match try_process_chunks (set_input s [] (buffer s) true) with
            | None => None
            | Some (Ok (Some r), s) => Some (Some (Ok r), s)
            | Some (Err e, s) => Some (Some (Err e), s)
            | Some (Ok None, s) => Some (None, s)
            end
          end
      end
  end.

Definition next_internal (s : EncryptionStream) := next_loop (data_iter s) s.

(** [ChunkStream::next]. *)
Definition chunk_stream_next (s : EncryptionStream)
    : option (option (result Error (XorName * bytes)) * EncryptionStream) :=
  match next_internal s with
  | None => None
  | Some (Some (Ok (Chunk chunk)), s) => Some (Some (Ok (content_hash chunk, chunk)), s)
  | Some (Some (Ok (FinalMap datamap)), s) =>
      Some (None, set_final s (is_complete s) (Some datamap) (shrinking_chunks s) (shrinking_chunk_index s))
  | Some (Some (Err e), s) => Some (Some (Err e), s)
  | Some (None, s) => Some (None, s)
  end.

(** [datamap] and [into_datamap]. *)
Definition datamap (s : EncryptionStream) : option DataMap := final_datamap s.

(** A [for] loop over [chunks()] until [None] or an error: the items and the
    final state. *)
Fixpoint drain_chunks (fuel : nat) (s : EncryptionStream)
    : option (list (XorName * bytes) * option Error * EncryptionStream) :=
  match fuel with
  | O => None
  | S fuel' =>
    match chunk_stream_next s with
    | None => None
    | Some (None, s') => Some ([], None, s')
    | Some (Some (Err e), s') => Some ([], Some e, s')
    | Some (Some (Ok item), s') =>
        match drain_chunks fuel' s' with
        | Some (items, e, s'') => Some (item :: items, e, s'')
        | None => None
        end
    end
  end.

End StreamEnc.

(** ** Lemmas *)

Lemma drop_slice {A} (l : list A) a b c :
  0 <= a <= b -> drop (Z.to_nat (b - a)) (slice l a c) = slice l b c.
Proof.
  intros Hab. unfold slice. rewrite skipn_firstn_comm, drop_drop. f_equal; [lia|]. f_equal. lia.
Qed.

Lemma take_slice {A} (l : list A) a b c :
  0 <= a <= b -> b <= c -> take (Z.to_nat (b - a)) (slice l a c) = slice l a b.
Proof. intros Hab Hc. unfold slice. rewrite take_take. f_equal. lia. Qed.

Lemma slice_extend {A} (data piece rest : list A) a p :
  0 <= a <= p -> p <= lenZ data -> drop (Z.to_nat p) data = piece ++ rest ->
  slice data a p ++ piece = slice data a (p + lenZ piece) /\
  drop (Z.to_nat (p + lenZ piece)) data = rest /\ p + lenZ piece <= lenZ data.
Proof.
  intros Ha Hp Hd. pose proof (lenZ_nonneg piece).
  assert (Hl : p + lenZ piece <= lenZ data).
  { assert (Hl : lenZ (drop (Z.to_nat p) data) = lenZ (piece ++ rest)) by (by rewrite Hd).
    rewrite lenZ_app in Hl. unfold lenZ in *. rewrite length_drop in Hl. lia. }
  assert (Hpiece : piece = slice data p (p + lenZ piece)).
  { unfold slice. rewrite Hd. replace (Z.to_nat (p + lenZ piece - p)) with (length piece)
      by (unfold lenZ; lia). by rewrite take_app_length. }
  split; [|split; [|done]].
  - rewrite Hpiece at 1. by apply slice_app_adjacent; lia.
  - replace (Z.to_nat (p + lenZ piece)) with (Z.to_nat p + length piece)%nat by (unfold lenZ in *; lia).
    rewrite <- drop_drop, Hd. by rewrite drop_app_length.
Qed.

Lemma insert_next {A} (l : list A) (k n : Z) (v d : A) :
  lenZ l = k -> k < n ->
  <[Z.to_nat k := v]> (l ++ replicate (Z.to_nat (n - k)) d) =
  (l ++ [v]) ++ replicate (Z.to_nat (n - (k + 1))) d.
Proof.
  intros Hl Hk. unfold lenZ in Hl. replace (Z.to_nat k) with (length l + 0)%nat by lia.
  rewrite insert_app_r. rewrite <- app_assoc. f_equal.
  replace (Z.to_nat (n - k)) with (S (Z.to_nat (n - (k + 1)))) by lia. done.
Qed.

(** Storing the shrunk map's chunks does not change the map. *)
Lemma shrink_store_independent `{Config, Blake3, Aead, Brotli, !Codec bincode VersionedDataMap}
    fuel dm (st : list EncryptedChunk) :
  shrink_data_map fuel _ (fun st (_ : XorName) c => Ok (st ++ [c])) dm st =
  match shrink_data_map fuel unit (fun _ _ _ => Ok tt) dm tt with
  | Some (Ok (_, dm', cs)) => Some (Ok (st ++ cs, dm', cs))
  | Some (Err e) => Some (Err e)
  | None => None
  end.
Proof.
  revert dm st. induction fuel as [|fuel IH]; intros dm st; [done|].
  destruct (decide (DataMap.len dm <= 3)) as [Hl|Hl].
  - rewrite !shrink_small by done. by rewrite app_nil_r.
  - rewrite !shrink_big by lia. destruct (to_bytes dm) as [b|]; [|done]. cbv zeta.
    destruct (encrypt_with_child_level fuel b _) as [[[nm cs]|]|]; [|done..].
    rewrite push_all.
    assert (Hu : forall l, try_fold (fun (_ : unit) (_ : EncryptedChunk) => Ok (E := Error) tt) tt l = Ok tt).
    { induction l as [|x l IHl]; [done|]. exact IHl. }
    rewrite Hu, IH. destruct (shrink_data_map fuel unit _ _ _) as [[[[[] dm'] cs']|]|]; [|done..].
    by rewrite <- app_assoc.
Qed.

(** The hashes known so far, with a placeholder for the others. *)
Lemma collect_hashes (l : list (option XorName)) (pre rest : list XorName) :
  length rest = length l ->
  try_fold (fun acc '(i, hash_opt) =>
      match hash_opt with
      | Some hash =>
          if i <? lenZ acc then Ok (<[Z.to_nat i := hash]> acc)
          else Err (Generic "index {i} out of bounds for src_hashes")
      | None => Ok acc
      end) (pre ++ rest) (enumerate_from (lenZ pre) l) =
  Ok (pre ++ zip_with (fun o d => default d o) l rest).
Proof.
  revert pre rest. induction l as [|o l IH]; intros pre [|r rest]; try done. intros [= Hl].
  cbn [enumerate_from try_fold zip_with].
  assert (Hlen : forall x, lenZ (pre ++ [x]) = lenZ pre + 1) by (intros x; rewrite lenZ_app; done).
  destruct o as [h|]; cbn [mbind result_bind default].
  - assert ((lenZ pre <? lenZ (pre ++ r :: rest)) = true) as ->.
    { apply Z.ltb_lt. rewrite lenZ_app. unfold lenZ. cbn [length]. lia. }
    cbn [mbind result_bind].
    replace (Z.to_nat (lenZ pre)) with (length pre + 0)%nat by (unfold lenZ; lia).
    rewrite insert_app_r. cbn [list_insert insert].
    specialize (IH (pre ++ [h]) rest Hl). rewrite Hlen, <- !app_assoc in IH. exact IH.
  - specialize (IH (pre ++ [r]) rest Hl). rewrite Hlen, <- !app_assoc in IH. exact IH.
Qed.

Section Equivalence.
Context `{Config, Blake3, Aead, Brotli, !Codec bincode VersionedDataMap}.
Context (HM : 1 <= MAX_CHUNK_SIZE).
Context (data : bytes) (cs : list EncryptedChunk).
Context (Hd : MIN_ENCRYPTABLE_BYTES <= lenZ data).
Context (Hf : Forall2 (fun i c => encrypt_one data 0 i = Ok c) (rangeZ (get_num_chunks (lenZ data))) cs).

Abbreviation n := (get_num_chunks (lenZ data)).
Abbreviation start i := ((get_start_end_positions (lenZ data) i).1).
Abbreviation stop i := ((get_start_end_positions (lenZ data) i).2).

Definition chunk_at (i : Z) : EncryptedChunk := default [] (cs !! Z.to_nat i).

(** Where the bytes of the first [k] chunks end. *)
Definition pos (k : Z) : Z := if k =? n then lenZ data else start k.

Definition known_hashes (k : Z) : list (option XorName) :=
  (Some <$> src_hashes_upto data k) ++ replicate (Z.to_nat (n - k)) None.

(** The entries after [k] chunks, [d] of the deferred two being encrypted. *)
Definition known_info (d i : Z) : option ChunkInfo :=
  Some (info_of data i (if (i <? 2) && (d <=? i) then [] else chunk_at i)).

Definition known_infos (k d : Z) : list (option ChunkInfo) :=
  (known_info d <$> rangeZ k) ++ replicate (Z.to_nat (n - k)) None.

(** [k] chunks processed, [p] bytes read. *)
Definition reading (k p : Z) (iter : list bytes) (complete : bool) : EncryptionStream := {|
  data_iter := iter; data_size := lenZ data; buffer := slice data (pos k) p;
  chunks_processed := k; total_chunks := n; src_hashes := known_hashes k;
  deferred_chunks := [if 0 <? k then Some (chunk_slice data 0) else None;
                      if 1 <? k then Some (chunk_slice data 1) else None];
  chunk_infos := known_infos k 0; input_complete := complete; is_complete := false;
  final_datamap := None; shrinking_chunks := []; shrinking_chunk_index := 0 |}.

Lemma num_ge_3 : 3 <= n.
Proof. by apply num_chunks_ge_3. Qed.

Lemma encrypted_at i : 0 <= i < n -> encrypt_one data 0 i = Ok (chunk_at i).
Proof.
  intros Hi. unfold chunk_at.
  destruct (lookup_lt_is_Some_2 cs (Z.to_nat i)) as [c Hc].
  { apply Forall2_length in Hf. rewrite length_rangeZ in Hf. lia. }
  rewrite Hc. cbn. apply (Forall2_lookup_lr _ _ _ _ _ _ Hf (rangeZ_lookup _ _ Hi) Hc).
Qed.

Lemma pos_succ i : 0 <= i < n -> pos (i + 1) = stop i.
Proof.
  intros Hi. unfold pos. destruct (i + 1 =? n) eqn:E; b2p.
  - replace i with (n - 1) by lia. symmetry. by apply start_end_last.
  - symmetry. apply start_end_adjacent; [done|done|lia|lia].
Qed.

Lemma pos_start i : 0 <= i < n -> pos i = start i.
Proof. intros Hi. unfold pos. by assert ((i =? n) = false) as -> by lia. Qed.

Lemma pos_bounds i : 0 <= i <= n -> 0 <= pos i <= lenZ data.
Proof.
  intros Hi. unfold pos. destruct (i =? n) eqn:E; b2p; [pose proof (lenZ_nonneg data); lia|].
  pose proof (start_end_bounds HM _ i Hd ltac:(lia)) as Hb.
  destruct (get_start_end_positions _ i). cbn. lia.
Qed.

Lemma stop_bounds i : 0 <= i < n -> start i < stop i <= lenZ data.
Proof.
  intros Hi. pose proof (start_end_bounds HM _ i Hd Hi) as Hb.
  destruct (get_start_end_positions _ i). cbn. lia.
Qed.

Lemma processed_bytes_upto k : 0 <= k <= n ->
  fold_left (fun processed i =>
      let '(s, e) := get_start_end_positions (lenZ data) i in processed + (e - s)) (rangeZ k) 0 = pos k.
Proof.
  intros [Hk Hn]. revert Hn. pattern k. apply natlike_ind; [| |done]; clear k Hk.
  - intros _. pose proof num_ge_3. rewrite pos_start by lia. cbn.
    symmetry. by apply start_end_first.
  - intros k Hk IH Hn. replace (Z.succ k) with (k + 1) in * by lia.
    rewrite rangeZ_succ, fold_left_app, IH, pos_succ by lia. cbn [fold_left].
    rewrite pos_start by lia. destruct (get_start_end_positions _ k). cbn. lia.
Qed.

Lemma lenZ_known k : 0 <= k -> lenZ (Some <$> src_hashes_upto data k) = k.
Proof. intros Hk. unfold lenZ. rewrite length_fmap. by apply lenZ_src_hashes_upto. Qed.

Lemma lenZ_known_hashes k : 0 <= k <= n -> lenZ (known_hashes k) = n.
Proof.
  intros Hk. unfold known_hashes. rewrite lenZ_app, lenZ_known by lia.
  unfold lenZ at 1. rewrite length_replicate. lia.
Qed.

Lemma lenZ_known_infos k d : 0 <= k <= n -> lenZ (known_infos k d) = n.
Proof.
  intros Hk. unfold known_infos. rewrite lenZ_app. unfold lenZ at 1 2.
  rewrite length_fmap, length_rangeZ, length_replicate. lia.
Qed.

Lemma known_hashes_next k : 0 <= k < n ->
  <[Z.to_nat k := Some (content_hash (chunk_slice data k))]> (known_hashes k) = known_hashes (k + 1).
Proof.
  intros Hk. unfold known_hashes. rewrite insert_next by (rewrite ?lenZ_known; lia).
  by rewrite src_hashes_upto_succ, fmap_app by lia.
Qed.

Lemma hash_known_upto k i : 0 <= i < k -> k <= n -> hash_known (known_hashes k) i = true.
Proof.
  intros Hi Hk. unfold hash_known, known_hashes.
  rewrite lookup_app_l by (pose proof (lenZ_known k ltac:(lia)); unfold lenZ in *; lia).
  unfold src_hashes_upto. rewrite <- list_fmap_compose, list_lookup_fmap, rangeZ_lookup by lia. done.
Qed.

(** The placeholders do not reach the key of a chunk after the second. *)
Lemma stream_key k : 2 <= k < n ->
  (hashes ← try_fold (fun acc '(i, hash_opt) =>
        match hash_opt with
        | Some hash =>
            if i <? lenZ acc then Ok (<[Z.to_nat i := hash]> acc)
            else Err (Generic "index {i} out of bounds for src_hashes")
        | None => Ok acc
        end)
      (replicate (Z.to_nat n) (content_hash [])) (enumerate (known_hashes (k + 1)));
   get_pad_key_and_nonce k hashes 0) = get_pad_key_and_nonce k (all_src_hashes data) 0.
Proof.
  intros Hk. unfold enumerate.
  pose proof (collect_hashes (known_hashes (k + 1)) [] (replicate (Z.to_nat n) (content_hash []))) as Hc.
  cbn [app] in Hc. change (lenZ (@nil XorName)) with 0 in Hc. rewrite Hc.
  2: { rewrite length_replicate. pose proof (lenZ_known_hashes (k + 1) ltac:(lia)).
       unfold lenZ in *. lia. }
  cbn [mbind result_bind].
  assert (Hz : exists rest, zip_with (fun o d => default d o) (known_hashes (k + 1))
      (replicate (Z.to_nat n) (content_hash [])) = src_hashes_upto data (k + 1) ++ rest).
  { unfold known_hashes. replace (Z.to_nat n) with (Z.to_nat (k + 1) + Z.to_nat (n - (k + 1)))%nat by lia.
    rewrite replicate_add, zip_with_app.
    2: { rewrite length_replicate. pose proof (lenZ_known (k + 1) ltac:(lia)). unfold lenZ in *. lia. }
    eexists. f_equal.
    pose proof (lenZ_src_hashes_upto data (k + 1) ltac:(lia)) as Hl. unfold lenZ in Hl at 1.
    replace (Z.to_nat (k + 1)) with (length (src_hashes_upto data (k + 1))) by lia.
    generalize (src_hashes_upto data (k + 1)). intros l. induction l as [|x l IHl]; [done|].
    cbn. by rewrite IHl. }
  destruct Hz as [rest ->].
  rewrite get_pad_key_and_nonce_prefix by (rewrite ?lenZ_src_hashes_upto; lia).
  by apply key_from_prefix.
Qed.

Lemma reading_processed k p iter complete : 0 <= k <= n ->
  get_processed_bytes (reading k p iter complete) = pos k.
Proof. intros Hk. unfold get_processed_bytes. cbn [reading data_size chunks_processed]. by apply processed_bytes_upto. Qed.

Lemma lenZ_buffer k p : 0 <= k <= n -> pos k <= p <= lenZ data -> lenZ (slice data (pos k) p) = p - pos k.
Proof. intros Hk Hp. pose proof (pos_bounds k Hk). apply lenZ_slice; lia. Qed.

(** Too few bytes for the next chunk: the loop stops. *)
Lemma process_chunk_waits k p iter :
  0 <= k < n -> pos k <= p < stop k -> p <= lenZ data ->
  process_chunk (reading k p iter false) = Break (reading k p iter false).
Proof.
  intros Hk Hp Hl. unfold process_chunk.
  cbn [reading chunks_processed data_size buffer input_complete].
  pose proof (pos_start k Hk) as Hs. pose proof (pos_bounds k ltac:(lia)) as Hb.
  rewrite reading_processed by lia.
  destruct (get_start_end_positions (lenZ data) k) as [s e]. cbn [fst snd] in *.
  rewrite lenZ_buffer by lia. unfold sat_sub.
  by assert ((Z.max 0 (s - pos k) + (e - s) <=? p - pos k) = false) as -> by lia.
Qed.

Lemma info_entry k : 0 <= k < n ->
  Some {| index := k; dst_hash := content_hash []; src_hash := content_hash (chunk_slice data k);
          src_size := lenZ (chunk_slice data k) |} = Some (info_of data k []).
Proof. intros Hk. unfold info_of. f_equal. f_equal. by apply lenZ_chunk_slice. Qed.

Lemma known_infos_next k d v : 0 <= k < n ->
  <[Z.to_nat k := v]> (known_infos k d) =
  ((known_info d <$> rangeZ k) ++ [v]) ++ replicate (Z.to_nat (n - (k + 1))) None.
Proof.
  intros Hk. unfold known_infos. apply insert_next; [|lia]. unfold lenZ.
  rewrite length_fmap, length_rangeZ. lia.
Qed.

Lemma known_infos_succ k d : 0 <= k < n ->
  known_infos (k + 1) d =
  ((known_info d <$> rangeZ k) ++ [known_info d k]) ++ replicate (Z.to_nat (n - (k + 1))) None.
Proof. intros Hk. unfold known_infos. by rewrite rangeZ_succ, fmap_app by lia. Qed.

Lemma fill_entry (X : list (option ChunkInfo)) k rest content :
  lenZ X = k ->
  fill_dst_hash ((X ++ [Some (info_of data k [])]) ++ rest) k (content_hash content) =
  (X ++ [Some (info_of data k content)]) ++ rest.
Proof.
  intros Hk. unfold fill_dst_hash, lenZ in *. rewrite <- !app_assoc. cbn [app].
  rewrite lookup_app_r by lia. replace (Z.to_nat k - length X)%nat with 0%nat by lia.
  cbn [lookup list_lookup]. replace (Z.to_nat k) with (length X + 0)%nat by lia.
  rewrite insert_app_r. done.
Qed.

(** Enough bytes: the next chunk is cut out; a chunk after the second is
    encrypted and returned, the first two are kept. *)
Lemma process_chunk_cuts k p iter complete :
  0 <= k < n -> stop k <= p <= lenZ data -> (complete = true -> p = lenZ data) ->
  process_chunk (reading k p iter complete) =
  if k <? 2 then Continue (reading (k + 1) p iter complete)
  else Return (Ok (Some (Chunk (chunk_at k)))) (reading (k + 1) p iter complete).
Proof.
  intros Hk Hp Hcomp. unfold process_chunk.
  cbn [reading chunks_processed data_size buffer input_complete].
  pose proof (pos_start k Hk) as Hs. pose proof (pos_bounds k ltac:(lia)) as Hb.
  pose proof (stop_bounds k Hk) as Hsb. pose proof (pos_succ k Hk) as Hps.
  rewrite reading_processed by lia.
  assert (Hcs : chunk_slice data k = slice data (start k) (stop k)).
  { unfold chunk_slice. by destruct (get_start_end_positions (lenZ data) k). }
  destruct (get_start_end_positions (lenZ data) k) as [s e] eqn:Ese. cbn [fst snd] in *.
  rewrite lenZ_buffer by lia. unfold sat_sub. replace (Z.max 0 (s - pos k)) with 0 by lia.
  assert ((0 + (e - s) <=? p - pos k) = true) as -> by lia. cbn [orb].
  replace (if complete then Z.min (e - s) (Z.max 0 (p - pos k - 0)) else e - s) with (e - s)
    by (destruct complete; lia).
  assert ((e - s =? 0) = false) as -> by lia.
  assert ((p - pos k <? 0 + (e - s)) = false) as -> by lia.
  assert (Hdata : slice (slice data (pos k) p) 0 (0 + (e - s)) = chunk_slice data k).
  { rewrite slice_slice by lia. rewrite Hcs. f_equal; lia. }
  rewrite Hdata. unfold set_src_hashes, set_chunk_infos.
  cbn [reading src_hashes chunk_infos deferred_chunks buffer chunks_processed data_iter data_size
       total_chunks input_complete is_complete final_datamap shrinking_chunks shrinking_chunk_index].
  rewrite lenZ_known_hashes by lia. assert ((n <=? k) = false) as -> by lia.
  rewrite lenZ_known_infos by lia. assert ((n <=? k) = false) as -> by lia.
  rewrite known_hashes_next by done. rewrite known_infos_next, info_entry by done.
  assert (Hbuf : take (Z.to_nat 0) (slice data (pos k) p) ++
      drop (Z.to_nat (0 + (e - s))) (slice data (pos k) p) = slice data (pos (k + 1)) p).
  { cbn [take app Z.to_nat]. replace (0 + (e - s)) with (pos (k + 1) - pos k) by lia.
    apply drop_slice. lia. }
  destruct (k <? 2) eqn:Ek; b2p.
  - assert ((2 <=? k) = false) as E2 by lia.
    change (lenZ [_; _] <=? k) with (2 <=? k). rewrite E2.
    unfold set_deferred, set_progress.
    cbn [reading src_hashes chunk_infos deferred_chunks buffer chunks_processed data_iter data_size
       total_chunks input_complete is_complete final_datamap shrinking_chunks shrinking_chunk_index].
    rewrite lenZ_buffer by lia. assert ((0 + (e - s) <=? p - pos k) = true) as -> by lia.
    rewrite Hbuf. unfold reading. rewrite known_infos_succ by lia.
    assert (Hinfo : known_info 0 k = Some (info_of data k [])).
    { unfold known_info. by assert ((k <? 2) && (0 <=? k) = true) as -> by lia. }
    rewrite Hinfo. f_equal. f_equal.
    assert (k = 0 \/ k = 1) as [->| ->] by lia; done.
  - assert (Hcan : forall st, src_hashes st = known_hashes (k + 1) -> total_chunks st = n ->
              can_encrypt_chunk st k = true).
    { intros st Hst1 Hst2. unfold can_encrypt_chunk. rewrite Hst1, Hst2.
      assert ((k <? 2) = false) as -> by lia.
      destruct (n_1_n_2_defined k n) as (n1 & n2 & En); [pose proof num_ge_3; lia|done|].
      destruct (n_1_n_2_later _ _ _ _ Ek En) as [-> ->]. rewrite En.
      by rewrite !hash_known_upto by lia. }
    rewrite Hcan by done. unfold stream_encrypt_chunk.
    cbn [src_hashes chunk_infos total_chunks].
    pose proof (stream_key k ltac:(lia)) as Hkey.
    pose proof (encrypted_at k Hk) as Henc. unfold encrypt_one in Henc. rewrite <- Hkey in Henc.
    unfold mbind, result_bind in Henc |- *.
    destruct (try_fold _ _ _) as [hashes|]; [|done].
    destruct (get_pad_key_and_nonce k hashes 0) as [pki|]; [|done]. rewrite Henc.
    unfold set_progress, set_chunk_infos.
    cbn [src_hashes chunk_infos deferred_chunks buffer chunks_processed data_iter data_size
       total_chunks input_complete is_complete final_datamap shrinking_chunks shrinking_chunk_index].
    rewrite lenZ_buffer by lia. assert ((0 + (e - s) <=? p - pos k) = true) as -> by lia.
    rewrite Hbuf. unfold reading. rewrite known_infos_succ by lia.
    rewrite fill_entry by (unfold lenZ; rewrite length_fmap, length_rangeZ; lia).
    assert (Hinfo : known_info 0 k = Some (info_of data k (chunk_at k))).
    { unfold known_info. by assert ((k <? 2) && (0 <=? k) = false) as -> by lia. }
    rewrite Hinfo.
    assert ((0 <? k) = true) as -> by lia. assert ((1 <? k) = true) as -> by lia.
    assert ((0 <? k + 1) = true) as -> by lia. assert ((1 <? k + 1) = true) as -> by lia. done.
Qed.

(** [k] chunks are processed and chunk [j] is the next to be yielded. *)
Definition before (k j : Z) : Prop := 0 <= k <= j /\ 2 <= j /\ (k = j \/ j = 2).

Definition input_wf (p : Z) (iter : list bytes) (complete : bool) : Prop :=
  p <= lenZ data /\ concat iter = drop (Z.to_nat p) data /\ (complete = true -> p = lenZ data /\ iter = []).

Lemma process_loop_yields fuel k j p iter complete :
  before k j -> j < n -> n - k <= Z.of_nat fuel -> pos k <= p -> input_wf p iter complete ->
  (process_loop fuel (reading k p iter complete) =
     inr (Ok (Some (Chunk (chunk_at j))), reading (j + 1) p iter complete) /\ pos (j + 1) <= p) \/
  (complete = false /\ exists k', before k' j /\ pos k' <= p < lenZ data /\
     process_loop fuel (reading k p iter complete) = inl (reading k' p iter complete)).
Proof.
  revert k. induction fuel as [|fuel IH]; intros k Hb Hj Hfuel Hp (Hpl & Hc & Hcomp);
    destruct Hb as (Hk & Hj2 & Hkj); [lia|].
  cbn [process_loop]. cbn [reading chunks_processed total_chunks].
  assert ((k <? n) = true) as -> by lia. pose proof (stop_bounds k ltac:(lia)) as Hsb.
  destruct (decide (stop k <= p)) as [Hcut|Hwait].
  - rewrite process_chunk_cuts by (done || lia || (intros Ht; by apply Hcomp)).
    rewrite <- (pos_succ k) in Hcut by lia.
    destruct (k <? 2) eqn:Ek; b2p.
    + destruct (IH (k + 1)) as [Hl|Hr]; [unfold before; lia|done|lia|done|done|by left|].
      right. destruct Hr as (-> & k' & Hk' & Hp' & E). split; [done|]. by exists k'.
    + assert (k = j) as -> by lia. left. done.
  - assert (complete = false) as ->.
    { destruct complete; [|done]. destruct (Hcomp eq_refl) as [-> _]. lia. }
    right. split; [done|]. exists k. rewrite process_chunk_waits by lia.
    split; [unfold before; lia|]. split; [lia|done].
Qed.

Lemma try_process_yields k j p iter complete :
  before k j -> j < n -> pos k <= p -> input_wf p iter complete ->
  (try_process_chunks (reading k p iter complete) =
     Some (Ok (Some (Chunk (chunk_at j))), reading (j + 1) p iter complete) /\ pos (j + 1) <= p) \/
  (complete = false /\ exists k', before k' j /\ pos k' <= p < lenZ data /\
     try_process_chunks (reading k p iter complete) = Some (Ok None, reading k' p iter complete)).
Proof.
  intros Hb Hj Hp Hin. unfold try_process_chunks. cbn [reading total_chunks chunks_processed].
  destruct (process_loop_yields (Z.to_nat (n - k)) k j p iter complete) as [[E Hp']|Hr];
    [done|done|destruct Hb; lia|done|done| |].
  - left. rewrite E. done.
  - right. destruct Hr as (-> & k' & Hk' & Hp' & E). split; [done|]. exists k'.
    split; [done|]. split; [done|]. rewrite E. done.
Qed.

(** Reading a piece. *)
Lemma read_piece k p piece rest :
  0 <= k <= n -> pos k <= p -> input_wf p (piece :: rest) false ->
  set_input (reading k p (piece :: rest) false) rest (slice data (pos k) p ++ piece) false =
    reading k (p + lenZ piece) rest false /\ input_wf (p + lenZ piece) rest false /\
  pos k <= p + lenZ piece.
Proof.
  intros Hk Hp (Hpl & Hc & _). cbn [concat] in Hc. pose proof (pos_bounds k Hk).
  destruct (slice_extend data piece (concat rest) (pos k) p) as (E1 & E2 & E3); [lia|lia|done|].
  split; [|split].
  - unfold set_input, reading. cbn. by rewrite E1.
  - split; [done|]. split; [done|done].
  - pose proof (lenZ_nonneg piece). lia.
Qed.

Lemma next_loop_yields iter : forall k j p iter0 complete,
  before k j -> j < n -> pos k <= p -> input_wf p iter complete -> iter0 = iter ->
  exists p' iter' complete',
    next_loop iter (reading k p iter0 complete) =
      Some (Some (Ok (Chunk (chunk_at j))), reading (j + 1) p' iter' complete') /\
    pos (j + 1) <= p' /\ input_wf p' iter' complete'.
Proof.
  induction iter as [|piece rest IH]; intros k j p iter0 complete Hb Hj Hp Hin ->;
    cbn [next_loop];
    change (shrinking_chunks (reading _ _ _ _)) with (@nil EncryptedChunk); cbn [lookup list_lookup];
    rewrite lookup_nil; cbn [reading is_complete];
    fold (reading k p [] complete) || idtac; fold (reading k p (piece :: rest) complete) || idtac.
  - destruct (try_process_yields k j p [] complete Hb Hj Hp Hin) as [[E Hp']|Hr].
    + rewrite E. eauto 10.
    + destruct Hr as (-> & k' & _ & Hp' & _). destruct Hin as (_ & Hc & _). exfalso.
      assert (Hl : length (drop (Z.to_nat p) data) = 0%nat) by (by rewrite <- Hc).
      rewrite length_drop in Hl. assert (Hz : lenZ data = Z.of_nat (length data)) by done.
      destruct Hb as (Hk & _). pose proof (pos_bounds k ltac:(lia)). lia.
  - destruct (try_process_yields k j p (piece :: rest) complete Hb Hj Hp Hin) as [[E Hp']|Hr].
    + rewrite E. eauto 10.
    + destruct Hr as (-> & k' & Hb' & Hp' & E). rewrite E. cbn [reading input_complete buffer].
      fold (reading k' p (piece :: rest) false).
      destruct (read_piece k' p piece rest) as (Er & Hin' & Hp''); [destruct Hb'; lia|lia|done|].
      rewrite Er.
      destruct (try_process_yields k' j (p + lenZ piece) rest false Hb' Hj Hp'' Hin') as [[E' Hq]|Hr'].
      * rewrite E'. eauto 10.
      * destruct Hr' as (_ & k'' & Hb'' & Hq & E'). rewrite E'.
        apply IH; [done|done|lia|done|done].
Qed.

(** *** The deferred chunks and the end *)

Context (dm : DataMap) (extra : list EncryptedChunk).
Context (Hshrink : shrink_data_map (shrink_fuel (file_map data cs)) unit (fun _ _ _ => Ok tt)
                     (file_map data cs) tt = Some (Ok (tt, dm, extra))).

(** All chunks processed and all input read, [d] deferred chunks yielded. *)
Definition deferred (d : Z) (fin : option DataMap) (ex : list EncryptedChunk) (idx : Z) (complete : bool)
    : EncryptionStream := {|
  data_iter := []; data_size := lenZ data; buffer := slice data (lenZ data) (lenZ data);
  chunks_processed := n; total_chunks := n; src_hashes := known_hashes n;
  deferred_chunks := [if d <? 1 then Some (chunk_slice data 0) else None;
                      if d <? 2 then Some (chunk_slice data 1) else None];
  chunk_infos := known_infos n d; input_complete := true; is_complete := complete;
  final_datamap := fin; shrinking_chunks := ex; shrinking_chunk_index := idx |}.

Lemma known_hashes_all :
  try_map (fun h => ok_or (E := Error) h (Generic "Missing source hash for chunk {i}")) (known_hashes n)
  = Ok (all_src_hashes data).
Proof.
  unfold known_hashes. replace (Z.to_nat (n - n)) with 0%nat by lia. rewrite app_nil_r.
  fold (all_src_hashes data). induction (all_src_hashes data) as [|h l IH]; [done|].
  cbn in *. by rewrite IH.
Qed.

Lemma length_cs : length cs = Z.to_nat n.
Proof. apply Forall2_length in Hf. by rewrite length_rangeZ in Hf. Qed.

Lemma known_infos_all :
  try_map (fun i => ok_or (E := Error) i (Generic "Missing chunk info")) (known_infos n 2)
  = Ok (DataMap.infos (file_map data cs)).
Proof.
  unfold known_infos. replace (Z.to_nat (n - n)) with 0%nat by lia. rewrite app_nil_r.
  apply try_map_Ok_Forall2. rewrite Forall2_fmap_l. unfold DataMap.infos, file_map.
  cbn [chunk_identifiers]. pose proof length_cs as Hl.
  apply Forall2_same_length_lookup_2.
  - rewrite length_zip_with, length_rangeZ. lia.
  - intros k i info Hi Hinfo. apply lookup_zip_with_Some in Hinfo as (i' & c & -> & Hi' & Hc).
    simplify_eq. unfold known_info. cbn.
    assert (i = Z.of_nat k) as ->.
    { unfold rangeZ in Hi. rewrite list_lookup_fmap in Hi.
      destruct (seq 0 _ !! k) as [m|] eqn:Em; [|done]. simplify_eq/=. apply lookup_seq in Em. lia. }
    assert ((Z.of_nat k <? 2) && (2 <=? Z.of_nat k) = false) as -> by lia.
    unfold chunk_at. rewrite Nat2Z.id, Hc. done.
Qed.

(** Filling in a deferred entry. *)
Lemma fill_deferred d : 0 <= d < 2 ->
  fill_dst_hash (known_infos n d) d (content_hash (chunk_at d)) = known_infos n (d + 1).
Proof.
  intros Hd2. pose proof num_ge_3 as Hn. unfold known_infos.
  replace (Z.to_nat (n - n)) with 0%nat by lia. cbn [replicate]. rewrite !app_nil_r.
  rewrite (rangeZ_split d n), (rangeZ_split 1 (n - d)) by lia. change (rangeZ 1) with [0].
  rewrite !fmap_app, !fmap_cons, !fmap_nil, Z.add_0_r.
  assert (Hold : known_info d d = Some (info_of data d [])).
  { unfold known_info. by assert ((d <? 2) && (d <=? d) = true) as -> by lia. }
  assert (Hnew : known_info (d + 1) d = Some (info_of data d (chunk_at d))).
  { unfold known_info. by assert ((d <? 2) && (d + 1 <=? d) = false) as -> by lia. }
  rewrite Hold, Hnew, !app_assoc.
  rewrite fill_entry by (unfold lenZ; rewrite length_fmap, length_rangeZ; lia).
  f_equal; [f_equal|].
  - apply list_fmap_ext. intros k i Hi. apply list_elem_of_lookup_2, elem_of_rangeZ in Hi.
    unfold known_info. assert ((i <? 2) && (d <=? i) = false) as -> by lia.
    by assert ((i <? 2) && (d + 1 <=? i) = false) as -> by lia.
  - rewrite <- !list_fmap_compose. apply list_fmap_ext. intros k i Hi.
    apply list_elem_of_lookup_2, elem_of_rangeZ in Hi. cbn. unfold known_info.
    destruct (d + (1 + i) <? 2) eqn:E; [|done]. b2p.
    assert ((d <=? d + (1 + i)) = true) as -> by lia.
    by assert ((d + 1 <=? d + (1 + i)) = true) as -> by lia.
Qed.

Lemma finalize_yields_deferred d : 0 <= d < 2 ->
  finalize_encryption (deferred d None [] 0 false) =
    Some (Ok (Some (Chunk (chunk_at d))), deferred (d + 1) None [] 0 false).
Proof.
  intros Hd2. pose proof num_ge_3 as Hn. unfold finalize_encryption.
  cbn [deferred is_complete src_hashes total_chunks]. rewrite known_hashes_all.
  rewrite Z.min_l by lia. change (rangeZ 2) with [0; 1].
  pose proof (encrypted_at d ltac:(lia)) as He. unfold encrypt_one in He.
  pose proof (fill_deferred d Hd2) as Hfill.
  assert (d = 0 \/ d = 1) as [->| ->] by lia; unfold deferred;
    cbn [finalize_deferred deferred_chunks];
    change (Z.to_nat 0) with 0%nat; change (Z.to_nat 1) with 1%nat;
    change (0 <? 1) with true; change (0 <? 2) with true; change (1 <? 1) with false;
    change (1 <? 2) with true; cbv iota; cbn [lookup list_lookup]; cbv iota; rewrite He;
    unfold set_deferred, set_chunk_infos;
    cbn [chunk_infos data_iter data_size buffer chunks_processed total_chunks src_hashes
      input_complete is_complete final_datamap shrinking_chunks shrinking_chunk_index];
    rewrite Hfill; done.
Qed.

Lemma finalize_ends fin ex idx : 0 <= idx ->
  finalize_encryption (deferred 2 fin ex idx false) =
  match extra !! Z.to_nat idx with
  | Some c => Some (Ok (Some (Chunk c)), deferred 2 (Some dm) extra (idx + 1) false)
  | None => Some (Ok (Some (FinalMap dm)), deferred 2 (Some dm) extra idx true)
  end.
Proof.
  intros Hi. pose proof num_ge_3 as Hn. unfold finalize_encryption.
  cbn [deferred is_complete src_hashes total_chunks]. rewrite known_hashes_all.
  rewrite Z.min_l by lia. change (rangeZ 2) with [0; 1].
  change (finalize_deferred (deferred 2 fin ex idx false) (all_src_hashes data) [0; 1])
    with (@None (result Error EncryptedChunk * EncryptionStream)).
  cbn [chunk_infos deferred]. rewrite known_infos_all. cbv zeta.
  rewrite (sort_by_key_id index (DataMap.infos (file_map data cs)))
    by (apply key_sorted_zip_with; [done|apply rangeZ_sorted]).
  change (DataMap.new (DataMap.infos (file_map data cs)))
    with (DataMap.new (zip_with (info_of data) (rangeZ n) cs)).
  rewrite file_map_new, Hshrink. cbn [deferred shrinking_chunk_index].
  by destruct (extra !! Z.to_nat idx).
Qed.

Lemma try_process_idle p iter :
  try_process_chunks (reading n p iter false) = Some (Ok None, reading n p iter false).
Proof.
  unfold try_process_chunks. cbn [reading total_chunks chunks_processed].
  by replace (Z.to_nat (n - n)) with 0%nat by lia.
Qed.

Lemma try_process_finalizes d fin ex idx complete :
  try_process_chunks (deferred d fin ex idx complete) = finalize_encryption (deferred d fin ex idx complete).
Proof.
  unfold try_process_chunks. cbn [deferred total_chunks chunks_processed].
  replace (Z.to_nat (n - n)) with 0%nat by lia. cbn [process_loop input_complete deferred andb].
  cbn [deferred total_chunks chunks_processed]. by assert ((n <=? n) = true) as -> by lia.
Qed.

Lemma reading_all p : p = lenZ data -> reading n p [] true = deferred 0 None [] 0 false.
Proof.
  intros ->. unfold reading, deferred, pos. rewrite Z.eqb_refl. pose proof num_ge_3.
  assert ((0 <? n) = true) as -> by lia. by assert ((1 <? n) = true) as -> by lia.
Qed.

(** What is left of the input after the last chunk is empty pieces. *)
Lemma next_loop_finishes iter : forall p complete iter0,
  input_wf p iter complete -> p = lenZ data -> iter0 = iter ->
  next_loop iter (reading n p iter0 complete) =
    Some (Some (Ok (Chunk (chunk_at 0))), deferred 1 None [] 0 false).
Proof.
  assert (Hfin : forall p, p = lenZ data ->
    try_process_chunks (reading n p [] true) =
      Some (Ok (Some (Chunk (chunk_at 0))), deferred 1 None [] 0 false)).
  { intros p Hp. rewrite reading_all, try_process_finalizes by done.
    by rewrite (finalize_yields_deferred 0) by lia. }
  induction iter as [|piece rest IH]; intros p complete iter0 Hin Hp ->; cbn [next_loop];
    change (shrinking_chunks (reading _ _ _ _)) with (@nil EncryptedChunk);
    rewrite lookup_nil; change (is_complete (reading _ _ _ _)) with false; cbv iota.
  - destruct complete.
    + rewrite Hfin by done. done.
    + rewrite try_process_idle. cbn [reading input_complete buffer].
      change (set_input (reading n p [] false) [] (slice data (pos n) p) true) with (reading n p [] true).
      fold (reading n p [] false).
      change (set_input (reading n p [] false) [] (slice data (pos n) p) true) with (reading n p [] true).
      by rewrite Hfin.
  - destruct complete; [by destruct Hin as (_ & _ & Hc); destruct (Hc eq_refl)|].
    rewrite try_process_idle. cbn [reading input_complete buffer].
    fold (reading n p (piece :: rest) false).
    assert (Hpn : pos n = lenZ data) by (unfold pos; by rewrite Z.eqb_refl).
    pose proof num_ge_3.
    destruct (read_piece n p piece rest) as (Er & Hin' & _); [lia|lia|done|].
    rewrite Er, try_process_idle. apply IH; [done| |done].
    destruct Hin' as (Hle & _). pose proof (lenZ_nonneg piece). lia.
Qed.

(** [drain_chunks] with any sufficient fuel. *)
Definition drains (s : EncryptionStream) (items : list (XorName * bytes)) (s' : EncryptionStream) : Prop :=
  forall fuel, (length items < fuel)%nat -> drain_chunks fuel s = Some (items, None, s').

Lemma drains_nil s s' : chunk_stream_next s = Some (None, s') -> drains s [] s'.
Proof. intros E [|fuel] Hl; [cbn in Hl; lia|]. cbn [drain_chunks]. by rewrite E. Qed.

Lemma drains_cons s s1 s' c items :
  next_internal s = Some (Some (Ok (Chunk c)), s1) -> drains s1 items s' ->
  drains s ((content_hash c, c) :: items) s'.
Proof.
  intros E Hr [|fuel] Hl; [cbn in Hl; lia|]. cbn [drain_chunks]. unfold chunk_stream_next.
  rewrite E. rewrite Hr by (cbn in Hl; lia). done.
Qed.

Definition item (c : bytes) : XorName * bytes := (content_hash c, c).

Lemma drains_extra m : forall i complete,
  (length extra - i)%nat = m -> (complete = true -> (length extra <= i)%nat) ->
  exists s', drains (deferred 2 (Some dm) extra (Z.of_nat i) complete) (item <$> drop i extra) s' /\
    datamap s' = Some dm.
Proof.
  induction m as [|m IH]; intros i complete Hm Hc.
  - rewrite drop_ge by lia.
    assert (En : extra !! i = None) by (apply lookup_ge_None; lia).
    exists (deferred 2 (Some dm) extra (Z.of_nat i) true). split; [|done].
    apply drains_nil. unfold chunk_stream_next, next_internal.
    cbn [deferred data_iter next_loop shrinking_chunks shrinking_chunk_index].
    rewrite Nat2Z.id, En. cbn [is_complete]. destruct complete; [reflexivity|].
    fold (deferred 2 (Some dm) extra (Z.of_nat i) false).
    rewrite try_process_finalizes, finalize_ends, Nat2Z.id, En by lia. reflexivity.
  - destruct (lookup_lt_is_Some_2 extra i) as [c Ec]; [lia|].
    destruct (IH (S i) (if lenZ extra <=? Z.of_nat i + 1 then true else complete)) as (s' & Hd' & Hs').
    { lia. }
    { destruct (lenZ extra <=? Z.of_nat i + 1) eqn:E; b2p; [unfold lenZ in E; lia|]. intros Ht.
      specialize (Hc Ht). lia. }
    exists s'. split; [|done]. rewrite (drop_S _ _ _ Ec), fmap_cons.
    apply drains_cons with (s1 := deferred 2 (Some dm) extra (Z.of_nat (S i))
      (if lenZ extra <=? Z.of_nat i + 1 then true else complete)); [|exact Hd'].
    unfold next_internal. cbn [deferred data_iter next_loop shrinking_chunks shrinking_chunk_index].
    rewrite Nat2Z.id, Ec. unfold set_final, deferred. cbn.
    by replace (Z.of_nat i + 1) with (Z.of_nat (S i)) by lia.
Qed.

Lemma drains_deferred :
  exists s', drains (deferred 1 None [] 0 false) (item (chunk_at 1) :: (item <$> extra)) s' /\
    datamap s' = Some dm.
Proof.
  assert (Hn : forall d fin idx, next_internal (deferred d fin [] idx false) =
    match finalize_encryption (deferred d fin [] idx false) with
    | Some (Ok (Some r), s) => Some (Some (Ok r), s)
    | Some (Err e, s) => Some (Some (Err e), s)
    | Some (Ok None, s) => if input_complete s then Some (None, s) else
        match try_process_chunks (set_input s [] (buffer s) true) with
        | None => None
        | Some (Ok (Some r), s) => Some (Some (Ok r), s)
        | Some (Err e, s) => Some (Some (Err e), s)
        | Some (Ok None, s) => Some (None, s)
        end
    | None => None
    end).
  { intros d fin idx. rewrite <- try_process_finalizes. unfold next_internal.
    cbn [deferred data_iter next_loop shrinking_chunks]. rewrite lookup_nil. cbn [is_complete].
    fold (deferred d fin [] idx false). done. }
  destruct (extra !! 0%nat) as [c|] eqn:Ex.
  - destruct (drains_extra (length extra - 1) 1 false) as (s' & Hd' & Hs'); [lia|done|].
    exists s'. split; [|done].
    eapply drains_cons; [rewrite Hn, (finalize_yields_deferred 1) by lia; reflexivity|].
    change (1 + 1) with 2. rewrite <- (drop_0 extra) at 1. rewrite (drop_S _ _ _ Ex), fmap_cons.
    eapply drains_cons; [|exact Hd']. rewrite Hn, finalize_ends by lia. change (Z.to_nat 0) with 0%nat. by rewrite Ex.
  - exists (deferred 2 (Some dm) extra 0 true). split; [|done].
    assert (Hnil : length extra = 0%nat) by (apply lookup_ge_None in Ex; lia).
    eapply drains_cons; [rewrite Hn, (finalize_yields_deferred 1) by lia; reflexivity|].
    replace (item <$> extra) with (@nil (XorName * bytes))
      by (by rewrite (nil_length_inv extra Hnil)).
    apply drains_nil. unfold chunk_stream_next. rewrite Hn.
    change (1 + 1) with 2. rewrite finalize_ends by lia. change (Z.to_nat 0) with 0%nat. by rewrite Ex.
Qed.

(** From the [j]-th chunk on. *)
Lemma drains_reading m : forall j k p iter complete,
  Z.to_nat (n - j) = m -> before k j -> j <= n -> (j = n -> k = n) -> pos k <= p -> input_wf p iter complete ->
  exists s', drains (reading k p iter complete)
      ((item <$> (chunk_at <$> span j (n - 1))) ++ item (chunk_at 0) :: item (chunk_at 1) :: (item <$> extra)) s' /\
    datamap s' = Some dm.
Proof.
  induction m as [|m IH]; intros j k p iter complete Hm Hb Hjn Hk Hp Hin.
  - assert (j = n) as -> by lia. rewrite Hk in * by done.
    assert (p = lenZ data) as ->.
    { unfold pos in Hp. rewrite Z.eqb_refl in Hp. destruct Hin. lia. }
    destruct drains_deferred as (s' & Hd' & Hs'). exists s'. split; [|done].
    unfold span. replace (n - 1 - n + 1) with 0 by lia. cbn [fmap list_fmap rangeZ seq Z.to_nat app].
    eapply drains_cons; [|exact Hd']. unfold next_internal.
    change (data_iter (reading n (lenZ data) iter complete)) with iter.
    by apply next_loop_finishes.
  - destruct (next_loop_yields iter k j p iter complete) as (p' & iter' & complete' & E & Hp' & Hin');
      [done|lia|done|done|done|].
    destruct (IH (j + 1) (j + 1) p' iter' complete') as (s' & Hd' & Hs');
      [lia|destruct Hb; unfold before; lia|lia|done|done|done|].
    exists s'. split; [|done].
    rewrite span_cons, !fmap_cons by lia. cbn [app].
    eapply drains_cons; [|exact Hd']. exact E.
Qed.

Lemma stream_start pieces : concat pieces = data ->
  stream_encrypt (lenZ data) pieces = Ok (reading 0 0 pieces false) /\ input_wf 0 pieces false.
Proof.
  intros Hc. pose proof num_ge_3. unfold stream_encrypt.
  assert ((lenZ data <? MIN_ENCRYPTABLE_BYTES) = false) as -> by lia.
  assert ((n <? 3) = false) as -> by lia. split.
  - unfold reading. rewrite pos_start by lia. rewrite (start_end_first HM) by done.
    unfold known_hashes, known_infos. replace (n - 0) with n by lia. done.
  - unfold input_wf. rewrite drop_0. split; [apply lenZ_nonneg|]. done.
Qed.

Lemma chunk_at_span a b : 0 <= a -> b < n -> chunk_at <$> span a b = run_of cs a b.
Proof.
  intros Ha Hb. apply list_eq. intros k. rewrite list_lookup_fmap.
  destruct (decide (k < Z.to_nat (b - a + 1))%nat) as [Hk|Hk].
  - rewrite span_lookup, lookup_run by done. cbn. unfold chunk_at.
    destruct (lookup_lt_is_Some_2 cs (Z.to_nat (a + Z.of_nat k))) as [c ->]; [|done].
    rewrite length_cs. lia.
  - rewrite (lookup_ge_None_2 (span a b)) by (rewrite length_span; lia).
    symmetry. apply lookup_ge_None_2. unfold run_of. rewrite length_take. lia.
Qed.

End Equivalence.

(** The order in which the stream yields the chunks of [encrypt]: from the third
    on in file order, then the first two, then those of the shrunk map. *)
Definition stream_order `{Config} (data : bytes) (cs : list EncryptedChunk) : list EncryptedChunk :=
  let n := Z.to_nat (get_num_chunks (lenZ data)) in
  take (n - 2) (drop 2 cs) ++ take 2 cs ++ drop n cs.

Lemma stream_drains
    `{Config, Blake3, Aead, Brotli, !Codec bincode VersionedDataMap}
    (data : bytes) (pieces : list bytes) (dm : DataMap) (cs : list EncryptedChunk)
    (HM : 1 <= MAX_CHUNK_SIZE) (Hpieces : concat pieces = data)
    (He : encrypt data = Some (Ok (dm, cs))) :
  exists s0 s1, stream_encrypt (lenZ data) pieces = Ok s0 /\
    stream_order data cs ≡ₚ cs /\ drains s0 (item <$> stream_order data cs) s1 /\
    datamap s1 = Some dm.
Proof.
  set (n := Z.to_nat (get_num_chunks (lenZ data))). unfold encrypt in He. unfold encrypt_fuel in He.
  destruct (encrypt_chunks data 0) as [[dm0 cs0]|e] eqn:E0.
  2: { destruct (Z.to_nat _); [done|]. rewrite encrypt_with_child_level_S, E0 in He. done. }
  pose proof (encrypt_chunks_Ok HM _ _ _ _ E0) as (Hd & -> & Hf).
  pose proof (encrypt_chunks_length HM _ _ _ _ E0) as (Hl & Hlen & _).
  pose proof (num_chunks_ge_3 HM _ Hd) as Hn.
  replace (Z.to_nat (2 * get_num_chunks (lenZ data) + 4)) with (S (shrink_fuel (file_map data cs0))) in He
    by (unfold shrink_fuel; lia).
  rewrite encrypt_with_child_level_S, E0, shrink_store_independent in He.
  destruct (shrink_data_map _ unit _ _ _) as [[[[[] dm'] extra]|]|] eqn:Es; [|done..].
  injection He as -> <-.
  destruct (stream_start HM data cs0 Hd pieces Hpieces) as [Es0 Hin].
  exists (reading data cs0 0 0 pieces false).
  destruct (drains_reading HM data cs0 Hd Hf dm extra Es (Z.to_nat (get_num_chunks (lenZ data) - 2))
    2 0 0 pieces false) as (s1 & Hdr & Hs1); [lia|unfold before; lia|lia|lia| |done|].
  { rewrite (pos_start data) by lia. by rewrite (start_end_first HM). }
  assert (Hlc : length cs0 = n) by (unfold n, lenZ in *; lia).
  assert (Ho : stream_order data (cs0 ++ extra) =
    (chunk_at cs0 <$> span 2 (get_num_chunks (lenZ data) - 1)) ++ chunk_at cs0 0 :: chunk_at cs0 1 :: extra).
  { rewrite (chunk_at_span data cs0 Hf) by lia. unfold stream_order, run_of. fold n.
    replace (Z.to_nat (get_num_chunks (lenZ data) - 1 - 2 + 1)) with (n - 2)%nat by lia.
    change (Z.to_nat 2) with 2%nat.
    rewrite drop_app_le by lia. rewrite take_app_le by (rewrite length_drop; lia).
    f_equal. rewrite take_app_le by lia. rewrite drop_app_ge by lia. rewrite Hlc, Nat.sub_diag, drop_0.
    unfold chunk_at. destruct cs0 as [|a [|b l]]; cbn in Hlc; [lia|lia|]. done. }
  exists s1. split; [done|]. split; [|split; [by rewrite Ho, fmap_app, !fmap_cons|done]].
  unfold stream_order. fold n. set (l := cs0 ++ extra).
  rewrite app_assoc, (Permutation_app_comm (take (n - 2) _)), take_take_drop.
  replace (2 + (n - 2))%nat with n by lia. by rewrite take_drop.
Qed.

(** ** The stream only ends when its input has ended *)

Section Ends.
Context `{Config, Blake3, Aead, Brotli, !Codec bincode VersionedDataMap}.

Definition started_late (s : EncryptionStream) : Prop :=
  input_complete s = true \/ (final_datamap s = None /\ is_complete s = false /\ shrinking_chunks s = []).

(** The fields that only the end of the stream changes. *)
Definition same_end (s s' : EncryptionStream) : Prop :=
  input_complete s' = input_complete s /\ final_datamap s' = final_datamap s /\
  is_complete s' = is_complete s /\ shrinking_chunks s' = shrinking_chunks s.

Lemma same_end_late s s' : same_end s s' -> started_late s -> started_late s'.
Proof. intros (E1 & E2 & E3 & E4). unfold started_late. by rewrite E1, E2, E3, E4. Qed.

Lemma process_chunk_same_end s :
  match process_chunk s with
  | Continue s' | Break s' => same_end s s'
  | Return r s' => same_end s s' /\ forall m, r <> Ok (Some (FinalMap m))
  end.
Proof.
  unfold process_chunk. destruct (get_start_end_positions _ _) as [a b]. cbv zeta. unfold stream_encrypt_chunk.
  repeat (let E := fresh in match goal with
    | |- context [match (if ?c then _ else _) with _ => _ end] => destruct c eqn:E
    | |- context [match (match ?c with Ok _ => _ | Err _ => _ end) with _ => _ end] => destruct c eqn:E
    end); try done.
Qed.

Lemma process_loop_same_end fuel s :
  match process_loop fuel s with
  | inl s' => same_end s s'
  | inr (r, s') => same_end s s' /\ forall m, r <> Ok (Some (FinalMap m))
  end.
Proof.
  revert s. induction fuel as [|fuel IH]; intros s; cbn [process_loop]; [done|].
  destruct (_ <? _); [|done]. pose proof (process_chunk_same_end s) as Hp.
  destruct (process_chunk s) as [s'|s'|r s']; [|done..]. specialize (IH s').
  destruct (process_loop fuel s') as [s2|[r s2]]; revert Hp IH; unfold same_end;
    intros (-> & -> & -> & ->); tauto.
Qed.

Lemma finalize_deferred_input s hashes indices r s' :
  finalize_deferred s hashes indices = Some (r, s') -> input_complete s' = input_complete s.
Proof.
  induction indices as [|i l IH]; cbn [finalize_deferred]; [discriminate|].
  destruct (deferred_chunks s !! Z.to_nat i) as [[d|]|]; [|exact IH..].
  destruct (x ← _; _); by intros [= _ <-].
Qed.

Lemma finalize_input s r s' :
  finalize_encryption s = Some (r, s') -> input_complete s' = input_complete s.
Proof.
  unfold finalize_encryption. destruct (is_complete s); [by intros [= _ <-]|].
  destruct (try_map _ _); [|by intros [= _ <-]].
  destruct (finalize_deferred _ _ _) as [[[e|e] s1]|] eqn:Ef.
  1, 2: apply finalize_deferred_input in Ef; by intros [= _ <-].
  destruct (try_map _ _); [|by intros [= _ <-]].
  destruct (shrink_data_map _ _ _ _ _) as [[[[? ?] cs]|]|]; [|by intros [= _ <-]|discriminate].
  destruct (cs !! _); by intros [= _ <-].
Qed.

(** What holds of a state and of what it has just yielded. *)
Definition late_result (r : option (result Error ChunkOrDataMap)) (s : EncryptionStream) : Prop :=
  started_late s /\ forall m, r = Some (Ok (FinalMap m)) -> input_complete s = true.

Definition flat (r : result Error (option ChunkOrDataMap)) : option (result Error ChunkOrDataMap) :=
  match r with Ok (Some r) => Some (Ok r) | Ok None => None | Err e => Some (Err e) end.

Lemma late_complete r s : input_complete s = true -> late_result r s.
Proof. intros Hi. split; [by left|done]. Qed.

Lemma try_process_late s r s' :
  try_process_chunks s = Some (r, s') -> started_late s -> late_result (flat r) s'.
Proof.
  unfold try_process_chunks. pose proof (process_loop_same_end (Z.to_nat (total_chunks s - chunks_processed s)) s) as Hs.
  destruct (process_loop _ s) as [s1|[r1 s1]].
  - intros E Hl. apply (same_end_late _ _ Hs) in Hl. revert E.
    destruct (input_complete s1) eqn:Ei; cbn [andb].
    + destruct (_ <=? _); [|intros [= _ <-]; by apply late_complete].
      intros Hf%finalize_input. apply late_complete. by rewrite Hf.
    + intros [= <- <-]. by split.
  - destruct Hs as [Hs Hr]. intros [= <- <-] Hl. split; [by eapply same_end_late|].
    intros m Hm. destruct r1 as [[x|]|]; try done. destruct (Hr m). cbn in Hm. congruence.
Qed.

Lemma next_loop_late iter s r s' :
  next_loop iter s = Some (r, s') -> started_late s -> late_result r s'.
Proof.
  assert (forall s, started_late s -> is_complete s = true -> input_complete s = true) as Hcomp.
  { intros st [Hl|(_ & Hl & _)]; congruence. }
  assert (forall s chunk i, started_late s -> shrinking_chunks s !! i = Some chunk -> input_complete s = true) as Hshr.
  { intros st chunk i [Hl|(_ & _ & Hl)]; [done|]. by rewrite Hl, lookup_nil. }
  revert s r s'. induction iter as [|piece iter IH]; intros s r s' Hn Hl; revert Hn; cbn [next_loop].
  all: destruct (shrinking_chunks s !! _) as [chunk|] eqn:Es;
    [intros [= <- <-]; apply late_complete; exact (Hshr s chunk _ Hl Es)|].
  all: destruct (is_complete s) eqn:Ei; [intros [= <- <-]; apply late_complete; exact (Hcomp s Hl Ei)|].
  all: destruct (try_process_chunks s) as [[r1 s1]|] eqn:E1; [|discriminate].
  all: pose proof (try_process_late _ _ _ E1 Hl) as Hl1; destruct r1 as [[r1|]|]; [by intros [= <- <-]| |by intros [= <- <-]].
  all: destruct (input_complete s1) eqn:Ei1; [intros [= <- <-]; by apply late_complete|].
  all: assert (forall iter b, started_late (set_input s1 iter (buffer s1 ++ b) false)) as Hset
    by (intros; destruct Hl1 as [[Hl1|Hl1] _]; [congruence|by right]).
  - destruct (try_process_chunks (set_input _ _ _ _)) as [[r2 s2]|] eqn:E2; [|discriminate].
    apply try_process_late in E2 as Hl2; [|by left].
    destruct r2 as [[r2|]|]; by intros [= <- <-].
  - destruct (try_process_chunks (set_input _ _ _ _)) as [[r2 s2]|] eqn:E2; [|discriminate].
    apply try_process_late in E2 as Hl2; [|by apply Hset].
    destruct r2 as [[r2|]|]; [by intros [= <- <-]| |by intros [= <- <-]].
    intros Hn. by apply (IH _ _ _ Hn), Hl2.
Qed.

(** A data map is there only after the end of the input was seen. *)
Lemma chunk_stream_next_late s item s' :
  chunk_stream_next s = Some (item, s') -> started_late s ->
  started_late s' /\ (is_Some (datamap s') -> input_complete s' = true).
Proof.
  intros E Hl. assert (started_late s') as Hl'.
  { revert E. unfold chunk_stream_next. destruct (next_internal s) as [[r s1]|] eqn:En; [|discriminate].
    destruct (next_loop_late _ _ _ _ En Hl) as [Hl1 Hm].
    destruct r as [[[c|m]|e]|]; try by intros [= _ <-].
    intros [= _ <-]. left. by apply (Hm m). }
  split; [exact Hl'|]. intros [m Hm]. destruct Hl' as [Hl'|(Hd & _)]; [exact Hl'|].
  unfold datamap in Hm. congruence.
Qed.

End Ends.

(** ** Properties *)

(** C7: Streaming encryption agrees with [encrypt]: however the input is cut
    into pieces, the stream yields without error exactly the chunks that
    [encrypt] returns, each under its hash (from the third chunk on in file
    order, then the first two, then those of the shrunk map), and ends with the
    same data map. *)
Theorem stream_encrypt_matches_encrypt
    `{Config, Blake3, Aead, Brotli, !Codec bincode VersionedDataMap}
    (data : bytes) (pieces : list bytes) (dm : DataMap) (cs : list EncryptedChunk)
    (HM : 1 <= MAX_CHUNK_SIZE) (Hpieces : concat pieces = data)
    (He : encrypt data = Some (Ok (dm, cs))) :
  exists s0 s1, stream_encrypt (lenZ data) pieces = Ok s0 /\ stream_order data cs ≡ₚ cs /\
    drain_chunks (S (length cs)) s0 = Some (item <$> stream_order data cs, None, s1) /\
    datamap s1 = Some dm.
Proof.
  destruct (stream_drains data pieces dm cs HM Hpieces He) as (s0 & s1 & Hs & Hp & Hd & Hm).
  exists s0, s1. split; [exact Hs|]. split; [exact Hp|]. split; [|exact Hm].
  apply Hd. rewrite length_fmap, Hp. lia.
Qed.

Theorem stream_encrypt_matches_encrypt_witness :
  let c : Config := {| MAX_CHUNK_SIZE := 180 |} in
  let f := sample_file 900 in
  let pieces := [take 100 f; []; take 250 (drop 100 f); take 300 (drop 350 f); drop 650 f] in
  exists dm cs s0 s1, encrypt f = Some (Ok (dm, cs)) /\ stream_encrypt 900 pieces = Ok s0 /\
    drain_chunks (S (length cs)) s0 =
      Some (item <$> (take 3 (drop 2 cs) ++ take 2 cs ++ drop 5 cs), None, s1) /\
    datamap s1 = Some dm.
Proof.
  set (c := {| MAX_CHUNK_SIZE := 180 |}). cbv zeta.
  assert (Hc : match encrypt (sample_file 900) with Some (Ok _) => true | _ => false end = true)
    by (vm_compute; reflexivity).
  destruct (encrypt (sample_file 900)) as [[[dm cs]|]|] eqn:E; [|discriminate Hc..].
  exists dm, cs.
  pose (pieces := [take 100 (sample_file 900); []; take 250 (drop 100 (sample_file 900));
    take 300 (drop 350 (sample_file 900)); drop 650 (sample_file 900)]).
  assert (Hp : concat pieces = sample_file 900) by (vm_compute; reflexivity).
  assert (HM : 1 <= MAX_CHUNK_SIZE) by discriminate.
  destruct (stream_encrypt_matches_encrypt (sample_file 900) pieces dm cs HM Hp E)
    as (s0 & s1 & E1 & _ & E2 & E3).
  exists s0, s1. split; [reflexivity|]. split; [exact E1|]. split; [exact E2 | exact E3].
Defined.
