(* ===== verification/Protocol.v ===== *)
(** * The chunk protocol's messages

    [ant-protocol/src/chunk.rs] and [ant-protocol/src/lib.rs] (the types of
    [ant-node/src/ant_protocol/chunk.rs] are the same): message types, wire
    size limits, content addressing.  Postcard is a parameter. *)

From Stdlib Require Import ZArith Lia.
From stdpp Require Import base list strings countable.
From S2P Require Import Prelude Interfaces.

Local Open Scope Z_scope.

Abbreviation XorName := bytes (only parsing).

Definition PROTOCOL_VERSION : Z := 1.
Definition MAX_CHUNK_BYTES : Z := 4 * 1024 * 1024.
Definition MAX_WIRE_MESSAGE_SIZE : Z := 5 * 1024 * 1024.
Definition DATA_TYPE_CHUNK : Z := 0.
Definition PROOF_TAG_SINGLE_NODE : byte := byte_of_Z 1.
Definition PROOF_TAG_MERKLE : byte := byte_of_Z 2.
Definition CLOSE_GROUP_SIZE : nat := 5.
Definition CLOSE_GROUP_MAJORITY : nat := (CLOSE_GROUP_SIZE / 2) + 1.

Inductive ProtocolError :=
| SerializationFailed (msg : string)
| DeserializationFailed (msg : string)
| MessageTooLarge (size max_size : Z)
| ChunkTooLarge (size max_size : Z)
| AddressMismatch (expected actual : XorName)
| StorageFailed (msg : string)
| PaymentFailed (msg : string)
| QuoteFailed (msg : string)
| Internal (msg : string).

Record ChunkPutRequest := mkPutRequest {
  put_address : XorName;
  put_content : bytes;
  payment_proof : option bytes
}.

Module ChunkPutRequest.
Definition new (address : XorName) (content : bytes) : ChunkPutRequest :=
  {| put_address := address; put_content := content; payment_proof := None |}.
Definition with_payment (address : XorName) (content proof : bytes) : ChunkPutRequest :=
  {| put_address := address; put_content := content; payment_proof := Some proof |}.
End ChunkPutRequest.

Inductive ChunkPutResponse :=
| PutSuccess (address : XorName)
| PutAlreadyExists (address : XorName)
| PutPaymentRequired (message : string)
| PutError (e : ProtocolError).

Record ChunkGetRequest := mkGetRequest { get_address : XorName }.

Inductive ChunkGetResponse :=
| GetSuccess (address : XorName) (content : bytes)
| GetNotFound (address : XorName)
| GetError (e : ProtocolError).

Record ChunkQuoteRequest := mkQuoteRequest {
  quote_address : XorName;
  data_size : Z;
  data_type : Z
}.

Definition ChunkQuoteRequest_new (address : XorName) (data_size : Z) : ChunkQuoteRequest :=
  {| quote_address := address; data_size := data_size; data_type := DATA_TYPE_CHUNK |}.

Inductive ChunkQuoteResponse :=
| QuoteSuccess (quote : bytes) (already_stored : bool)
| QuoteError (e : ProtocolError).

Record MerkleCandidateQuoteRequest := mkMerkleQuoteRequest {
  mq_address : XorName;
  mq_data_type : Z;
  mq_data_size : Z;
  merkle_payment_timestamp : Z
}.

Inductive MerkleCandidateQuoteResponse :=
| MerkleQuoteSuccess (candidate_node : bytes)
| MerkleQuoteError (e : ProtocolError).

Inductive ChunkMessageBody :=
| PutRequest (r : ChunkPutRequest)
| PutResponse (r : ChunkPutResponse)
| GetRequest (r : ChunkGetRequest)
| GetResponse (r : ChunkGetResponse)
| QuoteRequest (r : ChunkQuoteRequest)
| QuoteResponse (r : ChunkQuoteResponse)
| MerkleQuoteRequest (r : MerkleCandidateQuoteRequest)
| MerkleQuoteResponse (r : MerkleCandidateQuoteResponse).

Record ChunkMessage := mkMessage {
  request_id : Z;
  body : ChunkMessageBody
}.

(** *** Decidable equality and countability *)

#[export] Instance ProtocolError_eq_dec : EqDecision ProtocolError.
Proof. solve_decision. Defined.
#[export] Instance ChunkPutRequest_eq_dec : EqDecision ChunkPutRequest.
Proof. solve_decision. Defined.
#[export] Instance ChunkPutResponse_eq_dec : EqDecision ChunkPutResponse.
Proof. solve_decision. Defined.
#[export] Instance ChunkGetRequest_eq_dec : EqDecision ChunkGetRequest.
Proof. solve_decision. Defined.
#[export] Instance ChunkGetResponse_eq_dec : EqDecision ChunkGetResponse.
Proof. solve_decision. Defined.
#[export] Instance ChunkQuoteRequest_eq_dec : EqDecision ChunkQuoteRequest.
Proof. solve_decision. Defined.
#[export] Instance ChunkQuoteResponse_eq_dec : EqDecision ChunkQuoteResponse.
Proof. solve_decision. Defined.
#[export] Instance MerkleCandidateQuoteRequest_eq_dec : EqDecision MerkleCandidateQuoteRequest.
Proof. solve_decision. Defined.
#[export] Instance MerkleCandidateQuoteResponse_eq_dec : EqDecision MerkleCandidateQuoteResponse.
Proof. solve_decision. Defined.
#[export] Instance ChunkMessageBody_eq_dec : EqDecision ChunkMessageBody.
Proof. solve_decision. Defined.
#[export] Instance ChunkMessage_eq_dec : EqDecision ChunkMessage.
Proof. solve_decision. Defined.

Section Messages.
Context `{Blake3, !Codec postcard ChunkMessage}.

(** [ChunkMessage::encode] and [ChunkMessage::decode]. *)
Definition encode_message (m : ChunkMessage) : result ProtocolError bytes :=
  ok_or (ser postcard m) (SerializationFailed "e").

Definition decode_message (data : bytes) : result ProtocolError ChunkMessage :=
  if MAX_WIRE_MESSAGE_SIZE <? lenZ data
  then Err (MessageTooLarge (lenZ data) MAX_WIRE_MESSAGE_SIZE)
  else ok_or (de postcard data) (DeserializationFailed "e").

Definition compute_address (content : bytes) : XorName := blake3_hash content.

Record DataChunk := mkDataChunk { address : XorName; content : bytes }.

Definition DataChunk_from_content (content : bytes) : DataChunk :=
  {| address := compute_address content; content := content |}.

Definition DataChunk_verify (c : DataChunk) : bool :=
  bool_decide (address c = compute_address (content c)).

Definition DataChunk_size (c : DataChunk) : Z := lenZ (content c).

(** A message that was encoded within the wire limit decodes to itself. *)
Lemma decode_encode_message `{!CodecLaws postcard ChunkMessage} m b :
  encode_message m = Ok b -> lenZ b <= MAX_WIRE_MESSAGE_SIZE -> decode_message b = Ok m.
Proof.
  unfold encode_message, decode_message. intros He Hl.
  destruct (ser postcard m) as [b'|] eqn:E; [|done]. simplify_eq/=.
  assert ((MAX_WIRE_MESSAGE_SIZE <? lenZ b) = false) as -> by lia.
  by rewrite (ser_de _ _ E).
Qed.

End Messages.

(** ** A concrete codec for the witnesses

    Any countable type has one: the number of the value, in bytes. *)

Fixpoint pos_bytes (fuel : nat) (z : Z) : bytes :=
  match fuel with
  | O => []
  | S f => if z =? 0 then [] else byte_of_Z z :: pos_bytes f (z / 256)
  end.

Lemma from_le_pos_bytes fuel z : 0 <= z < 2 ^ Z.of_nat fuel -> from_le (pos_bytes fuel z) = z.
Proof.
  revert z. induction fuel as [|f IH]; intros z Hz.
  - cbn in *. lia.
  - cbn [pos_bytes]. destruct (z =? 0) eqn:E; b2p; [by subst|]. cbn [from_le].
    rewrite Nat2Z.inj_succ, Z.pow_succ_r in Hz by lia.
    rewrite IH, byte_to_Z_of_Z.
    + pose proof (Z.div_mod z 256). lia.
    + split; [apply Z.div_pos; lia|]. apply Z.div_lt_upper_bound; lia.
Qed.

Definition countable_ser {A} `{Countable A} (a : A) : option bytes :=
  let p := encode a in Some (pos_bytes (Pos.size_nat p) (Zpos p)).

Definition countable_de {A} `{Countable A} (b : bytes) : option A :=
  decode (Z.to_pos (from_le b)).

Lemma countable_ser_de {A} `{Countable A} (a : A) b : countable_ser a = Some b -> countable_de b = Some a.
Proof.
  unfold countable_ser, countable_de. intros E%(inj Some). subst b.
  rewrite from_le_pos_bytes.
  - cbn [Z.to_pos]. apply decode_encode.
  - split; [lia|]. set (p := encode a). clearbody p.
    assert (Hp : forall p, Zpos p < 2 ^ Z.of_nat (Pos.size_nat p)).
    { clear. intros p. induction p as [p IH|p IH|]; cbn [Pos.size_nat];
        rewrite ?Nat2Z.inj_succ, ?Z.pow_succ_r by lia; try lia. }
    apply Hp.
Qed.

#[export] Instance ProtocolError_countable : Countable ProtocolError.
Proof.
  refine (inj_countable'
    (fun e => match e with
      | SerializationFailed m => (0, m, (0, 0), ([], []))
      | DeserializationFailed m => (1, m, (0, 0), ([], []))
      | MessageTooLarge s x => (2, EmptyString, (s, x), ([], []))
      | ChunkTooLarge s x => (3, EmptyString, (s, x), ([], []))
      | AddressMismatch a b => (4, EmptyString, (0, 0), (a, b))
      | StorageFailed m => (5, m, (0, 0), ([], []))
      | PaymentFailed m => (6, m, (0, 0), ([], []))
      | QuoteFailed m => (7, m, (0, 0), ([], []))
      | Internal m => (8, m, (0, 0), ([], []))
      end : Z * string * (Z * Z) * (bytes * bytes))
    (fun '(t, m, (s, x), (a, b)) =>
      match t with
      | 0 => SerializationFailed m
      | 1 => DeserializationFailed m
      | 2 => MessageTooLarge s x
      | 3 => ChunkTooLarge s x
      | 4 => AddressMismatch a b
      | 5 => StorageFailed m
      | 6 => PaymentFailed m
      | 7 => QuoteFailed m
      | _ => Internal m
      end) _).
  by intros [].
Defined.

(** Message bodies as sums of tuples. *)
Definition body_repr (b : ChunkMessageBody) : _ + _ :=
  match b with
  | PutRequest r => inl (inl (put_address r, put_content r, payment_proof r))
  | PutResponse r => inl (inr (match r with
      | PutSuccess a => (0, a, EmptyString, None)
      | PutAlreadyExists a => (1, a, EmptyString, None)
      | PutPaymentRequired m => (2, [], m, None)
      | PutError e => (3, [], EmptyString, Some e)
      end))
  | GetRequest r => inr (inl (inl (get_address r)))
  | GetResponse r => inr (inl (inr (match r with
      | GetSuccess a c => (0, a, c, None)
      | GetNotFound a => (1, a, [], None)
      | GetError e => (2, [], [], Some e)
      end)))
  | QuoteRequest r => inr (inr (inl (inl (quote_address r, data_size r, data_type r))))
  | QuoteResponse r => inr (inr (inl (inr (match r with
      | QuoteSuccess q s => inl (q, s)
      | QuoteError e => inr e
      end))))
  | MerkleQuoteRequest r => inr (inr (inr (inl
      (mq_address r, mq_data_type r, mq_data_size r, merkle_payment_timestamp r))))
  | MerkleQuoteResponse r => inr (inr (inr (inr (match r with
      | MerkleQuoteSuccess c => inl c
      | MerkleQuoteError e => inr e
      end))))
  end.

Definition default_error (e : option ProtocolError) : ProtocolError := default (Internal EmptyString) e.

#[export] Instance ChunkMessage_countable : Countable ChunkMessage.
Proof.
  refine (inj_countable' (fun m => (request_id m, body_repr (body m)))
    (fun '(i, b) => {| request_id := i; body := match b with
      | inl (inl (a, c, p)) => PutRequest (mkPutRequest a c p)
      | inl (inr (t, a, m, e)) => PutResponse
          (if decide (t = 0) then PutSuccess a else if decide (t = 1) then PutAlreadyExists a
           else if decide (t = 2) then PutPaymentRequired m else PutError (default_error e))
      | inr (inl (inl a)) => GetRequest (mkGetRequest a)
      | inr (inl (inr (t, a, c, e))) => GetResponse
          (if decide (t = 0) then GetSuccess a c else if decide (t = 1) then GetNotFound a
           else GetError (default_error e))
      | inr (inr (inl (inl (a, s, t)))) => QuoteRequest (mkQuoteRequest a s t)
      | inr (inr (inl (inr (inl (q, s))))) => QuoteResponse (QuoteSuccess q s)
      | inr (inr (inl (inr (inr e)))) => QuoteResponse (QuoteError e)
      | inr (inr (inr (inl (a, t, s, ts)))) => MerkleQuoteRequest (mkMerkleQuoteRequest a t s ts)
      | inr (inr (inr (inr (inl c)))) => MerkleQuoteResponse (MerkleQuoteSuccess c)
      | inr (inr (inr (inr (inr e)))) => MerkleQuoteResponse (MerkleQuoteError e)
      end |}) _).
  by intros [i [[]|[]|[]|[]|[]|[]|[]|[]]].
Defined.

#[export] Instance postcard_message : Codec postcard ChunkMessage := {|
  ser := countable_ser;
  de := countable_de
|}.

#[export] Instance postcard_message_laws : CodecLaws postcard ChunkMessage.
Proof. split. apply countable_ser_de. Qed.
