(* ===== verification/Tunnel.v ===== *)
(** * The post-quantum tunnel's wire format and session cipher

    [ant-protocol/src/pqc_tunnel.rs]: envelopes, nonces, the session cipher and
    the message that authenticates a handshake.  ML-KEM-768 and ML-DSA-65, which
    the transports call, are type classes; randomness is an argument. *)

From Stdlib Require Import ZArith Lia Strings.Byte.
From stdpp Require Import base list strings.
From S2P Require Import Prelude Interfaces Reference.

Local Open Scope Z_scope.

Definition PQC_VERSION : Z := 2.
Definition ML_KEM_768_EK_SIZE : Z := 1184.
Definition ML_KEM_768_CT_SIZE : Z := 1088.
Definition ML_DSA_65_PK_SIZE : Z := 1952.
Definition ML_DSA_65_SIG_SIZE : Z := 3309.
Definition KDF_CONTEXT : string := "ant-wt-pqc-v1".
(** The bytes of ["ant-wt-auth-v1"]. *)
Definition AUTH_SIGN_CONTEXT : bytes :=
  [x61; x6e; x74; x2d; x77; x74; x2d; x61; x75; x74; x68; x2d; x76; x31].

Inductive EnvelopeType := ClientHello | ServerAccept | Encrypted.

Definition envelope_byte (t : EnvelopeType) : byte :=
  match t with ClientHello => x01 | ServerAccept => x02 | Encrypted => x03 end.

Definition envelope_from_byte (b : byte) : option EnvelopeType :=
  match b with
  | x01 => Some ClientHello
  | x02 => Some ServerAccept
  | x03 => Some Encrypted
  | _ => None
  end.

Inductive Direction := ClientToServer | ServerToClient.

#[export] Instance Direction_eq_dec : EqDecision Direction.
Proof. solve_decision. Defined.

Inductive TunnelError :=
| InvalidEnvelope (msg : string)
| UnsupportedVersion (v : Z)
| EncryptionFailed
| DecryptionFailed
| AuthenticationFailed
| PeerIdMismatch (expected actual : bytes).

(** *** The session cipher *)

(** A nonce is twelve bytes: the sequence number, the direction, zeros. *)
Definition build_nonce (stream_seq : Z) (direction : Direction) : bytes :=
  be_bytes 4 stream_seq
  ++ [match direction with ClientToServer => x00 | ServerToClient => x01 end]
  ++ replicate 7 x00.

Record SessionCipher := mkCipher { key : bytes }.

Section Cipher.
Context `{Blake3, Aead}.

Definition from_shared_secret (ss : bytes) : SessionCipher :=
  {| key := blake3_derive_key KDF_CONTEXT ss 32 |}.

Definition session_encrypt (c : SessionCipher) (stream_seq : Z) (direction : Direction)
    (plaintext : bytes) : result TunnelError bytes :=
  ok_or (chacha_encrypt (key c) (build_nonce stream_seq direction) plaintext) EncryptionFailed.

Definition session_decrypt (c : SessionCipher) (stream_seq : Z) (direction : Direction)
    (ciphertext : bytes) : result TunnelError bytes :=
  ok_or (chacha_decrypt (key c) (build_nonce stream_seq direction) ciphertext) DecryptionFailed.

Definition derive_peer_id (pubkey : bytes) : bytes := blake3_hash pubkey.

End Cipher.

(** *** Envelopes *)

Definition encode_client_hello (ek_bytes : bytes) : bytes :=
  [envelope_byte ClientHello] ++ be_bytes 2 PQC_VERSION ++ ek_bytes.

Definition decode_client_hello (data : bytes) : result TunnelError (Z * bytes) :=
  let expected_len := 1 + 2 + ML_KEM_768_EK_SIZE in
  if lenZ data <? expected_len
  then Err (InvalidEnvelope "ClientHello too short: {} bytes, expected {expected_len}")
  else if negb (Byte.eqb (nth 0 data x00) (envelope_byte ClientHello))
  then Err (InvalidEnvelope "expected ClientHello type 0x01, got 0x{:02x}")
  else
    let version := from_be (slice data 1 3) in
    let ek := slice data 3 (3 + ML_KEM_768_EK_SIZE) in
    Ok (version, ek).

Definition encode_server_accept (ct_bytes pubkey signature : bytes) : bytes :=
  [envelope_byte ServerAccept] ++ be_bytes 2 PQC_VERSION ++ ct_bytes ++ pubkey ++ signature.

Record ServerAcceptData := mkAccept {
  version : Z;
  ct : bytes;
  pubkey : bytes;
  signature : bytes
}.

Definition decode_server_accept (data : bytes) : result TunnelError ServerAcceptData :=
  let expected_len := 1 + 2 + ML_KEM_768_CT_SIZE + ML_DSA_65_PK_SIZE + ML_DSA_65_SIG_SIZE in
  if lenZ data <? expected_len
  then Err (InvalidEnvelope "ServerAccept too short: {} bytes, expected {expected_len}")
  else if negb (Byte.eqb (nth 0 data x00) (envelope_byte ServerAccept))
  then Err (InvalidEnvelope "expected ServerAccept type 0x02, got 0x{:02x}")
  else
    let ct_start := 3 in
    let pk_start := ct_start + ML_KEM_768_CT_SIZE in
    let sig_start := pk_start + ML_DSA_65_PK_SIZE in
    Ok {| version := from_be (slice data 1 3);
          ct := slice data ct_start pk_start;
          pubkey := slice data pk_start sig_start;
          signature := slice data sig_start (sig_start + ML_DSA_65_SIG_SIZE) |}.

Definition encode_encrypted (stream_seq : Z) (ciphertext : bytes) : bytes :=
  [envelope_byte Encrypted] ++ be_bytes 4 stream_seq ++ ciphertext.

Definition decode_encrypted (data : bytes) : result TunnelError (Z * bytes) :=
  if lenZ data <? 5
  then Err (InvalidEnvelope "Encrypted envelope too short: {} bytes")
  else if negb (Byte.eqb (nth 0 data x00) (envelope_byte Encrypted))
  then Err (InvalidEnvelope "expected Encrypted type 0x03, got 0x{:02x}")
  else Ok (from_be (slice data 1 5), slice data 5 (lenZ data)).

(** The signed message of a handshake. *)
Definition build_auth_message (client_ek ct : bytes) : bytes :=
  AUTH_SIGN_CONTEXT ++ client_ek ++ ct.

(** ** Lemmas *)

Definition u32_ok (z : Z) : Prop := 0 <= z < 2 ^ 32.

Lemma slice_app_mid {A} (a b c : list A) s e :
  s = lenZ a -> e = lenZ a + lenZ b -> slice (a ++ b ++ c) s e = b.
Proof.
  intros -> ->. unfold slice, lenZ.
  replace (Z.to_nat (Z.of_nat (length a) + Z.of_nat (length b) - Z.of_nat (length a)))
    with (length b) by lia.
  rewrite Nat2Z.id, drop_app_length. by rewrite take_app_length.
Qed.

Lemma slice_app_end {A} (a b : list A) s e :
  s = lenZ a -> e = lenZ a + lenZ b -> slice (a ++ b) s e = b.
Proof. intros Hs He. rewrite <- (app_nil_r b) at 1. by apply slice_app_mid. Qed.

Lemma lenZ_be_bytes n z : lenZ (be_bytes n z) = Z.of_nat n.
Proof. unfold lenZ. by rewrite length_be_bytes. Qed.

Lemma build_nonce_length s d : length (build_nonce s d) = 12%nat.
Proof. unfold build_nonce. by rewrite length_app, length_be_bytes. Qed.

Lemma decode_encode_encrypted s c : u32_ok s -> decode_encrypted (encode_encrypted s c) = Ok (s, c).
Proof.
  intros Hs. unfold decode_encrypted, encode_encrypted.
  assert (Hl : lenZ ([envelope_byte Encrypted] ++ be_bytes 4 s ++ c) = 5 + lenZ c).
  { rewrite !lenZ_app, lenZ_be_bytes. change (lenZ [envelope_byte Encrypted]) with 1. lia. }
  rewrite Hl. pose proof (lenZ_nonneg c). assert ((5 + lenZ c <? 5) = false) as -> by lia.
  cbn [nth app negb]. change (Byte.eqb (envelope_byte Encrypted) (envelope_byte Encrypted)) with true.
  cbn [negb].
  change (envelope_byte Encrypted :: be_bytes 4 s ++ c) with ([envelope_byte Encrypted] ++ be_bytes 4 s ++ c).
  rewrite slice_app_mid by (rewrite ?lenZ_be_bytes; done). rewrite from_be_bytes by done.
  rewrite app_assoc, slice_app_end; [done|..]; rewrite lenZ_app, lenZ_be_bytes; done.
Qed.

Lemma session_round_trip `{Blake3, Aead, !AeadLaws} c s d m e :
  session_encrypt c s d m = Ok e -> session_decrypt c s d e = Ok m.
Proof.
  unfold session_encrypt, session_decrypt. intros E.
  destruct (chacha_encrypt _ _ m) as [e'|] eqn:Ec; [|done]. simplify_eq/=.
  by rewrite (chacha_round_trip _ _ _ _ Ec).
Qed.

Lemma lenZ_client_hello ek : lenZ ek = ML_KEM_768_EK_SIZE -> lenZ (encode_client_hello ek) = 1187.
Proof. intros Hek. unfold encode_client_hello. rewrite !lenZ_app, lenZ_be_bytes, Hek. reflexivity. Qed.

Lemma lenZ_server_accept c pk sg :
  lenZ c = ML_KEM_768_CT_SIZE -> lenZ pk = ML_DSA_65_PK_SIZE -> lenZ sg = ML_DSA_65_SIG_SIZE ->
  lenZ (encode_server_accept c pk sg) = 6352.
Proof.
  intros Hc Hpk Hsg. unfold encode_server_accept. rewrite !lenZ_app, lenZ_be_bytes, Hc, Hpk, Hsg.
  reflexivity.
Qed.

Lemma decode_encode_client_hello_extra ek extra :
  lenZ ek = ML_KEM_768_EK_SIZE ->
  decode_client_hello (encode_client_hello ek ++ extra) = Ok (PQC_VERSION, ek).
Proof.
  intros Hek. pose proof (lenZ_client_hello ek Hek) as Hh. pose proof (lenZ_nonneg extra).
  assert (Hver : from_be (be_bytes 2 PQC_VERSION) = PQC_VERSION) by (by apply from_be_bytes).
  unfold ML_KEM_768_EK_SIZE in Hek.
  unfold decode_client_hello. rewrite lenZ_app, Hh.
  unfold ML_KEM_768_EK_SIZE. assert ((1187 + lenZ extra <? 1 + 2 + 1184) = false) as -> by lia.
  unfold encode_client_hello. rewrite <- !app_assoc. cbn [nth app]. cbn [negb Byte.eqb].
  change (negb (Byte.eqb (envelope_byte ClientHello) (envelope_byte ClientHello))) with false. cbv iota.
  change (envelope_byte ClientHello :: ?l) with ([envelope_byte ClientHello] ++ l).
  rewrite slice_app_mid by (rewrite ?lenZ_be_bytes; done). rewrite Hver.
  rewrite (app_assoc _ (be_bytes 2 _)), slice_app_mid;
    [done|rewrite lenZ_app, lenZ_be_bytes; done|rewrite lenZ_app, lenZ_be_bytes, Hek; done].
Qed.

Lemma decode_encode_client_hello ek :
  lenZ ek = ML_KEM_768_EK_SIZE -> decode_client_hello (encode_client_hello ek) = Ok (PQC_VERSION, ek).
Proof. intros Hek. rewrite <- (app_nil_r (encode_client_hello ek)). by apply decode_encode_client_hello_extra. Qed.

Lemma decode_encode_server_accept_extra c pk sg extra :
  lenZ c = ML_KEM_768_CT_SIZE -> lenZ pk = ML_DSA_65_PK_SIZE -> lenZ sg = ML_DSA_65_SIG_SIZE ->
  decode_server_accept (encode_server_accept c pk sg ++ extra)
    = Ok {| version := PQC_VERSION; ct := c; pubkey := pk; signature := sg |}.
Proof.
  intros Hc Hpk Hsg. pose proof (lenZ_server_accept c pk sg Hc Hpk Hsg) as Ha.
  pose proof (lenZ_nonneg extra).
  assert (Hver : from_be (be_bytes 2 PQC_VERSION) = PQC_VERSION) by (by apply from_be_bytes).
  unfold ML_KEM_768_CT_SIZE, ML_DSA_65_PK_SIZE, ML_DSA_65_SIG_SIZE in Hc, Hpk, Hsg.
  unfold decode_server_accept. rewrite lenZ_app, Ha.
  unfold ML_KEM_768_CT_SIZE, ML_DSA_65_PK_SIZE, ML_DSA_65_SIG_SIZE.
  assert ((6352 + lenZ extra <? 1 + 2 + 1088 + 1952 + 3309) = false) as -> by lia.
  unfold encode_server_accept. rewrite <- !app_assoc. cbn [nth app].
  change (negb (Byte.eqb (envelope_byte ServerAccept) (envelope_byte ServerAccept))) with false. cbv iota.
  change (envelope_byte ServerAccept :: ?l) with ([envelope_byte ServerAccept] ++ l).
  assert (H1 : lenZ ([envelope_byte ServerAccept] ++ be_bytes 2 PQC_VERSION) = 3)
    by (rewrite lenZ_app, lenZ_be_bytes; done).
  rewrite (slice_app_mid _ (be_bytes 2 _)) by (rewrite ?lenZ_be_bytes; done). rewrite Hver.
  rewrite (app_assoc _ (be_bytes 2 _)), (slice_app_mid _ c); [|by rewrite H1|rewrite H1, Hc; done].
  rewrite (app_assoc _ c), (slice_app_mid _ pk);
    [|rewrite lenZ_app, H1, Hc; done|rewrite lenZ_app, H1, Hc, Hpk; done].
  rewrite (app_assoc _ pk), (slice_app_mid _ sg);
    [done|rewrite lenZ_app, lenZ_app, H1, Hc, Hpk; done|rewrite lenZ_app, lenZ_app, H1, Hc, Hpk, Hsg; done].
Qed.

Lemma decode_encode_server_accept c pk sg :
  lenZ c = ML_KEM_768_CT_SIZE -> lenZ pk = ML_DSA_65_PK_SIZE -> lenZ sg = ML_DSA_65_SIG_SIZE ->
  decode_server_accept (encode_server_accept c pk sg)
    = Ok {| version := PQC_VERSION; ct := c; pubkey := pk; signature := sg |}.
Proof.
  intros Hc Hpk Hsg. rewrite <- (app_nil_r (encode_server_accept c pk sg)).
  by apply decode_encode_server_accept_extra.
Qed.

(** ** Properties *)

(** No two messages of a session share a nonce: nonces are twelve bytes and
    determine the 32-bit sequence number and the direction. *)
Theorem nonces_are_unique (s s' : Z) (d d' : Direction)
    (Hs : u32_ok s) (Hs' : u32_ok s') (Heq : build_nonce s d = build_nonce s' d') :
  s = s' /\ d = d' /\ length (build_nonce s d) = 12%nat.
Proof.
  unfold build_nonce in Heq.
  apply app_inj_1 in Heq as [Hn Hd]; [|by rewrite !length_be_bytes].
  apply be_bytes_inj in Hn; [|done..]. split; [done|]. split; [|apply build_nonce_length].
  by destruct d, d'.
Qed.

Theorem nonces_are_unique_witness : build_nonce 7 ClientToServer <> build_nonce 7 ServerToClient.
Proof.
  intros Heq. destruct (nonces_are_unique 7 7 ClientToServer ServerToClient) as (_ & Hd & _);
    [split; [discriminate | reflexivity] | split; [discriminate | reflexivity] | exact Heq |].
  discriminate Hd.
Defined.

(** The three envelopes round-trip, each decoder recovering every field
    (trailing bytes after a handshake message are ignored), and a decoder refuses
    an envelope of another type and one that is cut short. *)
Theorem envelopes_round_trip (ek c pk sg cipher extra : bytes) (seq : Z)
    (Hek : lenZ ek = ML_KEM_768_EK_SIZE) (Hc : lenZ c = ML_KEM_768_CT_SIZE)
    (Hpk : lenZ pk = ML_DSA_65_PK_SIZE) (Hsg : lenZ sg = ML_DSA_65_SIG_SIZE) (Hseq : u32_ok seq) :
  decode_client_hello (encode_client_hello ek ++ extra) = Ok (PQC_VERSION, ek) /\
  decode_server_accept (encode_server_accept c pk sg ++ extra)
    = Ok {| version := PQC_VERSION; ct := c; pubkey := pk; signature := sg |} /\
  decode_encrypted (encode_encrypted seq cipher) = Ok (seq, cipher) /\
  is_ok (decode_client_hello (encode_server_accept c pk sg)) = false /\
  is_ok (decode_server_accept (encode_client_hello ek)) = false /\
  is_ok (decode_encrypted (encode_client_hello ek)) = false /\
  (forall k, k < 1187 -> is_ok (decode_client_hello (take (Z.to_nat k) (encode_client_hello ek))) = false) /\
  (forall k, k < 6352 -> is_ok (decode_server_accept (take (Z.to_nat k) (encode_server_accept c pk sg))) = false).
Proof.
  pose proof (lenZ_client_hello ek Hek) as Hh. pose proof (lenZ_server_accept c pk sg Hc Hpk Hsg) as Ha.
  split; [|split; [|split; [by apply decode_encode_encrypted|]]].
  - by apply decode_encode_client_hello_extra.
  - by apply decode_encode_server_accept_extra.
  - split; [|split; [|split; [|split]]].
    + unfold decode_client_hello. by destruct (_ <? _).
    + unfold decode_server_accept. by destruct (_ <? _).
    + unfold decode_encrypted. by destruct (_ <? _).
    + intros k Hk. unfold decode_client_hello, ML_KEM_768_EK_SIZE.
      assert (Hl : lenZ (take (Z.to_nat k) (encode_client_hello ek)) < 1187).
      { unfold lenZ. rewrite length_take. lia. }
      by assert ((lenZ (take (Z.to_nat k) (encode_client_hello ek)) <? 1 + 2 + 1184) = true) as -> by lia.
    + intros k Hk. unfold decode_server_accept, ML_KEM_768_CT_SIZE, ML_DSA_65_PK_SIZE, ML_DSA_65_SIG_SIZE.
      assert (Hl : lenZ (take (Z.to_nat k) (encode_server_accept c pk sg)) < 6352).
      { unfold lenZ. rewrite length_take. lia. }
      by assert ((lenZ (take (Z.to_nat k) (encode_server_accept c pk sg)) <? 1 + 2 + 1088 + 1952 + 3309) = true)
        as -> by lia.
Qed.

Theorem envelopes_round_trip_witness :
  let ek := replicate 1184 x07 in let c := replicate 1088 x08 in
  let pk := replicate 1952 x09 in let sg := replicate 3309 x0a in
  decode_client_hello (encode_client_hello ek ++ [x00]) = Ok (2, ek) /\
  is_ok (decode_server_accept (take (Z.to_nat 6351) (encode_server_accept c pk sg))) = false.
Proof.
  cbv zeta.
  destruct (envelopes_round_trip (replicate 1184 x07) (replicate 1088 x08) (replicate 1952 x09)
    (replicate 3309 x0a) [x01] [x00] 5) as (H1 & _ & _ & _ & _ & _ & _ & H2);
    [vm_compute; reflexivity .. | split; [discriminate | reflexivity] |].
  split; [exact H1 | apply H2; reflexivity].
Defined.
