(* ===== verification/Session.v ===== *)
(** * The authenticated tunnel session, both ends

    The browser end is [ant-wasm/src/transport.rs] ([perform_handshake],
    [send_request]); the node end is [ant-node/src/webtransport/server.rs]
    ([perform_server_handshake], [handle_encrypted_stream] and the loop of
    [handle_session]).  A bidirectional stream is a function from what the client
    wrote to the pieces it then reads; the QUIC library is behind it. *)

From Stdlib Require Import ZArith Lia Strings.Byte.
From stdpp Require Import base list strings.
From S2P Require Import Prelude Interfaces Reference Protocol Tunnel.

Local Open Scope Z_scope.

(** Errors of both ends are strings; messages are their format strings. *)
Definition tunnel_error (e : TunnelError) : string :=
  match e with
  | InvalidEnvelope msg => "invalid PQC envelope: {msg}"
  | UnsupportedVersion v => "unsupported PQC version: {v}"
  | EncryptionFailed => "PQC tunnel encryption failed"
  | DecryptionFailed => "PQC tunnel decryption failed"
  | AuthenticationFailed => "ML-DSA-65 signature verification failed"
  | PeerIdMismatch _ _ => "PeerId mismatch: expected {}, got {}"
  end.

Definition MAX_STREAM_SEQ : Z := u32_max - 1.
Definition MAX_HANDSHAKE_RESPONSE : Z := 16 * 1024.

(** Four bytes of length before the payload. *)
Definition frame (payload : bytes) : bytes := be_bytes 4 (lenZ payload mod 2 ^ 32) ++ payload.

(** The client's read loop: the pieces of the response, up to a limit. *)
Fixpoint read_bounded (limit : Z) (msg : string) (buf : bytes) (pieces : list bytes)
    : result string bytes :=
  match pieces with
  | [] => Ok buf
  | piece :: pieces' =>
      let buf := buf ++ piece in
      if limit <? lenZ buf then Err msg else read_bounded limit msg buf pieces'
  end.

(** The server's [read_exact] of the length and of the message; [rest] is what
    the client sent before closing its side. *)
Definition read_frame (limit : Z) (received : bytes) : result string bytes :=
  if lenZ received <? 4 then Err "read_exact"
  else
    let len := from_be (slice received 0 4) in
    if limit <? len then Err "message too large"
    else if lenZ received - 4 <? len then Err "read_exact"
    else Ok (slice received 4 (4 + len)).

Section Session.
Context `{Blake3, Aead, Kem, Dsa}.

(** *** The client's handshake *)

Record client_hello := mkHello { ek_bytes : bytes; dk : bytes }.

(** [perform_handshake] up to the frame it writes. *)
Definition start_handshake (seed : bytes) : result string (client_hello * bytes) :=
  '(ek, dk) ← ok_or (kem_keygen seed) "ML-KEM-768 keygen failed"%string;
  Ok ({| ek_bytes := ek; dk := dk |}, frame (encode_client_hello ek)).

(** [perform_handshake] from the server's answer on. *)
Definition finish_handshake (hello : client_hello) (expected_peer_id : option bytes)
    (pieces : list bytes) : result string SessionCipher :=
  response_buf ← read_bounded MAX_HANDSHAKE_RESPONSE "handshake response exceeds size limit" [] pieces;
  if lenZ response_buf <? 4 then Err "handshake response too short: {} bytes"%string
  else
  let accept_payload := slice response_buf 4 (lenZ response_buf) in
  accept ← map_err (fun _ => "invalid ServerAccept: {e}"%string) (decode_server_accept accept_payload);
  if negb (version accept =? PQC_VERSION) then Err "unsupported PQC version: {}"%string
  else
  let auth_message := build_auth_message (ek_bytes hello) (ct accept) in
  if negb (dsa_pk_valid (pubkey accept)) then Err "invalid ML-DSA-65 public key"%string
  else
  if negb (dsa_verify (pubkey accept) auth_message (signature accept))
  then Err "ML-DSA-65 signature verification failed - server not authenticated"%string
  else
  let derived_peer_id := derive_peer_id (pubkey accept) in
  if match expected_peer_id with
     | Some expected => bool_decide (derived_peer_id <> expected)
     | None => false
     end
  then Err "PeerId mismatch: expected {}, got {}"%string
  else
  if negb (kem_ct_valid (ct accept)) then Err "invalid ML-KEM-768 ciphertext"%string
  else
  ss ← ok_or (kem_decaps (dk hello) (ct accept)) "ML-KEM-768 decapsulation failed"%string;
  Ok (from_shared_secret ss).

(** *** The server's handshake *)

(** The node's identity: its public and secret keys. *)
Definition perform_server_handshake (node_identity : option (bytes * bytes)) (seed received : bytes)
    : result string (bytes * SessionCipher) :=
  '(pk, sk) ← ok_or node_identity "NodeIdentity required for authenticated PQC handshake"%string;
  msg ← read_frame 4096 received;
  '(version, ek) ← map_err tunnel_error (decode_client_hello msg);
  if negb (version =? PQC_VERSION) then Err (tunnel_error (UnsupportedVersion version))
  else if negb (kem_ek_valid ek) then Err "invalid ML-KEM-768 encapsulation key"%string
  else
  '(ss, ct) ← ok_or (kem_encaps seed ek) "ML-KEM-768 encapsulation failed"%string;
  sig ← ok_or (dsa_sign sk (build_auth_message ek ct)) "ML-DSA-65 signing failed: {e}"%string;
  Ok (frame (encode_server_accept ct pk sig), from_shared_secret ss).

(** *** Requests *)

Record WtTransport := mkTransport { cipher : SessionCipher; stream_seq : Z }.

(** [send_request]: [exchange] opens a stream, writes a frame and reads. *)
Definition send_request {Net} (exchange : Net -> bytes -> result string (list bytes) * Net)
    (t : WtTransport) (net : Net) (message_bytes : bytes)
    : result string bytes * WtTransport * Net :=
  let seq := stream_seq t in
  if MAX_STREAM_SEQ <=? seq
  then (Err "session stream limit reached - reconnect required to prevent nonce reuse"%string, t, net)
  else
  let t := {| cipher := cipher t; stream_seq := seq + 1 |} in
  match session_encrypt (cipher t) seq ClientToServer message_bytes with
  | Err e => (Err "PQC encryption failed: {e}"%string, t, net)
  | Ok encrypted =>
    let '(pieces, net) := exchange net (frame (encode_encrypted seq encrypted)) in
    let r :=
      pieces ← pieces;
      response_buf ← read_bounded (MAX_WIRE_MESSAGE_SIZE + 512)
        "response exceeds size limit: {} > {max_response}" [] pieces;
      if lenZ response_buf <? 4 then Err "response too short: {} bytes"%string
      else
      let envelope_payload := slice response_buf 4 (lenZ response_buf) in
      '(resp_seq, ciphertext) ← map_err (fun _ => "invalid response envelope: {e}"%string)
        (decode_encrypted envelope_payload);
      if negb (resp_seq =? seq)
      then Err "response sequence mismatch: expected {seq}, got {resp_seq}"%string
      else map_err (fun _ => "PQC decryption failed: {e}"%string)
        (session_decrypt (cipher t) seq ServerToClient ciphertext) in
    (r, t, net)
  end.

(** *** The server's streams *)

(** The chunk protocol behind the tunnel: [None] when there is nothing to send
    back. *)
Section Server.
Context {Node : Type} (process : Node -> bytes -> option bytes * Node).

(** [handle_encrypted_stream]: the bytes sent back, if any. *)
Definition handle_encrypted_stream (c : SessionCipher) (stream_seq : Z) (node : Node) (received : bytes)
    : option bytes * Node :=
  match read_frame (MAX_WIRE_MESSAGE_SIZE + 256) received with
  | Err _ => (None, node)
  | Ok msg =>
    match decode_encrypted msg with
    | Err _ => (None, node)
    | Ok (envelope_seq, ciphertext) =>
      if negb (envelope_seq =? stream_seq) then (None, node)
      else
        match session_decrypt c stream_seq ClientToServer ciphertext with
        | Err _ => (None, node)
        | Ok plaintext =>
          match process node plaintext with
          | (None, node) => (None, node)
          | (Some response, node) =>
            match session_encrypt c stream_seq ServerToClient response with
            | Err _ => (None, node)
            | Ok encrypted => (Some (frame (encode_encrypted stream_seq encrypted)), node)
            end
          end
        end
    end
  end.

(** The loop of [handle_session]: the state of a session, and what one accepted
    stream does.  A stream whose handler has finished gives its permits back. *)
Record server_session := mkServer {
  server_cipher : SessionCipher;
  server_seq : Z;
  session_open : bool;
  streams_in_session : Z;
  node : Node
}.

Definition MAX_STREAMS_PER_SESSION : Z := 8.
Definition MAX_CONCURRENT_STREAMS : Z := 64.

(** [global_streams]: handlers running in all sessions. *)
Definition accept_stream (global_streams : Z) (s : server_session) (received : bytes)
    : option bytes * server_session :=
  let seq := server_seq s in
  let next := (seq + 1) mod 2 ^ 32 in
  let set open node := {| server_cipher := server_cipher s; server_seq := next; session_open := open;
                          streams_in_session := streams_in_session s; node := node |} in
  if negb (session_open s) then (None, s)
  else if MAX_STREAM_SEQ <=? seq then (None, set false (node s))
  else if MAX_CONCURRENT_STREAMS <=? global_streams then (None, set true (node s))
  else if MAX_STREAMS_PER_SESSION <=? streams_in_session s then (None, set true (node s))
  else
    let '(response, node') := handle_encrypted_stream (server_cipher s) seq (node s) received in
    (response, set true node').

(** *** One request across both ends *)

(** What the network does with it: opening the stream fails on the client's
    side, or the stream reaches the server while this many handlers are
    running, and the response comes back in these pieces. *)
Inductive network :=
| OpenFails
| Delivers (global_streams : Z) (cut : bytes -> list bytes).

Definition exchange (net : network) (s : server_session) (request : bytes)
    : result string (list bytes) * server_session :=
  match net with
  | OpenFails => (Err "failed to create bidi stream: {e:?}"%string, s)
  | Delivers global cut =>
      match accept_stream global s request with
      | (Some response, s') => (Ok (cut response), s')
      | (None, s') => (Err "read failed: {e:?}"%string, s')
      end
  end.

Definition round (net : network) (t : WtTransport) (s : server_session) (msg : bytes)
    : result string bytes * WtTransport * server_session :=
  send_request (exchange net) t s msg.

(** A run of requests: the results in order, and the final states. *)
Fixpoint rounds (t : WtTransport) (s : server_session) (reqs : list (network * bytes))
    : list (result string bytes) * WtTransport * server_session :=
  match reqs with
  | [] => ([], t, s)
  | (net, msg) :: reqs' =>
      let '(r, t', s') := round net t s msg in
      let '(rs, t'', s'') := rounds t' s' reqs' in
      (r :: rs, t'', s'')
  end.

End Server.
End Session.
Arguments server_session : clear implicits.

(** ** Lemmas *)

Lemma lenZ_frame p : lenZ (frame p) = 4 + lenZ p.
Proof. unfold frame. by rewrite lenZ_app, lenZ_be_bytes. Qed.

Lemma strip_frame p : slice (frame p) 4 (lenZ (frame p)) = p.
Proof. unfold frame at 1. apply slice_app_end; [by rewrite lenZ_be_bytes|]. rewrite lenZ_frame, lenZ_be_bytes. done. Qed.

Lemma read_frame_frame limit p :
  lenZ p <= limit -> lenZ p < 2 ^ 32 -> read_frame limit (frame p) = Ok p.
Proof.
  intros Hl H32. unfold read_frame. rewrite lenZ_frame. pose proof (lenZ_nonneg p).
  assert ((4 + lenZ p <? 4) = false) as -> by lia.
  assert (Hlen : slice (frame p) 0 4 = be_bytes 4 (lenZ p mod 2 ^ 32)).
  { unfold frame. rewrite <- (app_nil_l (be_bytes _ _ ++ p)). apply slice_app_mid; [done|].
    by rewrite lenZ_be_bytes. }
  rewrite Hlen, Z.mod_small, from_be_bytes by (done || lia).
  assert ((limit <? lenZ p) = false) as -> by lia.
  assert ((4 + lenZ p - 4 <? lenZ p) = false) as -> by lia.
  f_equal. rewrite <- (lenZ_frame p). apply strip_frame.
Qed.

Lemma read_bounded_ok limit msg pieces : forall buf,
  lenZ buf + lenZ (concat pieces) <= limit ->
  read_bounded limit msg buf pieces = Ok (buf ++ concat pieces).
Proof.
  induction pieces as [|p pieces IH]; intros buf Hl; cbn [read_bounded concat] in *.
  - by rewrite app_nil_r.
  - rewrite lenZ_app in Hl. pose proof (lenZ_nonneg (concat pieces)).
    assert ((limit <? lenZ (buf ++ p)) = false) as -> by (apply Z.ltb_ge; rewrite lenZ_app; lia).
    rewrite IH by (rewrite lenZ_app; lia). by rewrite <- app_assoc.
Qed.

Lemma read_bounded_limit limit msg pieces : forall buf b,
  lenZ buf <= limit -> read_bounded limit msg buf pieces = Ok b -> lenZ b <= limit.
Proof.
  induction pieces as [|p pieces IH]; intros buf b Hl; cbn [read_bounded].
  - by intros [= <-].
  - destruct (limit <? lenZ (buf ++ p)) eqn:E; b2p; [done|]. by apply IH.
Qed.

Section SessionFacts.
Context `{Blake3, Aead, Kem, Dsa, !AeadLaws}.
Context {Node : Type} (process : Node -> bytes -> option bytes * Node).

(** Encryption does not fail on the sizes of this protocol. *)
Definition encryption_total : Prop := forall k nonce m, is_Some (chacha_encrypt k nonce m).

Definition in_sync (t : WtTransport) (s : server_session Node) : Prop :=
  cipher t = server_cipher s /\ stream_seq t = server_seq s /\ session_open s = true /\ 0 <= stream_seq t.

Definition set_seq (t : WtTransport) (seq : Z) : WtTransport :=
  {| cipher := cipher t; stream_seq := seq |}.

(** What a client message may be, and a response. *)
Definition request_fits (m : bytes) : Prop := lenZ m <= MAX_WIRE_MESSAGE_SIZE + 235.
Definition response_fits (m : bytes) : Prop := lenZ m <= MAX_WIRE_MESSAGE_SIZE + 487.

(** Whether the server runs a handler for the next stream. *)
Definition permitted (global : Z) (s : server_session Node) : bool :=
  (global <? MAX_CONCURRENT_STREAMS) && (streams_in_session s <? MAX_STREAMS_PER_SESSION).

Lemma lenZ_encrypted seq c : lenZ (encode_encrypted seq c) = 5 + lenZ c.
Proof.
  unfold encode_encrypted. rewrite !lenZ_app, lenZ_be_bytes.
  change (lenZ [envelope_byte Encrypted]) with 1. lia.
Qed.

Lemma handle_stream_spec c seq node m encrypted :
  u32_ok seq -> request_fits m -> session_encrypt c seq ClientToServer m = Ok encrypted ->
  handle_encrypted_stream process c seq node (frame (encode_encrypted seq encrypted)) =
  match process node m with
  | (Some response, node') =>
      match session_encrypt c seq ServerToClient response with
      | Ok e => (Some (frame (encode_encrypted seq e)), node')
      | Err _ => (None, node')
      end
  | (None, node') => (None, node')
  end.
Proof.
  intros Hseq Hm He. unfold handle_encrypted_stream, request_fits, MAX_WIRE_MESSAGE_SIZE in *.
  assert (Hl : lenZ encrypted = lenZ m + 16).
  { unfold session_encrypt in He. destruct (chacha_encrypt _ _ m) eqn:E; [|done]. simplify_eq/=.
    by apply chacha_length in E. }
  rewrite read_frame_frame by (rewrite lenZ_encrypted; lia).
  rewrite decode_encode_encrypted by done. rewrite Z.eqb_refl. cbn [negb].
  rewrite (session_round_trip _ _ _ _ _ He).
  destruct (process node m) as [[response|] node']; [|done].
  by destruct (session_encrypt c seq ServerToClient response).
Qed.

(** The client reads an encrypted response, however it is cut. *)
Lemma read_response c seq resp e pieces :
  u32_ok seq -> response_fits resp -> session_encrypt c seq ServerToClient resp = Ok e ->
  concat pieces = frame (encode_encrypted seq e) ->
  read_bounded (MAX_WIRE_MESSAGE_SIZE + 512) "response exceeds size limit: {} > {max_response}" [] pieces
    = Ok (frame (encode_encrypted seq e)) /\
  session_decrypt c seq ServerToClient e = Ok resp.
Proof.
  intros Hseq Hr He Hp. unfold response_fits, MAX_WIRE_MESSAGE_SIZE in *.
  assert (Hl : lenZ e = lenZ resp + 16).
  { unfold session_encrypt in He. destruct (chacha_encrypt _ _ resp) eqn:E; [|done]. simplify_eq/=.
    by apply chacha_length in E. }
  split; [|by eapply session_round_trip].
  rewrite read_bounded_ok; [by rewrite Hp|]. rewrite Hp, lenZ_frame, lenZ_encrypted. change (lenZ (@nil Byte.byte)) with 0. lia.
Qed.

(** One delivered request on synchronised ends. *)
Lemma round_delivers (t : WtTransport) (s : server_session Node) global cut m :
  encryption_total -> in_sync t s -> stream_seq t < MAX_STREAM_SEQ -> request_fits m ->
  (forall b, concat (cut b) = b) ->
  (forall resp node', process (node s) m = (Some resp, node') -> response_fits resp) ->
  exists r s', round process (Delivers global cut) t s m = (r, set_seq t (stream_seq t + 1), s') /\
    in_sync (set_seq t (stream_seq t + 1)) s' /\ streams_in_session s' = streams_in_session s /\
    match (if permitted global s then process (node s) m else (None, node s)) with
    | (Some resp, node') => r = Ok resp /\ node s' = node'
    | (None, node') => is_ok r = false /\ node s' = node'
    end.
Proof.
  intros Htot (Hc & Hq & Ho & Hpos) Hmax Hm Hcut Hresp. unfold round, send_request.
  unfold MAX_STREAM_SEQ, u32_max in *.
  assert ((2 ^ 32 - 1 - 1 <=? stream_seq t) = false) as -> by lia.
  assert (Hu : u32_ok (stream_seq t)) by (unfold u32_ok; lia).
  destruct (Htot (key (cipher t)) (build_nonce (stream_seq t) ClientToServer) m) as [e He].
  assert (Hen : session_encrypt (cipher t) (stream_seq t) ClientToServer m = Ok e)
    by (unfold session_encrypt; by rewrite He).
  cbn [cipher]. rewrite Hen. cbn [exchange]. unfold accept_stream. rewrite Ho, <- Hq, <- Hc.
  unfold MAX_STREAM_SEQ, u32_max.
  assert ((2 ^ 32 - 1 - 1 <=? stream_seq t) = false) as -> by lia. cbn [negb].
  rewrite (Z.mod_small (stream_seq t + 1)) by lia. unfold permitted.
  assert (Hsync : forall node', in_sync (set_seq t (stream_seq t + 1))
    {| server_cipher := cipher t; server_seq := stream_seq t + 1; session_open := true;
       streams_in_session := streams_in_session s; node := node' |}).
  { intros node'. repeat split; cbn; lia. }
  destruct (MAX_CONCURRENT_STREAMS <=? global) eqn:Eg.
  { assert ((global <? MAX_CONCURRENT_STREAMS) = false) as -> by lia. cbn. eauto 10. }
  assert ((global <? MAX_CONCURRENT_STREAMS) = true) as -> by lia.
  destruct (MAX_STREAMS_PER_SESSION <=? streams_in_session s) eqn:Es.
  { assert ((streams_in_session s <? MAX_STREAMS_PER_SESSION) = false) as -> by lia. cbn. eauto 10. }
  assert ((streams_in_session s <? MAX_STREAMS_PER_SESSION) = true) as -> by lia. cbn [andb].
  rewrite (handle_stream_spec _ _ _ m e) by done.
  destruct (process (node s) m) as [[resp|] node'] eqn:Ep; [|cbn; eauto 10].
  specialize (Hresp _ _ eq_refl).
  destruct (Htot (key (cipher t)) (build_nonce (stream_seq t) ServerToClient) resp) as [e' He'].
  assert (Hen' : session_encrypt (cipher t) (stream_seq t) ServerToClient resp = Ok e')
    by (unfold session_encrypt; by rewrite He').
  rewrite Hen'. cbn [mbind result_bind].
  destruct (read_response _ _ resp e' (cut (frame (encode_encrypted (stream_seq t) e'))) Hu Hresp Hen' (Hcut _))
    as [Hrd Hdec].
  rewrite Hrd. cbn [mbind result_bind]. rewrite lenZ_frame. pose proof (lenZ_nonneg (encode_encrypted (stream_seq t) e')).
  assert ((4 + lenZ (encode_encrypted (stream_seq t) e') <? 4) = false) as -> by lia.
  rewrite <- (lenZ_frame (encode_encrypted _ _)), strip_frame, decode_encode_encrypted by done.
  cbn [map_err mbind result_bind]. rewrite Z.eqb_refl. cbn [negb]. rewrite Hdec. cbn. eauto 10.
Qed.

(** When the client is ahead, the server refuses what it is sent. *)
Lemma round_ahead (t : WtTransport) (s : server_session Node) net m :
  encryption_total -> cipher t = server_cipher s -> 0 <= server_seq s < stream_seq t ->
  stream_seq t <= MAX_STREAM_SEQ -> request_fits m ->
  exists r t' s', round process net t s m = (r, t', s') /\ is_ok r = false /\ node s' = node s /\
    cipher t' = server_cipher s' /\ 0 <= server_seq s' < stream_seq t' /\ stream_seq t' <= MAX_STREAM_SEQ.
Proof.
  intros Htot Hc Hq Hmax Hm. unfold round, send_request.
  destruct (MAX_STREAM_SEQ <=? stream_seq t) eqn:Em; [by do 3 eexists; split; [done|]|]. b2p.
  destruct (Htot (key (cipher t)) (build_nonce (stream_seq t) ClientToServer) m) as [e He].
  assert (Hen : session_encrypt (cipher t) (stream_seq t) ClientToServer m = Ok e)
    by (unfold session_encrypt; by rewrite He).
  cbn [cipher]. rewrite Hen. unfold MAX_STREAM_SEQ, u32_max in *.
  destruct net as [|global cut]; cbn [exchange].
  { do 3 eexists. split; [reflexivity|]. cbn. repeat split; (done || lia). }
  set (fr := frame (encode_encrypted (stream_seq t) e)).
  assert (Hh : handle_encrypted_stream process (server_cipher s) (server_seq s) (node s) fr = (None, node s)).
  { unfold handle_encrypted_stream, fr, request_fits, MAX_WIRE_MESSAGE_SIZE in *.
    apply chacha_length in He.
    rewrite read_frame_frame by (rewrite lenZ_encrypted; lia).
    rewrite decode_encode_encrypted by (unfold u32_ok; lia).
    by assert ((stream_seq t =? server_seq s) = false) as -> by lia. }
  assert (Ha : exists s', accept_stream process global s fr = (None, s') /\ node s' = node s /\
     server_cipher s' = server_cipher s /\ 0 <= server_seq s' <= server_seq s + 1).
  { unfold accept_stream. rewrite Hh.
    destruct (negb (session_open s)); [exists s; repeat split; lia|].
    destruct (MAX_STREAM_SEQ <=? server_seq s);
      [|destruct (MAX_CONCURRENT_STREAMS <=? global);
      [|destruct (MAX_STREAMS_PER_SESSION <=? streams_in_session s)]];
      eexists; (split; [reflexivity|]); cbn; rewrite Z.mod_small by lia; repeat split; lia. }
  destruct Ha as (s' & -> & Hn & Hcs & Hsq).
  do 3 eexists. split; [reflexivity|]. cbn. repeat split; (done || congruence || lia).
Qed.

End SessionFacts.

(** ** What a run of requests should be: calls of the node, in order *)

Fixpoint calls {Node} (process : Node -> bytes -> option bytes * Node) (streams : Z) (node : Node)
    (reqs : list (network * bytes)) : list (option bytes) * Node :=
  match reqs with
  | [] => ([], node)
  | (net, m) :: reqs' =>
      let '(o, node') :=
        match net with
        | Delivers global _ =>
            if (global <? MAX_CONCURRENT_STREAMS) && (streams <? MAX_STREAMS_PER_SESSION)
            then process node m else (None, node)
        | OpenFails => (None, node)
        end in
      let '(os, node'') := calls process streams node' reqs' in
      (o :: os, node'')
  end.

(** A request result that is a call's outcome. *)
Definition answers (r : result string bytes) (o : option bytes) : Prop :=
  match o with Some response => r = Ok response | None => is_ok r = false end.

Section Runs.
Context `{Blake3, Aead, Kem, Dsa, !AeadLaws}.
Context {Node : Type} (process : Node -> bytes -> option bytes * Node).

Definition delivered (req : network * bytes) : Prop :=
  request_fits req.2 /\ match req.1 with
                        | Delivers _ cut => forall b, concat (cut b) = b
                        | OpenFails => False
                        end.

Lemma rounds_delivered reqs : forall t s,
  encryption_total -> in_sync t s -> stream_seq t + lenZ reqs <= MAX_STREAM_SEQ ->
  Forall delivered reqs ->
  (forall node m resp node', process node m = (Some resp, node') -> response_fits resp) ->
  let '(rs, t', s') := rounds process t s reqs in
  let '(os, node') := calls process (streams_in_session s) (node s) reqs in
  Forall2 answers rs os /\ node s' = node' /\ in_sync t' s' /\ stream_seq t' = stream_seq t + lenZ reqs.
Proof.
  induction reqs as [|[net m] reqs IH]; intros t s Htot Hs Hmax Hd Hresp.
  - cbn. repeat split; [constructor|apply Hs..|]. change (lenZ (@nil (network * bytes))) with 0. lia.
  - apply Forall_cons in Hd as [[Hm Hnet] Hd]. cbn [fst snd] in *.
    assert (Hl : lenZ ((net, m) :: reqs) = 1 + lenZ reqs) by (unfold lenZ; cbn [length]; lia).
    pose proof (lenZ_nonneg reqs).
    destruct net as [|global cut]; [done|]. rewrite Hl in Hmax |- *.
    destruct (round_delivers process t s global cut m) as (r & s1 & E & Hs1 & Hst & Ho);
      [done|done|lia|done|done|intros resp node1 Hp; exact (Hresp _ _ _ _ Hp)|].
    cbn [rounds calls]. rewrite E. unfold permitted in Ho.
    specialize (IH (set_seq t (stream_seq t + 1)) s1 Htot Hs1).
    rewrite Hst in IH. cbn [set_seq stream_seq] in IH. specialize (IH ltac:(lia) Hd Hresp).
    destruct (rounds process (set_seq t (stream_seq t + 1)) s1 reqs) as [[rs t'] s'].
    destruct (if _ && _ then _ else _) as [[resp|] node1]; destruct Ho as [Hr <-];
      destruct (calls process (streams_in_session s) (node s1) reqs) as [os node'];
      destruct IH as (H1' & H2' & H3' & H4'); (split; [by constructor|]); (split; [done|]);
      (split; [done|lia]).
Qed.

Lemma rounds_ahead reqs : forall (t : WtTransport) (s : server_session Node),
  encryption_total -> cipher t = server_cipher s -> 0 <= server_seq s < stream_seq t ->
  stream_seq t <= MAX_STREAM_SEQ -> Forall (fun q => request_fits q.2) reqs ->
  let '(rs, t', s') := rounds process t s reqs in
  Forall (fun r => is_ok r = false) rs /\ node s' = node s.
Proof.
  induction reqs as [|[net m] reqs IH]; intros t s Htot Hc Hq Hmax Hm; [by cbn|].
  apply Forall_cons in Hm as [Hm Hms]. cbn [snd] in Hm.
  destruct (round_ahead process t s net m Htot Hc Hq Hmax Hm) as (r & t1 & s1 & E & Hr & Hn & Hc1 & Hq1 & Hmax1).
  cbn [rounds]. rewrite E. specialize (IH t1 s1 Htot Hc1 Hq1 Hmax1 Hms).
  destruct (rounds process t1 s1 reqs) as [[rs t'] s']. destruct IH as [Hrs Hn'].
  split; [by constructor|]. congruence.
Qed.

End Runs.

(** ** Properties *)

(** C8: The handshake between the browser end and a node establishes the same
    session cipher on both, however the node's answer is cut into pieces, when
    the client expects no particular peer or the node's own peer id. *)
Theorem handshake_agrees `{Blake3, Aead, Kem, Dsa, !KemLaws, !DsaLaws}
    (pk sk seed seed' : bytes) (expected : option bytes)
    (hello : client_hello) (wire answer : bytes) (c : SessionCipher) (pieces : list bytes)
    (Hkeys : dsa_keypair pk sk)
    (Hexp : expected = None \/ expected = Some (derive_peer_id pk))
    (Hclient : start_handshake seed = Ok (hello, wire))
    (Hserver : perform_server_handshake (Some (pk, sk)) seed' wire = Ok (answer, c))
    (Hcut : concat pieces = answer) :
  finish_handshake hello expected pieces = Ok c.
Proof.
  unfold start_handshake in Hclient. destruct (kem_keygen seed) as [[ek dk0]|] eqn:Ek; [|done].
  cbn [ok_or mbind result_bind] in Hclient. injection Hclient as <- <-.
  destruct (kem_keygen_spec _ _ _ Ek) as [Hekl Hekv].
  assert (Hhello : lenZ (encode_client_hello ek) = 1187).
  { unfold encode_client_hello. rewrite !lenZ_app, lenZ_be_bytes, Hekl. reflexivity. }
  unfold perform_server_handshake in Hserver. cbn [ok_or mbind result_bind] in Hserver.
  rewrite read_frame_frame in Hserver by (rewrite Hhello; done). cbn [mbind result_bind] in Hserver.
  assert (Hdec : decode_client_hello (encode_client_hello ek) = Ok (PQC_VERSION, ek)).
  { apply decode_encode_client_hello. done. }
  rewrite Hdec in Hserver. cbn [map_err mbind result_bind] in Hserver.
  rewrite Z.eqb_refl, Hekv in Hserver. cbn [negb] in Hserver.
  destruct (kem_encaps seed' ek) as [[ss ct0]|] eqn:Een; [|done]. cbn [ok_or mbind result_bind] in Hserver.
  destruct (kem_encaps_spec _ _ _ _ _ _ Ek Een) as (Hctl & Hctv & Hss).
  destruct (dsa_sign sk (build_auth_message ek ct0)) as [sg|] eqn:Esg; [|done].
  cbn [ok_or mbind result_bind] in Hserver. injection Hserver as <- <-.
  destruct (dsa_sign_spec _ _ _ _ Hkeys Esg) as [Hsgl Hver].
  destruct (dsa_keypair_spec _ _ Hkeys) as [Hpkl Hpkv].
  assert (Hacc : decode_server_accept (encode_server_accept ct0 pk sg)
    = Ok {| version := PQC_VERSION; ct := ct0; pubkey := pk; signature := sg |}).
  { by apply decode_encode_server_accept. }
  assert (Hal : lenZ (encode_server_accept ct0 pk sg) = 6352).
  { unfold encode_server_accept. rewrite !lenZ_app, lenZ_be_bytes, Hctl, Hpkl, Hsgl. reflexivity. }
  unfold finish_handshake.
  rewrite read_bounded_ok by (rewrite Hcut, lenZ_frame, Hal; discriminate).
  rewrite Hcut. cbn [app mbind result_bind].
  assert ((lenZ (frame (encode_server_accept ct0 pk sg)) <? 4) = false) as ->
    by (rewrite lenZ_frame, Hal; done).
  rewrite strip_frame, Hacc. cbn [map_err mbind result_bind version ct pubkey signature ek_bytes dk].
  rewrite Z.eqb_refl, Hpkv, Hver, Hctv. cbn [negb].
  assert (Hno : match expected with
                | Some expected => bool_decide (derive_peer_id pk <> expected)
                | None => false
                end = false).
  { destruct Hexp as [-> | ->]; [done|]. apply bool_decide_eq_false. tauto. }
  rewrite Hno. by rewrite Hss.
Qed.

Theorem handshake_agrees_witness :
  let id := replicate 1952 x05 in
  exists hello wire answer c, start_handshake [x01] = Ok (hello, wire) /\
    perform_server_handshake (Some (id, id)) [x02] wire = Ok (answer, c) /\
    finish_handshake hello (Some (derive_peer_id id)) [take 5000 answer; []; drop 5000 answer] = Ok c.
Proof.
  cbv zeta. pose (id := replicate 1952 x05).
  assert (Hc : match start_handshake [x01] with
               | Ok (_, wire) => is_ok (perform_server_handshake (Some (id, id)) [x02] wire)
               | Err _ => false
               end = true) by (vm_compute; reflexivity).
  destruct (start_handshake [x01]) as [[hello wire]|] eqn:E1; [|discriminate Hc].
  destruct (perform_server_handshake (Some (id, id)) [x02] wire) as [[answer c]|] eqn:E2; [|discriminate Hc].
  exists hello, wire, answer, c. split; [reflexivity|]. split; [exact E2|].
  apply (handshake_agrees id id [x01] [x02] (Some (derive_peer_id id)) hello wire answer c);
    [split; [reflexivity | vm_compute; reflexivity] | right; reflexivity | exact E1 | exact E2 |].
  cbn [concat app]. rewrite app_nil_r. apply take_drop.
Defined.

(** C9: Whatever bytes arrive, the browser end completes a handshake only on an
    answer of the right version whose ML-DSA-65 signature verifies, under the
    public key it carries, over the client's own key and the ciphertext it
    carries; if a peer id was expected that key hashes to it; and the session key
    is derived from the decapsulated secret.  The signed message determines both
    the client's key and the ciphertext, so a signature made for another
    handshake is not one for this. *)
Theorem handshake_authenticates `{Blake3, Aead, Kem, Dsa}
    (hello : client_hello) (expected : option bytes) (pieces : list bytes) (c : SessionCipher)
    (Hok : finish_handshake hello expected pieces = Ok c) :
  exists a : ServerAcceptData,
    version a = PQC_VERSION /\ lenZ (concat pieces) <= MAX_HANDSHAKE_RESPONSE /\
    decode_server_accept (slice (concat pieces) 4 (lenZ (concat pieces))) = Ok a /\
    dsa_verify (pubkey a) (build_auth_message (ek_bytes hello) (ct a)) (signature a) = true /\
    (forall p, expected = Some p -> derive_peer_id (pubkey a) = p) /\
    (exists ss, kem_decaps (dk hello) (ct a) = Some ss /\ c = from_shared_secret ss) /\
    (forall ek' ct', length ek' = length (ek_bytes hello) ->
       build_auth_message ek' ct' = build_auth_message (ek_bytes hello) (ct a) ->
       ek' = ek_bytes hello /\ ct' = ct a).
Proof.
  unfold finish_handshake in Hok.
  destruct (read_bounded _ _ _ _) as [buf|] eqn:Er; [|done]. cbn [mbind result_bind] in Hok.
  assert (Hbuf : buf = concat pieces).
  { assert (Hg : forall limit msg ps b0 b, read_bounded limit msg b0 ps = Ok b -> b = b0 ++ concat ps).
    { intros limit msg ps. induction ps as [|p ps IH]; intros b0 b; cbn [read_bounded concat].
      - intros [= <-]. by rewrite app_nil_r.
      - destruct (limit <? lenZ (b0 ++ p)); [done|]. intros Hb%IH. by rewrite Hb, <- app_assoc. }
    by apply Hg in Er. }
  apply read_bounded_limit in Er; [|done]. subst buf.
  destruct (lenZ (concat pieces) <? 4); [done|].
  destruct (decode_server_accept _) as [a|] eqn:Ea; [|done]. cbn [map_err mbind result_bind] in Hok.
  destruct (version a =? PQC_VERSION) eqn:Ev; [|done]. cbn [negb] in Hok. b2p.
  destruct (dsa_pk_valid (pubkey a)); [|done]. cbn [negb] in Hok.
  destruct (dsa_verify _ _ _) eqn:Evf; [|done]. cbn [negb] in Hok.
  destruct (match expected with Some _ => _ | None => false end) eqn:Ep; [done|].
  destruct (kem_ct_valid (ct a)); [|done]. cbn [negb] in Hok.
  destruct (kem_decaps (dk hello) (ct a)) as [ss|] eqn:Es; [|done]. cbn in Hok. injection Hok as <-.
  exists a. split; [done|]. split; [done|]. split; [done|]. split; [done|]. split; [|split; [by eexists|]].
  - intros p ->. apply bool_decide_eq_false in Ep.
    destruct (decide (derive_peer_id (pubkey a) = p)); [done|]. by destruct Ep.
  - intros ek' ct' Hl Heq. unfold build_auth_message in Heq.
    apply app_inv_head in Heq. by apply app_inj_1 in Heq.
Qed.

Theorem handshake_authenticates_witness :
  let id := replicate 1952 x05 in
  exists hello wire answer c, start_handshake [x01] = Ok (hello, wire) /\
    finish_handshake hello (Some (derive_peer_id id)) [answer] = Ok c /\
    exists a, derive_peer_id (pubkey a) = derive_peer_id id /\
      dsa_verify (pubkey a) (build_auth_message (ek_bytes hello) (ct a)) (signature a) = true.
Proof.
  cbv zeta. pose (id := replicate 1952 x05).
  assert (Hc : match start_handshake [x01] with
               | Ok (hello, wire) =>
                   match perform_server_handshake (Some (id, id)) [x02] wire with
                   | Ok (answer, _) => is_ok (finish_handshake hello (Some (derive_peer_id id)) [answer])
                   | Err _ => false
                   end
               | Err _ => false
               end = true) by (vm_compute; reflexivity).
  destruct (start_handshake [x01]) as [[hello wire]|] eqn:E1; [|discriminate Hc].
  destruct (perform_server_handshake (Some (id, id)) [x02] wire) as [[answer c0]|] eqn:E2; [|discriminate Hc].
  destruct (finish_handshake hello (Some (derive_peer_id id)) [answer]) as [c|] eqn:E3; [|discriminate Hc].
  exists hello, wire, answer, c. split; [reflexivity|]. split; [exact E3|].
  destruct (handshake_authenticates hello (Some (derive_peer_id id)) [answer] c E3)
    as (a & _ & _ & _ & Hv & Hp & _).
  exists a. split; [apply Hp; reflexivity | exact Hv].
Defined.

(** C10: An established session is a faithful request/response channel: while
    every request's stream is opened, the results the client sees are, in order,
    exactly the node's responses to its messages (an error when the server had no
    permit to spare, or the node no answer), however responses are cut into
    pieces, and the two ends' sequence numbers stay equal. *)
Theorem session_refines_calls `{Blake3, Aead, Kem, Dsa, !AeadLaws} {Node : Type}
    (process : Node -> bytes -> option bytes * Node) (t : WtTransport) (s : server_session Node)
    (reqs : list (network * bytes))
    (Htot : encryption_total) (Hsync : in_sync t s)
    (Hseq : stream_seq t + lenZ reqs <= MAX_STREAM_SEQ) (Hreqs : Forall delivered reqs)
    (Hresp : forall n m resp n', process n m = (Some resp, n') -> response_fits resp) :
  let '(rs, t', s') := rounds process t s reqs in
  let '(os, node') := calls process (streams_in_session s) (node s) reqs in
  Forall2 answers rs os /\ node s' = node' /\ in_sync t' s' /\ stream_seq t' = stream_seq t + lenZ reqs.
Proof. by apply rounds_delivered. Qed.

(** A node that answers with what it has received so far. *)
Definition echo_node (n : bytes) (m : bytes) : option bytes * bytes :=
  (Some (take 1000 (n ++ m)), n ++ m).

Theorem session_refines_calls_witness :
  let c := from_shared_secret (toy_hash [x07]) in
  let t := {| cipher := c; stream_seq := 1 |} in
  let s := {| server_cipher := c; server_seq := 1; session_open := true; streams_in_session := 0; node := [] |} in
  let '(rs, t', _) := rounds echo_node t s
    [(Delivers 0 (fun b => [b]), [x01]); (Delivers 64 (fun b => [b]), [x02]); (Delivers 3 (fun b => [take 4 b; drop 4 b]), [x03])] in
  exists r1 r2 r3, rs = [r1; r2; r3] /\ r1 = Ok [x01] /\ is_ok r2 = false /\ r3 = Ok [x01; x03] /\ stream_seq t' = 4.
Proof.
  cbv zeta. set (c := from_shared_secret (toy_hash [x07])).
  pose (t := {| cipher := c; stream_seq := 1 |}).
  pose (s := {| server_cipher := c; server_seq := 1; session_open := true; streams_in_session := 0; node := [] : bytes |}).
  pose (reqs := [(Delivers 0 (fun b => [b]), [x01]); (Delivers 64 (fun b => [b]), [x02]);
                 (Delivers 3 (fun b => [take 4 b; drop 4 b]), [x03])]).
  pose proof (session_refines_calls echo_node t s reqs) as Hs.
  assert (Htot : encryption_total) by (intros k n m; eexists; reflexivity).
  assert (Hsync : in_sync t s) by (split; [reflexivity | split; [reflexivity | split; [reflexivity | discriminate]]]).
  assert (Hd : Forall delivered reqs).
  { assert (Hf : forall x, request_fits [x]) by (intros x; vm_compute; discriminate).
    apply Forall_cons_2; [split; [apply Hf | intros b; apply app_nil_r] |].
    apply Forall_cons_2; [split; [apply Hf | intros b; apply app_nil_r] |].
    apply Forall_cons_2; [split; [apply Hf |] | apply Forall_nil_2].
    intros b. cbn [concat]. rewrite app_nil_r. apply take_drop. }
  assert (Hr : forall n m resp n', echo_node n m = (Some resp, n') -> response_fits resp).
  { intros n m resp n' Heq. injection Heq as <- _. unfold response_fits, MAX_WIRE_MESSAGE_SIZE, lenZ.
    rewrite length_take. lia. }
  specialize (Hs Htot Hsync ltac:(vm_compute; discriminate) Hd Hr).
  change (let '(rs, t', _) := rounds echo_node t s reqs in
    exists r1 r2 r3, rs = [r1; r2; r3] /\ r1 = Ok [x01] /\ is_ok r2 = false /\ r3 = Ok [x01; x03] /\ stream_seq t' = 4).
  destruct (rounds echo_node t s reqs) as [[rs t'] s'].
  change (calls echo_node (streams_in_session s) (node s) reqs)
    with ([Some [x01]; None; Some [x01; x03]], [x01; x03]) in Hs.
  destruct Hs as (Ha & _ & _ & Hq).
  inversion Ha as [|r1 o1 rs1 os1 Hr1 Ha1]; subst. inversion Ha1 as [|r2 o2 rs2 os2 Hr2 Ha2]; subst.
  inversion Ha2 as [|r3 o3 rs3 os3 Hr3 Ha3]; subst. inversion Ha3; subst.
  exists r1, r2, r3. split; [reflexivity|]. split; [exact Hr1|]. split; [exact Hr2|]. split; [exact Hr3|]. exact Hq.
Defined.

(** One stream that the client fails to open ends the session for good: the
    client has already spent the sequence number and the server has not, so every
    later request fails, whatever the network does, and reaches no handler.  The
    sequence numbers only ever agree again after a reconnection. *)
Theorem failed_open_breaks_session `{Blake3, Aead, Kem, Dsa, !AeadLaws} {Node : Type}
    (process : Node -> bytes -> option bytes * Node) (t : WtTransport) (s : server_session Node)
    (m : bytes) (reqs : list (network * bytes))
    (Htot : encryption_total) (Hsync : in_sync t s) (Hseq : stream_seq t < MAX_STREAM_SEQ)
    (Hm : request_fits m) (Hreqs : Forall (fun q => request_fits q.2) reqs) :
  let '(rs, _, s') := rounds process t s ((OpenFails, m) :: reqs) in
  Forall (fun r => is_ok r = false) rs /\ length rs = S (length reqs) /\ node s' = node s.
Proof.
  destruct Hsync as (Hc & Hq & Ho & Hpos).
  assert (Hlen : forall l (t : WtTransport) (s : server_session Node), length (rounds process t s l).1.1 = length l).
  { intros l. induction l as [|[net x] l IH]; intros t0 s0; [done|]. cbn [rounds].
    destruct (round process net t0 s0 x) as [[r t1] s1]. specialize (IH t1 s1).
    destruct (rounds process t1 s1 l) as [[rs t2] s2]. cbn in *. lia. }
  assert (E : exists r, round process OpenFails t s m = (r, set_seq t (stream_seq t + 1), s) /\ is_ok r = false).
  { unfold round, send_request. assert ((MAX_STREAM_SEQ <=? stream_seq t) = false) as -> by lia.
    destruct (Htot (key (cipher t)) (build_nonce (stream_seq t) ClientToServer) m) as [e He].
    unfold session_encrypt. cbn [cipher]. rewrite He. cbn. eauto. }
  destruct E as (r & E & Hr). cbn [rounds]. rewrite E.
  pose proof (rounds_ahead process reqs (set_seq t (stream_seq t + 1)) s Htot Hc) as Hra.
  cbn [set_seq stream_seq] in Hra. specialize (Hra ltac:(lia) ltac:(lia) Hreqs).
  specialize (Hlen reqs (set_seq t (stream_seq t + 1)) s).
  destruct (rounds process (set_seq t (stream_seq t + 1)) s reqs) as [[rs t'] s'].
  destruct Hra as [Hrs Hn]. split; [by constructor|]. split; [cbn in *; lia|done].
Qed.

Theorem failed_open_breaks_session_witness :
  let c := from_shared_secret (toy_hash [x07]) in
  let t := {| cipher := c; stream_seq := 1 |} in
  let s := {| server_cipher := c; server_seq := 1; session_open := true; streams_in_session := 0; node := [] |} in
  let '(rs, _, _) := rounds echo_node t s
    [(OpenFails, [x01]); (Delivers 0 (fun b => [b]), [x02]); (Delivers 0 (fun b => [b]), [x03])] in
  Forall (fun r => is_ok r = false) rs /\ length rs = 3%nat.
Proof.
  cbv zeta. set (c := from_shared_secret (toy_hash [x07])).
  pose (t := {| cipher := c; stream_seq := 1 |}).
  pose (s := {| server_cipher := c; server_seq := 1; session_open := true; streams_in_session := 0; node := [] : bytes |}).
  pose (reqs := [(Delivers 0 (fun b => [b]), [x02]); (Delivers 0 (fun b => [b]), [x03])]).
  pose proof (failed_open_breaks_session echo_node t s [x01] reqs) as Hs.
  assert (Htot : encryption_total) by (intros k n m; eexists; reflexivity).
  assert (Hsync : in_sync t s) by (split; [reflexivity | split; [reflexivity | split; [reflexivity | discriminate]]]).
  specialize (Hs Htot Hsync ltac:(vm_compute; reflexivity) ltac:(vm_compute; discriminate)).
  assert (Hd : Forall (fun q : network * bytes => request_fits q.2) reqs)
    by (apply Forall_cons_2; [vm_compute; discriminate |];
        apply Forall_cons_2; [vm_compute; discriminate | apply Forall_nil_2]).
  specialize (Hs Hd).
  change (let '(rs, _, _) := rounds echo_node t s ((OpenFails, [x01]) :: reqs) in
    Forall (fun r => is_ok r = false) rs /\ length rs = 3%nat).
  destruct (rounds echo_node t s ((OpenFails, [x01]) :: reqs)) as [[rs t'] s'].
  destruct Hs as (H1 & H2 & _). split; [exact H1 | exact H2].
Defined.
