(* ===== verification/Storage.v ===== *)
(** * The node's chunk store

    [ant-node/src/storage/lmdb.rs]: the LMDB environment is a finite map that
    write transactions change atomically and one at a time; every call into LMDB
    may fail.  [put], [get] and [delete] are split at the points where another
    task may run, and [step] interleaves any number of them. *)

From Stdlib Require Import ZArith Lia Strings.Byte.
From stdpp Require Import base list strings gmap relations.
From S2P Require Import Prelude Interfaces Cipher Reference Protocol.

Local Open Scope Z_scope.

(** ** Errors of the node *)

(** The constructors of [ant_node::error::Error] that its modelled parts use. *)
Inductive NodeError :=
| ConfigError (msg : string)
| StartupError (msg : string)
| NetworkFailure (msg : string)
| StorageError (msg : string)
| PaymentError (msg : string)
| UpgradeError (msg : string)
| CryptoError (msg : string)
| IoError (msg : string)
| SerializationError (msg : string)
| ProtocolFailure (msg : string)
| InvalidChunk (msg : string)
| ShuttingDown.

#[export] Instance NodeError_eq_dec : EqDecision NodeError.
Proof. solve_decision. Defined.

(** [e.to_string()]. *)
Definition node_error_string (e : NodeError) : string :=
  match e with
  | ConfigError m => "configuration error: " +:+ m
  | StartupError m => "node startup failed: " +:+ m
  | NetworkFailure m => "network error: " +:+ m
  | StorageError m => "storage error: " +:+ m
  | PaymentError m => "payment error: " +:+ m
  | UpgradeError m => "upgrade error: " +:+ m
  | CryptoError m => "crypto error: " +:+ m
  | IoError m => "I/O error: " +:+ m
  | SerializationError m => "serialization error: " +:+ m
  | ProtocolFailure m => "protocol error: " +:+ m
  | InvalidChunk m => "invalid chunk: " +:+ m
  | ShuttingDown => "node is shutting down"
  end.

(** ** State *)

Record LmdbStorageConfig := mkStorageConfig {
  root_dir : string;
  verify_on_read : bool;
  max_chunks : Z;
  max_map_size : Z
}.

Definition LmdbStorageConfig_default : LmdbStorageConfig := {|
  root_dir := ".ant/chunks"; verify_on_read := true; max_chunks := 0; max_map_size := 0 |}.

Record StorageStats := mkStorageStats {
  chunks_stored : Z;
  chunks_retrieved : Z;
  bytes_stored : Z;
  bytes_retrieved : Z;
  duplicates : Z;
  verification_failures : Z;
  current_chunks_stat : Z
}.

Definition StorageStats_default : StorageStats := mkStorageStats 0 0 0 0 0 0 0.

Record LmdbStorage := mkStorage {
  db : gmap XorName bytes;
  config : LmdbStorageConfig;
  storage_stats : StorageStats
}.

Definition set_db (s : LmdbStorage) (m : gmap XorName bytes) : LmdbStorage :=
  mkStorage m (config s) (storage_stats s).

Definition set_stats (s : LmdbStorage) (st : StorageStats) : LmdbStorage :=
  mkStorage (db s) (config s) st.

(** [self.stats.write()] increments, [u64] additions. *)
Definition add_duplicate (s : LmdbStorage) : LmdbStorage :=
  let st := storage_stats s in
  set_stats s (mkStorageStats (chunks_stored st) (chunks_retrieved st) (bytes_stored st)
    (bytes_retrieved st) (wadd (duplicates st) 1) (verification_failures st)
    (current_chunks_stat st)).

Definition add_verification_failure (s : LmdbStorage) : LmdbStorage :=
  let st := storage_stats s in
  set_stats s (mkStorageStats (chunks_stored st) (chunks_retrieved st) (bytes_stored st)
    (bytes_retrieved st) (duplicates st) (wadd (verification_failures st) 1)
    (current_chunks_stat st)).

Definition add_stored (s : LmdbStorage) (len : Z) : LmdbStorage :=
  let st := storage_stats s in
  set_stats s (mkStorageStats (wadd (chunks_stored st) 1) (chunks_retrieved st)
    (wadd (bytes_stored st) len) (bytes_retrieved st) (duplicates st)
    (verification_failures st) (current_chunks_stat st)).

Definition add_retrieved (s : LmdbStorage) (len : Z) : LmdbStorage :=
  let st := storage_stats s in
  set_stats s (mkStorageStats (chunks_stored st) (wadd (chunks_retrieved st) 1)
    (bytes_stored st) (wadd (bytes_retrieved st) len) (duplicates st)
    (verification_failures st) (current_chunks_stat st)).

(** ** Operations *)

(** The calls into LMDB and the task runtime, any of which may fail. *)
Inductive db_call :=
| CreateDir | OpenEnv | CreateDb
| ReadTxn | ReadGet | ReadStat | WriteTxn | TxnGet | TxnStat | TxnPut | TxnDelete | Commit | Join.

Section Storage.
Context `{Blake3}.
(** Which calls fail while the operation runs. *)
Context (fails : db_call -> bool).

Definition call (c : db_call) (msg : string) : result NodeError unit :=
  if fails c then Err (StorageError msg) else Ok tt.

Definition exists_chunk (s : LmdbStorage) (address : XorName) : result NodeError bool :=
  _ ← call ReadTxn "Failed to create read txn: {e}";
  _ ← call ReadGet "Failed to check existence: {e}";
  Ok (bool_decide (is_Some (db s !! address))).

Definition current_chunks (s : LmdbStorage) : result NodeError Z :=
  _ ← call ReadTxn "Failed to create read txn: {e}";
  _ ← call ReadStat "Failed to read db stats: {e}";
  Ok (Z.of_nat (size (db s))).

Definition DEFAULT_MAX_MAP_SIZE : Z := 32 * 1073741824.

Definition map_size_of (config : LmdbStorageConfig) : Z :=
  if 0 <? max_map_size config then max_map_size config else DEFAULT_MAX_MAP_SIZE.

(** [LmdbStorage::new] over what the directory already holds.  The count of the
    existing chunks is an argument of a log line, read only when it is enabled. *)
Definition storage_new (debug_enabled : bool) (on_disk : gmap XorName bytes)
    (config : LmdbStorageConfig) : result NodeError LmdbStorage :=
  _ ← call CreateDir "Failed to create LMDB directory: {e}";
  _ ← (if fails Join then Err (StorageError "LMDB init task failed: {e}") else Ok tt);
  _ ← call OpenEnv "Failed to open LMDB env: {e}";
  _ ← call WriteTxn "Failed to create write txn: {e}";
  _ ← call CreateDb "Failed to create database: {e}";
  _ ← call Commit "Failed to commit db creation: {e}";
  let storage := mkStorage on_disk config StorageStats_default in
  _ ← (if debug_enabled then (_ ← current_chunks storage; Ok tt) else Ok tt);
  Ok storage.

Definition stats (s : LmdbStorage) : StorageStats :=
  let st := storage_stats s in
  mkStorageStats (chunks_stored st) (chunks_retrieved st) (bytes_stored st)
    (bytes_retrieved st) (duplicates st) (verification_failures st)
    (match current_chunks s with Ok count => count | Err _ => 0 end).

(** The part of [put] before the write transaction: [Ok None] to go on. *)
Definition put_check (s : LmdbStorage) (address : XorName) (content : bytes)
    : result NodeError (option bool) * LmdbStorage :=
  if negb (bool_decide (compute_address content = address)) then
    (Err (StorageError "Content address mismatch: expected {}, computed {}"), s)
  else
    match exists_chunk s address with
    | Err e => (Err e, s)
    | Ok true => (Ok (Some false), add_duplicate s)
    | Ok false => (Ok None, s)
    end.

(** The write transaction of [put]: dropped without effect on an error. *)
Definition put_txn (s : LmdbStorage) (address : XorName) (content : bytes)
    : result NodeError (bool * gmap XorName bytes) :=
  _ ← call WriteTxn "Failed to create write txn: {e}";
  _ ← call TxnGet "Failed to check existence: {e}";
  if bool_decide (is_Some (db s !! address)) then Ok (false, db s)
  else
    _ ← (if 0 <? max_chunks (config s) then
           _ ← call TxnStat "Failed to read db stats: {e}";
           if max_chunks (config s) <=? Z.of_nat (size (db s)) then
             Err (StorageError "Storage capacity reached: {current} chunks stored, max is {max_chunks}")
           else Ok tt
         else Ok tt);
    _ ← call TxnPut "Failed to put chunk: {e}";
    _ ← call Commit "Failed to commit put: {e}";
    Ok (true, <[address := content]> (db s)).

(** The transaction runs in a task of its own, whose result may be lost. *)
Definition put_write (s : LmdbStorage) (address : XorName) (content : bytes)
    : result NodeError bool * LmdbStorage :=
  match put_txn s address content with
  | Err e => (if fails Join then Err (StorageError "LMDB put task failed: {e}") else Err e, s)
  | Ok (was_new, m) =>
      (if fails Join then Err (StorageError "LMDB put task failed: {e}") else Ok was_new,
       set_db s m)
  end.

(** The statistics after the transaction. *)
Definition put_end (s : LmdbStorage) (content : bytes) (was_new : bool)
    : result NodeError bool * LmdbStorage :=
  if was_new then (Ok true, add_stored s (lenZ content)) else (Ok false, add_duplicate s).

Definition put (s : LmdbStorage) (address : XorName) (content : bytes)
    : result NodeError bool * LmdbStorage :=
  match put_check s address content with
  | (Err e, s') => (Err e, s')
  | (Ok (Some b), s') => (Ok b, s')
  | (Ok None, s') =>
    match put_write s' address content with
    | (Err e, s'') => (Err e, s'')
    | (Ok was_new, s'') => put_end s'' content was_new
    end
  end.

Definition get_read (s : LmdbStorage) (address : XorName) : result NodeError (option bytes) :=
  _ ← (if fails Join then Err (StorageError "LMDB get task failed: {e}") else Ok tt);
  _ ← call ReadTxn "Failed to create read txn: {e}";
  _ ← call ReadGet "Failed to get chunk: {e}";
  Ok (db s !! address).

(** The part of [get] after the read transaction. *)
Definition get_end (s : LmdbStorage) (address : XorName) (value : option bytes)
    : result NodeError (option bytes) * LmdbStorage :=
  match value with
  | None => (Ok None, s)
  | Some content =>
    if verify_on_read (config s) && negb (bool_decide (compute_address content = address)) then
      (Err (StorageError "Chunk verification failed for {}"), add_verification_failure s)
    else (Ok (Some content), add_retrieved s (lenZ content))
  end.

Definition get (s : LmdbStorage) (address : XorName)
    : result NodeError (option bytes) * LmdbStorage :=
  match get_read s address with
  | Err e => (Err e, s)
  | Ok value => get_end s address value
  end.

Definition delete_txn (s : LmdbStorage) (address : XorName)
    : result NodeError (bool * gmap XorName bytes) :=
  _ ← call WriteTxn "Failed to create write txn: {e}";
  _ ← call TxnDelete "Failed to delete chunk: {e}";
  _ ← call Commit "Failed to commit delete: {e}";
  Ok (bool_decide (is_Some (db s !! address)), base.delete address (db s)).

Definition delete (s : LmdbStorage) (address : XorName) : result NodeError bool * LmdbStorage :=
  match delete_txn s address with
  | Err e => (if fails Join then Err (StorageError "LMDB delete task failed: {e}") else Err e, s)
  | Ok (existed, m) =>
      (if fails Join then Err (StorageError "LMDB delete task failed: {e}") else Ok existed,
       set_db s m)
  end.

End Storage.

(** ** Interleaving

    Tasks that call the store run concurrently.  A job is a call in progress,
    at the point where it last gave way; an event is a call that returned. *)

Inductive job :=
| JPut (address : XorName) (content : bytes)
| JPutWrite (address : XorName) (content : bytes)
| JPutEnd (address : XorName) (content : bytes) (was_new : bool)
| JGet (address : XorName)
| JGetEnd (address : XorName) (value : option bytes)
| JDelete (address : XorName).

Inductive event :=
| EvPut (address : XorName) (r : result NodeError bool)
| EvGet (address : XorName) (r : result NodeError (option bytes))
| EvDelete (address : XorName) (r : result NodeError bool).

Record system := mkSystem {
  store : LmdbStorage;
  jobs : list job;
  history : list event
}.

Section Interleaving.
Context `{Blake3}.

(** Run a job to the next point where it gives way, or to its result. *)
Definition resume (fails : db_call -> bool) (s : LmdbStorage) (j : job)
    : LmdbStorage * (job + event) :=
  match j with
  | JPut a c =>
    match put_check fails s a c with
    | (Err e, s') => (s', inr (EvPut a (Err e)))
    | (Ok (Some b), s') => (s', inr (EvPut a (Ok b)))
    | (Ok None, s') => (s', inl (JPutWrite a c))
    end
  | JPutWrite a c =>
    match put_write fails s a c with
    | (Err e, s') => (s', inr (EvPut a (Err e)))
    | (Ok was_new, s') => (s', inl (JPutEnd a c was_new))
    end
  | JPutEnd a c was_new =>
    let '(r, s') := put_end s c was_new in (s', inr (EvPut a r))
  | JGet a =>
    match get_read fails s a with
    | Err e => (s, inr (EvGet a (Err e)))
    | Ok value => (s, inl (JGetEnd a value))
    end
  | JGetEnd a value => let '(r, s') := get_end s a value in (s', inr (EvGet a r))
  | JDelete a => let '(r, s') := delete fails s a in (s', inr (EvDelete a r))
  end.

Inductive initial_job : job -> Prop :=
| initial_put a c : initial_job (JPut a c)
| initial_get a : initial_job (JGet a)
| initial_delete a : initial_job (JDelete a).

Inductive step : system -> system -> Prop :=
| step_call s js h j :
    initial_job j -> step (mkSystem s js h) (mkSystem s (js ++ [j]) h)
| step_yield fails s s' js h i j j' :
    js !! i = Some j -> resume fails s j = (s', inl j') ->
    step (mkSystem s js h) (mkSystem s' (<[i := j']> js) h)
| step_return fails s s' js h i j e :
    js !! i = Some j -> resume fails s j = (s', inr e) ->
    step (mkSystem s js h) (mkSystem s' (base.delete i js) (h ++ [e])).

End Interleaving.

(** ** Specification

    What the store promises: a finite map of bounded size, each value under its
    hash. *)

Inductive op :=
| OpPut (address : XorName) (content : bytes)
| OpGet (address : XorName)
| OpDelete (address : XorName).

Section Spec.
Context `{Blake3}.

Definition content_addressed (m : gmap XorName bytes) : Prop :=
  map_Forall (fun a c => compute_address c = a) m.

Definition has_room (max : Z) (m : gmap XorName bytes) : bool :=
  (max <=? 0) || (Z.of_nat (size m) <? max).

Definition within_capacity (max : Z) (m : gmap XorName bytes) : Prop :=
  0 < max -> Z.of_nat (size m) <= max.

Definition spec (max : Z) (m : gmap XorName bytes) (o : op) : event * gmap XorName bytes :=
  match o with
  | OpPut a c =>
    if negb (bool_decide (compute_address c = a)) then
      (EvPut a (Err (StorageError "Content address mismatch: expected {}, computed {}")), m)
    else if bool_decide (is_Some (m !! a)) then (EvPut a (Ok false), m)
    else if has_room max m then (EvPut a (Ok true), <[a := c]> m)
    else (EvPut a (Err (StorageError
           "Storage capacity reached: {current} chunks stored, max is {max_chunks}")), m)
  | OpGet a => (EvGet a (Ok (m !! a)), m)
  | OpDelete a => (EvDelete a (Ok (bool_decide (is_Some (m !! a)))), base.delete a m)
  end.

Definition exec (fails : db_call -> bool) (s : LmdbStorage) (o : op) : event * LmdbStorage :=
  match o with
  | OpPut a c => let '(r, s') := put fails s a c in (EvPut a r, s')
  | OpGet a => let '(r, s') := get fails s a in (EvGet a r, s')
  | OpDelete a => let '(r, s') := delete fails s a in (EvDelete a r, s')
  end.

Definition failed (e : event) : bool :=
  match e with
  | EvPut _ r => negb (is_ok r)
  | EvGet _ r => negb (is_ok r)
  | EvDelete _ r => negb (is_ok r)
  end.

End Spec.

(** ** Lemmas *)

Section StorageFacts.
Context `{Blake3}.

Lemma content_addressed_insert m a c :
  compute_address c = a -> content_addressed m -> content_addressed (<[a := c]> m).
Proof. intros Ha Hm. apply map_Forall_insert_2; assumption. Qed.

Lemma content_addressed_delete m a : content_addressed m -> content_addressed (base.delete a m).
Proof. apply map_Forall_delete. Qed.

Lemma within_capacity_insert (max : Z) m a (c : bytes) :
  has_room max m = true -> within_capacity max m -> within_capacity max (<[a := c]> m).
Proof.
  unfold has_room, within_capacity. intros Hr Hm Hpos.
  destruct (m !! a) eqn:E.
  - rewrite map_size_insert_Some by (rewrite E; eauto). auto.
  - rewrite map_size_insert_None by exact E.
    apply orb_prop in Hr as [Hr | Hr]; b2p; lia.
Qed.

Lemma within_capacity_delete (max : Z) (m : gmap XorName bytes) a :
  within_capacity max m -> within_capacity max (base.delete a m).
Proof.
  unfold within_capacity. intros Hm Hpos. specialize (Hm Hpos).
  assert (size (base.delete a m) <= size m)%nat.
  { apply map_subseteq_size, delete_subseteq. }
  lia.
Qed.

(** A call that succeeds or fails leaves nothing else to know. *)
Lemma call_cases fails c msg :
  (fails c = true /\ call fails c msg = Err (StorageError msg)) \/
  (fails c = false /\ call fails c msg = Ok tt).
Proof. unfold call. destruct (fails c); auto. Qed.

Lemma put_txn_spec fails s a c b m :
  put_txn fails s a c = Ok (b, m) ->
  (b = false /\ m = db s /\ is_Some (db s !! a)) \/
  (b = true /\ m = <[a := c]> (db s) /\ db s !! a = None /\ has_room (max_chunks (config s)) (db s) = true).
Proof.
  unfold put_txn, call, has_room. intros Hok.
  destruct (fails WriteTxn); [discriminate|]. destruct (fails TxnGet); [discriminate|]. cbn in Hok.
  case_bool_decide as Hs.
  - injection Hok as <- <-. auto.
  - right. rewrite eq_None_not_Some.
    destruct (0 <? max_chunks (config s)) eqn:E; b2p.
    + destruct (fails TxnStat); [discriminate|]. cbn in Hok.
      destruct (max_chunks (config s) <=? Z.of_nat (size (db s))) eqn:E2; [discriminate|]. b2p.
      destruct (fails TxnPut); [discriminate|]. destruct (fails Commit); [discriminate|].
      injection Hok as <- <-. repeat split; auto. apply orb_true_intro. right. apply Z.ltb_lt. lia.
    + destruct (fails TxnPut); [discriminate|]. destruct (fails Commit); [discriminate|].
      injection Hok as <- <-. repeat split; auto. apply orb_true_intro. left. apply Z.leb_le. lia.
Qed.

(** How a piece of a call changes the map. *)
Inductive db_change (s : LmdbStorage) : job -> gmap XorName bytes -> Prop :=
| change_none j : db_change s j (db s)
| change_put a c :
    db s !! a = None -> has_room (max_chunks (config s)) (db s) = true ->
    db_change s (JPutWrite a c) (<[a := c]> (db s))
| change_delete a : db_change s (JDelete a) (base.delete a (db s)).

Lemma put_write_change fails s a c r s' :
  put_write fails s a c = (r, s') ->
  config s' = config s /\ db_change s (JPutWrite a c) (db s') /\
  (r = Ok true -> db s !! a = None /\ db s' = <[a := c]> (db s)) /\
  (r = Ok false -> is_Some (db s !! a) /\ db s' = db s).
Proof.
  unfold put_write. destruct (put_txn fails s a c) as [[b m]|e] eqn:E.
  - apply put_txn_spec in E. intros [= <- <-]. cbn.
    destruct E as [(-> & -> & Hs) | (-> & -> & Hn & Hr)];
      destruct (fails Join); repeat split; intros; try discriminate; try constructor; auto.
  - intros [= <- <-]. destruct (fails Join); repeat split; intros; try discriminate; constructor.
Qed.

Lemma delete_change fails s a r s' :
  delete fails s a = (r, s') -> config s' = config s /\ db_change s (JDelete a) (db s').
Proof.
  unfold delete, delete_txn, call.
  destruct (fails WriteTxn); [intros [= <- <-]; split; constructor|].
  destruct (fails TxnDelete); [intros [= <- <-]; split; constructor|].
  destruct (fails Commit); [intros [= <- <-]; split; constructor|].
  intros [= <- <-]. split; constructor.
Qed.

Lemma put_check_same fails s a c r s' :
  put_check fails s a c = (r, s') ->
  config s' = config s /\ db s' = db s /\
  (r = Ok None -> compute_address c = a) /\
  (forall b, r = Ok (Some b) -> b = false /\ is_Some (db s !! a)).
Proof.
  unfold put_check, exists_chunk, call. case_bool_decide as Ha; cbn [negb].
  - destruct (fails ReadTxn); [intros [= <- <-]; repeat split; intros; discriminate|].
    destruct (fails ReadGet); [intros [= <- <-]; repeat split; intros; discriminate|]. cbn.
    case_bool_decide as Hs; intros [= <- <-]; repeat split; auto; intros; try discriminate; congruence.
  - intros [= <- <-]; repeat split; intros; discriminate.
Qed.

Lemma get_end_same s a v r s' :
  get_end s a v = (r, s') -> config s' = config s /\ db s' = db s /\ (forall c, r = Ok (Some c) -> v = Some c).
Proof.
  unfold get_end. destruct v as [c|].
  - destruct_match; intros [= <- <-]; repeat split; intros; congruence.
  - intros [= <- <-]. repeat split. intros; discriminate.
Qed.

Lemma put_end_same s c b r s' :
  put_end s c b = (r, s') -> config s' = config s /\ db s' = db s /\ r = Ok b.
Proof. unfold put_end. destruct b; intros [= <- <-]; auto. Qed.

Lemma get_read_value fails s a v : get_read fails s a = Ok v -> v = db s !! a.
Proof.
  unfold get_read, call. destruct (fails Join); [discriminate|].
  destruct (fails ReadTxn); [discriminate|]. destruct (fails ReadGet); [discriminate|].
  intros [= <-]. reflexivity.
Qed.

Lemma resume_change fails s j s' out :
  resume fails s j = (s', out) -> config s' = config s /\ db_change s j (db s').
Proof.
  destruct j as [a c|a c|a c b|a|a v|a]; cbn [resume].
  - destruct (put_check fails s a c) as [r s1] eqn:E. apply put_check_same in E as (? & Hd & _).
    intros Hr. assert (s' = s1) as -> by (destruct r as [[|]|]; congruence).
    rewrite Hd. split; [assumption | constructor].
  - destruct (put_write fails s a c) as [r s1] eqn:E. apply put_write_change in E as (? & Hd & _).
    intros Hr. assert (s' = s1) as -> by (destruct r; congruence). auto.
  - destruct (put_end s c b) as [r s1] eqn:E. apply put_end_same in E as (? & Hd & _).
    intros [= <- _]. rewrite Hd. split; [assumption | constructor].
  - destruct (get_read fails s a); intros [= <- _]; split; constructor.
  - destruct (get_end s a v) as [r s1] eqn:E. apply get_end_same in E as (? & Hd & _).
    intros [= <- _]. rewrite Hd. split; [assumption | constructor].
  - destruct (delete fails s a) as [r s1] eqn:E. apply delete_change in E as (? & Hd).
    intros [= <- _]. auto.
Qed.

(** *** Invariants of the interleaving *)

Definition job_ok (j : job) : Prop :=
  match j with
  | JPutWrite a c => compute_address c = a
  | JPutEnd a c _ => compute_address c = a
  | JGetEnd a (Some c) => compute_address c = a
  | _ => True
  end.

Definition event_ok (e : event) : Prop :=
  match e with EvGet a (Ok (Some c)) => compute_address c = a | _ => True end.

Record safe (c0 : LmdbStorageConfig) (s : system) : Prop := {
  safe_config : config (store s) = c0;
  safe_content : content_addressed (db (store s));
  safe_capacity : within_capacity (max_chunks c0) (db (store s));
  safe_jobs : Forall job_ok (jobs s);
  safe_history : Forall event_ok (history s)
}.

Lemma change_safe c0 s j m :
  db_change s j m -> job_ok j -> config s = c0 ->
  content_addressed (db s) -> within_capacity (max_chunks c0) (db s) ->
  content_addressed m /\ within_capacity (max_chunks c0) m.
Proof.
  intros [j' | a c Hn Hr | a] Hj <- Hc Hm; [auto | |].
  - split; [apply content_addressed_insert | apply within_capacity_insert]; assumption.
  - split; [apply content_addressed_delete | apply within_capacity_delete]; assumption.
Qed.

Lemma resume_ok fails s j s' out :
  resume fails s j = (s', out) -> job_ok j -> content_addressed (db s) ->
  match out with inl j' => job_ok j' | inr e => event_ok e end.
Proof.
  intros Hr Hj Hc. destruct j as [a c|a c|a c b|a|a v|a]; cbn [resume] in Hr.
  - destruct (put_check fails s a c) as [r s1] eqn:E. apply put_check_same in E as (_ & _ & Ha & _).
    destruct r as [[b|]|e]; injection Hr as <- <-; cbn; auto.
  - destruct (put_write fails s a c) as [[b|e] s1]; injection Hr as <- <-; cbn; auto.
  - destruct (put_end s c b) as [r s1]; injection Hr as <- <-; exact I.
  - destruct (get_read fails s a) as [v|e] eqn:E; injection Hr as <- <-; [|exact I].
    apply get_read_value in E as ->. cbn. destruct (db s !! a) as [c|] eqn:Ea; [|exact I].
    exact (Hc a c Ea).
  - destruct (get_end s a v) as [r s1] eqn:E. apply get_end_same in E as (_ & _ & Hv).
    injection Hr as <- <-. cbn. destruct r as [[c|]|]; auto.
    specialize (Hv c eq_refl). subst v. exact Hj.
  - destruct (delete fails s a) as [r s1]; injection Hr as <- <-. exact I.
Qed.

Lemma step_safe c0 s s' : step s s' -> safe c0 s -> safe c0 s'.
Proof.
  intros Hstep [Hcfg Hc Hm Hj Hh]. destruct Hstep as [st js h j Hi | fails st st' js h i j j' Hl Hr
    | fails st st' js h i j e Hl Hr]; cbn in *.
  - constructor; cbn; auto. apply Forall_app_2; [assumption|].
    apply Forall_cons_2; [destruct Hi; exact I | apply Forall_nil_2].
  - pose proof (resume_change _ _ _ _ _ Hr) as [Hk Hd].
    pose proof (Forall_lookup_1 _ _ _ _ Hj Hl) as Hjob.
    destruct (change_safe c0 _ _ _ Hd Hjob Hcfg Hc Hm) as [Hc' Hm'].
    pose proof (resume_ok _ _ _ _ _ Hr Hjob Hc). constructor; cbn; auto; [congruence|].
    apply Forall_insert; assumption.
  - pose proof (resume_change _ _ _ _ _ Hr) as [Hk Hd].
    pose proof (Forall_lookup_1 _ _ _ _ Hj Hl) as Hjob.
    destruct (change_safe c0 _ _ _ Hd Hjob Hcfg Hc Hm) as [Hc' Hm'].
    pose proof (resume_ok _ _ _ _ _ Hr Hjob Hc). constructor; cbn; auto; [congruence| |].
    + apply Forall_delete; assumption.
    + apply Forall_app_2; [assumption | apply Forall_cons_2; [assumption | apply Forall_nil_2]].
Qed.

(** *** Each new chunk is reported once *)

Definition stored (a : XorName) (s : LmdbStorage) : nat :=
  if bool_decide (is_Some (db s !! a)) then 1%nat else 0%nat.

Definition new_event (a : XorName) (e : event) : nat :=
  match e with
  | EvPut a' (Ok true) => if bool_decide (a' = a) then 1%nat else 0%nat
  | _ => 0%nat
  end.

Definition new_job (a : XorName) (j : job) : nat :=
  match j with
  | JPutEnd a' _ true => if bool_decide (a' = a) then 1%nat else 0%nat
  | _ => 0%nat
  end.

Definition is_delete (j : job) : Prop := match j with JDelete _ => True | _ => False end.

(** The address an acknowledged put stored. *)
Definition acked_job (j : job) : option XorName :=
  match j with JPutEnd a _ _ => Some a | _ => None end.
Definition acked_event (e : event) : option XorName :=
  match e with EvPut a (Ok _) => Some a | _ => None end.

Lemma stored_insert a a' c s s' :
  db s !! a' = None -> db s' = <[a' := c]> (db s) ->
  stored a s' = (stored a s + if bool_decide (a' = a) then 1 else 0)%nat.
Proof.
  unfold stored. intros Hn ->. case_bool_decide as E1.
  - destruct (decide (a' = a)) as [->|Hne].
    + rewrite Hn, (bool_decide_false (is_Some None)) by (apply is_Some_None).
      rewrite bool_decide_true by reflexivity. reflexivity.
    + rewrite lookup_insert_ne in E1 by assumption.
      rewrite bool_decide_true, (bool_decide_false (a' = a)) by assumption. reflexivity.
  - destruct (decide (a' = a)) as [->|Hne].
    + rewrite lookup_insert_eq in E1. destruct E1. eauto.
    + rewrite lookup_insert_ne in E1 by assumption.
      rewrite bool_decide_false, (bool_decide_false (a' = a)) by assumption. reflexivity.
Qed.

Lemma resume_credit fails s j s' out a :
  resume fails s j = (s', out) -> ~ is_delete j ->
  (match out with inl j' => new_job a j' | inr e => new_event a e end + stored a s
     <= new_job a j + stored a s')%nat.
Proof.
  intros Hr Hnd. destruct j as [x c|x c|x c b|x|x v|x]; cbn [resume] in Hr.
  - destruct (put_check fails s x c) as [r s1] eqn:E. apply put_check_same in E as (_ & Hd & _ & Hb).
    destruct r as [[b|]|e]; injection Hr as <- <-; unfold stored; rewrite Hd; cbn; [|lia|lia].
    destruct (Hb b eq_refl) as [-> _]. lia.
  - destruct (put_write fails s x c) as [r s1] eqn:E.
    apply put_write_change in E as (_ & Hd & Ht & Hf).
    assert (stored a s <= stored a s1)%nat as Hmono.
    { destruct r as [[]|e].
      - destruct (Ht eq_refl) as [Hn Hi]. rewrite (stored_insert a x c s s1 Hn Hi). lia.
      - destruct (Hf eq_refl) as [_ Hi]. unfold stored. rewrite Hi. lia.
      - inversion Hd as [j0 Hj0 Hi|a0 c0 Hn Hroom Ha0 Hi|]; subst.
        + unfold stored. rewrite <- Hi. lia.
        + rewrite (stored_insert a x c s s1 Hn (eq_sym Hi)). lia. }
    destruct r as [[]|e]; injection Hr as <- <-; cbn [new_job new_event]; [|lia|lia].
    destruct (Ht eq_refl) as [Hn Hi]. rewrite (stored_insert a x c s s1 Hn Hi). lia.
  - destruct (put_end s c b) as [r s1] eqn:E. apply put_end_same in E as (_ & Hd & ->).
    injection Hr as <- <-. unfold stored. rewrite Hd. cbn. destruct b; lia.
  - destruct (get_read fails s x); injection Hr as <- <-; cbn; lia.
  - destruct (get_end s x v) as [r s1] eqn:E. apply get_end_same in E as (_ & Hd & _).
    injection Hr as <- <-. unfold stored. rewrite Hd. cbn. lia.
  - destruct Hnd. exact I.
Qed.

Lemma resume_mono fails s j s' out a :
  resume fails s j = (s', out) -> ~ is_delete j -> is_Some (db s !! a) -> is_Some (db s' !! a).
Proof.
  intros Hr Hnd Ha. apply resume_change in Hr as [_ Hd].
  inversion Hd as [j0 Hj0 Hi|a0 c0 Hn Hroom Ha0 Hi|a0 Ha0 Hi].
  - assumption.
  - rewrite lookup_insert_is_Some'. auto.
  - subst j. destruct Hnd. exact I.
Qed.

Lemma resume_ack fails s j s' out a :
  resume fails s j = (s', out) ->
  match out with inl j' => acked_job j' | inr e => acked_event e end = Some a ->
  acked_job j = Some a \/ is_Some (db s' !! a).
Proof.
  intros Hr Ho. destruct j as [x c|x c|x c b|x|x v|x]; cbn [resume] in Hr.
  - destruct (put_check fails s x c) as [r s1] eqn:E. apply put_check_same in E as (_ & Hd & _ & Hb).
    destruct r as [[b|]|e]; injection Hr as <- <-; cbn in Ho; [|discriminate|discriminate].
    injection Ho as <-. destruct (Hb b eq_refl) as [_ Hs]. rewrite Hd. auto.
  - destruct (put_write fails s x c) as [r s1] eqn:E.
    apply put_write_change in E as (_ & Hd & Ht & Hf).
    destruct r as [[]|e]; injection Hr as <- <-; cbn in Ho; [| |discriminate]; injection Ho as <-; right.
    + destruct (Ht eq_refl) as [_ ->]. rewrite lookup_insert_eq. eauto.
    + destruct (Hf eq_refl) as [Hs ->]. exact Hs.
  - destruct (put_end s c b) as [r s1] eqn:E. apply put_end_same in E as (_ & Hd & ->).
    injection Hr as <- <-. left. exact Ho.
  - destruct (get_read fails s x); injection Hr as <- <-; discriminate.
  - destruct (get_end s x v); injection Hr as <- <-. discriminate.
  - destruct (delete fails s x); injection Hr as <- <-. discriminate.
Qed.

Definition no_deletes (s : system) : Prop :=
  Forall (fun j => ~ is_delete j) (jobs s) /\
  Forall (fun e => match e with EvDelete _ _ => False | _ => True end) (history s).

Definition credit (a : XorName) (s : system) : nat :=
  (sum_list_with (new_event a) (history s) + sum_list_with (new_job a) (jobs s))%nat.

Definition acked (a : XorName) (s : system) : Prop :=
  Some a ∈ (acked_job <$> jobs s) \/ Some a ∈ (acked_event <$> history s).

Definition once (s0 : LmdbStorage) (s : system) : Prop :=
  forall a, (credit a s + stored a s0 <= stored a (store s))%nat /\
    (acked a s -> is_Some (db (store s) !! a)).

Lemma sum_list_with_insert {A} (f : A -> nat) l i x y :
  l !! i = Some x -> (sum_list_with f (<[i := y]> l) + f x = sum_list_with f l + f y)%nat.
Proof.
  intros Hl. assert (i < length l)%nat by (eapply lookup_lt_Some; eauto).
  rewrite insert_take_drop by assumption. rewrite <- (take_drop_middle l i x Hl) at 3.
  rewrite !sum_list_with_app. cbn. lia.
Qed.

Lemma sum_list_with_delete {A} (f : A -> nat) l i x :
  l !! i = Some x -> (sum_list_with f (base.delete i l) + f x = sum_list_with f l)%nat.
Proof.
  intros Hl. rewrite delete_take_drop. rewrite <- (take_drop_middle l i x Hl) at 3.
  rewrite !sum_list_with_app. cbn. lia.
Qed.

Lemma elem_of_insert_list {A} (l : list A) i x y : x ∈ <[i := y]> l -> x = y \/ x ∈ l.
Proof.
  intros Hx. apply list_elem_of_lookup in Hx as [k Hk].
  destruct (decide (k = i)) as [->|Hne].
  - destruct (decide (i < length l)%nat) as [Hlt|Hge].
    + rewrite list_lookup_insert_eq in Hk by assumption. left. congruence.
    + rewrite list_insert_ge in Hk by lia. right. eapply list_elem_of_lookup_2; eauto.
  - rewrite list_lookup_insert_ne in Hk by congruence. right. eapply list_elem_of_lookup_2; eauto.
Qed.

Lemma elem_of_delete_list {A} (l : list A) i x : x ∈ base.delete i l -> x ∈ l.
Proof.
  rewrite delete_take_drop, elem_of_app. intros [Hx|Hx].
  - eapply subseteq_take; eauto.
  - eapply subseteq_drop; eauto.
Qed.

Lemma step_no_deletes s s' : step s s' -> no_deletes s' -> no_deletes s.
Proof.
  intros Hstep [Hj Hh]. destruct Hstep as [st js h j Hi | fails st st' js h i j j' Hl Hr
    | fails st st' js h i j e Hl Hr]; cbn in *.
  - apply Forall_app in Hj as [Hj _]. split; assumption.
  - split; [|assumption]. cbn. apply Forall_lookup. intros k x Hk.
    destruct (decide (k = i)) as [->|Hne].
    + rewrite Hl in Hk. injection Hk as <-. intros Hd. destruct j; try contradiction.
      cbn in Hr. destruct (delete fails st address). discriminate.
    + apply (Forall_lookup_1 _ _ k _ Hj). rewrite list_lookup_insert_ne by congruence. exact Hk.
  - apply Forall_app in Hh as [Hh He]. inversion He as [|? ? He1 _]; subst. split; [|assumption].
    cbn. apply Forall_lookup. intros k x Hk.
    destruct (decide (k = i)) as [->|Hne].
    + rewrite Hl in Hk. injection Hk as <-. intros Hd. destruct j; try contradiction.
      cbn in Hr. destruct (delete fails st address). injection Hr as <- <-. contradiction.
    + assert (x ∈ base.delete i js) as Hx.
      { rewrite delete_take_drop, elem_of_app.
        rewrite <- (take_drop_middle js i j Hl) in Hk. destruct (decide (k < i)%nat).
        - left. rewrite lookup_app_l in Hk by (rewrite length_take; apply lookup_lt_Some in Hl; lia).
          eapply list_elem_of_lookup_2; eauto.
        - right. assert (i < length js)%nat by (eapply lookup_lt_Some; eauto).
          rewrite lookup_app_r in Hk by (rewrite length_take; lia).
          rewrite length_take, Nat.min_l in Hk by lia.
          replace (k - i)%nat with (S (k - i - 1)) in Hk by lia. cbn in Hk.
          eapply list_elem_of_lookup_2; eauto. }
      eapply Forall_forall in Hj; eauto.
Qed.

Lemma step_once s0 s s' : step s s' -> no_deletes s -> once s0 s -> once s0 s'.
Proof.
  intros Hstep [Hnd _] Ho a. specialize (Ho a) as [Hc Ha]. unfold credit, acked in *.
  destruct Hstep as [st js h j Hi | fails st st' js h i j j' Hl Hr
    | fails st st' js h i j e Hl Hr]; cbn in *.
  - rewrite fmap_app, sum_list_with_app. split.
    + destruct Hi; cbn; lia.
    + intros [Hx|Hx]; [|auto]. apply elem_of_app in Hx as [Hx|Hx]; [auto|].
      apply list_elem_of_singleton in Hx. destruct Hi; discriminate.
  - pose proof (Forall_lookup_1 _ _ _ _ Hnd Hl) as Hj. pose proof (resume_credit _ _ _ _ _ a Hr Hj) as Hcr.
    pose proof (sum_list_with_insert (new_job a) js i j j' Hl). split; [lia|].
    pose proof (fun Hs => resume_mono _ _ _ _ _ a Hr Hj Hs) as Hmono. intros [Hx|Hx]; [|auto].
    rewrite list_fmap_insert in Hx. apply elem_of_insert_list in Hx as [Hx|Hx]; [|auto].
    destruct (resume_ack _ _ _ _ _ a Hr (eq_sym Hx)) as [Hjk|Hs]; [|exact Hs].
    apply Hmono, Ha. left. rewrite <- Hjk.
    apply list_elem_of_fmap_2. eapply list_elem_of_lookup_2; eauto.
  - pose proof (Forall_lookup_1 _ _ _ _ Hnd Hl) as Hj. pose proof (resume_credit _ _ _ _ _ a Hr Hj) as Hcr.
    pose proof (sum_list_with_delete (new_job a) js i j Hl).
    rewrite fmap_app, sum_list_with_app. split; [cbn; lia|].
    pose proof (fun Hs => resume_mono _ _ _ _ _ a Hr Hj Hs) as Hmono. intros [Hx|Hx].
    + apply Hmono, Ha. left. apply list_elem_of_fmap in Hx as (x & Hx1 & Hx2). rewrite Hx1.
      apply list_elem_of_fmap_2. eapply elem_of_delete_list; eauto.
    + apply elem_of_app in Hx as [Hx|Hx]; [auto|]. apply list_elem_of_singleton in Hx.
      destruct (resume_ack _ _ _ _ _ a Hr (eq_sym Hx)) as [Hjk|Hs]; [|exact Hs].
      apply Hmono, Ha. left. rewrite <- Hjk.
      apply list_elem_of_fmap_2. eapply list_elem_of_lookup_2; eauto.
Qed.

Lemma reachable_once s s' :
  rtc step (mkSystem s [] []) s' -> no_deletes s' -> once s s'.
Proof.
  intros Hr. revert s' Hr. refine (rtc_ind_r (fun s' => no_deletes s' -> once s s') _ _ _);
    [|intros s1 s2 Hr Hstep IH]; intros Hnd.
  - intros a. split; [unfold credit; cbn; lia|]. intros [Hx|Hx]; cbn in Hx; inversion Hx.
  - pose proof (step_no_deletes _ _ Hstep Hnd). eapply step_once; eauto.
Qed.

Lemma reachable_safe s s' :
  rtc step (mkSystem s [] []) s' ->
  content_addressed (db s) -> within_capacity (max_chunks (config s)) (db s) ->
  safe (config s) s'.
Proof.
  intros Hr Hc Hm. revert s' Hr. refine (rtc_ind_r (safe (config s)) _ _ _); [|intros s1 s2 Hr Hstep IH].
  - constructor; cbn; auto; apply Forall_nil_2.
  - eapply step_safe; eauto.
Qed.

(** *** Refinement of the specification *)

Definition refines (fails : db_call -> bool) (s s' : LmdbStorage) (e : event)
    (promised : event * gmap XorName bytes) : Prop :=
  content_addressed (db s') /\ config s' = config s /\
  ((e = promised.1 /\ db s' = promised.2) \/
   (failed e = true /\ (exists c, fails c = true) /\
    (db s' = db s \/ (fails Join = true /\ db s' = promised.2)))).

(** A call into LMDB that fails ends the operation with the map unchanged. *)
Lemma refines_fault fails s s' e promised c :
  content_addressed (db s) -> fails c = true -> failed e = true ->
  db s' = db s -> config s' = config s -> refines fails s s' e promised.
Proof. intros Hc Hf He Hd Hcfg. repeat split; [rewrite Hd; assumption | assumption |]. right. eauto. Qed.

Lemma refines_same fails s s' e promised :
  content_addressed (db s') -> config s' = config s -> e = promised.1 -> db s' = promised.2 ->
  refines fails s s' e promised.
Proof. intros. repeat split; auto. Qed.

Lemma refines_lost fails s s' e promised :
  content_addressed (db s') -> config s' = config s -> failed e = true -> fails Join = true ->
  db s' = promised.2 -> refines fails s s' e promised.
Proof. intros Hc Hk He Hf Hd. repeat split; [assumption..|]. right. repeat split; [assumption | eauto |]. auto. Qed.

Ltac fault_in H :=
  match type of H with
  | context [if ?fails ?c then Err _ else Ok tt] =>
      let E := fresh "E" in
      destruct (fails c) eqn:E; cbn in H;
      [injection H as <- <-; apply (refines_fault _ _ _ _ _ c); [assumption | exact E | reflexivity..]|]
  end.

Lemma put_write_refines fails s a c r s' :
  content_addressed (db s) -> compute_address c = a -> ~ is_Some (db s !! a) ->
  match put_write fails s a c with
  | (Err e, s'') => (Err e, s'')
  | (Ok was_new, s'') => put_end s'' c was_new
  end = (r, s') ->
  refines fails s s' (EvPut a r)
    (if has_room (max_chunks (config s)) (db s) then (EvPut a (Ok true), <[a := c]> (db s))
     else (EvPut a (Err (StorageError
        "Storage capacity reached: {current} chunks stored, max is {max_chunks}")), db s)).
Proof.
  intros Hc Ha Hn. unfold put_write. intros Hx. destruct (fails Join) eqn:EJ.
  - destruct (put_txn fails s a c) as [[b m]|e] eqn:Ep; injection Hx as <- <-.
    + apply put_txn_spec in Ep as [(_ & _ & Hs) | (-> & -> & _ & Hr)]; [destruct (Hn Hs)|].
      rewrite Hr. apply refines_lost; auto. apply content_addressed_insert; assumption.
    + eapply refines_fault; eauto.
  - unfold put_txn, call in Hx.
    rewrite (bool_decide_false (is_Some (db s !! a))) in Hx by assumption.
    fault_in Hx. fault_in Hx. unfold has_room.
    destruct (0 <? max_chunks (config s)) eqn:Emax.
    + fault_in Hx. replace (max_chunks (config s) <=? 0) with false by (symmetry; apply Z.leb_gt; b2p; lia).
      rewrite Z.ltb_antisym. cbn [orb]. destruct (max_chunks (config s) <=? Z.of_nat (size (db s))) eqn:Efull;
        cbn in Hx |- *.
      * injection Hx as <- <-. apply refines_same; auto.
      * fault_in Hx. fault_in Hx. injection Hx as <- <-.
        apply refines_same; auto. apply content_addressed_insert; assumption.
    + replace (max_chunks (config s) <=? 0) with true by (symmetry; apply Z.leb_le; b2p; lia).
      cbn in Hx |- *. fault_in Hx. fault_in Hx. injection Hx as <- <-.
      apply refines_same; auto. apply content_addressed_insert; assumption.
Qed.

Lemma put_refines fails s a c r s' :
  content_addressed (db s) -> put fails s a c = (r, s') ->
  refines fails s s' (EvPut a r) (spec (max_chunks (config s)) (db s) (OpPut a c)).
Proof.
  intros Hc. unfold put, put_check, exists_chunk, call. cbn [spec].
  case_bool_decide as Ha; cbn [negb]; intros Hx.
  - fault_in Hx. fault_in Hx. case_bool_decide as Hs.
    + injection Hx as <- <-. apply refines_same; auto.
    + eapply put_write_refines; eauto.
  - injection Hx as <- <-. apply refines_same; auto.
Qed.

Lemma get_refines fails s a r s' :
  content_addressed (db s) -> get fails s a = (r, s') ->
  refines fails s s' (EvGet a r) (spec (max_chunks (config s)) (db s) (OpGet a)).
Proof.
  intros Hc. unfold get, get_read, get_end, call. intros Hx.
  fault_in Hx. fault_in Hx. fault_in Hx.
  destruct (db s !! a) as [c|] eqn:Ea.
  - rewrite (bool_decide_true (compute_address c = a)) in Hx by exact (Hc a c Ea).
    rewrite andb_false_r in Hx. injection Hx as <- <-. apply refines_same; auto. cbn. congruence.
  - injection Hx as <- <-. apply refines_same; auto. cbn. congruence.
Qed.

Lemma delete_refines fails s a r s' :
  content_addressed (db s) -> delete fails s a = (r, s') ->
  refines fails s s' (EvDelete a r) (spec (max_chunks (config s)) (db s) (OpDelete a)).
Proof.
  intros Hc. unfold delete, delete_txn, call. intros Hx.
  assert (content_addressed (base.delete a (db s))) by (apply content_addressed_delete; assumption).
  destruct (fails Join) eqn:EJ.
  - destruct (fails WriteTxn); [injection Hx as <- <-; eapply refines_fault; eauto|].
    destruct (fails TxnDelete); [injection Hx as <- <-; eapply refines_fault; eauto|].
    destruct (fails Commit); [injection Hx as <- <-; eapply refines_fault; eauto|].
    injection Hx as <- <-. apply refines_lost; auto.
  - fault_in Hx. fault_in Hx. fault_in Hx. injection Hx as <- <-. apply refines_same; auto.
Qed.

End StorageFacts.

(** ** Properties *)

(** C11: Run one at a time, every store operation does what the specification
    (a finite map of at most [max_chunks] entries, each under its hash) says, and
    reports it, or fails without having changed the map; only when the task that
    ran the transaction is lost may the change have happened although the call
    failed.  It fails only when some call into LMDB does. *)
Theorem storage_refines_map `{Blake3} (fails : db_call -> bool) (s s' : LmdbStorage) (o : op)
    (e : event)
    (Hc : content_addressed (db s)) (Hx : exec fails s o = (e, s')) :
  let '(e0, m) := spec (max_chunks (config s)) (db s) o in
  content_addressed (db s') /\ config s' = config s /\
  ((e = e0 /\ db s' = m) \/
   (failed e = true /\ (exists c, fails c = true) /\
    (db s' = db s \/ (fails Join = true /\ db s' = m)))).
Proof.
  assert (refines fails s s' e (spec (max_chunks (config s)) (db s) o)) as Hr.
  { destruct o as [a c|a|a]; cbn [exec] in Hx.
    - destruct (put fails s a c) eqn:E. injection Hx as <- <-. eapply put_refines; eauto.
    - destruct (get fails s a) eqn:E. injection Hx as <- <-. eapply get_refines; eauto.
    - destruct (delete fails s a) eqn:E. injection Hx as <- <-. eapply delete_refines; eauto. }
  destruct (spec (max_chunks (config s)) (db s) o) as [e0 m]. exact Hr.
Qed.

Definition sample_content : bytes := [x01; x02; x03].
Definition sample_store (max : Z) : LmdbStorage :=
  mkStorage ∅ (mkStorageConfig "" true max 0) StorageStats_default.
Definition no_faults (c : db_call) : bool := false.

Lemma storage_refines_map_witness :
  let a := compute_address sample_content in
  let s := sample_store 1 in
  exists e s', exec no_faults s (OpPut a sample_content) = (e, s') /\
    e = EvPut a (Ok true) /\ db s' = <[a := sample_content]> ∅ /\ content_addressed (db s').
Proof.
  cbv zeta. set (a := compute_address sample_content).
  destruct (exec no_faults (sample_store 1) (OpPut a sample_content)) as [e s'] eqn:E.
  pose proof (storage_refines_map no_faults (sample_store 1) s' (OpPut a sample_content) e
    (map_Forall_empty _) E) as Hr.
  cbn [spec sample_store db config max_chunks] in Hr.
  rewrite (bool_decide_true (compute_address sample_content = a)) in Hr by reflexivity.
  rewrite lookup_empty, (bool_decide_false (is_Some None)) in Hr by apply is_Some_None.
  cbn in Hr. exists e, s'. split; [reflexivity|].
  destruct Hr as (Hc & _ & [[-> Hd] | (_ & (c & Hf) & _)]); [auto | discriminate].
Defined.

(** C12: However calls from any number of tasks interleave, and whatever calls
    into LMDB fail or lose their results, every stored chunk stays under the hash
    of its content, the number of chunks never exceeds [max_chunks], and every
    content a [get] returned hashes to the address it was asked for. *)
Theorem storage_interleavings_safe `{Blake3} (s : LmdbStorage) (s' : system)
    (Hc : content_addressed (db s)) (Hm : within_capacity (max_chunks (config s)) (db s))
    (Hr : rtc step (mkSystem s [] []) s') :
  content_addressed (db (store s')) /\
  within_capacity (max_chunks (config s)) (db (store s')) /\
  forall a content, EvGet a (Ok (Some content)) ∈ history s' -> compute_address content = a.
Proof.
  destruct (reachable_safe s s' Hr Hc Hm) as [_ Hc' Hm' _ Hh].
  repeat split; [assumption.. |]. intros a content Hin.
  exact (proj1 (Forall_forall event_ok _) Hh _ Hin).
Qed.

(** A run in which two tasks put the same chunk: both pass the first check, and
    both then open a write transaction. *)
Definition racing_puts (a : XorName) (c : bytes) : system :=
  let s1 := set_db (sample_store 1) {[a := c]} in
  mkSystem (add_duplicate (add_stored s1 (lenZ c))) [] [EvPut a (Ok true); EvPut a (Ok false)].

Lemma racing_puts_reachable `{Blake3} c (a := compute_address c) :
  rtc step (mkSystem (sample_store 1) [] []) (racing_puts a c).
Proof.
  assert (bool_decide (compute_address c = a) = true) as Ha by (apply bool_decide_true; reflexivity).
  eapply rtc_l; [apply (step_call _ _ _ (JPut a c)); constructor|].
  eapply rtc_l; [apply (step_call _ _ _ (JPut a c)); constructor|].
  eapply rtc_l; [eapply (step_yield no_faults _ _ _ _ 0%nat); [reflexivity|];
    cbn [resume]; unfold put_check; rewrite Ha; reflexivity|].
  eapply rtc_l; [eapply (step_yield no_faults _ _ _ _ 1%nat); [reflexivity|];
    cbn [resume]; unfold put_check; rewrite Ha; reflexivity|].
  eapply rtc_l; [eapply (step_yield no_faults _ _ _ _ 0%nat); reflexivity|].
  eapply rtc_l; [eapply (step_yield no_faults _ _ _ _ 1%nat); [reflexivity|];
    cbn [resume]; unfold put_write, put_txn; cbn -[insert lookup empty];
    rewrite lookup_insert_eq, (bool_decide_true (is_Some (Some c))) by eauto; reflexivity|].
  eapply rtc_l; [eapply (step_return no_faults _ _ _ _ 0%nat); reflexivity|].
  eapply rtc_l; [eapply (step_return no_faults _ _ _ _ 0%nat); reflexivity|].
  apply rtc_refl.
Qed.

Lemma storage_interleavings_safe_witness :
  let a := compute_address sample_content in
  content_addressed (db (store (racing_puts a sample_content))) /\
  within_capacity 1 (db (store (racing_puts a sample_content))).
Proof.
  cbv zeta. pose proof (storage_interleavings_safe (sample_store 1) _ (map_Forall_empty _)
    (fun _ => ltac:(vm_compute; discriminate)) (racing_puts_reachable sample_content)) as (H1 & H2 & _).
  split; [exact H1 | exact H2].
Defined.

(** However puts and gets interleave and whatever fails, as long as nothing
    is deleted at most one [put] of an address reports a newly stored chunk, none
    does when the chunk was there at the start, and a [put] that was acknowledged,
    as new or as a duplicate, is durable: the chunk is in the store from then
    on. *)
Theorem new_chunk_reported_once `{Blake3} (s : LmdbStorage) (s' : system)
    (Hr : rtc step (mkSystem s [] []) s') (Hnd : no_deletes s') (a : XorName) :
  (sum_list_with (new_event a) (history s') + (if bool_decide (is_Some (db s !! a)) then 1 else 0)
     <= 1)%nat /\
  forall b, EvPut a (Ok b) ∈ history s' -> is_Some (db (store s') !! a).
Proof.
  destruct (reachable_once s s' Hr Hnd a) as [Hc Ha]. split.
  - unfold credit, stored in Hc. destruct (bool_decide (is_Some (db (store s') !! a))); lia.
  - intros b Hin. apply Ha. right. apply list_elem_of_fmap. exists (EvPut a (Ok b)). auto.
Qed.

Lemma new_chunk_reported_once_witness :
  let a := compute_address sample_content in
  no_deletes (racing_puts a sample_content) /\
  sum_list_with (new_event a) (history (racing_puts a sample_content)) = 1%nat /\
  is_Some (db (store (racing_puts a sample_content)) !! a).
Proof.
  cbv zeta. assert (no_deletes (racing_puts (compute_address sample_content) sample_content)) as Hn.
  { split; [apply Forall_nil_2 | repeat constructor]. }
  pose proof (new_chunk_reported_once (sample_store 1) _ (racing_puts_reachable sample_content) Hn
    (compute_address sample_content)) as [_ Hd].
  split; [exact Hn|]. split; [vm_compute; reflexivity|]. apply (Hd true). cbn. left.
Defined.
