(* ===== verification/Release.v ===== *)
(** * Finding upgrades

    [ant-node/src/upgrade]: [monitor.rs] (choosing a release, waiting for the
    rollout delay), [rollout.rs] (the delay), [release_cache.rs] (the shared cache
    of the release list) and the upgrade task of [RunningNode::run] in [node.rs].
    Instants and durations are in nanoseconds.  The semver crate is the interface
    [Semver]; the HTTP client, the clocks, the lock and the cache file as other
    nodes leave it are the fields of a [poll]. *)

From Stdlib Require Import ZArith Lia Strings.Ascii Strings.String Strings.Byte.
From stdpp Require Import base decidable list strings.
From S2P Require Import Prelude Float64 Interfaces Cipher Reference Storage.

Local Open Scope Z_scope.

(** ** semver

    [version_cmp] is [Ord::cmp], a total order that agrees with [==]. *)

Class Semver := {
  Version : Type;
  #[global] version_eq_dec :: EqDecision Version;
  version_cmp : Version -> Version -> comparison;
  version_parse : string -> option Version;
  version_to_string : Version -> string;
  version_pre_is_empty : Version -> bool
}.

Class SemverLaws `{Semver} : Prop := {
  version_cmp_eq a b : version_cmp a b = Eq <-> a = b;
  version_cmp_opp a b : version_cmp b a = CompOpp (version_cmp a b);
  version_cmp_trans a b c :
    version_cmp a b = Gt -> version_cmp b c <> Lt -> version_cmp a c = Gt
}.

(** ** Strings of the standard library

    A [str] is a [string] of UTF-8 bytes.  [to_lowercase] is used only before
    comparing suffixes made of ASCII letters; outside ASCII it leaves the bytes. *)

Fixpoint str_contains (s pat : string) : bool :=
  String.prefix pat s ||
  match s with EmptyString => false | String _ s' => str_contains s' pat end.

Definition str_ends_with (s suffix : string) : bool :=
  (String.length suffix <=? String.length s)%nat &&
  String.eqb (String.substring (String.length s - String.length suffix) (String.length suffix) s) suffix.

Definition ascii_lower (c : ascii) : ascii :=
  let n := nat_of_ascii c in
  if (65 <=? n)%nat && (n <=? 90)%nat then ascii_of_nat (n + 32) else c.

Fixpoint to_lowercase (s : string) : string :=
  match s with EmptyString => EmptyString | String c s' => String (ascii_lower c) (to_lowercase s') end.

Fixpoint str_codes (n : nat) (s : string) : list N :=
  match n, s with S n, String c s' => Ascii.N_of_ascii c :: str_codes n s' | _, _ => [] end.

(** The length of the white space character that a text starts with, or 0. *)
Definition white_len (s : string) : nat :=
  match str_codes 3 s with
  | 0xC2 :: d :: _ => if (d =? 0x85) || (d =? 0xA0) then 2%nat else 0%nat
  | [0xE1; 0x9A; 0x80] | [0xE2; 0x81; 0x9F] | [0xE3; 0x80; 0x80] => 3%nat
  | [0xE2; 0x80; d] =>
      if (0x80 <=? d) && (d <=? 0x8A) || (d =? 0xA8) || (d =? 0xA9) || (d =? 0xAF) then 3%nat else 0%nat
  | c :: _ => if (c =? 32) || (9 <=? c) && (c <=? 13) then 1%nat else 0%nat
  | [] => 0%nat
  end%N.

Fixpoint str_drop (n : nat) (s : string) : string :=
  match n, s with S n, String _ s' => str_drop n s' | _, _ => s end.

(** [trim], with the length as fuel. *)
Fixpoint skip_white (fuel : nat) (s : string) : string :=
  match fuel, white_len s with S fuel, S n => skip_white fuel (str_drop (S n) s) | _, _ => s end.

Definition trim_start (s : string) : string := skip_white (String.length s) s.

Fixpoint trim_end (s : string) : string :=
  match s with
  | EmptyString => EmptyString
  | String c s' => if String.eqb (trim_start s) EmptyString then EmptyString else String c (trim_end s')
  end.

Definition str_trim (s : string) : string := trim_end (trim_start s).

Definition str_to_bytes (s : string) : bytes := String.list_byte_of_string s.

(** [std::env::consts], and [cfg(windows)]. *)
Record Platform := mkPlatform { arch : string; os : string }.
Definition is_windows (p : Platform) : bool := String.eqb (os p) "windows".

(** ** Releases *)

Record Asset := mkAsset { asset_name : string; browser_download_url : string }.

Record GitHubRelease := mkRelease {
  tag_name : string;
  release_name : string;
  release_body : string;
  prerelease : bool;
  assets : list Asset
}.

Inductive UpgradeChannel := Stable | Beta.
#[export] Instance UpgradeChannel_eq_dec : EqDecision UpgradeChannel.
Proof. solve_decision. Defined.

Definition is_binary_asset (p : Platform) (name : string) : bool :=
  let lower := to_lowercase name in
  if existsb (str_ends_with lower)
       [".sig"; ".sha256"; ".md5"; ".txt"; ".md"; ".deb"; ".rpm"; ".msi"]%string then false
  else if str_ends_with lower ".tar.gz" || str_ends_with lower ".zip" then true
  else if is_windows p && negb (str_ends_with lower ".exe") then false
  else true.

Definition build_platform_patterns (arch os : string) : list string :=
  let arch_patterns :=
    (if String.eqb arch "x86_64" then ["x86_64"; "amd64"; "x64"]
     else if String.eqb arch "aarch64" then ["aarch64"; "arm64"]
     else if String.eqb arch "x86" then ["i686"; "i386"; "x86"]
     else [arch])%string in
  let os_patterns :=
    (if String.eqb os "linux" then ["linux"; "unknown-linux-gnu"; "linux-gnu"]
     else if String.eqb os "macos" then ["darwin"; "macos"; "apple-darwin"]
     else if String.eqb os "windows" then ["windows"; "pc-windows-msvc"; "win64"]
     else [os])%string in
  (arch_patterns ≫= fun arch_pat => os_patterns ≫= fun os_pat =>
     [arch_pat +:+ "-" +:+ os_pat; os_pat +:+ "-" +:+ arch_pat]%string) ++ arch_patterns.

(** A [for] loop that returns the first [Some]. *)
Fixpoint first_some {A B} (f : A -> option B) (l : list A) : option B :=
  match l with
  | [] => None
  | a :: l' => match f a with Some b => Some b | None => first_some f l' end
  end.

Definition find_platform_asset (p : Platform) (assets : list Asset) : option Asset :=
  first_some (fun pattern =>
      find (fun a => str_contains (asset_name a) pattern && is_binary_asset p (asset_name a)) assets)
    (build_platform_patterns (arch p) (os p)).

Definition strip_v (tag : string) : string :=
  match tag with String "v" rest => rest | _ => tag end.

Section Versions.
Context `{Semver}.

Record UpgradeInfo := mkUpgradeInfo {
  version : Version;
  download_url : string;
  signature_url : string;
  release_notes : string
}.

Definition version_from_tag (tag : string) : option Version := version_parse (strip_v tag).

(** [a > b]; [a <= b] is its negation. *)
Definition version_gt (a b : Version) : bool :=
  match version_cmp a b with Gt => true | _ => false end.

Definition version_matches_channel (channel : UpgradeChannel) (v : Version) : bool :=
  match channel with Stable => version_pre_is_empty v | Beta => true end.

(** The body of the loop of [select_upgrade_from_releases] up to the candidate. *)
Definition candidate (p : Platform) (current_version : Version) (channel : UpgradeChannel)
    (release : GitHubRelease) : option UpgradeInfo :=
  match version_from_tag (tag_name release) with
  | None => None
  | Some v =>
    if negb (version_gt v current_version) then None
    else if bool_decide (channel = Stable) && negb (version_pre_is_empty v) then None
    else
      match find_platform_asset p (assets release) with
      | None => None
      | Some binary_asset =>
        let sig_name := (asset_name binary_asset +:+ ".sig")%string in
        match find (fun a => String.eqb (asset_name a) sig_name) (assets release) with
        | None => None
        | Some sig_asset =>
            Some (mkUpgradeInfo v (browser_download_url binary_asset)
                    (browser_download_url sig_asset) (release_body release))
        end
      end
  end.

Definition keep_newer (p : Platform) (current_version : Version) (channel : UpgradeChannel)
    (best : option UpgradeInfo) (release : GitHubRelease) : option UpgradeInfo :=
  match candidate p current_version channel release with
  | None => best
  | Some c =>
      let should_replace := match best with None => true | Some b => version_gt (version c) (version b) end in
      if should_replace then Some c else best
  end.

Definition select_upgrade_from_releases (p : Platform) (releases : list GitHubRelease)
    (current_version : Version) (channel : UpgradeChannel) : option UpgradeInfo :=
  fold_left (keep_newer p current_version channel) releases None.

(** [process_release]: the same decision for one release. *)
Definition process_release (p : Platform) (current_version : Version) (channel : UpgradeChannel)
    (release : GitHubRelease) : option UpgradeInfo :=
  latest_version ← version_from_tag (tag_name release);
  if negb (version_gt latest_version current_version) then None
  else if negb (version_matches_channel channel latest_version) then None
  else
    binary_asset ← find_platform_asset p (assets release);
    let sig_name := (asset_name binary_asset +:+ ".sig")%string in
    sig_asset ← find (fun a => String.eqb (asset_name a) sig_name) (assets release);
    Some (mkUpgradeInfo latest_version (browser_download_url binary_asset)
            (browser_download_url sig_asset) (release_body release)).

Lemma process_release_candidate p cur channel r :
  process_release p cur channel r = candidate p cur channel r.
Proof.
  unfold process_release, candidate. destruct (version_from_tag _) as [v|]; [|reflexivity]. cbn.
  destruct (negb (version_gt v cur)); [reflexivity|].
  assert (negb (version_matches_channel channel v) =
          bool_decide (channel = Stable) && negb (version_pre_is_empty v)) as -> by (destruct channel; reflexivity).
  destruct (_ && _); [reflexivity|]. destruct (find_platform_asset _ _) as [a|]; [|reflexivity]. cbn.
  destruct (find _ _); reflexivity.
Qed.

(** ** The newest eligible release *)

Definition newest (p : Platform) (cur : Version) (channel : UpgradeChannel) (releases : list GitHubRelease)
    (info : UpgradeInfo) : Prop :=
  (exists r, r ∈ releases /\ candidate p cur channel r = Some info) /\
  forall r c, r ∈ releases -> candidate p cur channel r = Some c -> version_gt (version c) (version info) = false.

Lemma candidate_newer p cur channel r info :
  candidate p cur channel r = Some info ->
  version_gt (version info) cur = true /\ version_matches_channel channel (version info) = true.
Proof.
  unfold candidate. destruct (version_from_tag _) as [v|]; [|discriminate].
  destruct (version_gt v cur) eqn:Ev; cbn [negb]; [|discriminate].
  destruct (bool_decide (channel = Stable) && _) eqn:Ec; [discriminate|].
  destruct (find_platform_asset _ _); [|discriminate]. destruct (find _ _); [|discriminate].
  intros [= <-]. split; [exact Ev|]. cbn [version].
  destruct channel; [|reflexivity]. cbn in *. by apply negb_false_iff in Ec.
Qed.

Context `{!SemverLaws}.

Lemma version_gt_trans a b c : version_gt a b = true -> version_gt c b = false -> version_gt a c = true.
Proof.
  unfold version_gt. intros Hab Hcb. rewrite (version_cmp_trans a b c); [reflexivity | by destruct (version_cmp a b) |].
  rewrite version_cmp_opp. destruct (version_cmp c b); [discriminate.. |]; discriminate.
Qed.

Lemma version_gt_irrefl a : version_gt a a = false.
Proof. unfold version_gt. by rewrite (proj2 (version_cmp_eq a a) eq_refl). Qed.

(** The loop keeps the newest of the candidates seen. *)
Lemma keep_newer_spec p cur channel releases best :
  match fold_left (keep_newer p cur channel) releases best with
  | None => best = None /\ forall r, r ∈ releases -> candidate p cur channel r = None
  | Some info =>
      (best = Some info \/ exists r, r ∈ releases /\ candidate p cur channel r = Some info) /\
      (forall b, best = Some b -> version_gt (version b) (version info) = false) /\
      (forall r c, r ∈ releases -> candidate p cur channel r = Some c ->
         version_gt (version c) (version info) = false)
  end.
Proof.
  revert best. induction releases as [|r releases IH]; intros best; cbn [fold_left].
  { destruct best as [b|]; [|split; [reflexivity | intros ? []%elem_of_nil]].
    split; [auto|]. split; [intros ? [= <-]; apply version_gt_irrefl | intros ? ? []%elem_of_nil]. }
  specialize (IH (keep_newer p cur channel best r)).
  destruct (fold_left _ releases _) as [info|].
  - destruct IH as (Hin & Hb & Hall). unfold keep_newer in *.
    destruct (candidate p cur channel r) as [c|] eqn:Ec.
    + assert (version_gt (version c) (version info) = false /\
              forall b, best = Some b -> version_gt (version b) (version info) = false) as [Hc Hbest].
      { destruct best as [b|]; [|split; [by apply Hb | discriminate]].
        destruct (version_gt (version c) (version b)) eqn:E; specialize (Hb _ eq_refl).
        - split; [exact Hb|]. intros ? [= <-]. destruct (version_gt (version b) (version info)) eqn:E2; [|reflexivity].
          rewrite (version_gt_trans (version c) (version b) (version info)) in Hb; [discriminate | exact E |].
          unfold version_gt in *. rewrite version_cmp_opp. destruct (version_cmp (version b) _); try discriminate. reflexivity.
        - split; [|intros ? [= <-]; exact Hb]. destruct (version_gt (version c) (version info)) eqn:E2; [|reflexivity].
          rewrite (version_gt_trans (version c) (version info) (version b)) in E; [discriminate | exact E2 | exact Hb]. }
      split; [|split; [exact Hbest|]].
      * destruct Hin as [Hin | (r' & Hr & He)]; [|right; exists r'; split; [by right | exact He]].
        destruct (match best with None => true | Some b => version_gt (version c) (version b) end);
          [injection Hin as <-; right; exists r; split; [by left | exact Ec] | left; exact Hin].
      * intros r' c' [->|Hr]%elem_of_cons He; [congruence | exact (Hall _ _ Hr He)].
    + split; [|split; [exact Hb|]].
      * destruct Hin as [Hin | (r' & Hr & He)]; [left; exact Hin | right; exists r'; split; [by right | exact He]].
      * intros r' c' [->|Hr]%elem_of_cons He; [congruence | exact (Hall _ _ Hr He)].
  - destruct IH as (Hn & Hall). unfold keep_newer in Hn. destruct (candidate p cur channel r) as [c|] eqn:Ec.
    + destruct best as [b|]; [destruct (version_gt _ _) in Hn|]; discriminate.
    + split; [exact Hn|]. intros r' [->|Hr]%elem_of_cons; [exact Ec | exact (Hall _ Hr)].
Qed.

Lemma select_spec p cur channel releases :
  match select_upgrade_from_releases p releases cur channel with
  | Some info => newest p cur channel releases info
  | None => forall r, r ∈ releases -> candidate p cur channel r = None
  end.
Proof.
  unfold select_upgrade_from_releases. pose proof (keep_newer_spec p cur channel releases None) as H1.
  destruct (fold_left _ _ _) as [info|]; [|tauto]. destruct H1 as ([H1|H1] & _ & H2); [discriminate|].
  split; assumption.
Qed.

(** Two newest releases of a list have the same version. *)
Lemma newest_version p cur channel releases i1 i2 :
  newest p cur channel releases i1 -> newest p cur channel releases i2 -> version i1 = version i2.
Proof.
  intros [(r1 & Hr1 & H1) Hm1] [(r2 & Hr2 & H2) Hm2].
  pose proof (Hm1 _ _ Hr2 H2) as Ha. pose proof (Hm2 _ _ Hr1 H1) as Hb. unfold version_gt in *.
  rewrite version_cmp_opp in Ha. apply version_cmp_eq. destruct (version_cmp (version i1) _); [reflexivity | discriminate..].
Qed.

End Versions.

(** ** The rollout delay

    Durations are in nanoseconds. *)

Definition SECOND : Z := 10 ^ 9.
Definition HOUR : Z := 3600 * SECOND.

Record StagedRollout := mkRollout { max_delay_hours : Z; node_id_hash : bytes }.

Section Rollout.
Context `{Blake3}.

Definition rollout_new (node_id : bytes) (max_delay_hours : Z) : StagedRollout :=
  mkRollout max_delay_hours (blake3_hash node_id).

(** The first eight bytes of a hash as a fraction of [u64::MAX], of the window. *)
Definition delay_secs (hash : bytes) (max_delay_hours : Z) : Z :=
  let hash_value := from_le (take 8 hash) in
  let max_delay_secs := max_delay_hours * 3600 mod 2 ^ 64 in
  let delay_fraction := f64_div (f64_of_Z hash_value) (f64_of_Z u64_max) in
  u64_of_f64 (f64_mul delay_fraction (f64_of_Z max_delay_secs)).

Definition calculate_delay (r : StagedRollout) : Z :=
  if max_delay_hours r =? 0 then 0 else delay_secs (node_id_hash r) (max_delay_hours r) * SECOND.

Definition is_enabled (r : StagedRollout) : bool := 0 <? max_delay_hours r.

Context `{Semver}.

Definition calculate_delay_for_version (r : StagedRollout) (v : Version) : Z :=
  if max_delay_hours r =? 0 then 0
  else
    let hash_result := blake3_hash (node_id_hash r ++ str_to_bytes (version_to_string v)) in
    delay_secs hash_result (max_delay_hours r) * SECOND.

(** No delay is longer than the window. *)
Lemma delay_secs_le hash h : 0 <= h -> h * 3600 < 2 ^ 53 -> 0 <= delay_secs hash h <= h * 3600.
Proof.
  intros Hh Hw. unfold delay_secs. rewrite (Z.mod_small (h * 3600)) by lia.
  apply f64_fraction_le; [|lia]. pose proof (from_le_range (take 8 hash)) as Hr.
  assert (256 ^ lenZ (take 8 hash) <= 2 ^ 64); [|lia]. change 256 with (2 ^ 8).
  rewrite <- Z.pow_mul_r by auto with ant lia. apply Z.pow_le_mono_r; [lia|].
  unfold lenZ. rewrite length_take. lia.
Qed.

Lemma delay_within_window r v : 0 <= max_delay_hours r -> max_delay_hours r * 3600 < 2 ^ 53 ->
  0 <= calculate_delay_for_version r v <= max_delay_hours r * HOUR.
Proof.
  intros Hh Hw. unfold calculate_delay_for_version, HOUR.
  destruct (max_delay_hours r =? 0) eqn:E; b2p; [rewrite E; lia|].
  pose proof (delay_secs_le (blake3_hash (node_id_hash r ++ str_to_bytes (version_to_string v))) _ Hh Hw).
  unfold SECOND. lia.
Qed.

End Rollout.

(** ** The release cache

    The cache file is one JSON file; the mirrors [CachedRelease] and [CachedAsset]
    are what is stored in it. *)

Record CachedAsset := mkCachedAsset { c_asset_name : string; c_download_url : string }.

Record CachedRelease := mkCachedRelease {
  c_tag_name : string;
  c_release_name : string;
  c_body : string;
  c_prerelease : bool;
  c_assets : list CachedAsset
}.

Record CachedReleases := mkCachedReleases {
  c_repo : string;
  fetched_at_epoch_secs : Z;
  c_releases : list CachedRelease
}.

Definition cached_asset (a : Asset) : CachedAsset := mkCachedAsset (asset_name a) (browser_download_url a).
Definition asset_from_cached (c : CachedAsset) : Asset := mkAsset (c_asset_name c) (c_download_url c).

Definition cached_release (r : GitHubRelease) : CachedRelease :=
  mkCachedRelease (tag_name r) (release_name r) (release_body r) (prerelease r) (cached_asset <$> assets r).
Definition release_from_cached (c : CachedRelease) : GitHubRelease :=
  mkRelease (c_tag_name c) (c_release_name c) (c_body c) (c_prerelease c) (asset_from_cached <$> c_assets c).

Record ReleaseCache := mkReleaseCache { ttl : Z }.

(** How a write ends: the rename of the temporary file comes after the removal
    of the old one. *)
Inductive cache_write := CacheWritten | TmpFailed | RenameFailed.

Section Cache.
Context `{!Codec serde_json CachedReleases}.

(** [file] is the content of the cache file, [None] when it cannot be read;
    [epoch_secs] is the system clock, [None] before the epoch. *)
Definition read_if_valid (c : ReleaseCache) (repo : string) (file : option bytes) (epoch_secs : option Z)
    : option (list GitHubRelease) :=
  data ← file;
  cached ← de serde_json (A := CachedReleases) data;
  if negb (String.eqb (c_repo cached) repo) then None
  else
    now ← epoch_secs;
    let age_secs := sat_sub now (fetched_at_epoch_secs cached) in
    if ttl c / SECOND <=? age_secs then None
    else Some (release_from_cached <$> c_releases cached).

(** [write_inner]: the result and the content of the file afterwards. *)
Definition write_inner (repo : string) (releases : list GitHubRelease) (epoch_secs : option Z)
    (w : cache_write) (file : option bytes) : result NodeError unit * option bytes :=
  match epoch_secs with
  | None => (Err (UpgradeError "System clock error: {e}"), file)
  | Some now =>
    match ser serde_json (mkCachedReleases repo now (cached_release <$> releases)) with
    | None => (Err (UpgradeError "Failed to serialize release cache: {e}"), file)
    | Some json =>
      match w with
      | CacheWritten => (Ok tt, Some json)
      | TmpFailed => (Err (IoError "I/O error"), file)
      | RenameFailed => (Err (IoError "I/O error"), None)
      end
    end
  end.

Lemma release_from_cached_release r : release_from_cached (cached_release r) = r.
Proof.
  destruct r as [t n b p l]. unfold release_from_cached, cached_release. cbn. f_equal.
  rewrite <- list_fmap_compose. rewrite <- (list_fmap_id l) at 2. apply list_fmap_ext.
  intros ? [] _. reflexivity.
Qed.

(** What one node writes another reads back for the time to live, and only for
    the same repository. *)
Lemma read_written `{!CodecLaws serde_json CachedReleases} c repo repo' releases now now' file :
  let '(r, file') := write_inner repo releases (Some now) CacheWritten file in
  r = Ok tt -> 0 <= ttl c ->
  read_if_valid c repo' file' (Some now') =
    if String.eqb repo repo' && (sat_sub now' now <? ttl c / SECOND) then Some releases else None.
Proof.
  unfold write_inner. destruct (ser _ _) as [json|] eqn:E; [|discriminate]. intros _ Httl.
  unfold read_if_valid. cbn. rewrite (ser_de _ _ E). cbn.
  destruct (String.eqb repo repo'); [|reflexivity]. cbn.
  destruct (_ <=? _) eqn:E1, (_ <? _) eqn:E2; b2p; try lia; [reflexivity|].
  f_equal. rewrite <- list_fmap_compose. rewrite <- (list_fmap_id releases) at 2.
  apply list_fmap_ext. intros ? r _. apply release_from_cached_release.
Qed.

End Cache.

(** ** The monitor *)

Section Monitor.
Context `{Blake3, Semver, !Codec serde_json CachedReleases}.

Record UpgradeMonitor := mkMonitor {
  repo : string;
  channel : UpgradeChannel;
  check_interval : Z;
  current_version : Version;
  staged_rollout : option StagedRollout;
  release_cache : option ReleaseCache;
  pending_upgrade_detected : option Z;
  pending_upgrade_version : option Version
}.

(** [pkg_version] is the compiled-in version; [zero] is [Version::new(0, 0, 0)]. *)
Definition monitor_new (pkg_version : string) (zero : Version) (repo : string) (channel : UpgradeChannel)
    (check_interval_hours : Z) : UpgradeMonitor :=
  mkMonitor repo channel (check_interval_hours * 3600 * SECOND)
    (default zero (version_parse pkg_version)) None None None None.

Definition with_release_cache (m : UpgradeMonitor) (cache : ReleaseCache) : UpgradeMonitor :=
  mkMonitor (repo m) (channel m) (check_interval m) (current_version m) (staged_rollout m) (Some cache)
    (pending_upgrade_detected m) (pending_upgrade_version m).

Definition with_staged_rollout (m : UpgradeMonitor) (node_id : bytes) (max_delay_hours : Z) : UpgradeMonitor :=
  if 0 <? max_delay_hours then
    mkMonitor (repo m) (channel m) (check_interval m) (current_version m)
      (Some (rollout_new node_id max_delay_hours)) (release_cache m)
      (pending_upgrade_detected m) (pending_upgrade_version m)
  else m.

Definition set_pending (m : UpgradeMonitor) (detected : option Z) (v : option Version) : UpgradeMonitor :=
  mkMonitor (repo m) (channel m) (check_interval m) (current_version m) (staged_rollout m) (release_cache m)
    detected v.

(** The configuration of a node's upgrades, with its defaults ([config.rs]). *)
Record UpgradeConfig := mkUpgradeConfig {
  upgrade_channel : UpgradeChannel;
  check_interval_hours : Z;
  github_repo : string;
  staged_rollout_hours : Z;
  stop_on_upgrade : bool
}.

Definition UpgradeConfig_default : UpgradeConfig :=
  mkUpgradeConfig Stable 1 "WithAutonomi/ant-node" 24 false.

(** [cache_dir] says whether [upgrade_cache_dir] succeeded. *)
Definition build_upgrade_monitor (pkg_version : string) (zero : Version) (config : UpgradeConfig)
    (node_id_seed : bytes) (cache_dir : bool) : UpgradeMonitor :=
  let m := monitor_new pkg_version zero (github_repo config) (upgrade_channel config)
             (check_interval_hours config) in
  let m := if cache_dir then with_release_cache m (mkReleaseCache (3600 * SECOND)) else m in
  if 0 <? staged_rollout_hours config then with_staged_rollout m node_id_seed (staged_rollout_hours config) else m.

(** What a check meets: the cache file and the clock at the first read and again
    under the lock, the lock, the answer of the API, the clock and the end of the
    write, and the instants at which a new version is noted and the time since
    then is read. *)
Record poll := mkPoll {
  file_first : option bytes;
  epoch_first : option Z;
  lock : result NodeError unit;
  file_locked : option bytes;
  epoch_locked : option Z;
  api : result NodeError (list GitHubRelease);
  epoch_write : option Z;
  write_end : cache_write;
  noted_at : Z;
  elapsed_at : Z
}.

Context (p : Platform).

(** The result, and the content of the cache file afterwards. *)
Definition check_for_updates (m : UpgradeMonitor) (w : poll)
    : result NodeError (option UpgradeInfo) * option bytes :=
  let select releases := select_upgrade_from_releases p releases (current_version m) (channel m) in
  match release_cache m with
  | Some cache =>
    match read_if_valid cache (repo m) (file_first w) (epoch_first w) with
    | Some cached_releases => (Ok (select cached_releases), file_first w)
    | None =>
      match lock w with
      | Err e => (Err e, file_locked w)
      | Ok _ =>
        match read_if_valid cache (repo m) (file_locked w) (epoch_locked w) with
        | Some cached_releases => (Ok (select cached_releases), file_locked w)
        | None =>
          match api w with
          | Err e => (Err e, file_locked w)
          | Ok releases =>
              let '(_, file) := write_inner (repo m) releases (epoch_write w) (write_end w) (file_locked w) in
              (Ok (select releases), file)
          end
        end
      end
    end
  | None => (select <$> api w, file_first w)
  end.

Definition check_for_ready_upgrade (m : UpgradeMonitor) (w : poll)
    : result NodeError (option UpgradeInfo) * UpgradeMonitor :=
  match (check_for_updates m w).1 with
  | Err e => (Err e, m)
  | Ok None => (Ok None, set_pending m None None)
  | Ok (Some info) =>
    match staged_rollout m with
    | None => (Ok (Some info), m)
    | Some rollout =>
      let is_new_version :=
        match pending_upgrade_version m with None => true | Some v => negb (bool_decide (v = version info)) end in
      let m := if is_new_version then set_pending m (Some (noted_at w)) (Some (version info)) else m in
      match pending_upgrade_detected m with
      | None => (Ok (Some info), m)
      | Some detected_at =>
        let delay := calculate_delay_for_version rollout (version info) in
        let elapsed := sat_sub (elapsed_at w) detected_at in
        if delay <=? elapsed then (Ok (Some info), m) else (Ok None, m)
      end
    end
  end.

Definition time_until_upgrade (m : UpgradeMonitor) (now : Z) : option Z :=
  rollout ← staged_rollout m;
  v ← pending_upgrade_version m;
  detected_at ← pending_upgrade_detected m;
  let delay := calculate_delay_for_version rollout v in
  let elapsed := sat_sub now detected_at in
  Some (if delay <=? elapsed then 0 else sat_sub delay elapsed).

(** ** The upgrade task of a node *)

Inductive UpgradeResult :=
| Success (v : Version) (exit_code : Z)
| RolledBack (reason : string)
| NoUpgrade.

(** [gen_range(0..=variance * 2)] is [jitter] reduced to the range. *)
Definition jittered_interval (base jitter : Z) : Z :=
  let secs := base / SECOND in
  let variance := secs / 20 in
  if variance =? 0 then base
  else (sat_sub secs variance + jitter mod (variance * 2 + 1)) * SECOND.

(** One turn of the loop: the check, what applying an upgrade gives, the instant
    at which the remaining time is read, and the random number drawn. *)
Record round := mkRound {
  rd_poll : poll;
  rd_apply : UpgradeInfo -> result NodeError UpgradeResult;
  rd_end : Z;
  rd_jitter : Z
}.

Inductive next_round := Exit (exit_code : Z) | Sleep (sleep_duration : Z).

Definition upgrade_round (m : UpgradeMonitor) (rd : round) : next_round * UpgradeMonitor :=
  let '(r, m) := check_for_ready_upgrade m (rd_poll rd) in
  let applied := match r with Ok (Some info) => Some (rd_apply rd info) | _ => None end in
  match applied with
  | Some (Ok (Success _ exit_code)) => (Exit exit_code, m)
  | _ =>
    let sleep_duration :=
      match time_until_upgrade m (rd_end rd) with
      | None => jittered_interval (check_interval m) (rd_jitter rd)
      | Some remaining =>
          if remaining =? 0 then jittered_interval (check_interval m) (rd_jitter rd) else remaining
      end in
    (Sleep sleep_duration, m)
  end.

(** The task over the given rounds: its exit code, or [None] while it runs. *)
Fixpoint upgrade_task (m : UpgradeMonitor) (rounds : list round) : option Z * UpgradeMonitor :=
  match rounds with
  | [] => (None, m)
  | rd :: rounds' =>
    match upgrade_round m rd with
    | (Exit exit_code, m) => (Some exit_code, m)
    | (Sleep _, m) => upgrade_task m rounds'
    end
  end.

(** ** Facts *)

(** The list of releases a check works on. *)
Definition obtained (m : UpgradeMonitor) (w : poll) : result NodeError (list GitHubRelease) :=
  match release_cache m with
  | None => api w
  | Some cache =>
    match read_if_valid cache (repo m) (file_first w) (epoch_first w) with
    | Some releases => Ok releases
    | None =>
      _ ← lock w;
      match read_if_valid cache (repo m) (file_locked w) (epoch_locked w) with
      | Some releases => Ok releases
      | None => api w
      end
    end
  end.

Lemma check_obtained m w :
  (check_for_updates m w).1 =
  (fun releases => select_upgrade_from_releases p releases (current_version m) (channel m)) <$> obtained m w.
Proof.
  unfold check_for_updates, obtained. destruct (release_cache m) as [c|]; [|reflexivity].
  destruct (read_if_valid c _ _ _); [reflexivity|]. destruct (lock w); [|reflexivity].
  destruct (read_if_valid c _ _ _); [reflexivity|]. destruct (api w); [|reflexivity].
  destruct (write_inner _ _ _ _ _). reflexivity.
Qed.

(** What no round changes. *)
Definition same_config (m m' : UpgradeMonitor) : Prop :=
  repo m' = repo m /\ channel m' = channel m /\ check_interval m' = check_interval m /\
  current_version m' = current_version m /\ staged_rollout m' = staged_rollout m /\
  release_cache m' = release_cache m.

Lemma same_config_refl m : same_config m m.
Proof. repeat split. Qed.

Lemma same_config_trans m1 m2 m3 : same_config m1 m2 -> same_config m2 m3 -> same_config m1 m3.
Proof. unfold same_config. intuition congruence. Qed.

Lemma same_config_set m d v : same_config m (set_pending m d v).
Proof. repeat split. Qed.

Lemma check_ready_config m w : same_config m (check_for_ready_upgrade m w).2.
Proof.
  unfold check_for_ready_upgrade. destruct ((check_for_updates m w).1) as [[info|]|e];
    [|apply same_config_set | apply same_config_refl].
  destruct (staged_rollout m); [|apply same_config_refl].
  set (n := match pending_upgrade_version m with None => true | Some _ => _ end). clearbody n.
  destruct n; cbn; [|destruct (pending_upgrade_detected m)]; repeat (destruct (_ <=? _)); cbn;
    first [apply same_config_set | apply same_config_refl].
Qed.

Lemma round_config m rd : same_config m (upgrade_round m rd).2.
Proof.
  unfold upgrade_round. pose proof (check_ready_config m (rd_poll rd)) as Hc.
  destruct (check_for_ready_upgrade m (rd_poll rd)) as [r m']. cbn [snd] in Hc |- *.
  destruct r as [[info|]|e]; [destruct (rd_apply rd info) as [[]|]|..]; exact Hc.
Qed.

Lemma task_config m rounds : same_config m (upgrade_task m rounds).2.
Proof.
  revert m. induction rounds as [|rd rounds IH]; intros m; cbn [upgrade_task]; [apply same_config_refl|].
  pose proof (round_config m rd) as Hc. destruct (upgrade_round m rd) as [[c|d] m']; [exact Hc|].
  exact (same_config_trans _ _ _ Hc (IH m')).
Qed.

Lemma task_app m a b :
  upgrade_task m (a ++ b) =
  match upgrade_task m a with (None, m') => upgrade_task m' b | exited => exited end.
Proof.
  revert m. induction a as [|rd a IH]; intros m; cbn [app upgrade_task]; [reflexivity|].
  destruct (upgrade_round m rd) as [[c|d] m']; [reflexivity | apply IH].
Qed.

(** Rounds on a clock that does not run backwards, each after the sleep of the
    one before. *)
Fixpoint timely (t : Z) (m : UpgradeMonitor) (rounds : list round) : Prop :=
  match rounds with
  | [] => True
  | rd :: rounds' =>
      t <= noted_at (rd_poll rd) /\ noted_at (rd_poll rd) <= elapsed_at (rd_poll rd) /\
      elapsed_at (rd_poll rd) <= rd_end rd /\
      match upgrade_round m rd with
      | (Exit _, _) => True
      | (Sleep d, m') => timely (rd_end rd + d) m' rounds'
      end
  end.

Definition pending_before (t : Z) (m : UpgradeMonitor) : Prop :=
  (forall d, pending_upgrade_detected m = Some d -> d <= t) /\
  (is_Some (pending_upgrade_version m) -> is_Some (pending_upgrade_detected m)).

Lemma jittered_bounds base j : 0 <= base -> 0 <= jittered_interval base j <= base + base / 20.
Proof.
  intros Hb. unfold jittered_interval, SECOND.
  pose proof (Z.div_pos base (10 ^ 9)). pose proof (Z.div_mod base (10 ^ 9)). pose proof (Z.mod_pos_bound base (10 ^ 9)).
  pose proof (Z.div_pos base 20). destruct (_ =? 0) eqn:E; b2p; [lia|].
  set (s := base / 10 ^ 9) in *. pose proof (Z.div_mod s 20). pose proof (Z.mod_pos_bound s 20).
  pose proof (Z.mod_pos_bound j (s / 20 * 2 + 1)). pose proof (Z.div_mod base 20). pose proof (Z.mod_pos_bound base 20).
  unfold sat_sub. lia.
Qed.

Lemma sleep_nonneg m rd d m' : 0 <= check_interval m -> upgrade_round m rd = (Sleep d, m') -> 0 <= d.
Proof.
  intros Hi. unfold upgrade_round. pose proof (check_ready_config m (rd_poll rd)) as (_ & _ & Hc & _).
  destruct (check_for_ready_upgrade m (rd_poll rd)) as [r m1]. cbn [snd] in Hc. rewrite <- Hc in Hi.
  pose proof (jittered_bounds (check_interval m1) (rd_jitter rd) Hi) as Hj.
  assert (0 <= match time_until_upgrade m1 (rd_end rd) with
               | None => jittered_interval (check_interval m1) (rd_jitter rd)
               | Some remaining => if remaining =? 0 then jittered_interval (check_interval m1) (rd_jitter rd) else remaining
               end) as Hd.
  { unfold time_until_upgrade. destruct (staged_rollout m1), (pending_upgrade_version m1), (pending_upgrade_detected m1); cbn; try lia.
    destruct (_ <=? _); cbn; [lia|]. destruct (_ =? 0); unfold sat_sub; lia. }
  destruct r as [[info|]|e]; [destruct (rd_apply rd info) as [[]|]|..]; intros [= <- <-]; exact Hd.
Qed.

Lemma ready_pending t m w :
  pending_before t m -> t <= noted_at w -> pending_before (noted_at w) (check_for_ready_upgrade m w).2.
Proof.
  intros [Hd Hv] Ht. assert (pending_before (noted_at w) m) as Hm.
  { split; [intros d Hp; specialize (Hd d Hp); lia | exact Hv]. }
  unfold check_for_ready_upgrade. destruct ((check_for_updates m w).1) as [[info|]|e]; [|split; cbn; [discriminate | intros [? [=]]] | exact Hm].
  destruct (staged_rollout m); [|exact Hm].
  set (n := match pending_upgrade_version m with None => true | Some _ => _ end). clearbody n.
  assert (pending_before (noted_at w) (set_pending m (Some (noted_at w)) (Some (version info)))) as Hs
    by (split; cbn; [intros ? [= <-]; lia | eauto]).
  destruct n; [|destruct (pending_upgrade_detected m)]; repeat (cbn; destruct (_ <=? _)); first [exact Hs | exact Hm].
Qed.

Lemma timely_app t m a b m' : 0 <= check_interval m -> pending_before t m ->
  timely t m (a ++ b) -> upgrade_task m a = (None, m') ->
  exists t', timely t' m' b /\ pending_before t' m'.
Proof.
  revert t m. induction a as [|rd a IH]; intros t m Hi Hp; cbn [app timely upgrade_task].
  { intros Ht [= <-]. eauto. }
  intros (H1 & H2 & H3 & Ht) Hr. pose proof (round_config m rd) as (_ & _ & Hc & _).
  pose proof (ready_pending t m (rd_poll rd) Hp H1) as Hq.
  assert ((upgrade_round m rd).2 = (check_for_ready_upgrade m (rd_poll rd)).2) as Hm.
  { unfold upgrade_round. destruct (check_for_ready_upgrade m (rd_poll rd)) as [[[info|]|e] m1]; [destruct (rd_apply rd info) as [[]|]|..]; reflexivity. }
  destruct (upgrade_round m rd) as [[c|d] m1] eqn:Er; [discriminate|]. cbn [snd] in Hm, Hc. subst m1.
  pose proof (sleep_nonneg _ _ _ _ Hi Er). refine (IH (rd_end rd + d) (check_for_ready_upgrade m (rd_poll rd)).2 _ _ Ht Hr); [lia|].
  destruct Hq as [Hd Hv]. split; [intros d' Hd'; specialize (Hd d' Hd'); lia | exact Hv].
Qed.

Context `{!SemverLaws}.

(** A check whose releases have a newest eligible one finds its version. *)
Lemma check_newest m w releases info :
  obtained m w = Ok releases -> newest p (current_version m) (channel m) releases info ->
  exists info', (check_for_updates m w).1 = Ok (Some info') /\ version info' = version info.
Proof.
  intros Ho Hn. rewrite check_obtained, Ho. cbn.
  pose proof (select_spec p (current_version m) (channel m) releases) as Hs.
  destruct (select_upgrade_from_releases _ _ _ _) as [info'|].
  - exists info'. split; [reflexivity | exact (newest_version _ _ _ _ _ _ Hs Hn)].
  - destruct Hn as [(r & Hr & Hc) _]. rewrite (Hs r Hr) in Hc. discriminate.
Qed.

Definition applies (v : Version) (rd : round) : Prop :=
  forall info, version info = v -> exists code, rd_apply rd info = Ok (Success v code).

(** A round that finds [v] exits, or leaves [v] pending and sleeps for what
    remains of the delay, or for a check interval when nothing remains. *)
Lemma round_finds t m rd info rollout : staged_rollout m = Some rollout ->
  (check_for_updates m (rd_poll rd)).1 = Ok (Some info) -> applies (version info) rd ->
  pending_before t m -> t <= noted_at (rd_poll rd) <= elapsed_at (rd_poll rd) -> elapsed_at (rd_poll rd) <= rd_end rd ->
  match upgrade_round m rd with
  | (Exit _, _) => True
  | (Sleep d, m') =>
      pending_upgrade_version m' = Some (version info) /\
      (exists detected, pending_upgrade_detected m' = Some detected /\
         detected <= noted_at (rd_poll rd) /\
         let remaining := calculate_delay_for_version rollout (version info) - (rd_end rd - detected) in
         d = if remaining <=? 0 then jittered_interval (check_interval m) (rd_jitter rd) else remaining)
  end.
Proof.
  intros Hs Hc Ha Hp Ht He. pose proof (ready_pending t m (rd_poll rd) Hp ltac:(lia)) as Hq.
  pose proof (check_ready_config m (rd_poll rd)) as (_ & _ & Hci & _ & Hst & _).
  unfold upgrade_round. destruct (check_for_ready_upgrade m (rd_poll rd)) as [r m1] eqn:Er. cbn [snd] in *.
  unfold check_for_ready_upgrade in Er. rewrite Hc, Hs in Er.
  set (m2 := if match pending_upgrade_version m with None => true | Some _ => _ end then _ else m) in Er.
  assert (pending_upgrade_version m2 = Some (version info)) as Hv.
  { unfold m2. destruct (pending_upgrade_version m) as [v|] eqn:Ev; [|reflexivity].
    case_bool_decide as Hb; cbn; [congruence | reflexivity]. }
  assert (m1 = m2 /\ (r = Ok (Some info) \/ r = Ok None)) as [-> Hr].
  { destruct (pending_upgrade_detected m2); [destruct (_ <=? _)|]; injection Er as <- <-; auto. }
  destruct Hq as [Hd Hsome]. destruct Hsome as [detected Hdet]; [rewrite Hv; eauto|].
  specialize (Hd _ Hdet). destruct Hr as [-> | ->].
  { destruct (Ha info eq_refl) as [code ->]. exact I. }
  split; [exact Hv|]. exists detected. split; [exact Hdet|]. split; [exact Hd|].
  unfold time_until_upgrade. rewrite Hst, Hs, Hv, Hdet, Hci. cbn. unfold sat_sub.
  replace (Z.max 0 (rd_end rd - detected)) with (rd_end rd - detected) by lia.
  destruct (calculate_delay_for_version rollout (version info) <=? rd_end rd - detected) eqn:E1;
    destruct (_ - (rd_end rd - detected) <=? 0) eqn:E2; b2p; try lia; [reflexivity|].
  destruct (_ =? 0) eqn:E3; b2p; lia.
Qed.

(** Once the delay is over a round that finds the pending version exits. *)
Lemma round_ready m rd info rollout detected : staged_rollout m = Some rollout ->
  (check_for_updates m (rd_poll rd)).1 = Ok (Some info) -> applies (version info) rd ->
  pending_upgrade_version m = Some (version info) -> pending_upgrade_detected m = Some detected ->
  calculate_delay_for_version rollout (version info) <= elapsed_at (rd_poll rd) - detected ->
  exists code, (upgrade_round m rd).1 = Exit code.
Proof.
  intros Hs Hc Ha Hv Hd He. unfold upgrade_round, check_for_ready_upgrade. rewrite Hc, Hs, Hv.
  rewrite bool_decide_eq_true_2 by reflexivity. cbn [negb]. rewrite Hd.
  assert ((_ <=? sat_sub (elapsed_at (rd_poll rd)) detected) = true) as ->
    by (apply Z.leb_le; unfold sat_sub; etransitivity; [exact He | lia]).
  destruct (Ha info eq_refl) as [code ->]. exists code. reflexivity.
Qed.

(** Two rounds in a row that find the same newest version. *)
Definition finds (m : UpgradeMonitor) (rd : round) (v : Version) : Prop :=
  exists releases info, obtained m (rd_poll rd) = Ok releases /\
    newest p (current_version m) (channel m) releases info /\ version info = v.

Lemma finds_check m rd v : finds m rd v ->
  exists info, (check_for_updates m (rd_poll rd)).1 = Ok (Some info) /\ version info = v.
Proof. intros (rs & i & Ho & Hn & <-). exact (check_newest m (rd_poll rd) rs i Ho Hn). Qed.

Lemma finds_config m m' rd v : same_config m m' -> finds m rd v <-> finds m' rd v.
Proof.
  intros (Hr & Hc & _ & Hv & _ & Hca). unfold finds, obtained. rewrite Hr, Hc, Hv, Hca. reflexivity.
Qed.

Definition window (m : UpgradeMonitor) : Z :=
  match staged_rollout m with Some r => max_delay_hours r * HOUR | None => 0 end.

Definition window_ok (m : UpgradeMonitor) : Prop :=
  forall r, staged_rollout m = Some r -> 0 <= max_delay_hours r /\ max_delay_hours r * 3600 < 2 ^ 53.

Lemma no_rollout_exits m rd v : staged_rollout m = None -> finds m rd v -> applies v rd ->
  exists code, upgrade_round m rd = (Exit code, m).
Proof.
  intros Hs (info & Hc & Hv)%finds_check Ha. destruct (Ha info Hv) as [code Hcode]. exists code.
  unfold upgrade_round, check_for_ready_upgrade. rewrite Hc, Hs, Hcode. reflexivity.
Qed.

Lemma two_rounds t m r1 r2 post v : 0 <= check_interval m -> window_ok m -> pending_before t m ->
  timely t m (r1 :: r2 :: post) -> finds m r1 v -> finds m r2 v -> applies v r1 -> applies v r2 ->
  is_Some (upgrade_task m (r1 :: r2 :: post)).1 /\
  forall d m', upgrade_round m r1 = (Sleep d, m') ->
    d <= Z.max (window m) (check_interval m + check_interval m / 20).
Proof.
  intros Hi Hw Hp (Ht1 & Ht2 & Ht3 & Ht) Hf1 Hf2 Ha1 Ha2. cbn [upgrade_task].
  destruct (staged_rollout m) as [rollout|] eqn:Hroll.
  2: { destruct (no_rollout_exits m r1 v Hroll Hf1 Ha1) as [code ->]. split; [eexists; reflexivity | discriminate]. }
  destruct (finds_check _ _ _ Hf1) as (info1 & Hc1 & Hv1). subst v.
  pose proof (round_finds t m r1 info1 rollout Hroll Hc1 Ha1 Hp ltac:(lia) ltac:(lia)) as Hf.
  pose proof (sleep_nonneg m r1) as Hsl. pose proof (round_config m r1) as Hcr.
  destruct (upgrade_round m r1) as [[code|d] m'] eqn:E1; [split; [eexists; reflexivity | discriminate]|].
  destruct Hf as (Hpv & detected & Hdet & Hle & Hd). specialize (Hsl d m' Hi eq_refl). cbv zeta in Hd. split.
  - destruct Ht as (Hs1 & Hs2 & Hs3 & _). cbn [snd] in Hcr. apply (finds_config _ _ _ _ Hcr) in Hf2.
    destruct (finds_check _ _ _ Hf2) as (info2 & Hc2 & Hv2). rewrite <- Hv2 in Ha2, Hpv, Hd.
    destruct (round_ready m' r2 info2 rollout detected) as [code Hx];
      [destruct Hcr as (_ & _ & _ & _ & -> & _); exact Hroll | exact Hc2 | exact Ha2 | exact Hpv | exact Hdet | |].
    { destruct (_ <=? 0) eqn:E in Hd; b2p; lia. }
    cbn [upgrade_task]. destruct (upgrade_round m' r2) as [n m2]. cbn [fst] in Hx. subst n. eexists. reflexivity.
  - intros d' m'' [= <- <-]. destruct (Hw rollout Hroll) as [Hw1 Hw2].
    pose proof (delay_within_window rollout (version info1) Hw1 Hw2) as Hdw.
    pose proof (jittered_bounds (check_interval m) (rd_jitter r1) Hi) as Hj.
    unfold window. rewrite Hroll. destruct (_ <=? 0) eqn:E in Hd; b2p; lia.
Qed.

End Monitor.

(** ** Properties *)

(** C29: An upgrade that is on offer gets applied.  Whatever a node's upgrade task
    went through before, if two consecutive rounds find the same newest eligible
    version and applying it works, the task exits at the second of them at the
    latest.  It sleeps in between no longer than the rollout window or a jittered
    check interval, whichever is longer. *)
Theorem upgrade_eventually_applied
    `{Blake3, Semver, !Codec serde_json CachedReleases, !SemverLaws}
    (p : Platform) (m0 : UpgradeMonitor) (pre : list round) (r1 r2 : round) (post : list round) (v : Version)
    (Hfresh : pending_upgrade_detected m0 = None /\ pending_upgrade_version m0 = None)
    (Hinterval : 0 <= check_interval m0) (Hwindow : window_ok m0)
    (Hclock : timely p (noted_at (rd_poll (hd r1 pre))) m0 (pre ++ r1 :: r2 :: post))
    (Hf1 : finds p m0 r1 v) (Hf2 : finds p m0 r2 v) (Ha1 : applies v r1) (Ha2 : applies v r2) :
  is_Some (upgrade_task p m0 (pre ++ r1 :: r2 :: post)).1 /\
  (forall m d m', upgrade_task p m0 pre = (None, m) -> upgrade_round p m r1 = (Sleep d, m') ->
     d <= Z.max (window m0) (check_interval m0 + check_interval m0 / 20)).
Proof.
  rewrite task_app. pose proof (task_config p m0 pre) as Hconf.
  destruct (upgrade_task p m0 pre) as [[code|] m] eqn:Epre; [split; [eexists; reflexivity | discriminate]|].
  assert (pending_before (noted_at (rd_poll (hd r1 pre))) m0) as Hp0.
  { destruct Hfresh as [Hd Hpv]. unfold pending_before. rewrite Hd, Hpv. split; [discriminate | intros [? [=]]]. }
  destruct (timely_app p _ m0 pre (r1 :: r2 :: post) m Hinterval Hp0 Hclock Epre) as (t & Ht & Hp).
  cbn [snd] in Hconf. apply (finds_config _ _ _ _ _ Hconf) in Hf1, Hf2.
  destruct Hconf as (_ & _ & Hint & _ & Hroll & _).
  unfold window_ok, window in *. rewrite <- Hroll in *. rewrite <- Hint in *.
  destruct (two_rounds p t m r1 r2 post v Hinterval Hwindow Hp Ht Hf1 Hf2 Ha1 Ha2) as [Hx Hd].
  split; [exact Hx|]. intros ? d m' [= <-]. exact (Hd d m').
Qed.

(** A semver of one number. *)
#[local] Instance number_semver : Semver := {|
  Version := Z;
  version_cmp := Z.compare;
  version_parse s := if String.eqb s "1.0.0" then Some 1 else if String.eqb s "2.0.0" then Some 2 else None;
  version_to_string v := if v =? 1 then "1.0.0"%string else "2.0.0"%string;
  version_pre_is_empty _ := true
|}.

#[local] Instance number_semver_laws : SemverLaws.
Proof.
  split.
  - intros a b. apply Z.compare_eq_iff.
  - intros a b. apply Z.compare_antisym.
  - cbn. intros a b c. rewrite !Z.compare_gt_iff, Z.compare_lt_iff. lia.
Qed.

#[local] Instance no_release_codec : Codec serde_json CachedReleases := {| ser _ := None; de _ := None |}.

Definition linux : Platform := mkPlatform "x86_64" "linux".

Definition release_2 : GitHubRelease :=
  mkRelease "v2.0.0" "2.0.0" "notes" false
    [mkAsset "ant-node-x86_64-linux.tar.gz" "https://x/bin"; mkAsset "ant-node-x86_64-linux.tar.gz.sig" "https://x/sig"].

Definition upgrade_to_2 : UpgradeInfo := mkUpgradeInfo 2 "https://x/bin" "https://x/sig" "notes".

(** A node that never waited, and one that waits a day at most; both see the
    release at instants 0 and one day later. *)
Definition sample_monitor (rollout : option StagedRollout) : UpgradeMonitor :=
  mkMonitor "o/r" Stable HOUR 1 rollout None None None.

Definition sample_round (at_ : Z) : round :=
  mkRound (mkPoll None None (Ok tt) None None (Ok [release_2]) None CacheWritten at_ at_)
    (fun info => Ok (Success (version info) 0)) at_ 0.

Definition no_delay : StagedRollout := mkRollout 24 [].

Lemma sample_finds at_ : finds linux (sample_monitor (Some no_delay)) (sample_round at_) 2.
Proof.
  exists [release_2], upgrade_to_2. split; [reflexivity|]. split; [|reflexivity]. split.
  - exists release_2. split; [left | vm_compute; reflexivity].
  - intros r c [->|[]%elem_of_nil]%elem_of_cons. vm_compute. intros [= <-]. reflexivity.
Qed.

Theorem upgrade_eventually_applied_witness :
  is_Some (upgrade_task linux (sample_monitor (Some no_delay)) ([] ++ [sample_round 0; sample_round (24 * HOUR)])).1.
Proof.
  refine (proj1 (upgrade_eventually_applied linux (sample_monitor (Some no_delay)) []
    (sample_round 0) (sample_round (24 * HOUR)) [] 2 _ _ _ _ _ _ _ _)).
  - split; reflexivity.
  - vm_compute. discriminate.
  - intros r [= <-]. split; [discriminate | reflexivity].
  - vm_compute. repeat split; discriminate.
  - apply sample_finds.
  - apply sample_finds.
  - intros info <-. exists 0. reflexivity.
  - intros info <-. exists 0. reflexivity.
Defined.
