(* ===== verification/ReleaseKey.v ===== *)
(** * The embedded release signing key

    [RELEASE_SIGNING_KEY] of [ant-node/src/upgrade/signature.rs]: the ML-DSA-65 key
    under which upgrade archives must be signed. *)

From Stdlib Require Import Strings.Byte.
From stdpp Require Import base list.
From S2P Require Import Prelude.

Definition RELEASE_SIGNING_KEY : bytes := [
  x55; xed; xf3; xe1; xf8; xc6; xd3; xbf; x45; x89; x2c; x79; x6d; xdd; x23; x13; xbe; xad; xd9; xdf;
  x8e; x4f; xf4; x3c; xb8; x63; x28; x79; x6e; x34; x84; xd3; x7d; xfb; x1e; x10; x43; x43; x89; xe9;
  x21; xa1; x3c; xd4; xc0; x0b; x44; x5c; x23; x99; xbd; x20; xd7; xb0; xac; x58; x8e; xed; xa2; x5a;
  x71; xd6; x6c; xf8; x3f; xbe; x9c; x73; x6c; x3b; xc3; xb4; xc3; x77; x6d; x49; x92; x56; x6e; x84;
  x66; x28; x73; xe4; xc5; xbb; x32; xb4; x3a; x33; x6c; x33; x77; x54; xc8; xc0; x18; x71; x82; x6a;
  xf4; xf2; x10; xf4; xb7; xd1; x57; xc6; x1d; x36; xbb; x80; x2b; xaf; xbd; x52; xa6; xcc; xd5; xa1;
  x63; x34; x0c; xbb; xc3; x83; x4d; xfc; xeb; x8f; xf7; x28; x93; xcf; x67; x8c; x9c; xad; xc6; xf1;
  x0a; x95; x32; x7f; x2b; x2c; x6c; x65; x2f; x8f; x29; x5b; x47; x64; x43; x90; x33; x7f; x82; x3c;
  xe3; xec; x75; xdb; x3d; x6d; xe4; xc1; x42; x92; x80; x99; xdd; xd2; x10; xb4; x91; x3e; x7a; xf6;
  xed; xd8; xa5; x1f; xe4; x07; xf0; x7b; x7b; x5e; x8e; x12; xe6; x6e; x04; xe5; xa6; xf4; x24; x6a;
  x28; x18; x6b; x0a; x5a; x36; x5d; x46; xe2; x22; xd7; x67; x29; x7b; xb9; x8e; x88; xd9; x76; x58;
  xc9; x12; xdf; xb6; x97; x76; x21; xfa; xec; x6c; x67; xea; x63; xc8; x3b; xc3; xf6; x5c; xc0; x5e;
  xf8; x08; x82; x63; xfc; xf9; x24; x2a; xf5; x20; x8c; x3c; xb7; xa8; x84; x8d; x87; xd8; x03; x74;
  xc6; xb1; x32; x2b; xe8; xd9; x21; x86; xfb; x28; x13; x3b; xe9; x4d; x99; x8f; xa3; x5c; x8c; xe0;
  xc6; xf3; x9b; x25; xcc; x11; x48; x39; x50; x00; x3b; x0e; x1d; xb7; xd2; xca; x0f; x10; x08; xed;
  x65; xa6; x6f; xee; x66; xd7; x68; x48; x0d; x9a; x73; xdf; x1c; x00; xcc; xbe; x86; xa6; x4f; x15;
  x6b; xf3; x56; xbb; x0d; x93; xc3; x8d; xa8; x31; x84; x91; x13; x7b; x14; x10; x60; x59; x18; x16;
  x08; xfd; x2d; x4d; x0c; xb2; x8c; x94; x6f; x7d; x81; xe9; x43; x9f; xaa; x13; xc2; x03; xff; xe2;
  xa2; x06; x38; x3b; x9b; xce; x85; x23; x80; xea; xa9; x92; x2f; x29; x15; xba; x68; x33; x6a; x0d;
  xbe; x11; x87; x61; xf1; xd5; x59; x50; x70; x51; x91; x6d; x4a; x9e; x69; x7c; xdd; x23; x8f; xa6;
  x4e; xa6; x81; xe7; xbc; x62; x40; x7c; x0b; xc0; xa2; xe1; xf8; x66; xc1; x82; x4a; x72; xb3; xee;
  x45; x44; xc7; x7b; xb1; xce; xfd; x80; xa9; x20; x20; xe7; xad; xdf; x9a; xa2; x86; xf3; x64; x93;
  xb2; xc9; xb1; x56; x5d; x66; x67; x9c; x29; x23; x53; xc4; xc9; x85; xd1; xed; x84; x2b; xc4; xa9;
  x93; x1b; x8f; xd8; xff; x1e; x2d; xa8; x3c; x27; x6c; xa5; x23; x2a; x5e; xd0; xcf; x11; xe2; x03;
  x7b; xdb; xa0; x10; xde; x2e; xa9; x5b; x42; x77; xcf; xa4; xc8; xab; xbd; x67; xa8; x88; x7b; x51;
  xe4; x39; xeb; x3e; x4e; x8f; xf1; x18; x83; x43; x43; x7e; xd1; x58; x27; x60; x54; xd5; xa8; x30;
  x54; xa1; xd0; xdc; x94; xf0; x28; x8d; x9c; xe4; x94; x1a; xcc; x87; xf7; xce; x4c; x63; x0d; xd0;
  x6d; x45; x20; x90; x5c; x95; x3e; x3c; x2e; xd0; x35; x2c; x35; x49; x2c; x6a; x7e; x5d; x5d; xc8;
  xaf; xb2; x96; x0b; x88; xb9; x2b; x33; x82; xa4; xc3; x81; xd3; xb9; x7e; x17; xba; xa7; x57; x47;
  x4d; x33; x55; xeb; xa5; x51; xd7; xe7; xc9; x46; x95; x52; x72; xb3; xb7; x57; x9b; xf6; x57; xff;
  x9d; xc5; x93; x4b; x05; x48; x41; x81; x25; xfc; xd9; x9e; x56; x18; x36; x17; x74; x1f; x77; x41;
  x98; x3f; x9e; x20; x74; x3d; x4e; xe3; xa0; xa0; x6b; x64; x38; xd7; xf7; x8c; xef; x01; x68; x82;
  x53; x30; x0a; xb6; xd1; x81; xd1; x70; x3c; xea; x96; xd3; x89; x21; x0e; xbb; x5a; x80; x51; x99;
  xeb; xef; x06; x85; xae; x8a; xfd; x23; x5a; x91; x3c; xe1; x85; xed; xf5; xf0; x58; x88; xac; xd0;
  xe8; x83; xb6; x90; xf2; xe6; x76; x5c; xcf; xd8; xba; xba; x88; xec; x0b; xd3; x77; x66; x30; x6e;
  xcc; x84; x29; xd3; x5f; xdf; x6e; x5b; x7f; x9d; x97; xed; x25; x33; xc6; x93; x4e; x62; x62; x7e;
  x00; x35; x20; x68; x4e; x85; x4a; xc1; xe0; x20; x2f; x80; x11; x2f; x33; xac; xd3; x8d; x56; x71;
  xcc; xa6; xeb; xe1; x0e; x3f; xea; x46; x16; xc5; x5e; x84; xbd; xad; x7a; x7a; x4a; x8c; x73; x66;
  xaa; x3e; xdc; xbe; x65; xa6; x5a; xed; xc6; x32; xcb; xbb; x03; xb9; xfb; xf3; x7a; xdc; x71; x7b;
  x46; x86; x4d; x55; xeb; x70; x05; xc9; x82; x03; xdf; x22; xa4; xfd; x25; xb1; x37; x3b; x90; x80;
  x35; x45; xab; x66; x0e; x4c; xcf; x5f; x69; x2f; x7b; x09; x7d; x6a; xb1; x91; x0d; x7e; xb4; xd4;
  xcb; x5f; xa3; xf3; x00; x73; x03; xbf; xc9; x6e; x9c; x48; x9e; x1c; x3b; xb0; x1f; xab; xb6; xea;
  x72; x04; x9d; xec; x6c; xc9; xd2; xed; x6f; x72; x19; x5c; x3a; xfc; x57; x68; xf6; x05; x88; xd8;
  xe6; x38; xd4; xe0; x9c; xed; xa7; x38; xa9; xab; xd4; x79; xf0; x3e; x39; x32; xa3; x6b; x2a; x49;
  x53; x12; xaf; x7f; x6d; x26; xf6; x16; x8c; x9d; xac; x0d; xf7; x33; xf4; x69; xc9; x47; xec; xba;
  xac; x95; x7e; x7d; x41; xc0; xca; xce; xd5; xf8; x9e; x49; xe0; x4d; xaa; x13; xea; x05; x3a; xf2;
  x71; x3b; xad; x8b; x16; xd7; x12; x07; xea; xf6; x81; x09; x3f; x04; x20; x2f; xd5; x78; xd8; xc4;
  xee; xca; x9e; x43; xe1; x5b; xe4; x21; xaf; xeb; xbf; xf8; x8c; x52; x1f; x3f; xb8; x8f; x3c; xfa;
  x3c; x94; x81; x59; x53; x21; xd6; xf1; x3a; x9a; x7b; xd8; x18; xe9; xbd; x41; xc4; x4a; x5c; x8a;
  x21; x2e; xda; x70; x32; xb7; xef; x49; x88; x38; xe3; x8d; xd9; x53; xd1; xc2; x9c; xec; xf6; x76;
  x75; x0a; x31; x37; xba; xd2; xaa; x37; xce; x30; x7a; x2b; xdb; xce; x44; x86; x6c; x20; x1a; x6c;
  xae; x0a; x20; xbb; xfa; x6b; x04; x11; xdd; xfd; x89; x7a; xaf; x1f; x63; x85; x75; x78; x62; x77;
  xa0; x13; x8e; x4c; x5b; x11; x06; xcf; x97; x28; x2d; x9a; xd1; x5c; xcd; x3e; x0a; xc0; x42; x93;
  x60; xe2; x37; x1b; xf5; x68; x72; xd6; x8b; xd1; x78; xe4; x1a; xa5; xbc; x7f; xd2; x6e; xfd; x3e;
  xdd; xca; x6f; x32; x7b; x19; x39; x48; x88; x31; x10; x7f; xa6; x4d; xc9; xe3; x1d; x40; xe1; x11;
  xfc; xbc; x32; xa9; x06; xde; x17; x29; x14; x50; x83; xdb; x54; x2c; x9e; x75; x4e; xf7; xee; xc4;
  x8d; xc2; xf3; xf8; x03; x02; x0e; x4e; xc4; x42; xef; x5b; x3b; x37; x52; x2e; x51; xf3; x72; x18;
  x32; x48; x42; xbe; xdf; xe2; x46; x49; x17; x77; xe4; x4e; x5f; xda; x50; xda; xce; x30; x65; x3a;
  xf9; xef; xd4; x8b; x91; x88; xbb; xb9; x69; x65; xaa; x3b; xe1; xd5; xf8; x0a; x2a; x8a; xc9; x67;
  x54; xd8; x54; x55; x3e; xac; x9e; x9d; x73; x6a; x1f; x21; xe1; x2b; xaa; x87; x16; x40; xfc; x37;
  xd8; xa9; xbc; x39; x72; x78; xfc; x9d; x6d; xe2; xd8; x5d; x30; xbb; xd4; x9b; xbd; xf3; xeb; x64;
  x78; x4a; x63; x33; xe9; x95; x9c; xac; x94; xc1; xf8; xd9; x2c; x25; x46; x92; x1a; xa5; x77; xca;
  x02; xaf; x97; x49; x24; x2f; xe6; x77; x3a; x3d; x35; x05; x08; xd9; x90; x74; xb2; x28; x6e; xbd;
  x34; x85; xd5; x47; x88; x5d; x36; xe8; x8c; xd1; x9b; x5d; x49; xa8; x94; x46; x22; xbd; x67; x19;
  x77; x8f; xb7; xda; x17; x68; x49; xf0; xf5; x6d; x2a; xe4; x9b; x4c; x07; xac; x91; xa6; x2d; x41;
  x6f; xf6; x40; xa7; xe9; xc4; x3e; x7c; xc3; xb6; x8b; xf5; x0a; x47; x19; xd4; x86; x16; x40; x02;
  x5a; x9b; x6f; xe0; x83; x9b; x84; x61; x28; x35; xdb; xa6; x22; xae; x67; x0c; x72; x5f; xd0; xdc;
  x9c; x8b; xca; xa5; xc7; xed; x5c; xe0; xba; xe7; x57; xbb; xf3; xc2; xa4; x21; x16; x11; xe9; x5e;
  x47; xdd; xb5; x88; x9c; x6a; x2c; xcc; x6b; x2c; x19; xbc; x52; x3f; xf5; x51; x15; xcd; xae; x61;
  x1f; xca; x16; xfb; xd8; xd7; x20; x2f; xe4; xb9; xd4; x9a; x8b; xf7; xa5; x03; x5d; x6b; xde; x57;
  x69; xef; x50; xff; xed; x2d; x41; x4f; x5c; x87; x7a; x04; xce; x91; xf0; x23; x14; x20; x54; xae;
  x25; x6a; xea; x71; xd2; x5c; x26; x3b; xc9; x75; xe4; x68; x92; x66; x63; x03; xa0; xf6; x9c; x46;
  x48; x89; xe0; xad; x10; x4f; x35; x6f; x68; xb9; x63; xd0; x9c; xa6; xa6; x0e; x93; x95; x63; xda;
  xea; x26; x27; xab; x10; x67; x6d; xe8; xc8; x4e; xc9; x9b; x53; x96; xa8; x6f; x77; x71; x37; xef;
  xf6; x52; x51; x94; x7a; x3b; x8e; xf2; x4c; x14; x21; x59; xc5; xe9; x85; x1a; xba; xf2; x98; xaf;
  x80; x01; xc4; x57; x78; xde; x44; xa9; x0e; xc5; x31; x88; xe0; x65; x56; x8c; x16; xdb; x80; x89;
  x63; xd5; xc2; x91; x7d; x90; x89; x7b; xfa; xa0; x2a; x55; xcc; x62; x20; xcb; xcf; x89; x28; x8b;
  xa5; x70; x55; x69; x76; x30; xb0; xf0; x7e; x30; x64; x4c; x7b; x4b; x41; xcf; x6f; x28; x8b; x99;
  x5f; x8a; xab; xf5; xfb; x45; xb6; xcd; xca; xc9; x87; xb0; x83; x3e; xe3; x18; xce; xab; x6b; xd7;
  x57; x84; xd6; x43; x1c; x10; xc2; xf2; x8b; xb4; xd2; xab; xd1; xca; x73; xc6; xc0; x72; xa7; x69;
  x74; x02; x73; xf6; xa3; xe3; x9b; x6d; xc9; x01; x16; x95; x78; x9e; x17; x73; x39; xca; x0a; xab;
  x03; x7c; x3b; xe9; x41; x69; x71; x47; xba; xc4; xc1; x34; x9f; x47; x2b; xf2; x8e; x01; xf0; xe2;
  x86; x18; xb1; x80; x46; x06; x61; x42; xd8; x25; x41; xe1; xd7; x17; x8b; xa3; x1f; x64; x91; x1f;
  x28; x82; x1a; x63; x11; x68; xa7; x0f; x9a; x8c; xaf; x61; x18; x98; x31; x3a; x95; xe4; xf4; x73;
  x8b; xf5; xb2; x1c; x19; xcb; x22; x77; x23; x07; x85; x80; xc9; x1c; x74; xee; xbf; x97; x97; x60;
  x17; x29; x2a; x4c; x50; x64; x7e; xa0; x99; x13; x86; xa6; x89; x3c; xd6; xd8; x9c; xef; x24; xe6;
  x92; xe9; x58; xc6; x38; x61; x86; x39; xcf; xbe; x70; xf6; x5a; x69; x80; x6e; x80; xcb; x14; x6f;
  x9a; x26; x30; x28; x3d; x32; x07; x41; x24; x9c; x84; xba; x4a; x67; x5f; xf0; x17; x28; x23; xfe;
  x39; x39; x80; xb5; xac; x28; x53; x97; xdd; x0d; x5b; x55; xd4; x22; x81; x81; x4d; xb4; x8b; x2b;
  x33; xad; x62; xd5; x8d; xfe; x39; xd4; xd8; xf1; x5d; x0f; x19; x64; xbf; xac; x91; xf1; x92; x3c;
  x7f; x3a; xb8; xa6; xb5; xd7; x3a; x36; xc8; x9c; x65; x1b; xa6; x2a; x98; x15; x96; x23; xd4; xe3;
  xa6; x07; x23; xa9; xce; x16; x50; xb1; x97; xce; x69; x00; x68; x1a; xf8; x71; x88; x55; x5e; xf1;
  xd9; x81; x64; x1c; x95; x2b; x68; xf9; xbe; x78; x9a; xbb; xf9; x2c; x7f; x6e; xed; x66; xfd; x44;
  xaa; xfe; x96; x84; xde; xbc; x47; x78; xc4; x90; xb8; xe4; xde; xb8; x3f; xaf; xc5; x05; xe6; x6e;
  x62; x4c; x43; x07; xbf; x06; x99; xf3; x18; x38; x26; x3f; x87; xd7; x04; x0e; xa0; x0d; xbd; xf8;
  xda; x50; x24; xe9; x46; x28; xbe; x70; x7f; x79; x25; xd1; x1a; xe6; x5e; x74; xe5; x2f; x5d; xd2;
  xc2; x60; xe9; x6e; x15; x4c; x70; x40; x99; x88; xe0; x93; xfe; x36; x1e; x64; x14; xa5; xcf; x35;
  xf2; xd2; xab; x8d; xf4; x1d; x29; xbd; xac; x08; xaf; xd6
].
