(* ===== verification/Files.v ===== *)
(** * Files

    [std::fs] as the repository uses it: a disk is a map from paths to files, every
    call that can fail takes its outcome from a list of faults, and a call that
    fails half way leaves a prefix of the data.  A path is the list of its
    components.  [wp] states what holds after a computation, whatever failed. *)

From Stdlib Require Import ZArith Lia Strings.Ascii Strings.String.
From stdpp Require Import base decidable list strings gmap.
From S2P Require Import Prelude Storage.

Local Open Scope Z_scope.

Abbreviation path := (list string).

(** [Path::display]; paths are absolute. *)
Definition display (p : path) : string :=
  match p with [] => "/" | _ => foldr (fun c s => "/" ++ c ++ s)%string EmptyString p end.

(** [Path::components] of an absolute path. *)
Fixpoint split_slash (s word : string) : list string :=
  match s with
  | EmptyString => [word]
  | String c s => if Ascii.eqb c "/" then word :: split_slash s "" else split_slash s (word ++ String c EmptyString)
  end%char%string.

Definition components (s : string) : path := filter (fun c => c <> ""%string /\ c <> "."%string) (split_slash s "").

Definition no_slash (c : string) : Prop := Forall (fun a => a <> "/"%char) (String.list_ascii_of_string c).
#[export] Instance no_slash_dec c : Decision (no_slash c) := _.
Definition path_ok (p : path) : Prop := Forall (fun c => c <> ""%string /\ c <> "."%string /\ no_slash c) p.
#[export] Instance path_ok_dec p : Decision (path_ok p) := _.

(** Content and permission bits. *)
Record file := mkFile { data : bytes; mode : Z }.

(** [Clean]: the call fails and does nothing.  [Partial n]: a write or copy fails
    after [n] bytes. *)
Inductive fault := Works | Clean | Partial (n : nat).

Record disk := mkDisk { files : gmap path file; faults : list fault }.

Definition DEFAULT_MODE : Z := 420.

(** ** Fallible computations on a disk *)

Definition io (A : Type) : Type := disk -> result NodeError A * disk.

#[export] Instance io_ret : MRet io := fun A a st => (Ok a, st).
#[export] Instance io_bind : MBind io := fun A B f m st =>
  match m st with (Ok a, st') => f a st' | (Err e, st') => (Err e, st') end.

Definition io_fail {A} (e : NodeError) : io A := fun st => (Err e, st).
Definition io_lift {A} (r : result NodeError A) : io A := fun st => (r, st).

(** [match call { Ok(..) => .., Err(e) => .. }]: the error as a value. *)
Definition io_try {A} (m : io A) : io (result NodeError A) := fun st =>
  let '(r, st') := m st in (Ok r, st').

(** [.map_err(..)]. *)
Definition io_map_err {A} (f : NodeError -> NodeError) (m : io A) : io A := fun st =>
  let '(r, st') := m st in (map_err f r, st').

Definition io_error : NodeError := IoError "I/O error".

Definition next_fault (st : disk) : fault * disk :=
  match faults st with
  | [] => (Works, st)
  | f :: fs => (f, mkDisk (files st) fs)
  end.

Definition set_files (st : disk) (m : gmap path file) : disk := mkDisk m (faults st).

(** A call on the files that fails cleanly or does [act]. *)
Definition io_call {A} (act : gmap path file -> result NodeError A * gmap path file) : io A := fun st =>
  let '(f, st) := next_fault st in
  match f with
  | Works => let '(r, m) := act (files st) in (r, set_files st m)
  | _ => (Err io_error, st)
  end.

Definition fs_read (p : path) : io bytes :=
  io_call (fun m => match m !! p with Some f => (Ok (data f), m) | None => (Err io_error, m) end).

(** [Path::exists] and its kin cannot report an error: when the system call fails
    they answer [false].  Whether it works is told by an instance, which sees the
    faults that are left and so may change its mind between two calls. *)
Class Stats := stat_works : disk -> path -> bool.

Definition stats_work `{Stats} : Prop := forall st p, stat_works st p = true.

(** A machine on which they all work. *)
Definition sure_stats : Stats := fun _ _ => true.

Lemma sure_stats_work : @stats_work sure_stats.
Proof. by intros st p. Qed.

Definition fs_exists `{Stats} (p : path) : io bool := fun st =>
  (Ok (stat_works st p && bool_decide (is_Some (files st !! p))), st).

(** [fs::write], and [File::create] followed by [write_all]: an existing file
    keeps its permissions. *)
Definition put_data (m : gmap path file) (p : path) (b : bytes) : gmap path file :=
  <[p := mkFile b (match m !! p with Some f => mode f | None => DEFAULT_MODE end)]> m.

Definition fs_write (p : path) (b : bytes) : io unit := fun st =>
  let '(f, st) := next_fault st in
  match f with
  | Works => (Ok tt, set_files st (put_data (files st) p b))
  | Clean => (Err io_error, st)
  | Partial n => (Err io_error, set_files st (put_data (files st) p (take n b)))
  end.

(** [write_all] to an open file: the data goes to its end. *)
Definition fs_append (p : path) (b : bytes) : io unit := fun st =>
  let old := match files st !! p with Some f => data f | None => [] end in
  let '(f, st) := next_fault st in
  match f with
  | Works => (Ok tt, set_files st (put_data (files st) p (old ++ b)))
  | Clean => (Err io_error, st)
  | Partial n => (Err io_error, set_files st (put_data (files st) p (old ++ take n b)))
  end.

(** [fs::copy]: content and permissions. *)
Definition fs_copy (src dst : path) : io unit := fun st =>
  let '(f, st) := next_fault st in
  match f, files st !! src with
  | Clean, _ | _, None => (Err io_error, st)
  | Works, Some s => (Ok tt, set_files st (<[dst := s]> (files st)))
  | Partial n, Some s => (Err io_error, set_files st (<[dst := mkFile (take n (data s)) (mode s)]> (files st)))
  end.

(** [fs::rename] is atomic. *)
Definition fs_rename (src dst : path) : io unit :=
  io_call (fun m => match m !! src with
                    | Some s => (Ok tt, base.delete src (<[dst := s]> m))
                    | None => (Err io_error, m)
                    end).

Definition fs_remove_file (p : path) : io unit :=
  io_call (fun m => match m !! p with Some _ => (Ok tt, base.delete p m) | None => (Err io_error, m) end).

Definition fs_set_mode (p : path) (perms : Z) : io unit :=
  io_call (fun m => match m !! p with
                    | Some f => (Ok tt, <[p := mkFile (data f) perms]> m)
                    | None => (Err io_error, m)
                    end).

(** Creating a directory, taking a lock, spawning a process: calls that leave the
    files alone. *)
Definition fs_other : io unit := io_call (fun m => (Ok tt, m)).

(** What other processes do to the files while this one waits. *)
Definition io_meanwhile (others : gmap path file -> gmap path file) : io unit :=
  fun st => (Ok tt, set_files st (others (files st))).

(** [let _ = call]. *)
Definition io_ignore {A} (m : io A) : io unit := _ ← io_try m; mret tt.

(** [remove_dir_all] of a directory that is dropped. *)
Definition under (dir p : path) : Prop := dir `prefix_of` p.
#[export] Instance under_dec dir p : Decision (under dir p).
Proof. unfold under. apply _. Defined.

(** Its failure is ignored; some of the files may be gone then. *)
Definition drop_dir (dir : path) (st : disk) : disk :=
  let '(f, st) := next_fault st in
  set_files st
    (match f with
     | Works => filter (fun kv => ~ under dir kv.1) (files st)
     | Clean => files st
     | Partial n => foldr base.delete (files st) (take n (filter (under dir) (map_to_list (files st)).*1))
     end).

Definition io_then_drop {A} (dir : path) (m : io A) : io A := fun st =>
  let '(r, st') := m st in (r, drop_dir dir st').

(** [fs::metadata(..).permissions()]. *)
Definition fs_metadata (p : path) : io Z :=
  io_call (fun m => match m !! p with Some f => (Ok (mode f), m) | None => (Err io_error, m) end).

(** ** Texts of paths *)

Lemma string_app_cons a s t : String a s +:+ t = String a (s +:+ t).
Proof. reflexivity. Qed.

Lemma string_app_nil_r s : s +:+ "" = s.
Proof. induction s as [|c s IH]; [done|]. by rewrite string_app_cons, IH. Qed.

Lemma string_app_assoc s t u : s +:+ (t +:+ u) = (s +:+ t) +:+ u.
Proof. induction s as [|c s IH]; [done|]. by rewrite !string_app_cons, IH. Qed.

Lemma split_slash_word c s word : no_slash c ->
  split_slash (c +:+ s) word = split_slash s (word +:+ c).
Proof.
  revert word. induction c as [|a c IH]; intros word.
  - intros _. by rewrite string_app_nil_r.
  - intros [Ha Hc]%Forall_cons. rewrite string_app_cons. cbn [split_slash]. apply Ascii.eqb_neq in Ha.
    rewrite Ha, IH by done. by rewrite <- string_app_assoc.
Qed.

Lemma components_display p : path_ok p -> components (display p) = p.
Proof.
  destruct p as [|c p]; [done|]. intros Hp. unfold components. cbn [display].
  set (text := foldr (fun c s => "/" ++ c ++ s)%string EmptyString).
  assert (forall q w, path_ok q -> split_slash (text q) w = w :: q) as Hs.
  { clear. intros q. induction q as [|c q IH]; intros w; [done|]. intros [(_ & _ & Hc) Hq]%Forall_cons.
    change (w :: split_slash (c +:+ text q) "" = w :: c :: q). rewrite split_slash_word by done. f_equal. by apply IH. }
  rewrite (Hs _ _ Hp), filter_cons_False by tauto.
  clear -Hp. induction Hp as [|c' q Hc _ IH]; [done|]. rewrite filter_cons_True by tauto. by rewrite IH.
Qed.

(** ** Reasoning *)

Definition wp {A} (m : io A) (st : disk) (Q : result NodeError A -> disk -> Prop) : Prop :=
  let '(r, st') := m st in Q r st'.

Lemma wp_bind {A B} (m : io A) (f : A -> io B) st Q :
  wp m st (fun r st' => match r with Ok a => wp (f a) st' Q | Err e => Q (Err e) st' end) ->
  wp (m ≫= f) st Q.
Proof. unfold wp, mbind, io_bind. destruct (m st) as [[a|e] st']; auto. Qed.

Lemma wp_ret {A} (a : A) st (Q : result NodeError A -> disk -> Prop) : Q (Ok a) st -> wp (mret a) st Q.
Proof. auto. Qed.

Lemma wp_fail {A} e st (Q : result NodeError A -> disk -> Prop) : Q (Err e) st -> wp (io_fail e) st Q.
Proof. auto. Qed.

Lemma wp_lift {A} (r : result NodeError A) st Q : Q r st -> wp (io_lift r) st Q.
Proof. auto. Qed.

Lemma wp_try {A} (m : io A) st Q : wp m st (fun r st' => Q (Ok r) st') -> wp (io_try m) st Q.
Proof. unfold wp, io_try. destruct (m st); auto. Qed.

Lemma wp_map_err {A} f (m : io A) st Q : wp m st (fun r st' => Q (map_err f r) st') -> wp (io_map_err f m) st Q.
Proof. unfold wp, io_map_err. destruct (m st); auto. Qed.

Lemma wp_mono {A} (m : io A) st (Q Q' : result NodeError A -> disk -> Prop) :
  wp m st Q -> (forall r st', Q r st' -> Q' r st') -> wp m st Q'.
Proof. unfold wp. destruct (m st). auto. Qed.

Lemma wp_ignore {A} (m : io A) st Q : wp m st (fun _ st' => Q (Ok tt) st') -> wp (io_ignore m) st Q.
Proof. intros H. apply wp_bind, wp_try. eapply wp_mono; [exact H|]. auto. Qed.

Lemma next_fault_files st f st' : next_fault st = (f, st') -> files st' = files st.
Proof. unfold next_fault. destruct (faults st); intros [= <- <-]; reflexivity. Qed.

(** What each call does to the files. *)
Lemma wp_call {A} (act : gmap path file -> result NodeError A * gmap path file) st Q :
  (forall st', files st' = files st -> Q (Err io_error) st') ->
  (forall st', files st' = (act (files st)).2 -> Q (act (files st)).1 st') ->
  wp (io_call act) st Q.
Proof.
  intros He Ho. unfold wp, io_call. destruct (next_fault st) as [f st1] eqn:Ef.
  apply next_fault_files in Ef. rewrite <- Ef in Ho, He. specialize (Ho (set_files st1 (act (files st1)).2) eq_refl).
  destruct (act (files st1)) as [r m]. destruct f; auto.
Qed.

Lemma wp_read p st Q :
  (forall st', files st' = files st -> Q (Err io_error) st') ->
  (forall st' f, files st' = files st -> files st !! p = Some f -> Q (Ok (data f)) st') -> wp (fs_read p) st Q.
Proof.
  intros He Ho. apply wp_call; [exact He|]. intros st'. destruct (files st !! p) as [f|] eqn:E; cbn; eauto.
Qed.

Lemma wp_exists `{Stats} p st Q :
  Q (Ok (stat_works st p && bool_decide (is_Some (files st !! p)))) st -> wp (fs_exists p) st Q.
Proof. auto. Qed.

Lemma wp_write p b st Q :
  (forall st', files st' = files st -> Q (Err io_error) st') ->
  (forall st' n, files st' = put_data (files st) p (take n b) -> Q (Err io_error) st') ->
  (forall st', files st' = put_data (files st) p b -> Q (Ok tt) st') -> wp (fs_write p b) st Q.
Proof.
  intros H1 H2 H3. unfold wp, fs_write. destruct (next_fault st) as [f st1] eqn:Ef.
  apply next_fault_files in Ef. destruct f as [| |n]; [apply H3; cbn; by rewrite Ef | by apply H1 |].
  apply (H2 _ n). cbn. by rewrite Ef.
Qed.

Lemma wp_append p b st Q :
  (forall st', files st' = files st -> Q (Err io_error) st') ->
  (forall st' c, files st' = put_data (files st) p c -> Q (Err io_error) st') ->
  (forall st', files st' = put_data (files st) p (match files st !! p with Some f => data f | None => [] end ++ b) ->
     Q (Ok tt) st') -> wp (fs_append p b) st Q.
Proof.
  intros H1 H2 H3. unfold wp, fs_append. destruct (next_fault st) as [f st1] eqn:Ef.
  apply next_fault_files in Ef. destruct f as [| |n]; [apply H3; cbn; by rewrite Ef | by apply H1 |].
  eapply H2. cbn. by rewrite Ef.
Qed.

Lemma wp_copy src dst st Q :
  (forall st', files st' = files st -> Q (Err io_error) st') ->
  (forall st' s n, files st !! src = Some s ->
     files st' = <[dst := mkFile (take n (data s)) (mode s)]> (files st) -> Q (Err io_error) st') ->
  (forall st' s, files st !! src = Some s -> files st' = <[dst := s]> (files st) -> Q (Ok tt) st') ->
  wp (fs_copy src dst) st Q.
Proof.
  intros H1 H2 H3. unfold wp, fs_copy. destruct (next_fault st) as [f st1] eqn:Ef.
  apply next_fault_files in Ef. rewrite Ef. destruct f as [| |n], (files st !! src) as [s|] eqn:Es; eauto.
Qed.

Lemma wp_rename src dst st Q :
  (forall st', files st' = files st -> Q (Err io_error) st') ->
  (forall st' s, files st !! src = Some s -> files st' = base.delete src (<[dst := s]> (files st)) -> Q (Ok tt) st') ->
  wp (fs_rename src dst) st Q.
Proof.
  intros H1 H2. apply wp_call; [exact H1|]. intros st'. destruct (files st !! src) eqn:E; cbn; eauto.
Qed.

Lemma wp_remove p st Q :
  (forall st', files st' = files st -> Q (Err io_error) st') ->
  (forall st', files st' = base.delete p (files st) -> Q (Ok tt) st') -> wp (fs_remove_file p) st Q.
Proof.
  intros H1 H2. apply wp_call; [exact H1|]. intros st'. destruct (files st !! p) eqn:E; cbn; eauto.
Qed.

Lemma wp_set_mode p perms st Q :
  (forall st', files st' = files st -> Q (Err io_error) st') ->
  (forall st' f, files st !! p = Some f -> files st' = <[p := mkFile (data f) perms]> (files st) -> Q (Ok tt) st') ->
  wp (fs_set_mode p perms) st Q.
Proof.
  intros H1 H2. apply wp_call; [exact H1|]. intros st'. destruct (files st !! p) eqn:E; cbn; eauto.
Qed.

Lemma wp_other st Q : (forall r st', files st' = files st -> Q r st') -> wp fs_other st Q.
Proof. intros H. apply wp_call; auto. Qed.

Lemma wp_metadata p st Q : (forall r st', files st' = files st -> Q r st') -> wp (fs_metadata p) st Q.
Proof. intros H. apply wp_call; [auto|]. intros st'. destruct (files st !! p); cbn; auto. Qed.

Lemma wp_then_drop {A} dir (m : io A) st Q :
  wp m st (fun r st' => Q r (drop_dir dir st')) -> wp (io_then_drop dir m) st Q.
Proof. unfold wp, io_then_drop. destruct (m st). auto. Qed.

Lemma put_data_same m p b : exists f, put_data m p b !! p = Some f /\ data f = b.
Proof. unfold put_data. rewrite lookup_insert_eq. eauto. Qed.

Lemma put_data_ne m p q b : q <> p -> put_data m p b !! q = m !! q.
Proof. intros H. unfold put_data. by rewrite lookup_insert_ne. Qed.

Lemma lookup_foldr_delete {A} (m : gmap path A) l p : p ∉ l -> foldr base.delete m l !! p = m !! p.
Proof.
  induction l as [|q l IH]; cbn; [done|]. intros [Hq Hl]%not_elem_of_cons. rewrite lookup_delete_ne by done. by apply IH.
Qed.

Lemma lookup_foldr_delete_or {A} (m : gmap path A) l p :
  foldr base.delete m l !! p = m !! p \/ p ∈ l /\ foldr base.delete m l !! p = None.
Proof.
  destruct (decide (p ∈ l)) as [Hin|Hout]; [|left; by apply lookup_foldr_delete].
  right. split; [done|]. induction l as [|q l IH]; [by apply not_elem_of_nil in Hin|]. cbn.
  destruct (decide (q = p)) as [->|Hq]; [by rewrite lookup_delete_eq|]. rewrite lookup_delete_ne by done.
  apply IH. by apply elem_of_cons in Hin as [->|Hin].
Qed.

(** A file is untouched, or was in the directory and is gone. *)
Lemma drop_dir_or dir st p :
  files (drop_dir dir st) !! p = files st !! p \/ under dir p /\ files (drop_dir dir st) !! p = None.
Proof.
  unfold drop_dir. destruct (next_fault st) as [f st1] eqn:Ef. apply next_fault_files in Ef. rewrite <- Ef.
  destruct f as [| |n]; cbn -[take]; [|by left|].
  - destruct (decide (under dir p)) as [Hp|Hp].
    + right. split; [done|]. apply map_lookup_filter_None_2. right. intros x _ Hn. by apply Hn.
    + left. destruct (files st1 !! p) as [g|] eqn:E;
        [by apply map_lookup_filter_Some_2 | by apply map_lookup_filter_None_2; left].
  - destruct (lookup_foldr_delete_or (files st1) (take n (filter (under dir) (map_to_list (files st1)).*1)) p)
      as [H|[Hin H]]; [by left|]. right. split; [|done].
    eapply subseteq_take, list_elem_of_filter in Hin. apply Hin.
Qed.

Lemma lookup_drop_dir dir st p : ~ under dir p -> files (drop_dir dir st) !! p = files st !! p.
Proof. intros Hp. destruct (drop_dir_or dir st p) as [H|[H _]]; tauto. Qed.

Lemma lookup_drop_dir_Some dir st p f : files (drop_dir dir st) !! p = Some f -> files st !! p = Some f.
Proof. intros H. destruct (drop_dir_or dir st p) as [Hd|[_ Hd]]; congruence. Qed.

Lemma drop_dir_works dir st p : faults st = [] -> under dir p -> files (drop_dir dir st) !! p = None.
Proof.
  intros Hf Hp. unfold drop_dir, next_fault. rewrite Hf. cbn. apply map_lookup_filter_None_2. right. intros x _ Hn. by apply Hn.
Qed.

Lemma drop_dir_faults dir st : faults st = [] -> faults (drop_dir dir st) = [].
Proof. intros Hf. unfold drop_dir, next_fault. by rewrite Hf. Qed.
