(* ===== verification/SelfUpgrade.v ===== *)
(** * Applying an upgrade

    [ant-node/src/upgrade]: [signature.rs] (verifying an archive), [binary_cache.rs]
    (the cache of extracted binaries that nodes of a machine share), [apply.rs] (the
    [AutoApplyUpgrader]) and [mod.rs] (the older [Upgrader]), as built for Unix.
    Every file operation may fail at any point; archives, SHA-256, signatures with a
    context, HTTP and running a binary are arguments. *)

From Stdlib Require Import ZArith Lia Strings.String Strings.Byte.
From stdpp Require Import base decidable list strings gmap.
From S2P Require Import Prelude Interfaces Cipher Reference Storage Release ReleaseKey Files.

Local Open Scope Z_scope.

(** ** Interfaces *)

(** An archive entry: the file name in its path, and what reading it gives,
    [false] when reading ends with an error. *)
Record archive_entry := mkEntry { entry_name : option string; entry_data : bytes * bool }.

(** [untar]: the entries of a [tar.gz], [None] for one that cannot be read, the
    entry's path [None] when invalid.  [unzip]: the same, a path that is not
    enclosed in the archive being skipped.  [dsa_verify_ctx]: ML-DSA-65
    verification with a context. *)
Class ReleaseTools := {
  untar : bytes -> option (list (option (option archive_entry)));
  unzip : bytes -> option (list (option (option archive_entry)));
  sha256_hex : bytes -> string;
  dsa_verify_ctx : bytes -> bytes -> bytes -> bytes -> option bool
}.

Inductive http_response := SendFailed | Status (code : Z) | BodyFailed | Body (b : bytes).

Record CachedBinaryMeta := mkMeta { meta_version : string; sha256 : string; cached_at_epoch_secs : Z }.

(** ** Signatures *)

Definition SIGNING_CONTEXT : bytes := str_to_bytes "ant-node-release-v1".
Definition SIGNATURE_SIZE : Z := 3309.
Definition PUBLIC_KEY_SIZE : Z := 1952.

Section Upgrade.
Context `{semver : Semver, tools : ReleaseTools, dsa : Dsa, meta_codec : !Codec serde_json CachedBinaryMeta}.

Definition verify_content (public_key content signature : bytes) : result NodeError unit :=
  if negb (lenZ signature =? SIGNATURE_SIZE) then
    Err (CryptoError "Invalid signature size: expected {SIGNATURE_SIZE}, got {}")
  else if negb (dsa_sig_valid signature) then Err (CryptoError "Invalid signature format: {e}")
  else
    match dsa_verify_ctx public_key content signature SIGNING_CONTEXT with
    | None => Err (CryptoError "Signature verification error: {e}")
    | Some valid => if valid then Ok tt else Err (CryptoError "Signature verification failed: invalid signature")
    end.

Definition verify_binary_signature_with_key (binary_path : path) (signature public_key : bytes) : io unit :=
  binary_content ← io_map_err (fun _ => CryptoError "Failed to read binary '{}': {e}") (fs_read binary_path);
  io_lift (verify_content public_key binary_content signature).

Definition verify_binary_signature (binary_path : path) (signature : bytes) : io unit :=
  if negb (dsa_pk_valid RELEASE_SIGNING_KEY) then io_fail (CryptoError "Invalid release key: {e}")
  else verify_binary_signature_with_key binary_path signature RELEASE_SIGNING_KEY.

Definition verify_from_file_with_key (binary_path signature_path : path) (public_key : bytes) : io unit :=
  signature ← fs_read signature_path;
  verify_binary_signature_with_key binary_path signature public_key.

Definition verify_from_file (binary_path signature_path : path) : io unit :=
  signature ← fs_read signature_path;
  verify_binary_signature binary_path signature.

(** ** The cache of binaries *)

Definition cached_binary_path (cache_dir : path) (version : string) : path :=
  cache_dir ++ [("ant-node-" +:+ version)%string].
Definition meta_path (cache_dir : path) (version : string) : path :=
  cache_dir ++ [("ant-node-" +:+ version +:+ ".meta.json")%string].

Definition sha256_file (p : path) : io string := b ← fs_read p; mret (sha256_hex b).

(** The part of [get_verified] after the metadata has been read. *)
Definition check_cached (cache_dir : path) (version : string) (meta : CachedBinaryMeta) : io (option path) :=
  let bin_path := cached_binary_path cache_dir version in
  if negb (String.eqb (meta_version meta) version) then mret None
  else
    actual_hash ← io_try (sha256_file bin_path);
    match res_ok actual_hash with
    | None => mret None
    | Some actual_hash =>
        if negb (String.eqb actual_hash (sha256 meta)) then mret None else mret (Some bin_path)
    end.

Definition get_verified (cache_dir : path) (version : string) : io (option path) :=
  meta_data ← io_try (fs_read (meta_path cache_dir version));
  match res_ok meta_data ≫= de serde_json (A := CachedBinaryMeta) with
  | None => mret None
  | Some meta => check_cached cache_dir version meta
  end.

(** [epoch_secs] is the system clock. *)
Context (epoch_secs : option Z).

(** The binary, through a temporary file. *)
Definition store_binary (cache_dir : path) (version : string) (source_path : path) : io unit :=
  let dest := cached_binary_path cache_dir version in
  let tmp_bin := cache_dir ++ [(".ant-node-" +:+ version +:+ ".tmp")%string] in
  _ ← fs_copy source_path tmp_bin;
  _ ← io_ignore (fs_remove_file dest);
  fs_rename tmp_bin dest.

(** Its metadata, last. *)
Definition store_meta (cache_dir : path) (version hash : string) : io unit :=
  now ← io_lift (ok_or epoch_secs (UpgradeError "System clock error: {e}"));
  meta_json ← io_lift (ok_or (ser serde_json (mkMeta version hash now))
                         (UpgradeError "Failed to serialize binary cache meta: {e}"));
  let tmp_meta := cache_dir ++ [(".ant-node-" +:+ version +:+ ".meta.tmp")%string] in
  _ ← fs_write tmp_meta meta_json;
  _ ← io_ignore (fs_remove_file (meta_path cache_dir version));
  fs_rename tmp_meta (meta_path cache_dir version).

Definition store (cache_dir : path) (version : string) (source_path : path) : io unit :=
  hash ← sha256_file source_path;
  _ ← store_binary cache_dir version source_path;
  store_meta cache_dir version hash.

(** [others] is what the nodes that hold the lock meanwhile do to the files. *)
Context (others : gmap path file -> gmap path file).

Definition acquire_download_lock (cache_dir : path) : io unit :=
  _ ← io_map_err (fun _ => UpgradeError "Failed to create download lock: {e}")
        (fs_write (cache_dir ++ ["download.lock"%string]) []);
  _ ← io_map_err (fun _ => UpgradeError "Failed to acquire download lock: {e}") fs_other;
  io_meanwhile others.

(** ** Downloads and archives *)

Definition MAX_ARCHIVE_SIZE_BYTES : Z := 200 * 1024 * 1024.
Definition MAX_BINARY_SIZE_BYTES : Z := 200 * 1024 * 1024.

Context (http : string -> http_response).

(** [too_large] is the error of a body above [limit]. *)
Definition download (limit : Z) (too_large : string) (url : string) (dest : path) : io unit :=
  match http url with
  | SendFailed => io_fail (NetworkFailure "Download failed: {e}")
  | Status _ => io_fail (NetworkFailure "Download returned status: {}")
  | BodyFailed => io_fail (NetworkFailure "Failed to read response: {e}")
  | Body b => if limit <? lenZ b then io_fail (UpgradeError too_large) else fs_write dest b
  end.

Definition is_node_binary (e : archive_entry) : bool :=
  match entry_name e with
  | Some name => String.eqb name "ant-node" || String.eqb name "ant-node.exe"
  | None => false
  end.

Fixpoint find_in_tar (entries : list (option (option archive_entry))) : result NodeError archive_entry :=
  match entries with
  | [] => Err (UpgradeError "ant-node binary not found in tar.gz archive")
  | None :: _ => Err (UpgradeError "Failed to read entry: {e}")
  | Some None :: _ => Err (UpgradeError "Invalid path in archive: {e}")
  | Some (Some e) :: entries' => if is_node_binary e then Ok e else find_in_tar entries'
  end.

Fixpoint find_in_zip (entries : list (option (option archive_entry))) : result NodeError archive_entry :=
  match entries with
  | [] => Err (UpgradeError "ant-node binary not found in zip archive")
  | None :: _ => Err (UpgradeError "Failed to read zip entry: {e}")
  | Some None :: entries' => find_in_zip entries'
  | Some (Some e) :: entries' => if is_node_binary e then Ok e else find_in_zip entries'
  end.

(** Streams an entry to [extracted_binary] and makes it executable. *)
Definition write_entry (extracted_binary : path) (e : archive_entry) : io path :=
  _ ← fs_write extracted_binary [];
  _ ← io_map_err (fun _ => UpgradeError "Failed to write binary: {e}") (fs_write extracted_binary (entry_data e).1);
  if negb (entry_data e).2 then io_fail (UpgradeError "Failed to write binary: {e}")
  else
    _ ← fs_set_mode extracted_binary 493;
    mret extracted_binary.

Definition extract_from_tar_gz (archive_path dest_dir : path) : io path :=
  archive ← fs_read archive_path;
  entries ← io_lift (ok_or (untar archive) (UpgradeError "Failed to read archive: {e}"));
  e ← io_lift (find_in_tar entries);
  write_entry (dest_dir ++ ["ant-node"%string]) e.

Definition extract_from_zip (archive_path dest_dir : path) : io path :=
  archive ← fs_read archive_path;
  entries ← io_lift (ok_or (unzip archive) (UpgradeError "Failed to open zip archive: {e}"));
  e ← io_lift (find_in_zip entries);
  write_entry (dest_dir ++ ["ant-node"%string]) e.

(** The format is told by the first two bytes. *)
Definition extract_binary (archive_path dest_dir : path) : io path :=
  archive ← fs_read archive_path;
  match archive with
  | x1f :: x8b :: _ => extract_from_tar_gz archive_path dest_dir
  | x50 :: x4b :: _ => extract_from_zip archive_path dest_dir
  | _ :: _ :: _ => io_fail (UpgradeError "Unknown archive format (magic bytes: {:02x} {:02x})")
  | _ => io_fail (UpgradeError "Failed to read archive header: {e}")
  end.

(** ** The upgrader

    [run_version] is what running a binary with [--version] prints within five
    seconds; [argv0], [canonicalize] and [current_exe] are the process's own. *)

Context (run_version : file -> option string) {stats : Stats}.
Context (argv0 current_exe : option path) (canonicalize : path -> option path).
Context (temp_name : string).

Record AutoApplyUpgrader := mkUpgrader {
  own_version : Version;
  binary_cache : option path;
  stop_on_upgrade : bool
}.

Definition upgrader_new (pkg_version : string) (zero : Version) : AutoApplyUpgrader :=
  mkUpgrader (default zero (version_parse pkg_version)) None false.
Definition with_binary_cache (u : AutoApplyUpgrader) (cache : path) : AutoApplyUpgrader :=
  mkUpgrader (own_version u) (Some cache) (stop_on_upgrade u).
Definition with_stop_on_upgrade (u : AutoApplyUpgrader) (stop : bool) : AutoApplyUpgrader :=
  mkUpgrader (own_version u) (binary_cache u) stop.

Definition DELETED : string := " (deleted)".

(** [trim_end_matches(" (deleted)")]. *)
Fixpoint trim_deleted (fuel : nat) (s : string) : string :=
  match fuel with
  | O => s
  | S fuel =>
      if str_ends_with s DELETED
      then trim_deleted fuel (String.substring 0 (String.length s - String.length DELETED) s) else s
  end.

(** The suffix is looked for in the last component, which ends the path. *)
Definition clean_deleted (p : path) : path :=
  match last p with
  | Some name => if str_ends_with name DELETED then removelast p ++ [trim_deleted (String.length name) name] else p
  | None => p
  end.

Definition current_binary_path : io path :=
  let from_exe := io_lift (clean_deleted <$> ok_or current_exe (UpgradeError "Cannot determine binary path: {e}")) in
  match argv0 with
  | Some invoked =>
      let cleaned := clean_deleted invoked in
      found ← fs_exists cleaned;
      if (found : bool) then mret (default cleaned (canonicalize cleaned)) else from_exe
  | None => from_exe
  end.

Definition parent (p : path) : option path := match p with [] => None | _ => Some (removelast p) end.

Definition download_verify_extract (info : UpgradeInfo) (dest_dir : path) (cache : option path) : io path :=
  let archive_path := dest_dir ++ ["archive"%string] in
  let sig_path := dest_dir ++ ["signature"%string] in
  let too_large := "Downloaded file too large: {} bytes (max {})"%string in
  _ ← download MAX_ARCHIVE_SIZE_BYTES too_large (download_url info) archive_path;
  _ ← download MAX_ARCHIVE_SIZE_BYTES too_large (signature_url info) sig_path;
  _ ← verify_from_file archive_path sig_path;
  extracted_binary ← extract_binary archive_path dest_dir;
  match cache with
  | Some c => _ ← io_ignore (store c (version_to_string (version info)) extracted_binary); mret extracted_binary
  | None => mret extracted_binary
  end.

Definition resolve_upgrade_binary (u : AutoApplyUpgrader) (info : UpgradeInfo) (dest_dir : path)
    (version_str : string) : io path :=
  match binary_cache u with
  | None => download_verify_extract info dest_dir None
  | Some cache =>
    hit ← get_verified cache version_str;
    match hit with
    | Some cached_path =>
        let dest := dest_dir ++ [default "ant-node"%string (last cached_path)] in
        copied ← io_try (fs_copy cached_path dest);
        match copied with
        | Err _ => download_verify_extract info dest_dir (Some cache)
        | Ok _ => mret dest
        end
    | None =>
        _ ← acquire_download_lock cache;
        hit ← get_verified cache version_str;
        match hit with
        | Some cached_path =>
            let dest := dest_dir ++ [default "ant-node"%string (last cached_path)] in
            _ ← fs_copy cached_path dest;
            mret dest
        | None => download_verify_extract info dest_dir (Some cache)
        end
    end
  end.

(** The file the binary is replaced with gets its permissions; the rename is
    atomic. *)
Definition replace_binary (new_binary target : path) : io unit :=
  perms ← io_try (fs_metadata target);
  _ ← match perms with Ok perms => fs_set_mode new_binary perms | Err _ => mret tt end;
  fs_rename new_binary target.

Definition prepare_restart (u : AutoApplyUpgrader) : io Z :=
  if stop_on_upgrade u then mret 0
  else
    _ ← io_map_err (fun _ => UpgradeError "Failed to spawn new binary: {e}") fs_other;
    mret 0.

Definition reported_version (binary : option file) : option Version :=
  stdout ← (binary ≫= run_version);
  let out := str_trim stdout in
  if String.prefix "ant-node " out
  then version_parse (String.substring 9 (String.length out - 9) out) else None.

Definition on_disk_version (binary_path : path) : io (option Version) := fun st =>
  (Ok (reported_version (files st !! binary_path)), st).

Definition critical : NodeError :=
  UpgradeError "Critical: replacement failed ({e}) AND rollback failed ({restore_err})".

(** [apply_upgrade] once the temporary directory exists. *)
Definition apply_in (u : AutoApplyUpgrader) (info : UpgradeInfo) (current_binary binary_dir temp_dir : path)
    : io UpgradeResult :=
  resolved ← io_try (resolve_upgrade_binary u info temp_dir (version_to_string (version info)));
  match resolved with
  | Err e => mret (RolledBack (node_error_string e))
  | Ok extracted_binary =>
    disk_version ← on_disk_version current_binary;
    if bool_decide (disk_version = Some (version info)) then
      exit_code ← prepare_restart u;
      mret (Success (version info) exit_code)
    else
      let backup_path := binary_dir ++ [(default "ant-node" (last current_binary) +:+ ".backup")%string] in
      copied ← io_try (fs_copy current_binary backup_path);
      match copied with
      | Err _ => mret (RolledBack "Backup failed: {e}")
      | Ok _ =>
        replace_result ← io_try (replace_binary extracted_binary current_binary);
        match replace_result with
        | Err _ =>
            restored ← io_try (fs_copy backup_path current_binary);
            match restored with
            | Err _ => io_fail critical
            | Ok _ => mret (RolledBack "Replacement failed: {e}")
            end
        | Ok _ =>
            exit_code ← prepare_restart u;
            mret (Success (version info) exit_code)
        end
      end
  end.

(** The temporary directory, fresh in [binary_dir], is removed at the end. *)
Definition with_tempdir {A} (binary_dir : path) (body : path -> io A) : io A :=
  _ ← io_map_err (fun _ => UpgradeError "Failed to create temp dir: {e}") fs_other;
  let temp_dir := binary_dir ++ [("ant-upgrade-" +:+ temp_name)%string] in
  io_then_drop temp_dir (body temp_dir).

Definition apply_upgrade (u : AutoApplyUpgrader) (info : UpgradeInfo) : io UpgradeResult :=
  if negb (version_gt (version info) (own_version u)) then mret NoUpgrade
  else
    current_binary ← current_binary_path;
    binary_dir ← io_lift (ok_or (parent current_binary) (UpgradeError "Cannot determine binary directory"));
    with_tempdir binary_dir (apply_in u info current_binary binary_dir).

(** ** The older upgrader

    [Upgrader] of [mod.rs]: the download is the binary itself. *)

Definition validate_upgrade (own : Version) (info : UpgradeInfo) : result NodeError unit :=
  if negb (version_gt (version info) own) then Err (UpgradeError "Cannot downgrade from {} to {}") else Ok tt.

Definition backup_path (current rollback_dir : path) : result NodeError path :=
  filename ← ok_or (last current) (UpgradeError "Invalid binary path");
  Ok (rollback_dir ++ [(filename +:+ ".backup")%string]).

Definition create_backup (current rollback_dir : path) : io unit :=
  backup ← io_lift (backup_path current rollback_dir);
  fs_copy current backup.

Definition restore_from_backup (current rollback_dir : path) : io unit :=
  backup ← io_lift (backup_path current rollback_dir);
  found ← fs_exists backup;
  if negb found then io_fail (UpgradeError "No backup found for rollback") else fs_copy backup current.

Definition atomic_replace (new_binary target : path) : io unit := replace_binary new_binary target.

Definition download_binary (url : string) (dest : path) : io unit :=
  download MAX_BINARY_SIZE_BYTES "Downloaded binary too large: {len} bytes (max {MAX_BINARY_SIZE_BYTES})" url dest.

(** [perform_upgrade] once the temporary directory exists. *)
Definition perform_in (info : UpgradeInfo) (current_binary rollback_dir temp_dir : path) : io UpgradeResult :=
  let new_binary := temp_dir ++ ["new_binary"%string] in
  let sig_path := temp_dir ++ ["signature"%string] in
  downloaded ← io_try (download_binary (download_url info) new_binary);
  match downloaded with
  | Err _ => mret (RolledBack "Download failed: {e}")
  | Ok _ =>
    downloaded ← io_try (download_binary (signature_url info) sig_path);
    match downloaded with
    | Err _ => mret (RolledBack "Signature download failed: {e}")
    | Ok _ =>
      verified ← io_try (verify_from_file new_binary sig_path);
      match verified with
      | Err _ => mret (RolledBack "Signature verification failed: {e}")
      | Ok _ =>
        replaced ← io_try (atomic_replace new_binary current_binary);
        match replaced with
        | Ok _ => mret (Success (version info) 0)
        | Err _ =>
          restored ← io_try (restore_from_backup current_binary rollback_dir);
          match restored with
          | Err _ => io_fail critical
          | Ok _ => mret (RolledBack "Replacement failed: {e}")
          end
        end
      end
    end
  end.

Definition perform_upgrade (own : Version) (info : UpgradeInfo) (current_binary rollback_dir : path)
    : io UpgradeResult :=
  _ ← io_lift (validate_upgrade own info);
  _ ← create_backup current_binary rollback_dir;
  target_dir ← io_lift (ok_or (parent current_binary) (UpgradeError "Current binary has no parent directory"));
  with_tempdir target_dir (perform_in info current_binary rollback_dir).

(** ** What reaches the binary *)

(** The entry that is extracted from an archive. *)
Definition archive_binary (archive : bytes) : result NodeError archive_entry :=
  match archive with
  | x1f :: x8b :: _ => entries ← ok_or (untar archive) (UpgradeError "Failed to read archive: {e}"); find_in_tar entries
  | x50 :: x4b :: _ => entries ← ok_or (unzip archive) (UpgradeError "Failed to open zip archive: {e}"); find_in_zip entries
  | _ => Err (UpgradeError "not an archive")
  end.

(** A binary is authentic when it is the node binary of an archive signed under
    the embedded key. *)
Definition authentic (b : bytes) : Prop :=
  exists archive signature e, verify_content RELEASE_SIGNING_KEY archive signature = Ok tt /\
    archive_binary archive = Ok e /\ entry_data e = (b, true).

(** Version strings that are not the name of another version's metadata file. *)
Definition plain (version : string) : Prop := forall v, version <> (v +:+ ".meta.json")%string.

Definition cache_ok (cache : path) (m : gmap path file) : Prop :=
  forall v f, plain v -> m !! cached_binary_path cache v = Some f -> authentic (data f).

Lemma cache_ok_insert cache m q f :
  (forall v, plain v -> q = cached_binary_path cache v -> authentic (data f)) ->
  cache_ok cache m -> cache_ok cache (<[q := f]> m).
Proof.
  intros Hq Hm v g Hv. destruct (decide (q = cached_binary_path cache v)) as [Heq|Hne].
  - rewrite Heq, lookup_insert_eq. intros [= <-]. exact (Hq v Hv Heq).
  - rewrite lookup_insert_ne by done. exact (Hm v g Hv).
Qed.

Lemma cache_ok_delete cache m q : cache_ok cache m -> cache_ok cache (base.delete q m).
Proof. intros Hm v f Hv [_ Hl]%lookup_delete_Some. exact (Hm v f Hv Hl). Qed.

Lemma cache_ok_drop cache dir st : cache_ok cache (files st) -> cache_ok cache (files (drop_dir dir st)).
Proof. intros Hm v f Hv Hl%lookup_drop_dir_Some. exact (Hm v f Hv Hl). Qed.

Section Run.
Context (cache temp : path) (Hne : cache <> temp).
Context (Hothers_ok : forall m, cache_ok cache m -> cache_ok cache (others m)).
Context (Hothers_frame : forall m p, ~ under cache p -> others m !! p = m !! p).
Context (m0 : gmap path file).

(** The cache is good and nothing outside the cache and the temporary directory
    has changed. *)
Definition tidy (m : gmap path file) : Prop :=
  cache_ok cache m /\ forall p, ~ under temp p -> ~ under cache p -> m !! p = m0 !! p.

Lemma under_child (dir : path) x : under dir (dir ++ [x]).
Proof. exists [x]. reflexivity. Qed.

Lemma temp_not_cached x v : temp ++ [x] <> cached_binary_path cache v.
Proof. intros [Heq _]%app_inj_tail. congruence. Qed.

Lemma tidy_insert_temp m x f : tidy m -> tidy (<[temp ++ [x] := f]> m).
Proof.
  intros [Hc Hf]. split.
  - apply cache_ok_insert; [|exact Hc]. intros v _ Heq. destruct (temp_not_cached x v Heq).
  - intros p Ht Hp. rewrite lookup_insert_ne; [exact (Hf p Ht Hp)|].
    intros <-. apply Ht, under_child.
Qed.

Lemma tidy_insert_cache m x f :
  (forall v, plain v -> x = ("ant-node-" +:+ v)%string -> authentic (data f)) ->
  tidy m -> tidy (<[cache ++ [x] := f]> m).
Proof.
  intros Hx [Hc Hf]. split.
  - apply cache_ok_insert; [|exact Hc]. intros v Hv [_ Heq]%app_inj_tail. exact (Hx v Hv Heq).
  - intros p Ht Hp. rewrite lookup_insert_ne; [exact (Hf p Ht Hp)|].
    intros <-. apply Hp, under_child.
Qed.

Lemma tidy_delete m p x : p = temp ++ [x] \/ p = cache ++ [x] -> tidy m -> tidy (base.delete p m).
Proof.
  intros Hp [Hc Hf]. split; [by apply cache_ok_delete|]. intros q Ht Hq.
  rewrite lookup_delete_ne; [exact (Hf q Ht Hq)|].
  intros <-. destruct Hp as [-> | ->]; [apply Ht | apply Hq]; apply under_child.
Qed.

Lemma tidy_put_temp m x b : tidy m -> tidy (put_data m (temp ++ [x]) b).
Proof. apply tidy_insert_temp. Qed.

Lemma tidy_put_hidden m x b : tidy m -> tidy (put_data m (cache ++ [("." +:+ x)%string]) b).
Proof. apply tidy_insert_cache. intros v _ [=]. Qed.

Lemma tidy_others m : tidy m -> tidy (others m).
Proof.
  intros [Hc Hf]. split; [by apply Hothers_ok|]. intros p Ht Hp. rewrite Hothers_frame by exact Hp. auto.
Qed.

(** The outcome of a step that should give an authentic binary in the temporary
    directory. *)
Definition gives_binary (r : result NodeError path) (st : disk) : Prop :=
  tidy (files st) /\
  match r with
  | Ok p => exists x f, p = temp ++ [x] /\ files st !! p = Some f /\ authentic (data f)
  | Err _ => True
  end.

Lemma wp_get_verified st v (Q : result NodeError (option path) -> disk -> Prop) :
  (forall st' r, files st' = files st -> (r = Ok None \/ r = Ok (Some (cached_binary_path cache v))) -> Q r st') ->
  wp (get_verified cache v) st Q.
Proof.
  intros HQ. unfold get_verified. apply wp_bind, wp_try.
  assert (forall st1 (o : option CachedBinaryMeta), files st1 = files st ->
    wp (match o with None => mret None | Some meta => check_cached cache v meta end) st1 Q) as Hrest.
  { intros st1 [meta|] H1; [|apply wp_ret, HQ; auto]. unfold check_cached.
    destruct (negb _); [apply wp_ret, HQ; auto|]. apply wp_bind, wp_try. unfold sha256_file. apply wp_bind.
    apply wp_read; intros; cbn; [apply HQ; [congruence | auto]|].
    destruct (negb _); apply wp_ret, HQ; (congruence || auto). }
  apply wp_read; intros; apply Hrest; congruence.
Qed.

(** The cache is written while a file outside it stays as it is. *)
Definition keeps (src : path) (g : option file) (m : gmap path file) : Prop := tidy m /\ m !! src = g.

Section Store.
Context (src : path) (g : option file) (Hsrc : forall x, src <> cache ++ [x]).

Lemma keeps_insert m x f :
  (forall v, plain v -> x = ("ant-node-" +:+ v)%string -> authentic (data f)) ->
  keeps src g m -> keeps src g (<[cache ++ [x] := f]> m).
Proof.
  intros Hx [Ht Hm]. split; [exact (tidy_insert_cache m x f Hx Ht)|].
  rewrite lookup_insert_ne; [exact Hm | intros Heq; by destruct (Hsrc x)].
Qed.

Lemma keeps_delete m x : keeps src g m -> keeps src g (base.delete (cache ++ [x]) m).
Proof.
  intros [Ht Hm]. split; [exact (tidy_delete m _ x (or_intror eq_refl) Ht)|].
  rewrite lookup_delete_ne; [exact Hm | intros Heq; by destruct (Hsrc x)].
Qed.

Lemma keeps_hidden m x f : keeps src g m -> keeps src g (<[cache ++ [("." +:+ x)%string] := f]> m).
Proof. apply keeps_insert. intros v _ [=]. Qed.

Lemma wp_store_meta v hash st : keeps src g (files st) ->
  wp (store_meta cache v hash) st (fun _ st' => keeps src g (files st')).
Proof.
  intros Hk. unfold store_meta. apply wp_bind, wp_lift. destruct epoch_secs as [now|]; [cbn [ok_or]|exact Hk].
  apply wp_bind, wp_lift. destruct (ser serde_json _) as [j|]; [cbn [ok_or]|exact Hk].
  assert (forall st1, keeps src g (files st1) ->
    wp (fs_rename (cache ++ [(".ant-node-" +:+ v +:+ ".meta.tmp")%string]) (meta_path cache v)) st1
      (fun _ st' => keeps src g (files st'))) as Hlast.
  { intros st1 H1. apply wp_rename; [intros st2 ->; exact H1|]. intros st2 f _ ->.
    apply keeps_delete, keeps_insert; [|exact H1]. intros v' Hv' Heq. destruct (Hv' v).
    apply (inj (String.append "ant-node-")) in Heq. symmetry. exact Heq. }
  apply wp_bind, wp_write; intros st1; [intros ->; exact Hk | intros n ->; by apply keeps_hidden | intros Hst1].
  apply wp_bind, wp_ignore, wp_remove; intros st2 Hst2; apply Hlast; rewrite Hst2, Hst1;
    [|apply keeps_delete]; by apply keeps_hidden.
Qed.

Lemma wp_store_binary v st : keeps src g (files st) -> (forall f, g = Some f -> authentic (data f)) ->
  wp (store_binary cache v src) st (fun _ st' => keeps src g (files st')).
Proof.
  intros Hk Ha. unfold store_binary. set (tmp := cache ++ [(".ant-node-" +:+ v +:+ ".tmp")%string]).
  apply wp_bind, wp_copy; [intros st1 ->; exact Hk | intros st1 s n _ ->; by apply keeps_hidden |].
  intros st1 s Hs Hst1. rewrite (proj2 Hk) in Hs.
  assert (forall st2, keeps src g (files st2) -> files st2 !! tmp = Some s ->
    wp (fs_rename tmp (cached_binary_path cache v)) st2 (fun _ st' => keeps src g (files st'))) as Hlast.
  { intros st2 H2 Htmp. apply wp_rename; [intros st3 ->; exact H2|]. intros st3 f Hf ->.
    rewrite Htmp in Hf. injection Hf as <-. apply keeps_delete, keeps_insert; [|exact H2].
    intros _ _ _. exact (Ha s Hs). }
  apply wp_bind, wp_ignore, wp_remove; intros st2 Hst2; apply Hlast; rewrite Hst2, Hst1.
  1, 3: try apply keeps_delete; by apply keeps_hidden.
  - apply lookup_insert_eq.
  - rewrite lookup_delete_ne; [apply lookup_insert_eq|]. unfold tmp. intros [_ Heq]%app_inj_tail. discriminate.
Qed.

(** Storing an authentic binary keeps the cache good, wherever it fails. *)
Lemma wp_store v st : keeps src g (files st) -> (forall f, g = Some f -> authentic (data f)) ->
  wp (store cache v src) st (fun _ st' => keeps src g (files st')).
Proof.
  intros Hk Ha. unfold store, sha256_file. apply wp_bind, wp_bind, wp_read; [intros st1 ->; exact Hk|].
  intros st1 f Hf _. apply wp_ret, wp_bind. eapply wp_mono; [apply wp_store_binary; [by rewrite Hf | exact Ha]|].
  intros [[]|e] st2 Hk2; [by apply wp_store_meta | exact Hk2].
Qed.

End Store.

(** A download lands in the temporary directory, or the files are left as they
    are apart from a partial download there. *)
Lemma wp_download limit msg url x st (Q : result NodeError unit -> disk -> Prop) : tidy (files st) ->
  (forall e st', tidy (files st') -> Q (Err e) st') ->
  (forall b st', http url = Body b -> lenZ b <= limit -> files st' = put_data (files st) (temp ++ [x]) b -> Q (Ok tt) st') ->
  wp (download limit msg url (temp ++ [x])) st Q.
Proof.
  intros Ht He Ho. unfold download. destruct (http url) as [|c| |b]; [apply wp_fail; auto.. |].
  destruct (limit <? lenZ b) eqn:El; b2p; [apply wp_fail; auto|].
  apply wp_write; intros st1; [intros E; apply He; by rewrite E | intros n E; apply He; rewrite E; apply tidy_put_temp, Ht | eauto].
Qed.

Lemma wp_verify_from_file archive_path sig_path st (Q : result NodeError unit -> disk -> Prop) :
  (forall e st', files st' = files st -> Q (Err e) st') ->
  (forall st' fa fs, files st' = files st -> files st !! archive_path = Some fa -> files st !! sig_path = Some fs ->
     verify_content RELEASE_SIGNING_KEY (data fa) (data fs) = Ok tt -> Q (Ok tt) st') ->
  wp (verify_from_file archive_path sig_path) st Q.
Proof.
  intros He Ho. unfold verify_from_file, verify_binary_signature, verify_binary_signature_with_key.
  apply wp_bind, wp_read; [auto|]. intros st1 fs H1 Hs. destruct (negb _); [apply wp_fail; auto|].
  apply wp_bind, wp_map_err, wp_read; rewrite H1; [cbn; auto|]. intros st2 fa H2 Ha. cbn. apply wp_lift.
  destruct (verify_content _ _ _) as [[]|e] eqn:E; [eapply Ho; eauto; congruence | apply He; congruence].
Qed.

Lemma wp_write_entry x e st (Q : result NodeError path -> disk -> Prop) : tidy (files st) ->
  (forall err st', tidy (files st') -> Q (Err err) st') ->
  (forall st' f, tidy (files st') -> files st' !! (temp ++ [x]) = Some f -> entry_data e = (data f, true) ->
     Q (Ok (temp ++ [x])) st') ->
  wp (write_entry (temp ++ [x]) e) st Q.
Proof.
  intros Ht He Ho. unfold write_entry. apply wp_bind, wp_write; intros st1;
    [intros E; apply He; by rewrite E | intros n E; apply He; rewrite E; apply tidy_put_temp, Ht | intros H1].
  assert (tidy (files st1)) as Ht1 by (rewrite H1; apply tidy_put_temp, Ht). clear H1.
  apply wp_bind, wp_map_err, wp_write; intros st2;
    [intros E; apply He; by rewrite E | intros n E; apply He; rewrite E; apply tidy_put_temp, Ht1 | intros H2]. cbn.
  destruct (entry_data e) as [b ok] eqn:Eb. cbn [fst snd] in *.
  destruct ok; cbn [negb]; [|apply wp_fail, He; rewrite H2; apply tidy_put_temp, Ht1].
  destruct (put_data_same (files st1) (temp ++ [x]) b) as (f & Hf & Hd). rewrite <- H2 in Hf.
  assert (tidy (files st2)) as Ht2 by (rewrite H2; apply tidy_put_temp, Ht1). clear H2.
  apply wp_bind, wp_set_mode; intros st3; [intros E; apply He; by rewrite E|]. intros f' Hf' H3.
  rewrite Hf in Hf'. injection Hf' as <-. apply wp_ret, (Ho _ (mkFile (data f) 493)).
  - rewrite H3. apply tidy_insert_temp, Ht2.
  - rewrite H3. apply lookup_insert_eq.
  - cbn. congruence.
Qed.

Lemma wp_extract_binary archive_path st (Q : result NodeError path -> disk -> Prop) : tidy (files st) ->
  (forall err st', tidy (files st') -> Q (Err err) st') ->
  (forall st' fa e f x, tidy (files st') -> files st !! archive_path = Some fa -> archive_binary (data fa) = Ok e ->
     files st' !! (temp ++ [x]) = Some f -> entry_data e = (data f, true) -> Q (Ok (temp ++ [x])) st') ->
  wp (extract_binary archive_path temp) st Q.
Proof.
  intros Ht He Ho. unfold extract_binary. apply wp_bind, wp_read; [intros st1 E; apply He; by rewrite E|]. intros st1 fa H1 Hfa.
  assert (tidy (files st1)) as Ht1 by (rewrite H1; exact Ht).
  assert (forall (list_ : bytes -> option (list (option (option archive_entry)))) err find,
    (forall e, (entries ← ok_or (list_ (data fa)) (UpgradeError err); find entries) = Ok e -> archive_binary (data fa) = Ok e) ->
    wp (archive ← fs_read archive_path;
        entries ← io_lift (ok_or (list_ archive) (UpgradeError err));
        e ← io_lift (find entries);
        write_entry (temp ++ ["ant-node"%string]) e) st1 Q) as Hx.
  { intros list_ err find Hab. apply wp_bind, wp_read; rewrite H1; [intros st2 E; apply He; by rewrite E|].
    intros st2 fa' H2 Hfa'. rewrite Hfa in Hfa'. injection Hfa' as <-.
    apply wp_bind, wp_lift. destruct (list_ (data fa)) as [entries|]; cbn [ok_or] in *; [|apply He; by rewrite H2].
    apply wp_bind, wp_lift. destruct (find entries) as [e|e0] eqn:Ef; [|apply He; by rewrite H2].
    apply wp_write_entry; [by rewrite H2 | exact He|]. intros st3 f Ht3 Hf Hd.
    apply (Ho st3 fa e f); auto. }
  destruct (data fa) as [|b0 [|b1 rest]] eqn:Ed.
  1: apply wp_fail, He, Ht1.
  1: destruct b0; apply wp_fail, He, Ht1.
  destruct b0; try (apply wp_fail, He, Ht1); destruct b1; try (apply wp_fail, He, Ht1).
  - apply Hx. cbn. auto.
  - apply Hx. cbn. auto.
Qed.

Lemma temp_not_cache_file x y : temp ++ [x] <> cache ++ [y].
Proof. intros [Heq _]%app_inj_tail. congruence. Qed.

Lemma wp_download_verify_extract info c st : tidy (files st) -> c = None \/ c = Some cache ->
  plain (version_to_string (version info)) ->
  wp (download_verify_extract info temp c) st gives_binary.
Proof.
  intros Ht Hc Hv. unfold download_verify_extract.
  assert (forall e st', tidy (files st') -> gives_binary (Err e) st') as Herr by (intros; split; auto).
  apply wp_bind, wp_download; [exact Ht | exact Herr|]. intros archive st1 _ _ H1.
  assert (tidy (files st1)) as Ht1 by (rewrite H1; apply tidy_put_temp, Ht).
  apply wp_bind, wp_download; [exact Ht1 | exact Herr|]. intros sig st2 _ _ H2.
  assert (tidy (files st2)) as Ht2 by (rewrite H2; apply tidy_put_temp, Ht1).
  apply wp_bind, wp_verify_from_file; [intros e st3 H3; apply Herr; by rewrite H3|].
  intros st3 fa fs H3 Ha Hs Hver.
  apply wp_bind, wp_extract_binary; [by rewrite H3 | exact Herr|].
  intros st4 fa' e f x Ht4 Ha' Hab Hf Hd. rewrite H3, Ha in Ha'. injection Ha' as <-.
  assert (authentic (data f)) as Hauth by (exists (data fa), (data fs), e; auto).
  destruct Hc as [-> | ->].
  { apply wp_ret. split; [exact Ht4|]. exists x, f. auto. }
  apply wp_bind, wp_ignore. eapply wp_mono.
  - apply (wp_store (temp ++ [x]) (Some f) (fun y => temp_not_cache_file x y)).
    + split; [exact Ht4 | exact Hf].
    + intros f' [= <-]. exact Hauth.
  - intros _ st5 [Ht5 Hf5]. apply wp_ret. split; [exact Ht5|]. exists x, f. auto.
Qed.

Lemma wp_resolve u info st : tidy (files st) -> binary_cache u = None \/ binary_cache u = Some cache ->
  plain (version_to_string (version info)) ->
  wp (resolve_upgrade_binary u info temp (version_to_string (version info))) st gives_binary.
Proof.
  intros Ht Hc Hv. unfold resolve_upgrade_binary. destruct Hc as [-> | ->].
  { apply wp_download_verify_extract; auto. }
  set (v := version_to_string (version info)) in *. set (bin := cached_binary_path cache v).
  assert (forall e st', tidy (files st') -> gives_binary (Err e) st') as Herr by (intros; split; auto).
  assert (forall st1, tidy (files st1) -> forall x,
    wp (fs_copy bin (temp ++ [x])) st1 (fun r st' => tidy (files st') /\
      (r = Ok tt -> exists f, files st' !! (temp ++ [x]) = Some f /\ authentic (data f)))) as Hcopy.
  { intros st1 Ht1 x. apply wp_copy; [intros st2 ->; split; [exact Ht1 | discriminate] | |].
    - intros st2 f n _ ->. split; [apply tidy_insert_temp, Ht1 | discriminate].
    - intros st2 f Hf ->. split; [apply tidy_insert_temp, Ht1|]. intros _. exists f.
      split; [apply lookup_insert_eq | exact (proj1 Ht1 v f Hv Hf)]. }
  apply wp_bind, wp_get_verified. intros st1 r H1 [-> | ->].
  - unfold acquire_download_lock. apply wp_bind, wp_bind, wp_map_err.
    assert (forall b, tidy (put_data (files st1) (cache ++ ["download.lock"%string]) b)) as Hlock
      by (intros b; apply tidy_insert_cache; [intros ? _ [=] | by rewrite H1]).
    apply wp_write; intros st2; [intros E; apply Herr; by rewrite E, H1 | intros n E; apply Herr; rewrite E; apply Hlock | intros H2].
    apply wp_bind, wp_map_err, wp_other. intros r st3 H3.
    destruct r as [[]|e]; cbn [map_err]; [|apply Herr; rewrite H3, H2; apply Hlock].
    assert (tidy (files (set_files st3 (others (files st3))))) as Ht3
      by (cbn; apply tidy_others; rewrite H3, H2; apply Hlock).
    unfold wp at 1, io_meanwhile at 1. apply wp_bind, wp_get_verified. intros st4 r4 H4 Hr4.
    assert (tidy (files st4)) as Ht4 by (rewrite H4; exact Ht3).
    destruct Hr4 as [-> | ->]; [apply wp_download_verify_extract; auto|].
    apply wp_bind. eapply wp_mono; [apply Hcopy, Ht4|]. intros [[]|e] st5 [Ht5 Hf]; [|apply Herr, Ht5].
    destruct (Hf eq_refl) as (f & Hf' & Ha). apply wp_ret. split; [exact Ht5|]. eauto.
  - apply wp_bind, wp_try. eapply wp_mono; [apply Hcopy; by rewrite H1|]. intros [[]|e] st2 [Ht2 Hf].
    + destruct (Hf eq_refl) as (f & Hf' & Ha). apply wp_ret. split; [exact Ht2|]. eauto.
    + apply wp_download_verify_extract; auto.
Qed.

(** ** The outcome of an upgrade *)

Definition installed (cur : path) (m : gmap path file) : Prop :=
  exists f, m !! cur = Some f /\ authentic (data f).

Definition outcome (info : UpgradeInfo) (cur : path) (r : result NodeError UpgradeResult) (st : disk) : Prop :=
  cache_ok cache (files st) /\
  match r with
  | Ok NoUpgrade | Ok (RolledBack _) => files st !! cur = m0 !! cur
  | Ok (Success v _) => v = version info /\
      (installed cur (files st) \/ files st !! cur = m0 !! cur /\ reported_version (m0 !! cur) = Some v)
  | Err e => files st !! cur = m0 !! cur \/ installed cur (files st) \/
      e = critical /\ exists n old, m0 !! cur = Some old /\ files st !! cur = Some (mkFile (take n (data old)) (mode old))
  end.

Lemma outcome_same info cur r st : cache_ok cache (files st) -> files st !! cur = m0 !! cur ->
  match r with Ok (Success _ _) => False | _ => True end -> outcome info cur r st.
Proof. intros Hc Hm Hr. split; [exact Hc|]. destruct r as [[]|]; auto. contradiction. Qed.

Lemma wp_restart u (info : UpgradeInfo) cur st :
  cache_ok cache (files st) ->
  installed cur (files st) \/ files st !! cur = m0 !! cur /\ reported_version (m0 !! cur) = Some (version info) ->
  wp (exit_code ← prepare_restart u; mret (Success (version info) exit_code)) st (outcome info cur).
Proof.
  intros Hc Hi. apply wp_bind. unfold prepare_restart. destruct (stop_on_upgrade u).
  { apply wp_ret, wp_ret. split; [exact Hc|]. auto. }
  apply wp_bind, wp_map_err, wp_other. intros r st1 H1. destruct r as [[]|e]; cbn [map_err].
  - apply wp_ret, wp_ret. split; rewrite H1; auto.
  - split; rewrite H1; [exact Hc | tauto].
Qed.

Section Apply.
Context (cur backup : path) (Hcb : cur <> backup).
Context (Hcur : ~ under temp cur /\ ~ under cache cur) (Hbackup : ~ under temp backup /\ ~ under cache backup).

Lemma not_under_child (dir p : path) x : ~ under dir p -> dir ++ [x] <> p.
Proof. intros Hn <-. apply Hn, under_child. Qed.

Lemma cache_ok_outside m q f : ~ under cache q -> cache_ok cache m -> cache_ok cache (<[q := f]> m).
Proof. intros Hq. apply cache_ok_insert. intros v _ ->. destruct Hq. apply under_child. Qed.

(** Replacing: the binary is the new one, or nothing but the new one's
    permissions changed. *)
Lemma wp_replace x f st : files st !! (temp ++ [x]) = Some f -> cache_ok cache (files st) ->
  wp (replace_binary (temp ++ [x]) cur) st (fun r st' => cache_ok cache (files st') /\
    match r with
    | Ok _ => exists f', files st' !! cur = Some f' /\ data f' = data f
    | Err _ => files st' !! cur = files st !! cur /\ files st' !! backup = files st !! backup
    end).
Proof.
  intros Hf Hc. unfold replace_binary. apply wp_bind, wp_try, wp_metadata. intros r st1 H1.
  assert (forall st2 f', files st2 !! (temp ++ [x]) = Some f' -> data f' = data f -> cache_ok cache (files st2) ->
    files st2 !! cur = files st !! cur -> files st2 !! backup = files st !! backup ->
    wp (fs_rename (temp ++ [x]) cur) st2 (fun r st' => cache_ok cache (files st') /\
      match r with
      | Ok _ => exists f', files st' !! cur = Some f' /\ data f' = data f
      | Err _ => files st' !! cur = files st !! cur /\ files st' !! backup = files st !! backup
      end)) as Hren.
  { intros st2 f' Hf' Hd Hc2 Hx Hb. apply wp_rename; [intros st3 ->; auto|]. intros st3 s Hs ->.
    rewrite Hf' in Hs. injection Hs as <-. split.
    - apply cache_ok_delete, cache_ok_outside; tauto.
    - exists f'. split; [|exact Hd]. rewrite lookup_delete_ne by (apply not_under_child; tauto). apply lookup_insert_eq. }
  apply wp_bind. destruct r as [perms|e].
  - apply wp_set_mode; intros st2; rewrite H1; [intros ->; auto|]. intros f' Hf' H2. rewrite Hf in Hf'. injection Hf' as <-.
    assert (forall q, temp ++ [x] <> q -> files st2 !! q = files st !! q) as Hq
      by (intros q Hq; rewrite H2; by apply lookup_insert_ne).
    apply (Hren st2 (mkFile (data f) perms)); [by rewrite H2, lookup_insert_eq | reflexivity | | |].
    + rewrite H2. apply cache_ok_insert; [|exact Hc]. intros v _ Heq. destruct (temp_not_cached x v Heq).
    + apply Hq, not_under_child; tauto.
    + apply Hq, not_under_child; tauto.
  - apply wp_ret, (Hren st1 f); rewrite ?H1; auto.
Qed.

(** Backing up, replacing and rolling back. *)
Lemma wp_swap u info x f st : tidy (files st) -> files st !! (temp ++ [x]) = Some f -> authentic (data f) ->
  wp (copied ← io_try (fs_copy cur backup);
      match copied with
      | Err _ => mret (RolledBack "Backup failed: {e}")
      | Ok _ =>
        replace_result ← io_try (replace_binary (temp ++ [x]) cur);
        match replace_result with
        | Err _ =>
            restored ← io_try (fs_copy backup cur);
            match restored with
            | Err _ => io_fail critical
            | Ok _ => mret (RolledBack "Replacement failed: {e}")
            end
        | Ok _ =>
            exit_code ← prepare_restart u;
            mret (Success (version info) exit_code)
        end
      end) st (outcome info cur).
Proof.
  intros [Hc Hfr] Hf Ha. pose proof (Hfr cur (proj1 Hcur) (proj2 Hcur)) as Hm.
  apply wp_bind, wp_try, wp_copy; [intros st1 H1; apply wp_ret, outcome_same; rewrite ?H1; auto | |].
  { intros st1 s n _ H1. apply wp_ret, outcome_same; rewrite ?H1; [apply cache_ok_outside; tauto | | exact I].
    by rewrite lookup_insert_ne. }
  intros st1 old Hold H1.
  assert (cache_ok cache (files st1)) as Hc1 by (rewrite H1; apply cache_ok_outside; tauto).
  assert (files st1 !! cur = m0 !! cur /\ files st1 !! backup = Some old) as [Hm1 Hb1]
    by (rewrite H1, lookup_insert_ne by done; split; [exact Hm | apply lookup_insert_eq]).
  assert (files st1 !! (temp ++ [x]) = Some f) as Hf1
    by (rewrite H1, lookup_insert_ne; [exact Hf | intros Heq; by apply (not_under_child temp backup x (proj1 Hbackup))]).
  clear H1. apply wp_bind, wp_try. eapply wp_mono; [apply (wp_replace x f st1 Hf1 Hc1)|].
  intros [[]|e] st2 [Hc2 H2].
  - destruct H2 as (f' & Hf' & Hd). apply wp_restart; [exact Hc2|]. left. exists f'. split; [exact Hf' | by rewrite Hd].
  - destruct H2 as [Hx2 Hb2]. rewrite Hm1 in Hx2. rewrite Hb1 in Hb2. rewrite Hm in Hold.
    apply wp_bind, wp_try, wp_copy; intros st3.
    + intros H3. apply wp_fail, outcome_same; rewrite ?H3; auto.
    + intros s n Hs H3. rewrite Hb2 in Hs. injection Hs as <-. apply wp_fail.
      split; rewrite H3; [apply cache_ok_outside; tauto|]. right; right. split; [reflexivity|].
      exists n, old. split; [exact Hold | apply lookup_insert_eq].
    + intros s Hs H3. rewrite Hb2 in Hs. injection Hs as <-. apply wp_ret, outcome_same; rewrite ?H3;
        [apply cache_ok_outside; tauto | rewrite lookup_insert_eq; congruence | exact I].
Qed.

End Apply.

Lemma wp_apply_in u info cur dir st : tidy (files st) ->
  binary_cache u = None \/ binary_cache u = Some cache -> plain (version_to_string (version info)) ->
  let backup := dir ++ [(default "ant-node" (last cur) +:+ ".backup")%string] in
  cur <> backup -> ~ under temp cur /\ ~ under cache cur -> ~ under temp backup /\ ~ under cache backup ->
  wp (apply_in u info cur dir temp) st (outcome info cur).
Proof.
  intros Ht Hc Hv backup Hcb Hcur Hb. unfold apply_in. apply wp_bind, wp_try.
  eapply wp_mono; [apply wp_resolve; eauto|]. intros [p|e] st1 [Ht1 Hg].
  - destruct Hg as (x & f & -> & Hf & Ha). unfold wp at 1, on_disk_version at 1, mbind at 1, io_bind at 1.
    pose proof (proj2 Ht1 cur (proj1 Hcur) (proj2 Hcur)) as Hm.
    case_bool_decide as Hdisk; [|exact (wp_swap cur backup Hcb Hcur Hb u info x f st1 Ht1 Hf Ha)].
    apply wp_restart; [exact (proj1 Ht1)|]. right. split; [exact Hm | congruence].
  - apply wp_ret, outcome_same; [exact (proj1 Ht1) | | exact I]. apply (proj2 Ht1); tauto.
Qed.

Lemma outcome_drop info cur r st : ~ under temp cur -> outcome info cur r st -> outcome info cur r (drop_dir temp st).
Proof.
  intros Hcur [Hc Ho]. pose proof (lookup_drop_dir temp st cur Hcur) as Hl.
  split; [by apply cache_ok_drop|]. unfold installed in *. destruct r as [[]|]; rewrite Hl; exact Ho.
Qed.

End Run.

(** The temporary directory of an upgrade of [cur]. *)
Definition upgrade_temp_dir (dir : path) : path := dir ++ [("ant-upgrade-" +:+ temp_name)%string].
Definition backup_of (dir cur : path) : path := dir ++ [(default "ant-node" (last cur) +:+ ".backup")%string].

(** The directory is fresh, and the cache is somewhere else than the binary. *)
Record layout (cache dir cur : path) : Prop := {
  layout_parent : parent cur = Some dir;
  layout_cache : cache <> upgrade_temp_dir dir /\ ~ under cache cur /\ ~ under cache (backup_of dir cur);
  layout_temp : ~ under (upgrade_temp_dir dir) cur /\ ~ under (upgrade_temp_dir dir) (backup_of dir cur);
  layout_backup : cur <> backup_of dir cur
}.

End Upgrade.

(** ** Properties *)

(** C30: Only authentic binaries are installed.  Let the cache of binaries be good
    and let every file operation, download and clock fail wherever it likes.  After
    [apply_upgrade] the node's binary is the one from before, or the node binary of
    an archive signed under the embedded release key; the cache stays good.
    [Success] is only returned for a version newer than the node's, when the binary
    is such a one or already reports that version; after [RolledBack] and
    [NoUpgrade] the binary is untouched; only an error of a failed rollback can
    leave a part of the old binary. *)
Theorem upgrade_installs_authentic_binary
    `{semver : Semver, tools : ReleaseTools, dsa : Dsa, meta_codec : !Codec serde_json CachedBinaryMeta, stats : Stats}
    (epoch_secs : option Z) (others : gmap path file -> gmap path file) (http : string -> http_response)
    (run_version : file -> option string) (argv0 current_exe : option path) (canonicalize : path -> option path)
    (temp_name : string) (u : AutoApplyUpgrader) (info : UpgradeInfo) (cache dir cur : path) (st : disk)
    (Hothers : forall m, (cache_ok cache m -> cache_ok cache (others m)) /\
                 forall p, ~ under cache p -> others m !! p = m !! p)
    (Hcur : (current_binary_path argv0 current_exe canonicalize st).1 = Ok cur)
    (Hlayout : layout temp_name cache dir cur)
    (Hu : binary_cache u = None \/ binary_cache u = Some cache)
    (Hversion : plain (version_to_string (version info))) (Hcache : cache_ok cache (files st)) :
  let '(r, st') := apply_upgrade epoch_secs others http run_version argv0 current_exe canonicalize temp_name u info st in
  outcome run_version cache (files st) info cur r st' /\
  (forall v code, r = Ok (Success v code) -> version_gt v (own_version u) = true).
Proof.
  destruct Hlayout as [Hp [Hct [Hcc Hcb]] [Htc Htb] Hne].
  set (temp := upgrade_temp_dir temp_name dir) in *.
  change (wp (apply_upgrade epoch_secs others http run_version argv0 current_exe canonicalize temp_name u info) st
    (fun r st' => outcome run_version cache (files st) info cur r st' /\
       forall v code, r = Ok (Success v code) -> version_gt v (own_version u) = true)).
  unfold apply_upgrade. destruct (version_gt (version info) (own_version u)) eqn:Ev; cbn [negb].
  2: { apply wp_ret. split; [split; [exact Hcache | reflexivity] | discriminate]. }
  apply wp_bind. unfold wp at 1.
  assert (files (current_binary_path argv0 current_exe canonicalize st).2 = files st) as Hsame.
  { unfold current_binary_path. destruct argv0 as [a|]; [|reflexivity].
    unfold mbind, io_bind, fs_exists. destruct (stat_works _ _ && _); reflexivity. }
  destruct (current_binary_path _ _ _ st) as [r0 st0]. cbn [fst snd] in *. subst r0.
  apply wp_bind, wp_lift. rewrite Hp. cbn [ok_or]. unfold with_tempdir. apply wp_bind, wp_map_err, wp_other.
  intros [[]|e] st1 H1; cbn [map_err].
  2: { split; [apply outcome_same; rewrite ?H1, ?Hsame; auto | discriminate]. }
  apply wp_then_drop. fold (upgrade_temp_dir temp_name dir). fold temp.
  eapply wp_mono; [apply (wp_apply_in epoch_secs others http run_version canonicalize temp_name cache temp Hct
    (fun m => proj1 (Hothers m)) (fun m p => proj2 (Hothers m) p) (files st) u info cur dir); auto|].
  - split; [by rewrite H1, Hsame | intros p _ _; by rewrite H1, Hsame].
  - intros r st2 Ho. split; [by apply outcome_drop|].
    intros v code ->. destruct Ho as [_ [-> _]]. exact Ev.
Qed.

(** A machine whose archive holds one binary, and a node of version 1. *)
#[local] Existing Instances number_semver sure_stats.

#[local] Instance one_archive : ReleaseTools := {|
  untar b := Some [Some (Some (mkEntry (Some "ant-node"%string) ([x42], true)))];
  unzip _ := None;
  sha256_hex _ := ""%string;
  dsa_verify_ctx pk _ _ _ := Some (bool_decide (pk = RELEASE_SIGNING_KEY))
|}.

#[local] Instance any_dsa : Dsa := {|
  dsa_keypair _ _ := False;
  dsa_pk_valid _ := true;
  dsa_sk_valid _ := true;
  dsa_sig_valid _ := true;
  dsa_sign _ _ := None;
  dsa_verify _ _ _ := true
|}.

#[local] Instance no_meta_codec : Codec serde_json CachedBinaryMeta := {| ser _ := Some [x7b]; de _ := None |}.

Definition sample_binary : path := ["opt"; "ant-node"]%string.
Definition sample_cache : path := ["var"; "upgrades"]%string.

Definition sample_disk : disk := mkDisk {[ sample_binary := mkFile [x41] 493 ]} [].

Definition sample_http (url : string) : http_response :=
  if String.eqb url "https://x/bin" then Body [x1f; x8b; x00] else Body (replicate 3309 x00).

Definition sample_upgrader : AutoApplyUpgrader := mkUpgrader (1 : Version) (Some sample_cache) true.

Definition run_sample : result NodeError UpgradeResult * disk :=
  apply_upgrade (Some 0) (fun m => m) sample_http (fun _ => None) (Some sample_binary) None Some "x"
    sample_upgrader upgrade_to_2 sample_disk.

Theorem upgrade_installs_authentic_binary_witness :
  run_sample.1 = Ok (Success (2 : Version) 0) /\
  data <$> files run_sample.2 !! sample_binary = Some [x42] /\
  outcome (fun _ => None) sample_cache (files sample_disk) upgrade_to_2 sample_binary run_sample.1 run_sample.2.
Proof.
  split; [vm_compute; reflexivity|]. split; [vm_compute; reflexivity|].
  pose proof (upgrade_installs_authentic_binary (Some 0) (fun m => m) sample_http (fun _ => None)
    (Some sample_binary) None Some "x" sample_upgrader upgrade_to_2 sample_cache ["opt"%string] sample_binary sample_disk) as Hw.
  fold run_sample in Hw. destruct run_sample as [r st']. apply Hw.
  - intros m. split; auto.
  - reflexivity.
  - split; [reflexivity | repeat split | split | discriminate]; try discriminate;
      intros [k Hk]; discriminate Hk.
  - right. reflexivity.
  - intros v Hv. apply (f_equal String.length) in Hv.
    assert (String.length (v +:+ ".meta.json") = String.length v + 10)%nat as Hl.
    { clear. induction v as [|c v IH]; [reflexivity|]. exact (f_equal S IH). }
    rewrite Hl in Hv. cbn in Hv. lia.
  - intros v f _ Hl. unfold sample_disk, files in Hl. apply lookup_singleton_Some in Hl as [Heq _]. discriminate.
Defined.
