(* ===== verification/Supervisor.v ===== *)
(** * The node supervisor of the native client

    [ant-client/ant-core/src/node/daemon/supervisor.rs]: the table of node runtimes
    behind a lock, the commands that start and stop nodes, and the monitor task of
    each started process, with its crash counter and back-off.  The locked parts of a
    monitor are atomic; a stop is two steps, and holds the lock while its process is
    killed.  A [world] interleaves them with processes that die, time, and stops that
    are dropped half way, as the handler of a closed connection is.  Instants and durations are in nanoseconds; a pid is a [Z]
    that may be used again after its process has died. *)

From Stdlib Require Import ZArith Lia Strings.String.
From stdpp Require Import base decidable list strings pretty gmap.
From S2P Require Import Prelude Files.

Local Open Scope Z_scope.

Definition second : Z := 10 ^ 9.
Definition MAX_CRASHES_BEFORE_ERRORED : Z := 5.
Definition CRASH_WINDOW : Z := 300 * second.
Definition STABLE_DURATION : Z := 300 * second.
Definition MAX_BACKOFF : Z := 60 * second.

Inductive NodeStatus := Stopped | Starting | Running | Stopping | Errored.
#[export] Instance NodeStatus_eq_dec : EqDecision NodeStatus.
Proof. solve_decision. Defined.

(** [ant-core]'s errors, with the text they are shown as. *)
Inductive core_error :=
| Io (msg : string)
| Json (msg : string)
| NodeNotFound (id : Z)
| NodeAlreadyRunning (id : Z)
| NodeNotRunning (id : Z)
| DaemonAlreadyRunning (pid : Z)
| DaemonNotRunning
| BindError (msg : string)
| PortFileNotFound (p : path)
| PidFileNotFound (p : path)
| HttpRequest (msg : string)
| ProcessSpawn (msg : string)
| PortRangeMismatch (range_len count : Z)
| BinaryNotFound (p : path)
| BinaryResolution (msg : string)
| InvalidRewardsAddress (msg : string)
| DaemonStopFailed (msg : string)
| HomeDirNotFound
| UpdateFailed (msg : string)
| BootstrapConfigParse (msg : string)
| InvalidNodeCount (count max : Z)
| NodesStillRunning (n : Z).

Definition show_error (e : core_error) : string :=
  match e with
  | Io msg => "I/O error: " ++ msg
  | Json msg => "JSON serialization error: " ++ msg
  | NodeNotFound id => "Node not found: " ++ pretty id
  | NodeAlreadyRunning id => "Node already running: " ++ pretty id
  | NodeNotRunning id => "Node not running: " ++ pretty id
  | DaemonAlreadyRunning pid => "Daemon already running (pid: " ++ pretty pid ++ ")"
  | DaemonNotRunning => "Daemon not running"
  | BindError msg => "Failed to bind to address: " ++ msg
  | PortFileNotFound p => "Port file not found: " ++ display p
  | PidFileNotFound p => "PID file not found: " ++ display p
  | HttpRequest msg => "HTTP request error: " ++ msg
  | ProcessSpawn msg => "Process spawn failed: " ++ msg
  | PortRangeMismatch range_len count =>
      "Port range length (" ++ pretty range_len ++ ") does not match node count (" ++ pretty count ++ ")"
  | BinaryNotFound p => "Binary not found at path: " ++ display p
  | BinaryResolution msg => "Binary resolution failed: " ++ msg
  | InvalidRewardsAddress msg => "Invalid rewards address: " ++ msg
  | DaemonStopFailed msg => "Failed to stop daemon: " ++ msg
  | HomeDirNotFound => "Could not determine home directory (HOME/USERPROFILE not set)"
  | UpdateFailed msg => "Update failed: " ++ msg
  | BootstrapConfigParse msg => "Failed to parse bootstrap_peers.toml: " ++ msg
  | InvalidNodeCount count max => "Node count " ++ pretty count ++ " exceeds maximum of " ++ pretty max ++ " per call"
  | NodesStillRunning n =>
      "Cannot reset while nodes are running (" ++ pretty n ++ " node(s) still running). Stop all nodes first."
  end%string.

Inductive NodeEvent :=
| NodeStarting (node_id : Z)
| NodeStarted (node_id pid : Z)
| NodeStopping (node_id : Z)
| NodeStopped (node_id : Z)
| NodeCrashed (node_id : Z) (exit_code : option Z)
| NodeRestarting (node_id attempt : Z)
| NodeErrored (node_id : Z) (message : string)
| DownloadStarted (version : string)
| DownloadProgress (bytes total : Z)
| DownloadComplete (version path : string).

Record NodeConfig := mkNodeConfig {
  config_id : Z;
  service_name : string;
  rewards_address : string;
  data_dir : path;
  log_dir : option path;
  node_port : option Z;
  metrics_port : option Z;
  network_id : option Z;
  binary_path : path;
  version : string;
  env_variables : gmap string string;
  bootstrap_peers : list string
}.

(** The arguments of the node binary. *)
Definition build_node_args (config : NodeConfig) : list string :=
  ["--rewards-address"%string; rewards_address config; "--root-dir"%string; display (data_dir config)]
  ++ match log_dir config with Some d => ["--log-dir"%string; display d] | None => [] end
  ++ match node_port config with Some port => ["--port"%string; pretty port] | None => [] end
  ++ match metrics_port config with Some port => ["--metrics-port"%string; pretty port] | None => [] end
  ++ (bootstrap_peers config ≫= fun peer => ["--bootstrap"%string; peer]).

Record NodeRuntime := mkRuntime {
  status : NodeStatus;
  pid : option Z;
  started_at : option Z;
  restart_count : Z;
  first_crash_at : option Z
}.

Abbreviation Supervisor := (gmap Z NodeRuntime).

(** ** Queries *)

Definition node_status (sup : Supervisor) (id : Z) : result core_error NodeStatus :=
  match sup !! id with Some s => Ok (status s) | None => Err (NodeNotFound id) end.

Definition node_pid (sup : Supervisor) (id : Z) : option Z := s ← sup !! id; pid s.

Definition node_uptime_secs (sup : Supervisor) (id now : Z) : option Z :=
  s ← sup !! id; t ← started_at s; Some (sat_sub now t / second).

Definition is_running (sup : Supervisor) (id : Z) : bool :=
  match sup !! id with Some s => bool_decide (status s = Running) | None => false end.

(** (running, stopped, errored). *)
Definition count_status (counts : Z * Z * Z) (s : NodeRuntime) : Z * Z * Z :=
  let '(running, stopped, errored) := counts in
  match status s with
  | Running | Starting => (running + 1, stopped, errored)
  | Stopped | Stopping => (running, stopped + 1, errored)
  | Errored => (running, stopped, errored + 1)
  end.
Definition node_counts (sup : Supervisor) : Z * Z * Z :=
  fold_left count_status (map_to_list sup).*2 (0, 0, 0).

(** ** Updates *)

Definition update_state (sup : Supervisor) (id : Z) (st : NodeStatus) (p : option Z) (now : Z) : Supervisor :=
  match sup !! id with
  | None => sup
  | Some s =>
      <[id := mkRuntime st p (if bool_decide (st = Running) then Some now else started_at s)
                (restart_count s) (first_crash_at s)]> sup
  end.

(** [u32] arithmetic wraps. *)
Definition u32 (z : Z) : Z := z mod 2 ^ 32.

(** [record_crash]: (should_restart, attempt, backoff) and the new table. *)
Definition record_crash (sup : Supervisor) (id now : Z) : (bool * Z * Z) * Supervisor :=
  match sup !! id with
  | None => ((false, 0, 0), sup)
  | Some s =>
    let stable := match started_at s with Some t => STABLE_DURATION <=? sat_sub now t | None => false end in
    let restart_count := if stable then 0 else restart_count s in
    let first_crash_at := if stable then None else first_crash_at s in
    let attempt := u32 (restart_count + 1) in
    let first_crash := match first_crash_at with Some t => t | None => now end in
    if (MAX_CRASHES_BEFORE_ERRORED <=? attempt) && (sat_sub now first_crash <? CRASH_WINDOW) then
      ((false, attempt, 0), <[id := mkRuntime Errored None None attempt (Some first_crash)]> sup)
    else
      let backoff_secs := Z.shiftl 1 (Z.min (u32 (attempt - 1)) 5) in
      ((true, attempt, Z.min (backoff_secs * second) MAX_BACKOFF),
       <[id := mkRuntime (status s) (pid s) (started_at s) attempt (Some first_crash)]> sup)
  end.

(** ** Commands *)

(** What spawning a process gives: an error, a process that is gone before its
    pid can be read, or one with a pid. *)
Inductive spawn_result := SpawnError (msg : string) | NoPid | Spawned (pid : Z).

(** What the first second shows; [detail] is the trimmed stderr of the process,
    or its exit status when there is none. *)
Inductive health := ExitedImmediately (detail : string) | WaitFailed (error : string) | StillRunning.

Definition start_node (sup : Supervisor) (id : Z) (sp : spawn_result) (h : health) (now : Z)
    : result core_error Z * Supervisor * list NodeEvent :=
  if is_running sup id then (Err (NodeAlreadyRunning id), sup, [])
  else
    match sp with
    | SpawnError e => (Err (ProcessSpawn e), sup, [NodeStarting id])
    | NoPid => (Err (ProcessSpawn "Failed to get PID from spawned process"), sup, [NodeStarting id])
    | Spawned p =>
      match h with
      | ExitedImmediately detail =>
          (Err (ProcessSpawn ("Node " ++ pretty id ++ " exited immediately: " ++ detail)),
           <[id := mkRuntime Errored None None 0 None]> sup, [NodeStarting id])
      | WaitFailed e => (Err (ProcessSpawn ("Failed to check node process status: " ++ e)), sup, [NodeStarting id])
      | StillRunning =>
          (Ok p, <[id := mkRuntime Running (Some p) (Some now) 0 None]> sup, [NodeStarting id; NodeStarted id p])
      end
    end.

(** [stop_node] up to its await: the pid that is to be killed, if any. *)
Definition stop_begin (sup : Supervisor) (id : Z) : result core_error (option Z) * Supervisor * list NodeEvent :=
  match sup !! id with
  | None => (Err (NodeNotFound id), sup, [])
  | Some s =>
    if negb (bool_decide (status s = Running)) then (Err (NodeNotRunning id), sup, [])
    else (Ok (pid s),
          <[id := mkRuntime Stopping (pid s) (started_at s) (restart_count s) (first_crash_at s)]> sup,
          [NodeStopping id])
  end.

(** The rest of it; no entry is ever removed, so [unwrap] finds one. *)
Definition stop_end (sup : Supervisor) (id : Z) : Supervisor * list NodeEvent :=
  match sup !! id with
  | None => (sup, [])
  | Some s => (<[id := mkRuntime Stopped None None (restart_count s) (first_crash_at s)]> sup, [NodeStopped id])
  end.

(** A stop that is not dropped, with the pid that was killed. *)
Definition stop_node (sup : Supervisor) (id : Z) : result core_error unit * option Z * Supervisor * list NodeEvent :=
  let '(r, sup, evs) := stop_begin sup id in
  match r with
  | Err e => (Err e, None, sup, evs)
  | Ok killed => let '(sup, evs') := stop_end sup id in (Ok tt, killed, sup, evs ++ evs')
  end.

(** The nodes stopped, with their service names; those that could not be, with the
    error; and those that did not run. *)
Record StopNodeResult := mkStopResult {
  stopped : list (Z * string);
  failed : list (Z * string * string);
  already_stopped : list Z
}.

(** [stop_all_nodes], with the pids killed. *)
Fixpoint stop_all_nodes (sup : Supervisor) (configs : list (Z * string)) : StopNodeResult * list Z * Supervisor :=
  match configs with
  | [] => (mkStopResult [] [] [], [], sup)
  | (id, service_name) :: configs' =>
    match node_status sup id with
    | Ok Running =>
      let '(r, killed, sup', _) := stop_node sup id in
      let '(res, ps, sup'') := stop_all_nodes sup' configs' in
      let ps := match killed with Some p => p :: ps | None => ps end in
      (match r with
       | Ok _ => mkStopResult ((id, service_name) :: stopped res) (failed res) (already_stopped res)
       | Err (NodeNotRunning _) => mkStopResult (stopped res) (failed res) (id :: already_stopped res)
       | Err e => mkStopResult (stopped res) ((id, service_name, show_error e) :: failed res) (already_stopped res)
       end, ps, sup'')
    | _ =>
      let '(res, ps, sup'') := stop_all_nodes sup configs' in
      (mkStopResult (stopped res) (failed res) (id :: already_stopped res), ps, sup'')
    end
  end.

(** ** The monitor of a process *)

(** Where a monitor stands: waiting for its process; the process has ended;
    about to note a clean exit or a crash; sleeping; about to note the pid of the
    restarted process, or that there is none. *)
Inductive monitor_pc :=
| Watching (p : Z)
| Ended (exit_code : option Z)
| CleanExit
| Crashed
| BackingOff (wake : Z)
| Respawned (p : Z)
| RespawnFailed (message : string).

Definition giving_up : string :=
  "Node crashed " ++ pretty MAX_CRASHES_BEFORE_ERRORED ++ " times within " ++ pretty (CRASH_WINDOW / second)
  ++ " seconds, giving up".

(** One step between two points where the lock is free.  [sp] is what a spawn
    gives; [None] for the next point ends the monitor. *)
Definition monitor_step (sup : Supervisor) (id now : Z) (pc : monitor_pc) (sp : spawn_result)
    : option monitor_pc * Supervisor * list NodeEvent :=
  match pc with
  | Watching p => (Some (Watching p), sup, [])
  | Ended exit_code =>
    match node_status sup id with
    | Ok Stopped | Ok Stopping => (None, sup, [])
    | _ =>
      if bool_decide (exit_code = Some 0) then (Some CleanExit, sup, [])
      else (Some Crashed, sup, [NodeCrashed id exit_code])
    end
  | CleanExit => (None, update_state sup id Stopped None now, [NodeStopped id])
  | Crashed =>
    let '((should_restart, attempt, backoff), sup') := record_crash sup id now in
    if negb should_restart then
      (None, sup', [NodeErrored id giving_up])
    else (Some (BackingOff (now + backoff)), sup', [NodeRestarting id attempt])
  | BackingOff wake =>
    if now <? wake then (Some pc, sup, [])
    else
      match sp with
      | Spawned p => (Some (Respawned p), sup, [])
      | NoPid => (Some (RespawnFailed "Restarted process exited before PID could be read"), sup, [])
      | SpawnError e => (Some (RespawnFailed ("Failed to restart node: " ++ show_error (ProcessSpawn e))), sup, [])
      end
  | Respawned p => (Some (Watching p), update_state sup id Running (Some p) now, [NodeStarted id p])
  | RespawnFailed message => (None, update_state sup id Errored None now, [NodeErrored id message])
  end.

(** ** The whole daemon *)

Record monitor := mkMonitor { m_id : Z; m_pc : monitor_pc }.

(** [procs] are the live processes, each with the node it runs; [stopping] is the
    node and the pid of the stop that has the lock. *)
Record world := mkWorld {
  sup : Supervisor;
  procs : gmap Z Z;
  monitors : list monitor;
  now : Z;
  stopping : option (Z * option Z)
}.

(** A pid can be given to a new process when no process has it and none that had
    it is still waited for. *)
Definition fresh (w : world) (p : Z) : Prop :=
  procs w !! p = None /\ forall m, m ∈ monitors w -> m_pc m <> Watching p.

(** The process that a step of a monitor spawns. *)
Definition spawned (pc pc' : option monitor_pc) : option Z :=
  match pc, pc' with Some (BackingOff _), Some (Respawned p) => Some p | _, _ => None end.

(** The process that [start_node] leaves behind: a child is not killed when its
    handle is dropped ([kill_on_drop(false)]). *)
Definition launched (sup : Supervisor) (id : Z) (sp : spawn_result) (h : health) : option Z :=
  if is_running sup id then None
  else match sp, h with
       | Spawned p, StillRunning | Spawned p, WaitFailed _ => Some p
       | _, _ => None
       end.

(** A monitor that does not need the lock for its next step. *)
Definition needs_no_lock (pc : monitor_pc) : bool :=
  match pc with Watching _ | BackingOff _ => true | _ => false end.

Definition kill (killed : option Z) (procs : gmap Z Z) : gmap Z Z :=
  match killed with Some p => base.delete p procs | None => procs end.

(** What happens without a command: time, dying processes and the monitors. *)
Inductive tick : world -> world -> Prop :=
| step_time w d : 0 <= d -> tick w (mkWorld (sup w) (procs w) (monitors w) (now w + d) (stopping w))
| step_exit w p : tick w (mkWorld (sup w) (base.delete p (procs w)) (monitors w) (now w) (stopping w))
| step_wait w l1 l2 id p exit_code :
    monitors w = l1 ++ mkMonitor id (Watching p) :: l2 -> procs w !! p = None ->
    tick w (mkWorld (sup w) (procs w) (l1 ++ mkMonitor id (Ended exit_code) :: l2) (now w) (stopping w))
| step_monitor w l1 l2 id pc sp pc' sup' evs :
    monitors w = l1 ++ mkMonitor id pc :: l2 ->
    stopping w = None \/ needs_no_lock pc = true ->
    monitor_step (sup w) id (now w) pc sp = (pc', sup', evs) ->
    (forall p, spawned (Some pc) pc' = Some p -> fresh w p) ->
    tick w (mkWorld sup'
              (match spawned (Some pc) pc' with Some p => <[p := id]> (procs w) | None => procs w end)
              (l1 ++ match pc' with Some pc' => [mkMonitor id pc'] | None => [] end ++ l2) (now w) (stopping w)).

Inductive step : world -> world -> Prop :=
| step_tick w w' : tick w w' -> step w w'
| step_start w id sp h r sup' evs :
    stopping w = None ->
    start_node (sup w) id sp h (now w) = (r, sup', evs) ->
    (forall p, sp = Spawned p -> fresh w p) ->
    step w (mkWorld sup'
              (match launched (sup w) id sp h with Some p => <[p := id]> (procs w) | None => procs w end)
              (monitors w ++ match r with Ok p => [mkMonitor id (Watching p)] | Err _ => [] end) (now w) None)
| step_stop w id killed sup' evs :
    stopping w = None ->
    stop_begin (sup w) id = (Ok killed, sup', evs) ->
    step w (mkWorld sup' (procs w) (monitors w) (now w) (Some (id, killed)))
| step_stopped w id killed :
    stopping w = Some (id, killed) ->
    step w (mkWorld (stop_end (sup w) id).1 (kill killed (procs w)) (monitors w) (now w) None).

(** The lock is given back when a stop is dropped. *)
Inductive any_step : world -> world -> Prop :=
| any_of_step w w' : step w w' -> any_step w w'
| step_dropped w : any_step w (mkWorld (sup w) (procs w) (monitors w) (now w) None).

Definition init (t : Z) : world := mkWorld ∅ ∅ [] t None.

(** With dropped stops, and without. *)
Definition reachable (w : world) : Prop := exists t, rtc any_step (init t) w.
Definition reachable_undropped (w : world) : Prop := exists t, rtc step (init t) w.

(** ** Well-formedness *)

Record runtime_ok (t : Z) (s : NodeRuntime) : Prop := {
  ok_status : status s <> Starting;
  ok_pid : is_Some (pid s) <-> status s = Running \/ status s = Stopping;
  ok_started : status s = Running -> is_Some (started_at s);
  ok_started_past : forall u, started_at s = Some u -> u <= t;
  ok_count : 0 <= restart_count s < 2 ^ 32;
  ok_first : 0 < restart_count s -> is_Some (first_crash_at s);
  ok_first_past : forall u, first_crash_at s = Some u -> u <= t
}.

Definition table_ok (t : Z) (sup : Supervisor) : Prop :=
  forall id s, sup !! id = Some s -> runtime_ok t s.

(** Every node that is reported as running has a monitor. *)
Definition watched (sup : Supervisor) (ms : list monitor) : Prop :=
  forall id s, sup !! id = Some s -> status s = Running -> exists m, m ∈ ms /\ m_id m = id.

Lemma table_ok_insert t sup id s : runtime_ok t s -> table_ok t sup -> table_ok t (<[id := s]> sup).
Proof.
  intros Hs Ht id' s'. destruct (decide (id = id')) as [<-|Hne].
  - rewrite lookup_insert_eq. intros [= <-]. exact Hs.
  - rewrite lookup_insert_ne by done. apply Ht.
Qed.

Lemma table_ok_later t t' sup : t <= t' -> table_ok t sup -> table_ok t' sup.
Proof.
  intros Hle Ht id s Hs. destruct (Ht id s Hs) as [H1 H2 H3 H4 H5 H6 H7].
  split; auto; intros u Hu; [specialize (H4 u Hu) | specialize (H7 u Hu)]; lia.
Qed.

Lemma update_state_ok t sup id st p : table_ok t sup ->
  st = Running /\ is_Some p \/ (st = Stopped \/ st = Errored) /\ p = None ->
  table_ok t (update_state sup id st p t).
Proof.
  intros Ht Hst. unfold update_state. destruct (sup !! id) as [s|] eqn:E; [|exact Ht].
  destruct (Ht id s E) as [H1 H2 H3 H4 H5 H6 H7]. apply table_ok_insert; [|exact Ht].
  destruct Hst as [[-> Hp] | [Hst ->]].
  - split; cbn; auto; try discriminate; [tauto | intros u [= <-]; lia].
  - assert (bool_decide (st = Running) = false) as Hb
      by (apply bool_decide_eq_false; destruct Hst; congruence).
    split; cbn; rewrite ?Hb; auto.
    + destruct Hst; congruence.
    + split; [intros [? [=]] | intros [?|?]; destruct Hst; congruence].
    + destruct Hst; congruence.
Qed.

(** What [record_crash] makes of a runtime. *)
Lemma record_crash_cases sup id s t : sup !! id = Some s ->
  exists attempt first,
    (let stable := match started_at s with Some u => STABLE_DURATION <=? sat_sub t u | None => false end in
     attempt = u32 ((if stable then 0 else restart_count s) + 1) /\
     first = default t (if stable then None else first_crash_at s)) /\
    if (MAX_CRASHES_BEFORE_ERRORED <=? attempt) && (sat_sub t first <? CRASH_WINDOW)
    then record_crash sup id t = ((false, attempt, 0), <[id := mkRuntime Errored None None attempt (Some first)]> sup)
    else record_crash sup id t =
           ((true, attempt, Z.min (Z.shiftl 1 (Z.min (u32 (attempt - 1)) 5) * second) MAX_BACKOFF),
            <[id := mkRuntime (status s) (pid s) (started_at s) attempt (Some first)]> sup).
Proof.
  intros Hs. unfold record_crash. rewrite Hs.
  set (stable := match started_at s with Some u => _ | None => false end). cbv zeta.
  set (attempt := u32 _). set (fc := if stable then None else first_crash_at s).
  exists attempt, (default t fc). split; [split; reflexivity|].
  change (match fc with Some u => u | None => t end) with (default t fc).
  destruct (_ && _); reflexivity.
Qed.

Lemma record_crash_ok t sup id : table_ok t sup -> table_ok t (record_crash sup id t).2.
Proof.
  intros Ht. destruct (sup !! id) as [s|] eqn:E; [|unfold record_crash; rewrite E; exact Ht].
  destruct (Ht id s E) as [H1 H2 H3 H4 H5 H6 H7].
  destruct (record_crash_cases sup id s t E) as (attempt & first & [Ha Hf] & Hr).
  assert (0 <= attempt < 2 ^ 32) as Hat by (rewrite Ha; apply Z.mod_pos_bound; lia).
  assert (first <= t) as Hft.
  { rewrite Hf. destruct (match started_at s with Some u => _ | None => _ end); cbn; [lia|].
    destruct (first_crash_at s); cbn; [auto | lia]. }
  assert (forall u, Some first = Some u -> u <= t) as Hfp by (intros u [= <-]; exact Hft).
  destruct (_ && _); rewrite Hr; cbn [snd]; (apply table_ok_insert; [|exact Ht]).
  - split; cbn; try discriminate; eauto. split; [intros [? [=]] | intros [[=]|[=]]].
  - split; cbn; eauto.
Qed.

(** A step of a monitor touches its own node only, keeps the table well-formed,
    and leaves the node not running when it is the last. *)
Lemma monitor_step_ok t sup id pc sp pc' sup' evs : table_ok t sup ->
  monitor_step sup id t pc sp = (pc', sup', evs) ->
  table_ok t sup' /\ (forall id', id' <> id -> sup' !! id' = sup !! id') /\
  (pc' = None -> forall s, sup' !! id = Some s -> status s <> Running).
Proof.
  intros Ht. assert (forall st p, forall id', id' <> id -> update_state sup id st p t !! id' = sup !! id') as Hne.
  { intros st p id' Hid. unfold update_state. destruct (sup !! id); [by rewrite lookup_insert_ne | reflexivity]. }
  assert (forall st p s, st <> Running -> update_state sup id st p t !! id = Some s -> status s <> Running) as Hst.
  { intros st p s Hr. unfold update_state. destruct (sup !! id) eqn:E; [|congruence].
    rewrite lookup_insert_eq. intros [= <-]. exact Hr. }
  destruct pc as [p|code| | |wake|p|m]; cbn [monitor_step].
  - intros [= <- <- <-]. split; [exact Ht|]. split; [done | discriminate].
  - unfold node_status. destruct (sup !! id) as [s|] eqn:Es; [destruct (status s) eqn:E|];
      try (destruct (bool_decide _)); intros [= <- <- <-]; (split; [exact Ht|]); (split; [done|]);
      try discriminate; intros _ s' Hs'; rewrite Es in Hs'; injection Hs' as <-; rewrite E; discriminate.
  - intros [= <- <- <-]. split; [apply update_state_ok; auto|]. split; [apply Hne|].
    intros _ s. apply Hst. discriminate.
  - pose proof (record_crash_ok t sup id Ht) as Hok.
    destruct (sup !! id) as [s|] eqn:Es.
    2: { unfold record_crash. rewrite Es. cbn. intros [= <- <- <-]. split; [exact Ht|]. split; [done|]. congruence. }
    destruct (record_crash_cases sup id s t Es) as (attempt & first & _ & Hr).
    destruct (_ && _); rewrite Hr in *; cbn in *; intros [= <- <- <-]; (split; [exact Hok|]);
      (split; [intros id' Hid; by rewrite lookup_insert_ne|]); [|discriminate].
    intros _ s'. rewrite lookup_insert_eq. intros [= <-]. discriminate.
  - destruct (t <? wake); [|destruct sp]; intros [= <- <- <-]; (split; [exact Ht|]); (split; [done | discriminate]).
  - intros [= <- <- <-]. split; [apply update_state_ok; [exact Ht | left; eauto]|]. split; [apply Hne | discriminate].
  - intros [= <- <- <-]. split; [apply update_state_ok; auto|]. split; [apply Hne|].
    intros _ s. apply Hst. discriminate.
Qed.

Definition world_ok (w : world) : Prop := table_ok (now w) (sup w) /\ watched (sup w) (monitors w).

Lemma watched_replace sup id pc pc' l1 l2 :
  watched sup (l1 ++ mkMonitor id pc :: l2) -> watched sup (l1 ++ mkMonitor id pc' :: l2).
Proof.
  intros Hw id' s Hs Hr. destruct (Hw id' s Hs Hr) as (m & Hm & Hid). revert Hm.
  rewrite elem_of_app, elem_of_cons. intros [Hm | [-> | Hm]].
  - exists m. split; [set_solver | exact Hid].
  - exists (mkMonitor id pc'). split; [set_solver | exact Hid].
  - exists m. split; [set_solver | exact Hid].
Qed.

Lemma start_node_ok t sup id sp h r sup' evs ms : table_ok t sup -> watched sup ms ->
  start_node sup id sp h t = (r, sup', evs) ->
  table_ok t sup' /\ watched sup' (ms ++ match r with Ok p => [mkMonitor id (Watching p)] | Err _ => [] end).
Proof.
  intros Ht Hw. unfold start_node.
  assert (table_ok t sup /\ watched sup (ms ++ [])) as Hsame by (rewrite app_nil_r; auto).
  destruct (is_running sup id); [intros [= <- <- <-]; exact Hsame|].
  destruct sp as [e| |p]; [intros [= <- <- <-]; exact Hsame.. |].
  destruct h; intros [= <- <- <-]; [| exact Hsame |].
  - split.
    + apply table_ok_insert; [|exact Ht]. split; cbn; auto; try discriminate; try lia.
      split; [intros [? [=]] | intros [[=]|[=]]].
    + rewrite app_nil_r. intros id' s'. destruct (decide (id = id')) as [<-|Hne].
      * rewrite lookup_insert_eq. intros [= <-]. discriminate.
      * rewrite lookup_insert_ne by done. apply Hw.
  - split.
    + apply table_ok_insert; [|exact Ht]. split; cbn; eauto; try discriminate; try lia.
      * split; [by left | eauto].
      * intros u [= <-]. lia.
    + intros id' s'. destruct (decide (id = id')) as [<-|Hne].
      * intros _ _. exists (mkMonitor id (Watching p)). split; [set_solver | reflexivity].
      * rewrite lookup_insert_ne by done. intros Hs Hr. destruct (Hw id' s' Hs Hr) as (m & Hm & Hid).
        exists m. split; [set_solver | exact Hid].
Qed.

(** The new state of a node that a stop is at is not running. *)
Lemma stop_put_ok t sup id s s' ms : table_ok t sup -> watched sup ms -> sup !! id = Some s -> status s' <> Running ->
  (runtime_ok t s -> runtime_ok t s') -> table_ok t (<[id := s']> sup) /\ watched (<[id := s']> sup) ms.
Proof.
  intros Ht Hw Hs Hn Hok. split; [apply table_ok_insert; eauto|]. intros id' s1.
  destruct (decide (id = id')) as [<-|Hne]; [rewrite lookup_insert_eq; by intros [= <-]|].
  rewrite lookup_insert_ne by done. apply Hw.
Qed.

Lemma stop_begin_cases sup id r sup' evs : stop_begin sup id = (r, sup', evs) ->
  match r with
  | Ok killed => exists s, sup !! id = Some s /\ status s = Running /\ killed = pid s /\
      sup' = <[id := mkRuntime Stopping (pid s) (started_at s) (restart_count s) (first_crash_at s)]> sup
  | Err e => sup' = sup /\ node_status sup id <> Ok Running
  end.
Proof.
  unfold stop_begin, node_status. destruct (sup !! id) as [s|]; [|intros [= <- <- <-]; by split].
  case_bool_decide as Hr; cbn [negb]; intros [= <- <- <-]; [by exists s|]. split; [done | congruence].
Qed.

Lemma stop_begin_ok t sup id killed sup' evs ms : table_ok t sup -> watched sup ms ->
  stop_begin sup id = (Ok killed, sup', evs) -> table_ok t sup' /\ watched sup' ms.
Proof.
  intros Ht Hw (s & Hs & Hr & _ & ->)%stop_begin_cases. eapply stop_put_ok; eauto; try discriminate.
  intros [H1 H2 H3 H4 H5 H6 H7]. split; cbn; auto; try discriminate. rewrite H2. split; auto.
Qed.

Lemma stop_end_ok t sup id ms : table_ok t sup -> watched sup ms ->
  table_ok t (stop_end sup id).1 /\ watched (stop_end sup id).1 ms.
Proof.
  intros Ht Hw. unfold stop_end. destruct (sup !! id) as [s|] eqn:Hs; [|done]. cbn.
  eapply stop_put_ok; eauto; try discriminate. intros [H1 H2 H3 H4 H5 H6 H7].
  split; cbn; auto; try discriminate. split; [intros [? [=]] | intros [[=]|[=]]].
Qed.

Lemma tick_ok w w' : world_ok w -> tick w w' -> world_ok w'.
Proof.
  intros [Ht Hw] Hs. destruct Hs as [w d Hd | w p | w l1 l2 id p code Hm Hp | w l1 l2 id pc sp pc' sup' evs Hm _ Hst Hf];
    unfold world_ok; cbn.
  - split; [apply (table_ok_later (now w)); [lia | exact Ht] | exact Hw].
  - split; assumption.
  - split; [exact Ht|]. rewrite Hm in Hw. exact (watched_replace _ _ _ _ _ _ Hw).
  - destruct (monitor_step_ok _ _ _ _ _ _ _ _ Ht Hst) as (Ht' & Hne & Hlast). split; [exact Ht'|].
    rewrite Hm in Hw. intros id' s Hs Hr. destruct (decide (id' = id)) as [->|Hid].
    + destruct pc' as [pc'|]; [|destruct (Hlast eq_refl s Hs Hr)].
      exists (mkMonitor id pc'). split; [set_solver | reflexivity].
    + rewrite Hne in Hs by done. destruct (Hw id' s Hs Hr) as (m & Hmm & Hmid). exists m. split; [|exact Hmid].
      revert Hmm. rewrite !elem_of_app, elem_of_cons. intros [?|[->|?]]; [auto | cbn in Hmid; congruence | auto].
Qed.

Lemma step_ok w w' : world_ok w -> step w w' -> world_ok w'.
Proof.
  intros [Ht Hw] Hs. destruct Hs as [w w' Hs | w id sp h r sup' evs _ Hst Hf | w id killed sup' evs _ Hst | w id killed _].
  - by eapply tick_ok.
  - exact (start_node_ok _ _ _ _ _ _ _ _ _ Ht Hw Hst).
  - exact (stop_begin_ok _ _ _ _ _ _ _ Ht Hw Hst).
  - exact (stop_end_ok _ _ _ _ Ht Hw).
Qed.

Lemma reachable_ok w : reachable w -> world_ok w.
Proof.
  intros [t Hr]. revert w Hr. apply rtc_ind_r.
  - split; intros id s Hs; cbn in Hs; by rewrite lookup_empty in Hs.
  - intros y z _ Hs IH. destruct Hs as [y z Hs|y]; [exact (step_ok _ _ IH Hs) | exact IH].
Qed.

Lemma reachable_step w w' : reachable w -> rtc step w w' -> reachable w'.
Proof.
  intros [t Hw] Hr. exists t. transitivity w; [exact Hw|]. eapply rtc_subrel; [|exact Hr]. exact any_of_step.
Qed.

(** Without dropped stops a node is Stopping exactly while a stop of it has the
    lock. *)
Definition stopping_ok (w : world) : Prop :=
  forall id p, stopping w = Some (id, p) <-> exists s, sup w !! id = Some s /\ status s = Stopping /\ pid s = p.

Definition same_stopping (sup sup' : Supervisor) : Prop :=
  forall id p, (exists s, sup' !! id = Some s /\ status s = Stopping /\ pid s = p) <->
    exists s, sup !! id = Some s /\ status s = Stopping /\ pid s = p.

#[local] Instance same_stopping_refl : Reflexive same_stopping.
Proof. by intros sup id p. Qed.

(** An entry of a node that is not stopping is replaced by such a one. *)
Lemma same_stopping_insert sup id s' : (forall s, sup !! id = Some s -> status s <> Stopping) -> status s' <> Stopping ->
  same_stopping sup (<[id := s']> sup).
Proof.
  intros Ho Hn i p. destruct (decide (id = i)) as [<-|Hne]; [|by rewrite lookup_insert_ne].
  rewrite lookup_insert_eq. split; [intros (s & [= <-] & H & _); contradiction|].
  intros (s & Hs & H & _). by destruct (Ho s Hs).
Qed.

Lemma monitor_keeps_stopping sup id t pc sp pc' sup' evs : (forall s, sup !! id = Some s -> status s <> Stopping) ->
  monitor_step sup id t pc sp = (pc', sup', evs) -> same_stopping sup sup'.
Proof.
  intros Hn. assert (forall st p, st <> Stopping -> same_stopping sup (update_state sup id st p t)) as Hup.
  { intros st p Hst. unfold update_state. destruct (sup !! id) as [s|] eqn:E; [|done].
    apply same_stopping_insert; [by rewrite E | exact Hst]. }
  destruct pc as [p|code| | |wake|p|m]; cbn [monitor_step].
  - by intros [= _ <- _].
  - destruct (node_status sup id) as [[]|]; try destruct (bool_decide _); by intros [= _ <- _].
  - intros [= _ <- _]. by apply Hup.
  - destruct (sup !! id) as [s|] eqn:Es.
    2: { unfold record_crash. rewrite Es. cbn. by intros [= _ <- _]. }
    destruct (record_crash_cases sup id s t Es) as (attempt & first & _ & Hr).
    destruct (_ && _); rewrite Hr; cbn; intros [= _ <- _];
      (apply same_stopping_insert; [by rewrite Es | first [exact (Hn s eq_refl) | discriminate]]).
  - destruct (t <? wake); [|destruct sp]; by intros [= _ <- _].
  - intros [= _ <- _]. by apply Hup.
  - intros [= _ <- _]. by apply Hup.
Qed.

Lemma no_lock_no_change sup id t pc sp pc' sup' evs : needs_no_lock pc = true ->
  monitor_step sup id t pc sp = (pc', sup', evs) -> sup' = sup.
Proof.
  destruct pc; try discriminate; intros _; cbn [monitor_step]; [by intros [= _ <- _]|].
  destruct (t <? wake); [|destruct sp]; by intros [= _ <- _].
Qed.

Lemma stopping_none w : stopping_ok w -> stopping w = None -> forall id s, sup w !! id = Some s -> status s <> Stopping.
Proof. intros Hok Hn id s Hs Hst. assert (stopping w = Some (id, pid s)) by (apply Hok; eauto). congruence. Qed.

Lemma stopping_same w w' : stopping_ok w -> same_stopping (sup w) (sup w') -> stopping w' = stopping w -> stopping_ok w'.
Proof. intros Hok Hs He id p. by rewrite He, (Hs id p). Qed.

Lemma step_stopping w w' : stopping_ok w -> step w w' -> stopping_ok w'.
Proof.
  intros Hok Hs. destruct Hs as [w w' Hs | w id sp h r sup' evs Hn Hst Hf | w id killed sup' evs Hn Hst | w id killed Hst].
  - destruct Hs as [w d Hd | w p | w l1 l2 id p code Hm Hp | w l1 l2 id pc sp pc' sup' evs Hm Hl Hst Hf]; try exact Hok.
    apply (stopping_same w); [exact Hok | cbn | done]. destruct Hl as [Hn|Hn].
    + eapply monitor_keeps_stopping; [|exact Hst]. by apply stopping_none.
    + by rewrite (no_lock_no_change _ _ _ _ _ _ _ _ Hn Hst).
  - apply (stopping_same w); [exact Hok | cbn | by rewrite Hn]. revert Hst. unfold start_node.
    destruct (is_running _ _); [by intros [= _ <- _]|]. destruct sp; [by intros [= _ <- _]..|].
    pose proof (stopping_none w Hok Hn id) as Hi.
    destruct h; intros [= _ <- _]; [|done|]; by apply same_stopping_insert.
  - apply stop_begin_cases in Hst as (s & Hs & Hr & -> & ->). pose proof (stopping_none w Hok Hn) as Hi. intros i p. cbn.
    destruct (decide (id = i)) as [<-|Hne].
    + rewrite lookup_insert_eq. split; [intros [= <-]; eauto | by intros (s1 & [= <-] & _ & <-)].
    + rewrite lookup_insert_ne by done. split; [by intros [= -> _]|]. intros (s1 & Hs1 & Hst & _). by destruct (Hi i s1 Hs1).
  - destruct (proj1 (Hok id killed) Hst) as (s & Hs & _ & _). intros i p. cbn. unfold stop_end. rewrite Hs. cbn.
    split; [discriminate|]. destruct (decide (id = i)) as [<-|Hne];
      [rewrite lookup_insert_eq; by intros (? & [= <-] & [=] & _) | rewrite lookup_insert_ne by done].
    intros Hi. assert (stopping w = Some (i, p)) by (by apply Hok). congruence.
Qed.

Lemma reachable_stopping w : reachable_undropped w -> stopping_ok w.
Proof.
  intros [t Hr]. revert w Hr. apply rtc_ind_r; [|intros y z _ Hs IH; exact (step_stopping _ _ IH Hs)].
  intros id p. cbn. split; [discriminate|]. intros (s & Hs & _). by rewrite lookup_empty in Hs.
Qed.

(** [stop_node] at once. *)
Lemma stop_node_eq sup id : stop_node sup id =
  match sup !! id with
  | None => (Err (NodeNotFound id), None, sup, [])
  | Some s =>
    if negb (bool_decide (status s = Running)) then (Err (NodeNotRunning id), None, sup, [])
    else (Ok tt, pid s, <[id := mkRuntime Stopped None None (restart_count s) (first_crash_at s)]> sup,
          [NodeStopping id; NodeStopped id])
  end.
Proof.
  unfold stop_node, stop_begin. destruct (sup !! id) as [s|]; [|done]. destruct (negb _); [done|].
  unfold stop_end. by rewrite lookup_insert_eq, insert_insert_eq.
Qed.

(** The back-off doubles from one second and never passes 32. *)
Lemma backoff_bounds sup id t attempt backoff sup' :
  record_crash sup id t = ((true, attempt, backoff), sup') -> second <= backoff <= 32 * second.
Proof.
  destruct (sup !! id) as [s|] eqn:Es; [|unfold record_crash; rewrite Es; discriminate].
  destruct (record_crash_cases sup id s t Es) as (att & first & _ & Hr).
  destruct (_ && _); rewrite Hr; [discriminate|]. intros [= -> <- _].
  pose proof (Z.mod_pos_bound (attempt - 1) (2 ^ 32) ltac:(lia)) as Hb. fold (u32 (attempt - 1)) in Hb.
  rewrite Z.shiftl_mul_pow2 by lia.
  assert (2 ^ 0 <= 2 ^ Z.min (u32 (attempt - 1)) 5 <= 2 ^ 5) by (split; apply Z.pow_le_mono_r; lia).
  unfold MAX_BACKOFF, second. lia.
Qed.

(** ** Crash loops *)

(** One life of a process under a monitor: when it is found dead and the crash is
    recorded, its exit code, and when and as what it is started again. *)
Record life := mkLife { exit_code : option Z; recorded_at : Z; respawned_at : Z; new_pid : Z }.

(** A monitor from the death of its process to the start of the next one. *)
Definition live (sup : Supervisor) (id : Z) (l : life) : option monitor_pc * Supervisor * list NodeEvent :=
  let '(pc, sup, ev1) := monitor_step sup id (recorded_at l) (Ended (exit_code l)) NoPid in
  match pc with
  | Some Crashed =>
    let '(pc, sup, ev2) := monitor_step sup id (recorded_at l) Crashed NoPid in
    match pc with
    | Some (BackingOff wake) =>
      let '(pc, sup, ev3) := monitor_step sup id (respawned_at l) (BackingOff wake) (Spawned (new_pid l)) in
      match pc with
      | Some (Respawned p) =>
        let '(pc, sup, ev4) := monitor_step sup id (respawned_at l) (Respawned p) NoPid in
        (pc, sup, ev1 ++ ev2 ++ ev3 ++ ev4)
      | _ => (pc, sup, ev1 ++ ev2 ++ ev3)
      end
    | _ => (pc, sup, ev1 ++ ev2)
    end
  | _ => (pc, sup, ev1)
  end.

(** The lives of a node one after the other. *)
Fixpoint lives (sup : Supervisor) (id p : Z) (ls : list life) : option monitor_pc * Supervisor * list NodeEvent :=
  match ls with
  | [] => (Some (Watching p), sup, [])
  | l :: ls' =>
    let '(pc, sup, evs) := live sup id l in
    match pc with
    | Some (Watching p') => let '(pc, sup, evs') := lives sup id p' ls' in (pc, sup, evs ++ evs')
    | _ => (pc, sup, evs)
    end
  end.

(** A crash that leads to a restart. *)
Lemma live_restarts sup id l s attempt first :
  sup !! id = Some s -> status s = Running -> exit_code l <> Some 0 ->
  (let stable := match started_at s with Some u => STABLE_DURATION <=? sat_sub (recorded_at l) u | None => false end in
   attempt = u32 ((if stable then 0 else restart_count s) + 1) /\
   first = default (recorded_at l) (if stable then None else first_crash_at s)) ->
  (MAX_CRASHES_BEFORE_ERRORED <=? attempt) && (sat_sub (recorded_at l) first <? CRASH_WINDOW) = false ->
  recorded_at l + Z.min (Z.shiftl 1 (Z.min (u32 (attempt - 1)) 5) * second) MAX_BACKOFF <= respawned_at l ->
  live sup id l =
    (Some (Watching (new_pid l)),
     <[id := mkRuntime Running (Some (new_pid l)) (Some (respawned_at l)) attempt (Some first)]> sup,
     [NodeCrashed id (exit_code l); NodeRestarting id attempt; NodeStarted id (new_pid l)]).
Proof.
  intros Hs Hst Hx Hcase Hno Hwake. unfold live. cbn [monitor_step]. unfold node_status. rewrite Hs, Hst.
  rewrite bool_decide_eq_false_2 by exact Hx.
  destruct (record_crash_cases sup id s (recorded_at l) Hs) as (att & fst_ & [Ha Hf] & Hr).
  destruct Hcase as [Ha' Hf']. rewrite <- Ha' in Ha. rewrite <- Hf' in Hf. subst att fst_. rewrite Hno in Hr.
  rewrite Hr. cbn [negb]. destruct (respawned_at l <? _) eqn:E; b2p; [lia|].
  unfold update_state. rewrite lookup_insert_eq, Hst. cbn. by rewrite insert_insert_eq.
Qed.

(** A crash that is one too many. *)
Lemma live_gives_up sup id l s attempt first :
  sup !! id = Some s -> status s = Running -> exit_code l <> Some 0 ->
  (let stable := match started_at s with Some u => STABLE_DURATION <=? sat_sub (recorded_at l) u | None => false end in
   attempt = u32 ((if stable then 0 else restart_count s) + 1) /\
   first = default (recorded_at l) (if stable then None else first_crash_at s)) ->
  (MAX_CRASHES_BEFORE_ERRORED <=? attempt) && (sat_sub (recorded_at l) first <? CRASH_WINDOW) = true ->
  live sup id l =
    (None, <[id := mkRuntime Errored None None attempt (Some first)]> sup,
     [NodeCrashed id (exit_code l); NodeErrored id giving_up]).
Proof.
  intros Hs Hst Hx Hcase Hyes. unfold live. cbn [monitor_step]. unfold node_status. rewrite Hs, Hst.
  rewrite bool_decide_eq_false_2 by exact Hx.
  destruct (record_crash_cases sup id s (recorded_at l) Hs) as (att & fst_ & [Ha Hf] & Hr).
  destruct Hcase as [Ha' Hf']. rewrite <- Ha' in Ha. rewrite <- Hf' in Hf. subst att fst_. rewrite Hyes in Hr.
  rewrite Hr. reflexivity.
Qed.

Definition up (p : Z) (started count : Z) (first : option Z) : NodeRuntime :=
  mkRuntime Running (Some p) (Some started) count first.

(** The back-off before the [attempt]-th restart. *)
Definition backoff_of (attempt : Z) : Z := Z.min (Z.shiftl 1 (Z.min (u32 (attempt - 1)) 5) * second) MAX_BACKOFF.

(** A crash after a run that was not stable: one attempt more, from the first
    crash on. *)
Lemma restart_short sup id l p started count first :
  sup !! id = Some (up p started count first) -> exit_code l <> Some 0 -> 0 <= count < 4 ->
  started <= recorded_at l < started + STABLE_DURATION -> recorded_at l + backoff_of (count + 1) <= respawned_at l ->
  live sup id l =
    (Some (Watching (new_pid l)),
     <[id := up (new_pid l) (respawned_at l) (count + 1) (Some (default (recorded_at l) first))]> sup,
     [NodeCrashed id (exit_code l); NodeRestarting id (count + 1); NodeStarted id (new_pid l)]).
Proof.
  intros Hs Hx Hc Ht Hw. apply (live_restarts sup id l _ _ _ Hs eq_refl Hx); [|unfold MAX_CRASHES_BEFORE_ERRORED; b2p; lia|exact Hw].
  cbn. assert (STABLE_DURATION <=? sat_sub (recorded_at l) started = false) as -> by (unfold sat_sub; lia).
  unfold u32. rewrite Z.mod_small by lia. split; reflexivity.
Qed.

(** A crash after a stable run: the first attempt again. *)
Lemma restart_stable sup id l p started count first :
  sup !! id = Some (up p started count first) -> exit_code l <> Some 0 ->
  started + STABLE_DURATION <= recorded_at l -> recorded_at l + backoff_of 1 <= respawned_at l ->
  live sup id l =
    (Some (Watching (new_pid l)),
     <[id := up (new_pid l) (respawned_at l) 1 (Some (recorded_at l))]> sup,
     [NodeCrashed id (exit_code l); NodeRestarting id 1; NodeStarted id (new_pid l)]).
Proof.
  intros Hs Hx Ht Hw. apply (live_restarts sup id l _ _ _ Hs eq_refl Hx); [|reflexivity|exact Hw].
  cbn. assert (STABLE_DURATION <=? sat_sub (recorded_at l) started = true) as -> by (unfold sat_sub, STABLE_DURATION, second in *; lia).
  split; reflexivity.
Qed.

(** The fifth crash within the window. *)
Lemma fifth_crash sup id l p started first :
  sup !! id = Some (up p started 4 (Some first)) -> exit_code l <> Some 0 ->
  started <= recorded_at l < started + STABLE_DURATION -> recorded_at l - first < CRASH_WINDOW ->
  live sup id l =
    (None, <[id := mkRuntime Errored None None 5 (Some first)]> sup,
     [NodeCrashed id (exit_code l); NodeErrored id giving_up]).
Proof.
  intros Hs Hx Ht Hw. apply (live_gives_up sup id l _ _ _ Hs eq_refl Hx).
  - cbn. assert (STABLE_DURATION <=? sat_sub (recorded_at l) started = false) as -> by (unfold sat_sub; lia).
    split; reflexivity.
  - assert (0 < CRASH_WINDOW) by (unfold CRASH_WINDOW, second; lia).
    unfold sat_sub, MAX_CRASHES_BEFORE_ERRORED; b2p; lia.
Qed.

(** Lives none of which is stable, and where each restart waits for its back-off. *)
Fixpoint crash_loop (attempt started : Z) (ls : list life) : Prop :=
  match ls with
  | [] => True
  | l :: ls' => exit_code l <> Some 0 /\ started <= recorded_at l < started + STABLE_DURATION /\
      recorded_at l + backoff_of attempt <= respawned_at l /\ crash_loop (attempt + 1) (respawned_at l) ls'
  end.

(** Stable lives, each with a crash at its end. *)
Fixpoint stable_lives (started : Z) (ls : list life) : Prop :=
  match ls with
  | [] => True
  | l :: ls' => exit_code l <> Some 0 /\ started + STABLE_DURATION <= recorded_at l /\
      recorded_at l + backoff_of 1 <= respawned_at l /\ stable_lives (respawned_at l) ls'
  end.

Lemma lives_cons sup id p l ls p1 sup1 evs1 : live sup id l = (Some (Watching p1), sup1, evs1) ->
  lives sup id p (l :: ls) = let '(pc, sup2, evs2) := lives sup1 id p1 ls in (pc, sup2, evs1 ++ evs2).
Proof. intros Hl. cbn [lives]. by rewrite Hl. Qed.

(** The first crash of a series, the last start, and the last process. *)
Definition first_of (first : option Z) (ls : list life) : option Z :=
  match ls with [] => first | l :: _ => Some (default (recorded_at l) first) end.
Definition started_of (started : Z) (ls : list life) : Z := from_option respawned_at started (last ls).
Definition pid_of (p : Z) (ls : list life) : Z := from_option new_pid p (last ls).

Lemma last_default {A} (f : life -> A) d l ls : from_option f (f l) (last ls) = from_option f d (last (l :: ls)).
Proof. rewrite last_cons. by destruct (last ls). Qed.

(** Fewer than five crashes are all followed by a restart; what follows goes on
    from there. *)
Lemma lives_short sup id p started count first ls ls' :
  sup !! id = Some (up p started count first) -> 0 <= count -> count + lenZ ls <= 4 ->
  crash_loop (count + 1) started ls ->
  exists sup' evs,
    lives sup id p (ls ++ ls') =
      (let '(pc, sup2, evs2) := lives sup' id (pid_of p ls) ls' in (pc, sup2, evs ++ evs2)) /\
    sup' !! id = Some (up (pid_of p ls) (started_of started ls) (count + lenZ ls) (first_of first ls)).
Proof.
  revert sup p started count first. induction ls as [|l ls IH]; intros sup p started count first Hs Hc Hn Hl.
  { exists sup, []. rewrite Z.add_0_r. split; [cbn; by destruct (lives sup id p ls') as [[??]?] | exact Hs]. }
  unfold lenZ in *. cbn [length] in Hn. destruct Hl as (Hx & Ht & Hw & Hl).
  pose proof (restart_short sup id l p started count first Hs Hx ltac:(lia) Ht Hw) as He.
  destruct (IH _ (new_pid l) (respawned_at l) (count + 1) (Some (default (recorded_at l) first))
    (lookup_insert_eq sup id _) ltac:(lia) ltac:(lia) Hl) as (sup' & evs' & Hrun & Hs').
  cbn [app]. rewrite (lives_cons _ _ _ _ _ _ _ _ He), Hrun.
  eexists sup', (_ ++ evs'). split.
  - unfold pid_of. rewrite (last_default new_pid p). 
    destruct (lives sup' id (from_option new_pid p (last (l :: ls))) ls') as [[??]?]. by rewrite <- app_assoc.
  - rewrite Hs'. unfold pid_of, started_of. rewrite (last_default new_pid p), (last_default respawned_at started).
    cbn [length]. do 2 f_equal; [lia | destruct ls; reflexivity].
Qed.

(** Stable lives are always followed by a restart. *)
Lemma lives_stable sup id p started count first ls :
  sup !! id = Some (up p started count first) -> stable_lives started ls ->
  exists sup' evs count' first',
    lives sup id p ls = (Some (Watching (pid_of p ls)), sup', evs) /\
    sup' !! id = Some (up (pid_of p ls) (started_of started ls) count' first').
Proof.
  revert sup p started count first. induction ls as [|l ls IH]; intros sup p started count first Hs Hl.
  { exists sup, [], count, first. auto. }
  destruct Hl as (Hx & Ht & Hw & Hl).
  pose proof (restart_stable sup id l p started count first Hs Hx Ht Hw) as He.
  destruct (IH _ (new_pid l) (respawned_at l) 1 (Some (recorded_at l)) (lookup_insert_eq sup id _) Hl)
    as (sup' & evs' & count' & first' & Hrun & Hs').
  rewrite (lives_cons _ _ _ _ _ _ _ _ He), Hrun. eexists sup', _, count', first'.
  unfold pid_of, started_of in *. by rewrite <- (last_default new_pid p), <- (last_default respawned_at started).
Qed.

(** The counters of [node_counts] add up to the number of nodes. *)
Lemma node_counts_total sup : let '(r, s, e) := node_counts sup in
  r + s + e = lenZ (map_to_list sup).*2 /\ 0 <= r /\ 0 <= s /\ 0 <= e.
Proof.
  unfold node_counts. assert (forall l r s e, 0 <= r -> 0 <= s -> 0 <= e ->
    let '(r', s', e') := fold_left count_status l (r, s, e) in
    r' + s' + e' = r + s + e + lenZ l /\ 0 <= r' /\ 0 <= s' /\ 0 <= e') as Hgen.
  { unfold lenZ. induction l as [|x l IH]; intros r s e Hr Hs He; cbn [fold_left length].
    - lia.
    - unfold count_status at 2. destruct (status x);
        match goal with |- context [fold_left _ _ (?a, ?b, ?c)] =>
          specialize (IH a b c ltac:(lia) ltac:(lia) ltac:(lia)) end;
        destruct (fold_left _ _ _) as [[??]?]; lia. }
  specialize (Hgen (map_to_list sup).*2 0 0 0 ltac:(lia) ltac:(lia) ltac:(lia)).
  destruct (fold_left _ _ _) as [[??]?]. lia.
Qed.

(** C31: in every world that commands, monitor tasks, dying processes, time and
    dropped stop requests can reach from an empty supervisor, the entry of a node is
    well-formed: its status is never Starting, it has a pid exactly when it is Running
    or Stopping, a Running node has a start time in the past and a monitor task, its
    crash counter fits u32 and a positive one comes with the time of the first crash;
    and a restart that record_crash allows is delayed by 1 to 32 seconds.  As long as
    no stop request is dropped, a node is Stopping exactly while a stop of it has the
    lock, with the pid that is being killed, and its monitor, whenever it can look at
    the status, does not see that. *)
Theorem supervisor_well_formed (w : world) (id : Z) (s : NodeRuntime) :
  reachable w -> sup w !! id = Some s ->
  status s <> Starting /\
  (is_Some (node_pid (sup w) id) <-> node_status (sup w) id = Ok Running \/ node_status (sup w) id = Ok Stopping) /\
  (is_running (sup w) id = true ->
     (exists secs, node_uptime_secs (sup w) id (now w) = Some secs /\ 0 <= secs) /\
     exists m, m ∈ monitors w /\ m_id m = id) /\
  0 <= restart_count s < 2 ^ 32 /\
  (0 < restart_count s -> is_Some (first_crash_at s)) /\
  (forall attempt backoff sup', record_crash (sup w) id (now w) = ((true, attempt, backoff), sup') ->
     second <= backoff <= 32 * second) /\
  (reachable_undropped w -> forall p,
     (stopping w = Some (id, p) <-> node_status (sup w) id = Ok Stopping /\ node_pid (sup w) id = p) /\
     (stopping w = None -> node_status (sup w) id <> Ok Stopping)).
Proof.
  intros Hr Hs. destruct (reachable_ok w Hr) as [Ht Hw]. destruct (Ht id s Hs) as [H1 H2 H3 H4 H5 H6 H7].
  split; [exact H1|]. split.
  { unfold node_pid, node_status. rewrite Hs. cbn. rewrite H2. split; (intros [H|H]; [left | right]); congruence. }
  split.
  { unfold is_running, node_uptime_secs. rewrite Hs. cbn.
    intros Hrun%bool_decide_eq_true. split; [|exact (Hw id s Hs Hrun)].
    destruct (H3 Hrun) as [t Et]. rewrite Et. cbn. eexists. split; [reflexivity|].
    apply Z.div_pos; unfold sat_sub, second; lia. }
  split; [exact H5|]. split; [exact H6|]. split; [intros a b sup'; apply backoff_bounds|].
  intros Hu p. pose proof (reachable_stopping w Hu) as Hok. unfold node_status, node_pid. rewrite Hs. cbn. split.
  - rewrite (Hok id p), Hs. split; [by intros (? & [= <-] & -> & <-) | intros [[= Hst] Hp]; eauto].
  - intros Hn [= Hst]. by destruct (stopping_none w Hok Hn id s Hs).
Qed.

Lemma is_running_empty id : is_running ∅ id = false.
Proof. unfold is_running. by rewrite lookup_empty. Qed.

(** A node that is started at time 7 and runs. *)
Definition started_world : world :=
  mkWorld {[1 := mkRuntime Running (Some 42) (Some 7) 0 None]} {[42 := 1]} [mkMonitor 1 (Watching 42)] 7 None.

Lemma started_world_reachable : reachable_undropped started_world.
Proof.
  exists 7. apply rtc_once.
  apply (step_start (init 7) 1 (Spawned 42) StillRunning (Ok 42) _ [NodeStarting 1; NodeStarted 1 42]); [done | reflexivity|].
  intros p [= <-]. split; [reflexivity | intros m Hm; by apply not_elem_of_nil in Hm].
Qed.

(** The node while it is stopped, and when the request to stop it is dropped. *)
Definition being_killed : NodeRuntime := mkRuntime Stopping (Some 42) (Some 7) 0 None.
Definition stopping_world : world := mkWorld {[1 := being_killed]} {[42 := 1]} [mkMonitor 1 (Watching 42)] 7 (Some (1, Some 42)).

Lemma stopping_world_reachable : reachable_undropped stopping_world.
Proof.
  destruct started_world_reachable as [t Hr]. exists t. eapply rtc_r; [exact Hr|].
  replace stopping_world with (mkWorld (<[1 := being_killed]> (sup started_world)) (procs started_world)
    (monitors started_world) (now started_world) (Some (1, Some 42))).
  - exact (step_stop started_world 1 (Some 42) _ _ eq_refl eq_refl).
  - reflexivity.
Qed.

Lemma reachable_all w : reachable_undropped w -> reachable w.
Proof. intros [t Hr]. exists t. eapply rtc_subrel; [exact any_of_step | exact Hr]. Qed.

Lemma supervisor_well_formed_witness :
  sup stopping_world !! 1 = Some being_killed /\
  (node_status (sup stopping_world) 1 = Ok Stopping /\ node_pid (sup stopping_world) 1 = Some 42).
Proof.
  split; [reflexivity|].
  destruct (supervisor_well_formed stopping_world 1 being_killed
    (reachable_all _ stopping_world_reachable) eq_refl) as (_ & _ & _ & _ & _ & _ & Hu).
  exact (proj1 (proj1 (Hu stopping_world_reachable (Some 42))) eq_refl).
Defined.

(** C32: what becomes of a node whose process keeps dying, from the start command on. As long as no run lasts 300 seconds, the first four crashes are each followed by a restart after the back-off, and a fifth crash less than 300 seconds after the first makes the monitor give up: the node ends Errored without a pid, with five crashes on record, and the last event says so. If instead every run lasts 300 seconds the counter starts over and the node is restarted after every crash, however many there are. *)
Theorem crash_loop_is_given_up (sup : Supervisor) (id p t : Z) :
  is_running sup id = false ->
  exists sup0, start_node sup id (Spawned p) StillRunning t = (Ok p, sup0, [NodeStarting id; NodeStarted id p]) /\
  (forall ls, crash_loop 1 t ls -> (length ls <= 4)%nat ->
     exists sup' evs, lives sup0 id p ls = (Some (Watching (pid_of p ls)), sup', evs) /\
       node_status sup' id = Ok Running /\ node_pid sup' id = Some (pid_of p ls)) /\
  (forall l1 ls l, crash_loop 1 t (l1 :: ls) -> length ls = 3%nat -> exit_code l <> Some 0 ->
     started_of t (l1 :: ls) <= recorded_at l < started_of t (l1 :: ls) + STABLE_DURATION ->
     recorded_at l - recorded_at l1 < CRASH_WINDOW ->
     exists sup' evs, lives sup0 id p (l1 :: ls ++ [l]) = (None, sup', evs) /\
       sup' !! id = Some (mkRuntime Errored None None 5 (Some (recorded_at l1))) /\
       last evs = Some (NodeErrored id giving_up)) /\
  (forall ls, stable_lives t ls ->
     exists sup' evs, lives sup0 id p ls = (Some (Watching (pid_of p ls)), sup', evs) /\
       node_status sup' id = Ok Running /\ node_pid sup' id = Some (pid_of p ls)).
Proof.
  intros Hn. unfold start_node. rewrite Hn. eexists. split; [reflexivity|].
  assert (<[id := up p t 0 None]> sup !! id = Some (up p t 0 None)) as Hs by apply lookup_insert_eq.
  fold (up p t 0 None). split; [|split].
  - intros ls Hl Hlen. destruct (lives_short _ id p t 0 None ls [] Hs ltac:(lia) ltac:(unfold lenZ; lia) Hl)
      as (sup' & evs & Hrun & Hs'). rewrite app_nil_r in Hrun. exists sup', (evs ++ []). split; [exact Hrun|].
    unfold node_status, node_pid. rewrite Hs'. split; reflexivity.
  - intros l1 ls l Hl Hlen Hx Ht Hw.
    destruct (lives_short _ id p t 0 None (l1 :: ls) [l] Hs ltac:(lia) ltac:(unfold lenZ; cbn [length]; lia) Hl)
      as (sup' & evs & Hrun & Hs').
    replace (0 + lenZ (l1 :: ls)) with 4 in Hs' by (unfold lenZ; cbn [length]; lia).
    pose proof (fifth_crash sup' id l _ _ (recorded_at l1) Hs' Hx Ht Hw) as Hl5.
    cbn [app] in Hrun. rewrite Hrun. cbn [lives]. rewrite Hl5. eexists _, _. split; [reflexivity|].
    split; [apply lookup_insert_eq|]. by rewrite last_app.
  - intros ls Hl. destruct (lives_stable _ id p t 0 None ls Hs Hl) as (sup' & evs & c & f & Hrun & Hs').
    exists sup', evs. split; [exact Hrun|]. unfold node_status, node_pid. rewrite Hs'. split; reflexivity.
Qed.

(** Four crashes a second after each start, at the earliest restart, and one more. *)
Definition crashes : list life :=
  [mkLife (Some 1) (10 * second) (11 * second) 2; mkLife None (12 * second) (14 * second) 3;
   mkLife (Some 139) (15 * second) (19 * second) 4; mkLife (Some 1) (20 * second) (28 * second) 5].

Lemma crash_loop_is_given_up_witness :
  exists sup0 sup' evs, (start_node ∅ 1 (Spawned 1) StillRunning (9 * second)).1.2 = sup0 /\
    lives sup0 1 1 (crashes ++ [mkLife (Some 1) (29 * second) (29 * second) 6]) = (None, sup', evs) /\
    node_status sup' 1 = Ok Errored.
Proof.
  destruct (crash_loop_is_given_up ∅ 1 1 (9 * second) (is_running_empty 1)) as (sup0 & Hs & _ & H5 & _).
  destruct (H5 (mkLife (Some 1) (10 * second) (11 * second) 2)
    [mkLife None (12 * second) (14 * second) 3; mkLife (Some 139) (15 * second) (19 * second) 4;
     mkLife (Some 1) (20 * second) (28 * second) 5] (mkLife (Some 1) (29 * second) (29 * second) 6))
    as (sup' & evs & Hl & Hf & _).
  - cbn. unfold STABLE_DURATION, backoff_of, MAX_BACKOFF, second, u32. repeat split; try discriminate; vm_compute; discriminate.
  - reflexivity.
  - discriminate.
  - vm_compute. split; [discriminate | reflexivity].
  - reflexivity.
  - exists sup0, sup', evs. rewrite Hs. split; [reflexivity|]. split; [exact Hl|]. unfold node_status. by rewrite Hf.
Defined.

(** ** What the code does not do *)

(** A node that is stopped while its monitor backs off is started again: the monitor
    looks at the status before it sleeps, not after. *)
Lemma stopped_node_comes_back sup id p started count first wake q t :
  sup !! id = Some (up p started count first) -> wake <= t ->
  exists sup' sup'', stop_node sup id = (Ok tt, Some p, sup', [NodeStopping id; NodeStopped id]) /\
    node_status sup' id = Ok Stopped /\
    monitor_step sup' id t (BackingOff wake) (Spawned q) = (Some (Respawned q), sup', []) /\
    monitor_step sup' id t (Respawned q) NoPid = (Some (Watching q), sup'', [NodeStarted id q]) /\
    node_status sup'' id = Ok Running.
Proof.
  intros Hs Hw. rewrite stop_node_eq, Hs. cbn. eexists _, _. split; [reflexivity|].
  unfold node_status. rewrite lookup_insert_eq. split; [reflexivity|]. split.
  - destruct (t <? wake) eqn:E; b2p; [lia | reflexivity].
  - split; [reflexivity|]. unfold update_state. rewrite lookup_insert_eq. cbn. by rewrite lookup_insert_eq.
Qed.

(** A stop request that is dropped, when the client closes the connection, leaves the
    node Stopping for good: it cannot be stopped again, and it can be started beside
    the process that was to be killed. *)
Lemma dropped_stop_is_final :
  exists w, reachable w /\ stopping w = None /\ procs w !! 42 = Some 1 /\ node_status (sup w) 1 = Ok Stopping /\
    (stop_node (sup w) 1).1.1.1 = Err (NodeNotRunning 1) /\
    exists sup', start_node (sup w) 1 (Spawned 43) StillRunning (now w) = (Ok 43, sup', [NodeStarting 1; NodeStarted 1 43]).
Proof.
  exists (mkWorld (sup stopping_world) (procs stopping_world) (monitors stopping_world) (now stopping_world) None).
  split; [|by split_and!; [..|eexists]]. destruct (reachable_all _ stopping_world_reachable) as [t Hr]. exists t.
  eapply rtc_r; [exact Hr | apply step_dropped].
Qed.

(** The window of the crash counter does not slide: once 300 seconds have passed
    since the first crash without a stable run, crashes are not given up. *)
Lemma old_crash_loops_go_on sup id l p started count first :
  sup !! id = Some (up p started count (Some first)) -> exit_code l <> Some 0 -> 0 <= count < 2 ^ 32 - 1 ->
  started <= recorded_at l < started + STABLE_DURATION -> first + CRASH_WINDOW <= recorded_at l ->
  recorded_at l + backoff_of (count + 1) <= respawned_at l ->
  exists sup' evs, live sup id l = (Some (Watching (new_pid l)), sup', evs) /\
    sup' !! id = Some (up (new_pid l) (respawned_at l) (count + 1) (Some first)).
Proof.
  intros Hs Hx Hc Ht Hw Hr. eexists _, _. split.
  - apply (live_restarts sup id l _ (count + 1) first Hs eq_refl Hx); [| |exact Hr].
    + cbn. assert (STABLE_DURATION <=? sat_sub (recorded_at l) started = false) as -> by (unfold sat_sub; lia).
      unfold u32. rewrite Z.mod_small by lia. split; reflexivity.
    + assert (sat_sub (recorded_at l) first <? CRASH_WINDOW = false) as -> by (unfold sat_sub; lia). apply andb_false_r.
  - apply lookup_insert_eq.
Qed.

(** A node that ended cleanly still has an uptime. *)
Lemma uptime_after_clean_exit sup id p started count first t :
  sup !! id = Some (up p started count first) ->
  exists sup', monitor_step sup id t CleanExit NoPid = (None, sup', [NodeStopped id]) /\
    node_status sup' id = Ok Stopped /\
    forall t', node_uptime_secs sup' id t' = Some (sat_sub t' started / second).
Proof.
  intros Hs. eexists. split; [reflexivity|]. unfold node_status, node_uptime_secs, update_state.
  rewrite Hs. cbn. rewrite lookup_insert_eq. split; reflexivity.
Qed.

(** Stopping all nodes stops exactly the running ones, once each, and fails for none. *)
Lemma stop_all_nodes_spec sup configs res ps sup' :
  stop_all_nodes sup configs = (res, ps, sup') ->
  failed res = [] /\
  (forall id, id ∈ (stopped res).*1 <-> id ∈ configs.*1 /\ node_status sup id = Ok Running) /\
  NoDup (stopped res).*1 /\
  (forall id, id ∈ configs.*1 -> node_status sup' id <> Ok Running) /\
  (forall id, node_status sup id <> Ok Running -> node_status sup' id = node_status sup id).
Proof.
  revert sup res ps sup'. induction configs as [|[id name] configs IH]; intros sup res ps sup'; cbn [stop_all_nodes].
  { intros [= <- <- <-]. cbn. split; [reflexivity|]. split; [set_solver|]. split; [constructor|]. split; [set_solver | auto]. }
  assert (node_status sup id <> Ok Running ->
    (let '(r, p, t) := stop_all_nodes sup configs in
     (mkStopResult (stopped r) (failed r) (id :: already_stopped r), p, t)) = (res, ps, sup') ->
    failed res = [] /\ (forall i, i ∈ (stopped res).*1 <-> i ∈ id :: configs.*1 /\ node_status sup i = Ok Running) /\
    NoDup (stopped res).*1 /\ (forall i, i ∈ id :: configs.*1 -> node_status sup' i <> Ok Running) /\
    (forall i, node_status sup i <> Ok Running -> node_status sup' i = node_status sup i)) as Hskip.
  { intros Hn. destruct (stop_all_nodes sup configs) as [[r p] t] eqn:E. intros [= <- <- <-]. cbn [stopped failed].
    destruct (IH _ _ _ _ E) as (Hf & Hs & Hd & Ha & Hk). split; [exact Hf|]. split; [|split; [exact Hd|split; [|exact Hk]]].
    - intros i. rewrite Hs, elem_of_cons. split; [tauto|]. intros [[->|Hi] Hr]; [contradiction | auto].
    - intros i. rewrite elem_of_cons. intros [->|Hi]; [rewrite Hk by exact Hn; exact Hn | exact (Ha i Hi)]. }
  rewrite fmap_cons. cbn [fst]. destruct (node_status sup id) as [st|e] eqn:Est; [destruct st|]; try (apply Hskip; discriminate).
  clear Hskip. unfold node_status in Est. destruct (sup !! id) as [s|] eqn:Es; [|discriminate]. injection Est as Est.
  rewrite stop_node_eq, Es, Est. cbn [negb bool_decide decide]. set (sup1 := <[id := _]> sup).
  rewrite bool_decide_eq_true_2 by reflexivity. cbn [negb].
  destruct (stop_all_nodes sup1 configs) as [[r p] t] eqn:E. intros [= <- _ <-]. cbn [stopped failed].
  destruct (IH _ _ _ _ E) as (Hf & Hs & Hd & Ha & Hk).
  assert (node_status sup1 id = Ok Stopped) as H1 by (unfold node_status, sup1; by rewrite lookup_insert_eq).
  assert (forall i, i <> id -> node_status sup1 i = node_status sup i) as Hne.
  { intros i Hi. unfold node_status, sup1. by rewrite lookup_insert_ne. }
  assert (node_status sup id = Ok Running) as H0 by (unfold node_status; by rewrite Es, Est).
  split; [exact Hf|]. split; [|split; [|split]].
  - intros i. rewrite fmap_cons, !elem_of_cons, Hs. cbn [fst]. destruct (decide (i = id)) as [->|Hi].
    + rewrite H0. split; [auto|]. auto.
    + rewrite Hne by exact Hi. tauto.
  - rewrite fmap_cons. apply NoDup_cons. split; [|exact Hd]. cbn [fst]. rewrite Hs, H1. intros [_ [=]].
  - intros i. rewrite elem_of_cons. intros [->|Hi]; [|exact (Ha i Hi)]. rewrite Hk by (rewrite H1; discriminate). rewrite H1. discriminate.
  - intros i Hr. assert (i <> id) as Hi by (intros ->; contradiction). rewrite <- (Hne i Hi) in Hr |- *. exact (Hk i Hr).
Qed.
