(* ===== verification/Host.v ===== *)
(** * Directories

    [NetFile] and [SelfUpgrade] only need the files of [Files]; the node registry
    of the native client also creates, looks for and removes directories.  A [host]
    is a disk with the directories that were created; a directory with files in it
    is there in any case.  Other processes are on the same host. *)

From Stdlib Require Import ZArith Lia Strings.Ascii Strings.String.
From stdpp Require Import base decidable list strings gmap.
From S2P Require Import Prelude Files.

Local Open Scope Z_scope.

Record host := mkHost { disk_of : disk; dirs : gset path }.

Definition host_files (h : host) : gmap path file := files (disk_of h).
Definition set_host (h : host) (m : gmap path file) (ds : gset path) : host :=
  mkHost (set_files (disk_of h) m) ds.

(** A call on the files, with the error it is turned into. *)
Definition on_disk {E A} (e : E) (m : io A) : stres host E A := fun h =>
  let '(r, d) := m (disk_of h) in (map_err (fun _ => e) r, mkHost d (dirs h)).

Definition host_fault (h : host) : fault * host :=
  let '(f, d) := next_fault (disk_of h) in (f, mkHost d (dirs h)).

(** The files at or below a path. *)
Definition files_under (p : path) (m : gmap path file) : list path :=
  filter (under p) (map_to_list m).*1.

Definition is_dir (p : path) (h : host) : bool :=
  bool_decide (p ∈ dirs h) || existsb (fun q => negb (bool_decide (q = p))) (files_under p (host_files h)).

(** What is there. *)
Definition path_exists (p : path) (h : host) : bool :=
  is_dir p h || bool_decide (is_Some (host_files h !! p)).

(** [Path::exists] and [Path::is_dir]: what is seen to be there. *)
Definition seen `{Stats} (p : path) (h : host) : bool := stat_works (disk_of h) p && path_exists p h.
Definition seen_dir `{Stats} (p : path) (h : host) : bool := stat_works (disk_of h) p && is_dir p h.

Lemma seen_there `{Stats} p h : seen p h = true -> path_exists p h = true.
Proof. by intros [_ ?]%andb_true_iff. Qed.

Lemma seen_works `{Stats} p h : stats_work -> seen p h = path_exists p h.
Proof. intros Hs. unfold seen. by rewrite Hs. Qed.

Lemma seen_dir_works `{Stats} p h : stats_work -> seen_dir p h = is_dir p h.
Proof. intros Hs. unfold seen_dir. by rewrite Hs. Qed.

(** A path and its ancestors, from the top. *)
Fixpoint ancestors (p : path) : list path :=
  match p with [] => [] | x :: p => [x] :: (cons x <$> ancestors p) end.

(** [create_dir_all]; when it fails half way some of the directories are there. *)
Definition create_dir_all {E} (e : E) (p : path) : stres host E unit := fun h =>
  let '(f, h) := host_fault h in
  let blocked := existsb (fun q => bool_decide (is_Some (host_files h !! q))) (ancestors p) in
  match f, blocked with
  | Works, false => (Ok tt, set_host h (host_files h) (dirs h ∪ list_to_set (ancestors p)))
  | Partial n, false => (Err e, set_host h (host_files h) (dirs h ∪ list_to_set (take n (ancestors p))))
  | _, _ => (Err e, h)
  end.

(** [remove_dir_all]; when it fails half way some of the files are gone. *)
Definition remove_dir_all {E} (e : E) (p : path) : stres host E unit := fun h =>
  let '(f, h) := host_fault h in
  let m := host_files h in
  match f, is_dir p h with
  | Works, true =>
      (Ok tt, set_host h (filter (fun kv => ~ under p kv.1) m) (filter (fun q => ~ under p q) (dirs h)))
  | Partial n, true =>
      (Err e, set_host h (foldr base.delete m (take n (files_under p m))) (dirs h))
  | _, _ => (Err e, h)
  end.

(** [Path::parent] is [None] for the root. *)
Definition path_parent (p : path) : option path := match p with [] => None | _ => Some (removelast p) end.

(** *** [Path::with_extension] *)

(** The name up to its last dot, when there is one that is not the first
    character. *)
Fixpoint before_last_dot (s : string) : option string :=
  match s with
  | EmptyString => None
  | String c s' =>
      match before_last_dot s' with
      | Some t => Some (String c t)
      | None => if Ascii.eqb c "."%char then Some EmptyString else None
      end
  end.

Definition file_stem (s : string) : string :=
  match before_last_dot s with Some (String c t) => String c t | _ => s end.

Definition with_extension (p : path) (ext : string) : path :=
  match last p with
  | Some name => removelast p ++ [file_stem name ++ "." ++ ext]%string
  | None => p
  end.

(** ** Reasoning

    Computations over a host are specified as those over a disk. *)

Definition hwp {E A} (m : stres host E A) (h : host) (Q : result E A -> host -> Prop) : Prop :=
  let '(r, h') := m h in Q r h'.

Section Rules.
Context {E : Type}.
Implicit Types h : host.

Lemma hwp_bind {A B} (m : stres host E A) (f : A -> stres host E B) h Q :
  hwp m h (fun r h' => match r with Ok a => hwp (f a) h' Q | Err e => Q (Err e) h' end) -> hwp (m ≫= f) h Q.
Proof. unfold hwp, mbind, stres_bind. destruct (m h) as [[a|e] h']; auto. Qed.

Lemma hwp_ret {A} (a : A) h (Q : result E A -> host -> Prop) : Q (Ok a) h -> hwp (mret a) h Q.
Proof. auto. Qed.

Lemma hwp_lift {A} (r : result E A) h Q : Q r h -> hwp (st_lift r) h Q.
Proof. auto. Qed.

Lemma hwp_mono {A} (m : stres host E A) h (Q Q' : result E A -> host -> Prop) :
  hwp m h Q -> (forall r h', Q r h' -> Q' r h') -> hwp m h Q'.
Proof. unfold hwp. destruct (m h). auto. Qed.

Lemma hwp_disk {A} (e : E) (m : io A) h Q :
  wp m (disk_of h) (fun r d => Q (map_err (fun _ => e) r) (mkHost d (dirs h))) -> hwp (on_disk e m) h Q.
Proof. unfold hwp, wp, on_disk. destruct (m (disk_of h)). auto. Qed.

(** What the calls do to the files: when one fails only its path can have changed. *)
Definition only (P : path -> Prop) (m m' : gmap path file) : Prop := forall q, ~ P q -> m' !! q = m !! q.

#[export] Instance only_preorder P : PreOrder (only P).
Proof. split; [by intros st q|]. intros x y z H1 H2 q Hq. rewrite (H2 q Hq). by apply H1. Qed.

Lemma only_put (P : path -> Prop) m p b : P p -> only P m (put_data m p b).
Proof. intros Hp q Hq. apply put_data_ne. by intros ->. Qed.

Lemma only_mono (P Q : path -> Prop) m m' : (forall q, P q -> Q q) -> only P m m' -> only Q m m'.
Proof. intros H Ho q Hq. apply Ho. intros Hp. by apply Hq, H. Qed.

Lemma hwp_write e p b h (Q : result E unit -> host -> Prop) :
  (forall h', dirs h' = dirs h -> only (eq p) (host_files h) (host_files h') -> Q (Err e) h') ->
  (forall h', dirs h' = dirs h -> host_files h' = put_data (host_files h) p b -> Q (Ok tt) h') ->
  hwp (on_disk e (fs_write p b)) h Q.
Proof.
  intros He Ho. apply hwp_disk, wp_write; intros st'; [intros Hs | intros n Hs | intros Hs].
  - apply He; [done|]. unfold host_files. cbn. by rewrite Hs.
  - apply He; [done|]. unfold host_files. cbn. rewrite Hs. by apply only_put.
  - by apply (Ho (mkHost st' (dirs h))).
Qed.

Lemma hwp_append e p b h (Q : result E unit -> host -> Prop) :
  (forall h', dirs h' = dirs h -> only (eq p) (host_files h) (host_files h') -> Q (Err e) h') ->
  (forall h', dirs h' = dirs h ->
     host_files h' = put_data (host_files h) p (match host_files h !! p with Some f => data f | None => [] end ++ b) ->
     Q (Ok tt) h') ->
  hwp (on_disk e (fs_append p b)) h Q.
Proof.
  intros He Ho. apply hwp_disk, wp_append; intros st'; [intros Hs | intros c Hs | intros Hs].
  - apply He; [done|]. unfold host_files. cbn. by rewrite Hs.
  - apply He; [done|]. unfold host_files. cbn. rewrite Hs. by apply only_put.
  - by apply (Ho (mkHost st' (dirs h))).
Qed.

Lemma hwp_read e p h (Q : result E bytes -> host -> Prop) :
  (forall h', dirs h' = dirs h -> host_files h' = host_files h -> Q (Err e) h') ->
  (forall h' f, dirs h' = dirs h -> host_files h' = host_files h -> host_files h !! p = Some f -> Q (Ok (data f)) h') ->
  hwp (on_disk e (fs_read p)) h Q.
Proof. intros He Ho. apply hwp_disk, wp_read; intros st'; [by apply (He (mkHost st' (dirs h))) | intros f; by apply (Ho (mkHost st' (dirs h)))]. Qed.

Lemma hwp_other e h (Q : result E unit -> host -> Prop) :
  (forall r h', dirs h' = dirs h -> host_files h' = host_files h -> r = Ok tt \/ r = Err e -> Q r h') ->
  hwp (on_disk e fs_other) h Q.
Proof. intros Ho. apply hwp_disk, wp_other. intros [[]|e'] st' Hs; apply Ho; cbn; auto. Qed.

Lemma hwp_set_mode e p perms h (Q : result E unit -> host -> Prop) :
  (forall h', dirs h' = dirs h -> host_files h' = host_files h -> Q (Err e) h') ->
  (forall h' f, dirs h' = dirs h -> host_files h !! p = Some f ->
     host_files h' = <[p := mkFile (data f) perms]> (host_files h) -> Q (Ok tt) h') ->
  hwp (on_disk e (fs_set_mode p perms)) h Q.
Proof. intros He Ho. apply hwp_disk, wp_set_mode; intros st'; [by apply (He (mkHost st' (dirs h))) | intros f; by apply (Ho (mkHost st' (dirs h)))]. Qed.

Lemma hwp_rename e src dst h (Q : result E unit -> host -> Prop) :
  (forall h', dirs h' = dirs h -> host_files h' = host_files h -> Q (Err e) h') ->
  (forall h' f, dirs h' = dirs h -> host_files h !! src = Some f ->
     host_files h' = base.delete src (<[dst := f]> (host_files h)) -> Q (Ok tt) h') ->
  hwp (on_disk e (fs_rename src dst)) h Q.
Proof. intros He Ho. apply hwp_disk, wp_rename; intros st'; [by apply (He (mkHost st' (dirs h))) | intros f; by apply (Ho (mkHost st' (dirs h)))]. Qed.

Lemma hwp_copy e src dst h (Q : result E unit -> host -> Prop) :
  (forall h', dirs h' = dirs h -> only (eq dst) (host_files h) (host_files h') -> Q (Err e) h') ->
  (forall h' f, dirs h' = dirs h -> host_files h !! src = Some f ->
     host_files h' = <[dst := f]> (host_files h) -> Q (Ok tt) h') ->
  hwp (on_disk e (fs_copy src dst)) h Q.
Proof.
  intros He Ho. apply hwp_disk, wp_copy; intros st'; [intros Hs | intros s n Hf Hs | intros f Hf Hs].
  - apply He; [done|]. unfold host_files. cbn. by rewrite Hs.
  - apply He; [done|]. unfold host_files. cbn. rewrite Hs. intros q Hq. by apply lookup_insert_ne.
  - by apply (Ho (mkHost st' (dirs h)) f).
Qed.

Lemma hwp_forget e p h (Q : result E unit -> host -> Prop) :
  (forall h', dirs h' = dirs h -> only (eq p) (host_files h) (host_files h') -> Q (Ok tt) h') ->
  hwp (on_disk e (io_ignore (fs_remove_file p))) h Q.
Proof.
  intros Ho. apply hwp_disk, wp_ignore, wp_remove; intros st' Hs; (apply Ho; [done|]); unfold host_files; cbn; rewrite Hs;
    [done|]. intros q Hq. by apply lookup_delete_ne.
Qed.

Lemma hwp_create_dir_all (e : E) p h Q :
  (forall h' r, host_files h' = host_files h -> dirs h ⊆ dirs h' -> dirs h' ⊆ dirs h ∪ list_to_set (ancestors p) ->
     (r = Ok tt -> forall q, q ∈ ancestors p -> q ∈ dirs h') -> r = Ok tt \/ r = Err e -> Q r h') ->
  hwp (create_dir_all e p) h Q.
Proof.
  intros HQ. unfold hwp, create_dir_all, host_fault. destruct (next_fault (disk_of h)) as [f d] eqn:Ef.
  apply next_fault_files in Ef. set (blocked := existsb _ _).
  assert (forall n, list_to_set (C := gset path) (take n (ancestors p)) ⊆ list_to_set (ancestors p)) as Hn.
  { intros n q. rewrite !elem_of_list_to_set. apply subseteq_take. }
  assert (forall (r : result E unit) D, D ⊆ list_to_set (ancestors p) -> r = Ok tt \/ r = Err e ->
    (r = Ok tt -> list_to_set (ancestors p) ⊆ D) -> Q r (mkHost (set_files d (files d)) (dirs h ∪ D))) as HQ'.
  { intros r D HD Hr Hok. apply HQ; cbn; [exact Ef | set_solver.. | | exact Hr].
    intros -> q Hq. apply elem_of_union_r, Hok; [done | by apply elem_of_list_to_set]. }
  assert (Q (Err e) (mkHost d (dirs h))) as Hnone by (apply HQ; cbn; [exact Ef | set_solver.. | discriminate | auto]).
  destruct f as [| |n], blocked; try exact Hnone; apply HQ'; auto; discriminate.
Qed.

End Rules.

(** ** Computations that leave a file alone *)

Definition leaves {E A} (p : path) (m : stres host E A) : Prop :=
  forall h, hwp m h (fun _ h' => host_files h' !! p = host_files h !! p).

Section Leaves.
Context {E : Type} (p : path).

Lemma leaves_bind {A B} (m : stres host E A) (f : A -> stres host E B) :
  leaves p m -> (forall a, leaves p (f a)) -> leaves p (m ≫= f).
Proof.
  intros Hm Hf h. apply hwp_bind. eapply hwp_mono; [apply Hm|]. intros [a|e] h' Hh; [|exact Hh].
  eapply hwp_mono; [apply Hf|]. intros r h'' ->. exact Hh.
Qed.

Lemma leaves_ret {A} (a : A) : leaves (E := E) p (mret a).
Proof. intros h. by apply hwp_ret. Qed.

Lemma leaves_lift {A} (r : result E A) : leaves p (st_lift r).
Proof. intros h. by apply hwp_lift. Qed.

Lemma leaves_only {A} (m : stres host E A) (P : path -> Prop) :
  (forall h, hwp m h (fun _ h' => only P (host_files h) (host_files h'))) -> ~ P p -> leaves p m.
Proof. intros Hm Hp h. eapply hwp_mono; [apply Hm|]. intros r h' Ho. by apply Ho. Qed.

Lemma leaves_write (e : E) q b : q <> p -> leaves p (on_disk e (fs_write q b)).
Proof.
  intros Hq. apply (leaves_only _ (eq q)); [|exact Hq]. intros h.
  apply hwp_write; intros h' _; [done|]. intros ->. by apply only_put.
Qed.

Lemma leaves_append (e : E) q b : q <> p -> leaves p (on_disk e (fs_append q b)).
Proof.
  intros Hq. apply (leaves_only _ (eq q)); [|exact Hq]. intros h.
  apply hwp_append; intros h' _; [done|]. intros ->. by apply only_put.
Qed.

Lemma leaves_forget (e : E) q : q <> p -> leaves p (on_disk e (io_ignore (fs_remove_file q))).
Proof. intros Hq. apply (leaves_only _ (eq q)); [|exact Hq]. intros h. by apply hwp_forget. Qed.

Lemma leaves_rename (e : E) src dst : src <> p -> dst <> p -> leaves p (on_disk e (fs_rename src dst)).
Proof.
  intros Hs Hd h. apply hwp_rename; intros h'; [by intros _ ->|]. intros f _ _ ->.
  by rewrite lookup_delete_ne, lookup_insert_ne.
Qed.

Lemma leaves_copy (e : E) src q : q <> p -> leaves p (on_disk e (fs_copy src q)).
Proof.
  intros Hq. apply (leaves_only _ (eq q)); [|exact Hq]. intros h.
  apply hwp_copy; intros h'; [done|]. intros f _ _ ->. intros r Hr. by apply lookup_insert_ne.
Qed.

Lemma leaves_set_mode (e : E) q perms : q <> p -> leaves p (on_disk e (fs_set_mode q perms)).
Proof.
  intros Hq h. apply hwp_set_mode; intros h'; [by intros _ ->|]. intros f _ _ ->. by apply lookup_insert_ne.
Qed.

Lemma leaves_read (e : E) q : leaves p (on_disk e (fs_read q)).
Proof. intros h. apply hwp_read; intros h'; [|intros f]; by intros _ ->. Qed.

Lemma leaves_other (e : E) : leaves p (on_disk e fs_other).
Proof. intros h. apply hwp_other. by intros r h' _ ->. Qed.

Lemma leaves_create_dir_all (e : E) q : leaves p (create_dir_all e q).
Proof. intros h. apply hwp_create_dir_all. by intros h' r ->. Qed.

Lemma leaves_remove_dir_all (e : E) d : ~ under d p -> leaves p (remove_dir_all e d).
Proof.
  intros Hd h. unfold hwp, remove_dir_all, host_fault. destruct (next_fault (disk_of h)) as [f st] eqn:Ef.
  apply next_fault_files in Ef. assert (p ∉ files_under d (files st)) as Hn.
  { unfold files_under. rewrite list_elem_of_filter. by intros [? _]. }
  set (dir_there := is_dir d _). destruct f as [| |n], dir_there; unfold host_files; cbn; try by rewrite Ef.
  - rewrite <- Ef. destruct (files st !! p) as [g|] eqn:Eg;
      [by apply map_lookup_filter_Some_2 | by apply map_lookup_filter_None_2; left].
  - rewrite <- Ef. apply lookup_foldr_delete. intros Hin. by apply Hn, (subseteq_take n).
Qed.

End Leaves.

Create HintDb leaves.
#[export] Hint Resolve leaves_ret leaves_lift leaves_read leaves_other leaves_create_dir_all : leaves.

(** ** Looking for directories *)

Lemma is_dir_false p h : is_dir p h = false <->
  p ∉ dirs h /\ forall q, is_Some (host_files h !! q) -> under p q -> q = p.
Proof.
  unfold is_dir. rewrite orb_false_iff, bool_decide_eq_false. apply and_iff_compat_l.
  rewrite <- not_true_iff_false, existsb_exists. unfold files_under. split.
  - intros Hn q [f Hf] Hu. apply dec_stable. intros Hne. apply Hn. exists q. split.
    + apply list_elem_of_In, list_elem_of_filter. split; [exact Hu|]. apply list_elem_of_fmap.
      exists (q, f). split; [done|]. by apply elem_of_map_to_list.
    + by apply negb_true_iff, bool_decide_eq_false.
  - intros Hq (q & Hin%list_elem_of_In & Hne%negb_true_iff%bool_decide_eq_false). apply Hne.
    apply list_elem_of_filter in Hin as [Hu Hin]. apply list_elem_of_fmap in Hin as ([q' f] & -> & Hin).
    apply elem_of_map_to_list in Hin. by apply Hq.
Qed.

Lemma elem_of_ancestors p q : q ∈ ancestors p -> q <> [] /\ q `prefix_of` p.
Proof.
  revert q. induction p as [|x p IH]; intros q; cbn; [by intros ?%not_elem_of_nil|].
  intros [->|Hq]%elem_of_cons; [split; [done|]; by exists p|]. apply list_elem_of_fmap in Hq as (y & -> & Hy).
  apply IH in Hy as [_ [k ->]]. split; [done|]. by exists k.
Qed.

Lemma path_exists_false p h : path_exists p h = false <->
  p ∉ dirs h /\ forall q, is_Some (host_files h !! q) -> ~ under p q.
Proof.
  unfold path_exists. rewrite orb_false_iff, is_dir_false, bool_decide_eq_false. split.
  - intros [[Hd Hq] Hp]. split; [exact Hd|]. intros q Hf Hu. apply Hp. by rewrite <- (Hq q Hf Hu).
  - intros [Hd Hq]. split_and!; [exact Hd | by intros q Hf Hu%Hq | by intros Hf%Hq].
Qed.

(** What is not there stays away when nothing is made below it. *)
Lemma stays_away p h h' : path_exists p h = false ->
  (forall q, under p q -> is_Some (host_files h' !! q) -> is_Some (host_files h !! q)) ->
  (p ∈ dirs h' -> p ∈ dirs h) -> path_exists p h' = false.
Proof.
  rewrite !path_exists_false. intros [Hd Hf] Hf' Hd'. split; [by intros ?%Hd'|]. intros q Hq Hu. eapply Hf; [|exact Hu].
  by apply Hf'.
Qed.

Lemma remove_dir_all_spec {E} (e : E) p h :
  hwp (remove_dir_all e p) h (fun r h' =>
    (forall q, is_Some (host_files h' !! q) -> is_Some (host_files h !! q)) /\ dirs h' ⊆ dirs h /\
    (r = Ok tt -> path_exists p h' = false)).
Proof.
  unfold hwp, remove_dir_all, host_fault. destruct (next_fault (disk_of h)) as [f st] eqn:Ef.
  apply next_fault_files in Ef. set (there := is_dir p _).
  assert (forall l q, is_Some (foldr base.delete (files st) l !! q) -> is_Some (files st !! q)) as Hdel.
  { induction l as [|r l IH]; cbn; [done|]. intros q. destruct (decide (q = r)) as [->|];
      [rewrite lookup_delete_eq; by intros [? ?] | rewrite lookup_delete_ne by done; apply IH]. }
  destruct f as [| |n], there; unfold host_files; cbn; rewrite <- ?Ef; try (split_and!; [done | done | discriminate]).
  - split_and!; [|set_solver|].
    + intros q [g Hg]. apply map_lookup_filter_Some in Hg as [Hg _]. by exists g.
    + intros _. apply path_exists_false. cbn. split.
      * intros Hin. apply elem_of_filter in Hin as [Hn _]. by apply Hn.
      * intros q [g Hg]. unfold host_files in Hg. cbn in Hg. by apply map_lookup_filter_Some in Hg as [_ Hg].
  - split_and!; [by intros q; apply Hdel | done | discriminate].
Qed.
