(* ===== verification/NodeBinary.v ===== *)
(** * The node binary of the native client

    [ant-client/ant-core/src/node/binary.rs]: finding the binary for a new node, by
    downloading and unpacking a release into a cache, as built for Unix.  HTTP, the
    archive formats, JSON and running a binary are arguments; every file operation
    may fail.  A version is a name without slashes. *)

From Stdlib Require Import ZArith Lia Strings.Ascii Strings.String Strings.Byte.
From stdpp Require Import base decidable list strings gmap.
From S2P Require Import Prelude Release Files Host Supervisor.

Local Open Scope Z_scope.

Definition GITHUB_REPO : string := "WithAutonomi/ant-node".
Definition BINARY_NAME : string := "ant-node".

Inductive BinarySource := Latest | Version (version : string) | Url (url : string) | LocalPath (p : path).

(** ** What is not in the repository *)

(** A response: its status, and its body in pieces, [None] for an error. *)
Inductive http_reply := NoReply | Reply (status : Z) (body : list (option bytes)).

(** An archive entry: the components of its path, with [..] for the parent, [None]
    for a path that cannot be used; and what reading it gives, [false] when reading
    ends with an error. *)
Record entry := mkEntry { entry_path : option (list string); entry_data : bytes * bool }.

(** [tar_entries], [zip_entries]: the entries of an archive, [None] for one that
    cannot be read.  [tag_name]: the string under that key of a JSON text, [None]
    when it is no JSON.  [run_version]: how a binary run with [--version] ends,
    [None] when it cannot be run, else if it is successful and what it prints. *)
Class BinaryTools := {
  http_get : string -> http_reply;
  tar_entries : bytes -> option (list (option entry));
  zip_entries : bytes -> option (list (option entry));
  tag_name : bytes -> option (option string);
  run_version : file -> option (bool * string)
}.

(** ** Text *)

Definition strip_v (s : string) : string :=
  match s with String "v"%char s' => s' | _ => s end.

(** The last word of [split_whitespace]. *)
Fixpoint last_word_from (fuel : nat) (s word : string) : string :=
  match fuel, s with
  | S fuel, String _ s' =>
      match white_len s with
      | O => last_word_from fuel s' word
      | n => let rest := str_drop n s in last_word_from fuel rest rest
      end
  | _, _ => word
  end.

Definition last_word (s : string) : option string :=
  let s := str_trim s in
  if String.eqb s EmptyString then None else Some (last_word_from (String.length s) s s).

Definition file_name (p : list string) : option string :=
  match last p with Some name => if String.eqb name ".." then None else Some name | None => None end.

(** ** Operations *)

Abbreviation hio := (stres host core_error).

Definition io_failed : core_error := Io "{e}".
Definition failed (msg : string) : core_error := BinaryResolution msg.

Section Binary.
Context `{BinaryTools} {stats : Stats} (target_os target_arch : string).

(** [extract_version]. *)
Definition extract_version (binary_path : path) : hio string := fun h =>
  match host_files h !! binary_path ≫= run_version with
  | None => (Err (failed "failed to run {} --version: {e}"), h)
  | Some (false, _) => (Err (failed "{} --version exited with status {}"), h)
  | Some (true, stdout) => (Ok (default "unknown"%string (last_word stdout)), h)
  end.

Definition platform_asset_name : result core_error string :=
  os ← (if String.eqb target_os "linux" then Ok "linux"
        else if String.eqb target_os "macos" then Ok "macos"
        else if String.eqb target_os "windows" then Ok "windows"
        else Err (failed "unsupported platform: {}"))%string;
  arch ← (if String.eqb target_arch "aarch64" then Ok "arm64"
          else if String.eqb target_arch "x86_64" then Ok "x64"
          else Err (failed "unsupported architecture: {}"))%string;
  let ext := (if String.eqb target_os "windows" then "zip" else "tar.gz")%string in
  Ok ("ant-node-cli-" ++ os ++ "-" ++ arch ++ "." ++ ext)%string.

(** Writing an entry to [dest]: [File::create], [io::copy], [set_permissions]. *)
Definition unpack (dest : path) (data : bytes * bool) : hio path :=
  _ ← on_disk io_failed (fs_write dest []);
  _ ← on_disk io_failed (fs_append dest data.1);
  if negb data.2 then st_lift (Err io_failed)
  else _ ← on_disk io_failed (fs_set_mode dest 493); mret dest.

(** The loops over the entries; the last one that matches is the binary. *)
Fixpoint unpack_tar (install_dir : path) (binary_name : string) (entries : list (option entry))
    (binary_path : option path) : hio (option path) :=
  match entries with
  | [] => mret binary_path
  | None :: _ => st_lift (Err (failed "failed to read tar entry: {e}"))
  | Some e :: entries =>
    match entry_path e with
    | None => st_lift (Err (failed "invalid path in archive: {e}"))
    | Some p =>
      if bool_decide (".."%string ∈ p) then st_lift (Err (failed "path traversal detected in archive: {}"))
      else if String.eqb (default EmptyString (file_name p)) binary_name then
        dest ← unpack (install_dir ++ [binary_name]) (entry_data e);
        unpack_tar install_dir binary_name entries (Some dest)
      else unpack_tar install_dir binary_name entries binary_path
    end
  end.

Definition extract_tar_gz (data : bytes) (install_dir : path) (binary_name : string) : hio path :=
  entries ← st_lift (ok_or (tar_entries data) (failed "failed to read tar entries: {e}"));
  binary_path ← unpack_tar install_dir binary_name entries None;
  st_lift (ok_or binary_path (failed "'{binary_name}' not found in archive")).

(** A path that leaves the archive is [None]. *)
Fixpoint unpack_zip (install_dir : path) (binary_name : string) (entries : list (option entry))
    (binary_path : option path) : hio (option path) :=
  match entries with
  | [] => mret binary_path
  | None :: _ => st_lift (Err (failed "failed to read zip entry: {e}"))
  | Some e :: entries =>
    let file_name := default EmptyString (p ← entry_path e; file_name p) in
    if String.eqb file_name binary_name || String.eqb file_name (binary_name ++ ".exe") then
      dest ← unpack (install_dir ++ [file_name]) (entry_data e);
      unpack_zip install_dir binary_name entries (Some dest)
    else unpack_zip install_dir binary_name entries binary_path
  end.

Definition extract_zip (data : bytes) (install_dir : path) (binary_name : string) : hio path :=
  entries ← st_lift (ok_or (zip_entries data) (failed "failed to open zip archive: {e}"));
  binary_path ← unpack_zip install_dir binary_name entries None;
  st_lift (ok_or binary_path (failed "'{binary_name}' not found in archive")).

(** The body of a response, streamed to a file, with the error of the caller. *)
Fixpoint stream_to (error : string -> core_error) (tmp_path : path) (body : list (option bytes)) : hio unit :=
  match body with
  | [] => mret tt
  | None :: _ => st_lift (Err (error "download stream error: {e}"))
  | Some chunk :: body =>
    _ ← on_disk (error "failed to write temp file: {e}") (fs_append tmp_path chunk);
    stream_to error tmp_path body
  end.

Definition success (status : Z) : bool := (200 <=? status) && (status <? 300).

Definition cached_name (version : string) : string := (BINARY_NAME ++ "-" ++ version)%string.
Definition cached_path (install_dir : path) (version : string) : path := install_dir ++ [cached_name version].

(** The download into a file and its bytes. *)
Definition download_archive (url : string) (install_dir : path) : hio bytes :=
  body ← st_lift (match http_get url with
                  | NoReply => Err (failed "download request failed: {e}")
                  | Reply status body => if success status then Ok body else Err (failed "download returned status {}")
                  end);
  _ ← create_dir_all io_failed install_dir;
  let tmp_path := install_dir ++ [".download.tmp"%string] in
  _ ← on_disk (failed "failed to create temp file: {e}") (fs_write tmp_path []);
  _ ← stream_to failed tmp_path body;
  data ← on_disk (failed "failed to read temp file: {e}") (fs_read tmp_path);
  _ ← on_disk io_failed (io_ignore (fs_remove_file tmp_path));
  mret data.

(** Moving the binary to its name in the cache. *)
Definition move_to_cache (binary_path cached_path : path) : hio unit :=
  if bool_decide (binary_path = cached_path) then mret tt
  else fun h =>
    if negb (seen cached_path h) then on_disk io_failed (fs_rename binary_path cached_path) h
    else on_disk io_failed (io_ignore (fs_remove_file binary_path)) h.

Definition download_and_extract (url : string) (install_dir : path) (version : string) : hio (path * string) :=
  data ← download_archive url install_dir;
  binary_path ← (if str_ends_with url ".zip" then extract_zip data install_dir BINARY_NAME
                 else extract_tar_gz data install_dir BINARY_NAME);
  actual_version ← st_try (extract_version binary_path);
  let actual_version := default version (res_ok actual_version) in
  let cached := cached_path install_dir actual_version in
  _ ← move_to_cache binary_path cached;
  mret (cached, actual_version).

Definition resolve_local (p : path) : hio (path * string) := fun h =>
  if negb (seen p h) then (Err (BinaryNotFound p), h)
  else (version ← extract_version p; mret (p, version)) h.

Definition fetch_latest_version : result core_error string :=
  match http_get ("https://api.github.com/repos/" ++ GITHUB_REPO ++ "/releases/latest") with
  | NoReply => Err (failed "failed to fetch latest release: {e}")
  | Reply status body =>
    if negb (success status) then Err (failed "GitHub API returned status {} when fetching latest release")
    else
      body ← ok_or (mapM id body ≫= fun b => tag_name (concat b)) (failed "failed to parse release JSON: {e}");
      tag ← ok_or body (failed "no tag_name in release response");
      Ok (strip_v tag)
  end.

Definition resolve_version (version : string) (install_dir : path) : hio (path * string) := fun h =>
  let version := strip_v version in
  let cached := cached_path install_dir version in
  if seen cached h then (Ok (cached, version), h)
  else
    (asset_name ← st_lift platform_asset_name;
     let url := ("https://github.com/" ++ GITHUB_REPO ++ "/releases/download/v" ++ version ++ "/" ++ asset_name)%string in
     download_and_extract url install_dir version) h.

Definition resolve_latest (install_dir : path) : hio (path * string) :=
  version ← st_lift fetch_latest_version;
  resolve_version version install_dir.

Definition resolve_url (url : string) (install_dir : path) : hio (path * string) :=
  download_and_extract url install_dir "unknown".

Definition resolve_binary (source : BinarySource) (install_dir : path) : hio (path * string) :=
  match source with
  | LocalPath p => resolve_local p
  | Latest => resolve_latest install_dir
  | Version version => resolve_version version install_dir
  | Url url => resolve_url url install_dir
  end.

(** ** The cache *)

(** A file that is a whole entry of an archive that was served in full. *)
Definition unpacked_from (binary_name : string) (entries : list (option entry)) (f : file) : Prop :=
  mode f = 493 /\ exists e, Some e ∈ entries /\ entry_data e = (data f, true) /\
    exists p, entry_path e = Some p /\ (file_name p = Some binary_name \/ file_name p = Some (binary_name ++ ".exe")%string).

Definition archive_entries (url : string) (archive : bytes) : option (list (option entry)) :=
  if str_ends_with url ".zip" then zip_entries archive else tar_entries archive.

Definition served_whole (url : string) (f : file) : Prop :=
  exists status chunks entries, http_get url = Reply status (Some <$> chunks) /\ success status = true /\
    archive_entries url (concat chunks) = Some entries /\ unpacked_from BINARY_NAME entries f.

(** What a binary says its version is. *)
Definition reported_version (f : file) : option string :=
  match run_version f with Some (true, stdout) => Some (default "unknown"%string (last_word stdout)) | _ => None end.

Record cache_ok (install_dir : path) (h : host) : Prop := {
  cache_whole version f : host_files h !! cached_path install_dir version = Some f -> exists url, served_whole url f;
  cache_version version f : host_files h !! cached_path install_dir version = Some f ->
    reported_version f = Some version \/ reported_version f = None;
  cache_files version : is_dir (cached_path install_dir version) h = false
}.

(** The files that unpacking writes, and those that downloading and unpacking do. *)
Definition out_file (binary_name : string) (install_dir q : path) : Prop :=
  q = install_dir ++ [binary_name] \/ q = install_dir ++ [binary_name ++ ".exe"]%string.

Definition work_file (install_dir q : path) : Prop :=
  q = install_dir ++ [".download.tmp"%string] \/ out_file BINARY_NAME install_dir q.

Lemma cached_path_inj install_dir v w : cached_path install_dir v = cached_path install_dir w -> v = w.
Proof. intros [= Heq]%app_inv_head. exact Heq. Qed.

Lemma work_file_not_cached install_dir version : ~ work_file install_dir (cached_path install_dir version).
Proof. intros [Hq|[Hq|Hq]]; apply app_inv_head in Hq; discriminate Hq. Qed.

(** Work on other files in the cache leaves it sound. *)
Lemma cache_ok_only install_dir h h' : cache_ok install_dir h ->
  only (work_file install_dir) (host_files h) (host_files h') ->
  dirs h' ⊆ dirs h ∪ list_to_set (ancestors install_dir) -> cache_ok install_dir h'.
Proof.
  intros [H1 H2 H3] Ho Hd. split.
  - intros version f. rewrite Ho by apply work_file_not_cached. apply H1.
  - intros version f. rewrite Ho by apply work_file_not_cached. apply H2.
  - intros version. specialize (H3 version). apply is_dir_false in H3 as [Hn Hu]. apply is_dir_false. split.
    + intros Hin%Hd. apply elem_of_union in Hin as [Hin|Hin]; [done|]. apply elem_of_list_to_set, elem_of_ancestors in Hin.
      destruct Hin as [_ [k Hk]]. apply (f_equal length) in Hk. unfold cached_path in Hk.
      rewrite !length_app in Hk. cbn in Hk. lia.
    + intros q Hq Hp. destruct (decide (work_file install_dir q)) as [Hw|Hw].
      * destruct Hp as [k ->]. unfold cached_path in Hw. exfalso.
        destruct Hw as [Hw|[Hw|Hw]]; rewrite <- (assoc_L (++)) in Hw; apply app_inv_head in Hw; discriminate Hw.
      * rewrite Ho in Hq by done. by apply Hu.
Qed.

(** ** Unpacking *)

Lemma unpack_spec dest d h :
  hwp (unpack dest d) h (fun r h' => dirs h' = dirs h /\ only (eq dest) (host_files h) (host_files h') /\
    forall p, r = Ok p -> p = dest /\ d.2 = true /\ host_files h' !! dest = Some (mkFile d.1 493)).
Proof.
  apply hwp_bind, hwp_write; [intros h1 Hd Ho; by repeat split|]. intros h1 Hd1 Hf1.
  apply hwp_bind, hwp_append; [intros h2 Hd2 Ho2 | intros h2 Hd2 Hf2].
  { split; [congruence|]. split; [|discriminate]. etransitivity; [|exact Ho2]. rewrite Hf1. by apply only_put. }
  assert (only (eq dest) (host_files h) (host_files h2)) as Ho2.
  { rewrite Hf2, Hf1. etransitivity; by apply only_put. }
  destruct d.2; cbn [negb]; [|by (split; [congruence | split; [exact Ho2 | discriminate]])].
  apply hwp_bind, hwp_set_mode; [intros h3 Hd3 Hf3 | intros h3 f Hd3 Hf Hf3].
  { split; [congruence|]. split; [by rewrite Hf3 | discriminate]. }
  split; [congruence|]. split.
  { etransitivity; [exact Ho2|]. rewrite Hf3. intros q Hq. by apply lookup_insert_ne. }
  intros p [= <-]. split; [done|]. split; [done|]. rewrite Hf3, lookup_insert_eq. do 2 f_equal.
  rewrite Hf2 in Hf. unfold put_data in Hf at 1. rewrite lookup_insert_eq in Hf. injection Hf as <-. cbn.
  rewrite Hf1. destruct (put_data_same (host_files h) dest []) as (f & -> & ->). reflexivity.
Qed.

(** What the loops keep: the binary found so far is a whole entry. *)
Definition found_in (binary_name : string) (install_dir : path) (all : list (option entry)) (m : gmap path file)
    (binary_path : option path) : Prop :=
  forall p, binary_path = Some p -> out_file binary_name install_dir p /\
    exists f, m !! p = Some f /\ unpacked_from binary_name all f.

Lemma unpack_found binary_name install_dir all e p name h (Q : result core_error path -> host -> Prop) :
  Some e ∈ all -> entry_path e = Some p -> file_name p = Some name ->
  name = binary_name \/ name = (binary_name ++ ".exe")%string ->
  (forall r h', dirs h' = dirs h -> only (out_file binary_name install_dir) (host_files h) (host_files h') ->
     (forall dest, r = Ok dest -> found_in binary_name install_dir all (host_files h') (Some dest)) -> Q r h') ->
  hwp (unpack (install_dir ++ [name]) (entry_data e)) h Q.
Proof.
  intros Hin Hp Hname Hn HQ. eapply hwp_mono; [apply unpack_spec|]. intros r h' (Hd & Ho & Hr).
  assert (out_file binary_name install_dir (install_dir ++ [name])) as Hw by (destruct Hn as [->| ->]; [by left | by right]).
  apply HQ; [exact Hd | eapply only_mono; [|exact Ho]; by intros q <- |].
  intros dest ->. destruct (Hr dest eq_refl) as (-> & Hok & Hf). intros p' [= <-].
  split; [exact Hw|]. exists (mkFile (entry_data e).1 493). split; [exact Hf|]. split; [done|].
  exists e. split; [exact Hin|]. split; [destruct (entry_data e); cbn in *; congruence|].
  exists p. split; [exact Hp|]. rewrite Hname. destruct Hn as [->| ->]; auto.
Qed.

Lemma found_in_none binary_name install_dir all m : found_in binary_name install_dir all m None.
Proof. discriminate. Qed.

Definition unpacking (binary_name : string) (install_dir : path) (all : list (option entry)) (h : host)
    (r : result core_error (option path)) (h' : host) : Prop :=
  dirs h' = dirs h /\ only (out_file binary_name install_dir) (host_files h) (host_files h') /\
  forall bp, r = Ok bp -> found_in binary_name install_dir all (host_files h') bp.

Lemma unpacking_trans binary_name install_dir all h1 h2 r h3 :
  dirs h2 = dirs h1 -> only (out_file binary_name install_dir) (host_files h1) (host_files h2) ->
  unpacking binary_name install_dir all h2 r h3 -> unpacking binary_name install_dir all h1 r h3.
Proof. intros Hd Ho (Hd' & Ho' & Hr). split; [congruence|]. split; [by etransitivity | exact Hr]. Qed.

Lemma unpacking_err binary_name install_dir all h e : unpacking binary_name install_dir all h (Err e) h.
Proof. by repeat split. Qed.

Section Unpack.
Context (binary_name : string) (Hname : binary_name <> EmptyString).

Lemma unpack_tar_spec install_dir all entries bp h :
  (forall e, e ∈ entries -> e ∈ all) -> found_in binary_name install_dir all (host_files h) bp ->
  hwp (unpack_tar install_dir binary_name entries bp) h (unpacking binary_name install_dir all h).
Proof using Hname.
  revert bp h. induction entries as [|[e|] entries IH]; intros bp h Hsub Hbp; cbn [unpack_tar].
  - split; [done|]. split; [done|]. by intros ? [= <-].
  - destruct (entry_path e) as [p|] eqn:Ep; [|apply unpacking_err].
    destruct (bool_decide _); [apply unpacking_err|].
    destruct (String.eqb_spec (default EmptyString (file_name p)) binary_name) as [En|]; [|apply IH; [set_solver | done]].
    assert (file_name p = Some binary_name) as Hn by (destruct (file_name p); cbn in En; congruence).
    apply hwp_bind. eapply (unpack_found binary_name install_dir all e p binary_name); [set_solver | done.. | by left |].
    intros [dest|err] h' Hd Ho Hr; [|by split].
    eapply hwp_mono; [apply IH; [set_solver | by apply Hr]|]. intros r h''. by apply unpacking_trans.
  - apply unpacking_err.
Qed.

Lemma unpack_zip_spec install_dir all entries bp h :
  (forall e, e ∈ entries -> e ∈ all) -> found_in binary_name install_dir all (host_files h) bp ->
  hwp (unpack_zip install_dir binary_name entries bp) h (unpacking binary_name install_dir all h).
Proof using Hname.
  revert bp h. induction entries as [|[e|] entries IH]; intros bp h Hsub Hbp; cbn [unpack_zip]; [| |apply unpacking_err].
  - split; [done|]. split; [done|]. by intros ? [= <-].
  - set (name := default _ _). destruct (_ || _) eqn:En; [|apply IH; [set_solver | done]].
    assert (name = binary_name \/ name = (binary_name ++ ".exe")%string) as Hn
      by (apply orb_true_iff in En as [?%String.eqb_eq|?%String.eqb_eq]; auto).
    assert (name <> EmptyString) as Hne by (destruct Hn as [->| ->]; [done | by destruct binary_name]).
    destruct (entry_path e) as [p|] eqn:Ep; [|by destruct Hne].
    assert (file_name p = Some name) as Hf.
    { subst name. unfold mbind, option_bind in *. destruct (file_name p); [done | by destruct Hne]. }
    apply hwp_bind. eapply (unpack_found binary_name install_dir all e p name); [set_solver | done.. |].
    intros [dest|err] h' Hd Ho Hr; [|by split].
    eapply hwp_mono; [apply IH; [set_solver | by apply Hr]|]. intros r h''. by apply unpacking_trans.
Qed.

(** Both extractions, for the archive of a URL. *)
Lemma extract_spec url archive install_dir h :
  hwp (if str_ends_with url ".zip" then extract_zip archive install_dir binary_name
       else extract_tar_gz archive install_dir binary_name) h
    (fun r h' => dirs h' = dirs h /\ only (out_file binary_name install_dir) (host_files h) (host_files h') /\
       forall p, r = Ok p -> exists entries, archive_entries url archive = Some entries /\
         found_in binary_name install_dir entries (host_files h') (Some p)).
Proof using Hname.
  unfold archive_entries. destruct (str_ends_with url ".zip"); (apply hwp_bind, hwp_lift).
  all: match goal with |- context [ok_or ?x _] => destruct x as [entries|]; cbn [ok_or]; [|by repeat split] end.
  all: apply hwp_bind; eapply hwp_mono;
    [first [apply unpack_zip_spec | apply unpack_tar_spec]; [done | apply found_in_none]|].
  all: intros [bp|e] h' (Hd & Ho & Hr); [|by split]; apply hwp_lift; split; [done|]; split; [done|].
  all: destruct bp as [p|]; cbn [ok_or]; [|discriminate]; intros ? [= <-]; exists entries; split; [done | by apply Hr].
Qed.

End Unpack.

(** ** Downloading *)

Lemma stream_to_spec error tmp body h f : host_files h !! tmp = Some f ->
  hwp (stream_to error tmp body) h (fun r h' => dirs h' = dirs h /\ only (eq tmp) (host_files h) (host_files h') /\
    (r = Ok tt -> exists chunks f', body = Some <$> chunks /\ host_files h' !! tmp = Some f' /\
       data f' = data f ++ concat chunks)).
Proof.
  revert h f. induction body as [|[chunk|] body IH]; intros h f Hf; cbn [stream_to].
  - split; [done|]. split; [done|]. intros _. exists [], f. split; [done|]. split; [exact Hf|]. by rewrite app_nil_r.
  - apply hwp_bind, hwp_append; [by intros h' Hd Ho|]. intros h1 Hd1 Hf1.
    rewrite Hf in Hf1. destruct (put_data_same (host_files h) tmp (data f ++ chunk)) as (f1 & Hl & Hdata).
    rewrite <- Hf1 in Hl. eapply hwp_mono; [by apply (IH _ f1)|]. intros r h' (Hd & Ho & Hr).
    split; [congruence|]. split.
    { etransitivity; [|exact Ho]. rewrite Hf1. by apply only_put. }
    intros Hok. destruct (Hr Hok) as (chunks & f' & -> & Hf' & Hd'). exists (chunk :: chunks), f'. split; [done|].
    split; [exact Hf'|]. rewrite Hd', Hdata. cbn. by rewrite (assoc_L (++)).
  - by repeat split.
Qed.

(** The effect of working in the cache directory. *)
Definition worked (install_dir : path) (h h' : host) : Prop :=
  only (work_file install_dir) (host_files h) (host_files h') /\
  dirs h ⊆ dirs h' /\ dirs h' ⊆ dirs h ∪ list_to_set (ancestors install_dir).

#[export] Instance worked_preorder install_dir : PreOrder (worked install_dir).
Proof.
  split; [intros h; split; [done|]; set_solver|]. intros x y z (H1 & H2 & H3) (H4 & H5 & H6).
  split; [by etransitivity | set_solver].
Qed.

Lemma worked_same_dirs install_dir h h' :
  dirs h' = dirs h -> only (work_file install_dir) (host_files h) (host_files h') -> worked install_dir h h'.
Proof. intros Hd Ho. split; [exact Ho|]. rewrite Hd. set_solver. Qed.

Lemma work_tmp install_dir q : install_dir ++ [".download.tmp"%string] = q -> work_file install_dir q.
Proof. by left. Qed.

Lemma download_archive_spec url install_dir h :
  hwp (download_archive url install_dir) h (fun r h' => worked install_dir h h' /\
    forall archive, r = Ok archive -> exists status chunks,
      http_get url = Reply status (Some <$> chunks) /\ success status = true /\ archive = concat chunks).
Proof.
  unfold download_archive. apply hwp_bind, hwp_lift. destruct (http_get url) as [|status body] eqn:Eg; [by split|].
  destruct (success status) eqn:Es; [|by split].
  apply hwp_bind, hwp_create_dir_all. intros h1 r Hf1 Hd1 Hd1' _ Hr.
  assert (worked install_dir h h1) as Hw1 by (split; [by rewrite Hf1 | auto]).
  destruct Hr as [->| ->]; [|by split].
  apply hwp_bind, hwp_write; [intros h2 Hd2 Ho2 | intros h2 Hd2 Hf2].
  { split; [|discriminate]. etransitivity; [exact Hw1|]. apply worked_same_dirs; [done|].
    eapply only_mono; [apply work_tmp | exact Ho2]. }
  assert (worked install_dir h h2) as Hw2.
  { etransitivity; [exact Hw1|]. apply worked_same_dirs; [done|]. rewrite Hf2. apply only_put. by left. }
  destruct (put_data_same (host_files h1) (install_dir ++ [".download.tmp"%string]) []) as (f & Hl & Hd0).
  rewrite <- Hf2 in Hl. apply hwp_bind. eapply hwp_mono; [by apply stream_to_spec|]. intros r h3 (Hd3 & Ho3 & Hr3).
  assert (worked install_dir h h3) as Hw3.
  { etransitivity; [exact Hw2|]. apply worked_same_dirs; [done|]. eapply only_mono; [apply work_tmp | exact Ho3]. }
  destruct r as [[]|e]; [|by split]. destruct (Hr3 eq_refl) as (chunks & f' & -> & Hf' & Hdata).
  apply hwp_bind, hwp_read; [intros h4 Hd4 Hf4 | intros h4 f4 Hd4 Hf4 Hl4].
  { split; [|discriminate]. etransitivity; [exact Hw3|]. apply worked_same_dirs; [done | by rewrite Hf4]. }
  apply hwp_bind, hwp_forget. intros h5 Hd5 Ho5. split.
  - etransitivity; [exact Hw3|]. apply worked_same_dirs; [congruence|]. rewrite <- Hf4.
    eapply only_mono; [apply work_tmp | exact Ho5].
  - intros ? [= <-]. exists status, chunks. split; [done|]. split; [done|].
    rewrite Hf' in Hl4. injection Hl4 as <-. by rewrite Hdata, Hd0.
Qed.

(** A new entry of the cache keeps it sound. *)
Lemma cache_entry_added install_dir version f src h h' : cache_ok install_dir h ->
  (exists url, served_whole url f) -> reported_version f = Some version \/ reported_version f = None ->
  work_file install_dir src -> dirs h' = dirs h ->
  host_files h' = base.delete src (<[cached_path install_dir version := f]> (host_files h)) ->
  cache_ok install_dir h'.
Proof.
  intros [H1 H2 H3] Hs Hv Hw Hd Hf.
  assert (forall v, host_files h' !! cached_path install_dir v =
    if decide (v = version) then Some f else host_files h !! cached_path install_dir v) as Hl.
  { intros v. rewrite Hf, lookup_delete_ne by (intros ->; by apply work_file_not_cached in Hw).
    destruct (decide (v = version)) as [->|Hne]; [apply lookup_insert_eq|]. apply lookup_insert_ne.
    intros Heq%cached_path_inj. by subst. }
  split.
  - intros v g. rewrite Hl. destruct (decide _); [intros [= <-]; exact Hs | apply H1].
  - intros v g. rewrite Hl. destruct (decide _) as [->|]; [intros [= <-]; exact Hv | apply H2].
  - intros v. pose proof (H3 v) as Hv3. apply is_dir_false in Hv3 as [Hn Hu]. apply is_dir_false. rewrite Hd. split; [exact Hn|].
    intros q Hq Hp. apply dec_stable. intros Hne. apply Hne, Hu; [|exact Hp]. rewrite Hf in Hq.
    destruct (decide (q = src)) as [->|]; [by rewrite lookup_delete_eq in Hq; destruct Hq|].
    rewrite lookup_delete_ne in Hq by done. destruct (decide (q = cached_path install_dir version)) as [->|];
      [|by rewrite lookup_insert_ne in Hq].
    exfalso. apply Hne. destruct Hp as [k Hk]. unfold cached_path in Hk. rewrite <- (assoc_L (++)) in Hk.
    apply app_inv_head in Hk. destruct k; [unfold cached_path; by rewrite Hk | discriminate Hk].
Qed.
(** ** Resolving a binary *)

(** Entries of the cache stay; they stay as they are unless one that is there is
    not seen. *)
Definition cache_kept (install_dir : path) (h h' : host) : Prop :=
  forall version f, host_files h !! cached_path install_dir version = Some f ->
    exists f', host_files h' !! cached_path install_dir version = Some f' /\ (stats_work -> f' = f).

(** A download touches the cache only, and adds at most one entry. *)
Definition resolving (install_dir : path) (h h' : host) : Prop :=
  only (fun q => work_file install_dir q \/ exists version, q = cached_path install_dir version) (host_files h) (host_files h') /\
  dirs h ⊆ dirs h' /\ dirs h' ⊆ dirs h ∪ list_to_set (ancestors install_dir) /\
  cache_ok install_dir h' /\ cache_kept install_dir h h'.

Lemma resolving_refl install_dir h : cache_ok install_dir h -> resolving install_dir h h.
Proof. intros Hc. split; [done|]. split; [done|]. split; [set_solver|]. split; [exact Hc|]. intros v f Hf. by exists f. Qed.

Lemma resolving_worked install_dir h h' : cache_ok install_dir h -> worked install_dir h h' -> resolving install_dir h h'.
Proof.
  intros Hc (Ho & Hd & Hd'). split; [eapply only_mono; [|exact Ho]; by left|]. split; [exact Hd|]. split; [exact Hd'|].
  split; [by eapply cache_ok_only|]. intros v f Hf. exists f. by rewrite Ho by apply work_file_not_cached.
Qed.

Lemma resolving_trans install_dir h1 h2 h3 :
  resolving install_dir h1 h2 -> resolving install_dir h2 h3 -> resolving install_dir h1 h3.
Proof.
  intros (H1 & H2 & H3 & _ & H5) (H6 & H7 & H8 & H9 & H10). split; [by etransitivity|]. split; [by etransitivity|].
  split; [set_solver|]. split; [exact H9|]. intros v f Hf.
  destruct (H5 v f Hf) as (f' & Hf' & Heq). destruct (H10 v f' Hf') as (f'' & Hf'' & Heq').
  exists f''. split; [exact Hf''|]. intros Hs. by rewrite Heq', Heq.
Qed.

Lemma try_extract_version p f h : host_files h !! p = Some f ->
  exists r, st_try (extract_version p) h = (Ok r, h) /\ res_ok r = reported_version f.
Proof.
  intros Hf. unfold st_try, extract_version, reported_version. rewrite Hf. cbn.
  destruct (run_version f) as [[[] ?]|]; by eexists.
Qed.

Lemma resolving_insert install_dir version f p h h' : cache_ok install_dir h ->
  (exists url, served_whole url f) -> reported_version f = Some version \/ reported_version f = None ->
  work_file install_dir p -> (stats_work -> host_files h !! cached_path install_dir version = None) -> dirs h' = dirs h ->
  host_files h' = base.delete p (<[cached_path install_dir version := f]> (host_files h)) -> resolving install_dir h h'.
Proof.
  intros Hc Hs Hv Hp Hn Hd Hf.
  assert (forall w, p <> cached_path install_dir w) as Hne by (intros w ->; by apply work_file_not_cached in Hp).
  split; [|rewrite Hd; split; [done|]; split; [set_solver|]; split].
  - intros q Hq. rewrite Hf, lookup_delete_ne by (intros <-; apply Hq; by left).
    apply lookup_insert_ne. intros <-. apply Hq. right. by exists version.
  - by apply (cache_entry_added install_dir version f p h).
  - intros w g Hg. rewrite Hf, lookup_delete_ne by done.
    destruct (decide (w = version)) as [->|Hw]; [exists f; rewrite lookup_insert_eq | exists g; rewrite lookup_insert_ne].
    + split; [done|]. intros Hst. by rewrite (Hn Hst) in Hg.
    + done.
    + by intros Heq%cached_path_inj.
Qed.

Lemma move_to_cache_spec install_dir version f p h : cache_ok install_dir h -> host_files h !! p = Some f ->
  (exists url, served_whole url f) -> reported_version f = Some version \/ reported_version f = None ->
  work_file install_dir p ->
  hwp (move_to_cache p (cached_path install_dir version)) h (fun r h' => resolving install_dir h h' /\
    (r = Ok tt -> is_Some (host_files h' !! cached_path install_dir version))).
Proof.
  intros Hc Hf Hs Hv Hp. unfold move_to_cache.
  rewrite bool_decide_eq_false_2 by (intros ->; by apply work_file_not_cached in Hp).
  unfold hwp at 1. destruct (seen _ h) eqn:Ex; cbn [negb].
  - apply seen_there in Ex. unfold path_exists in Ex. rewrite (cache_files _ _ Hc) in Ex. apply bool_decide_eq_true in Ex as [g Hg].
    apply (hwp_forget io_failed p h). intros h' Hd Ho.
    assert (worked install_dir h h') as Hw by (apply worked_same_dirs; [done|]; eapply only_mono; [|exact Ho]; by intros q <-).
    split; [by apply resolving_worked|]. intros _. destruct Hw as (Ho' & _).
    rewrite Ho' by apply work_file_not_cached. by exists g.
  - apply (hwp_rename io_failed p _ h).
    { intros h' Hd Hfs. split; [|discriminate]. apply resolving_worked; [done|]. apply worked_same_dirs; [done | by rewrite Hfs]. }
    intros h' g Hd Hg Hfs. rewrite Hf in Hg. injection Hg as <-. split.
    { apply (resolving_insert _ version f p); try done. intros Hst. rewrite seen_works in Ex by exact Hst.
      apply path_exists_false in Ex as [_ Ex]. apply eq_None_not_Some. intros Hq. by destruct (Ex _ Hq). }
    intros _. rewrite Hfs, lookup_delete_ne, lookup_insert_eq; [by eexists|]. intros ->. by apply work_file_not_cached in Hp.
Qed.

Lemma download_and_extract_spec url install_dir version h : cache_ok install_dir h ->
  hwp (download_and_extract url install_dir version) h (fun r h' => resolving install_dir h h' /\
    forall p v, r = Ok (p, v) -> p = cached_path install_dir v /\ is_Some (host_files h' !! p)).
Proof.
  intros Hc. unfold download_and_extract. apply hwp_bind.
  eapply hwp_mono; [apply download_archive_spec|]. intros [archive|e] h1 [Hw1 Hdown]; [|by split; [apply resolving_worked|]].
  destruct (Hdown archive eq_refl) as (status & chunks & Hget & Hsucc & Harch).
  apply hwp_bind. eapply hwp_mono; [by apply (extract_spec BINARY_NAME)|]. intros r h2 (Hd2 & Ho2 & Hr2).
  assert (resolving install_dir h h2) as Hres2
    by (apply resolving_worked; [done|]; etransitivity; [exact Hw1 | apply worked_same_dirs; [done|];
        eapply only_mono; [|exact Ho2]; by right]).
  destruct r as [p|e]; [|by split].
  destruct (Hr2 p eq_refl) as (entries & Hent & Hfound). destruct (Hfound p eq_refl) as (Hp & f & Hf & Hun).
  destruct (try_extract_version p f h2 Hf) as (r & Hx & Hrv).
  apply hwp_bind. unfold hwp at 1. rewrite Hx. cbv zeta. rewrite Hrv. set (v := default version (reported_version f)).
  apply hwp_bind. eapply hwp_mono; [apply (move_to_cache_spec install_dir v f)|].
  - apply Hres2.
  - exact Hf.
  - exists url, status, chunks, entries. rewrite <- Harch. by split_and!.
  - subst v. destruct (reported_version f); [by left | by right].
  - by right.
  - intros r' h3 [Hres3 Hok]. assert (resolving install_dir h h3) as Hres by (by eapply resolving_trans).
    destruct r' as [[]|e]; (split; [exact Hres|]); [|discriminate]. intros ? ? [= <- <-]. split; [done | by apply Hok].
Qed.

(** [resolve_binary] on each source. *)
Lemma resolve_version_spec version install_dir h : cache_ok install_dir h ->
  hwp (resolve_version version install_dir) h (fun r h' => resolving install_dir h h' /\
    forall p v, r = Ok (p, v) -> p = cached_path install_dir v /\ is_Some (host_files h' !! p)).
Proof.
  intros Hc. unfold resolve_version. unfold hwp at 1.
  destruct (seen (cached_path install_dir (strip_v version)) h) eqn:Ex.
  - split; [by apply resolving_refl|]. intros ? ? [= <- <-]. split; [done|].
    apply seen_there in Ex. unfold path_exists in Ex. rewrite (cache_files _ _ Hc) in Ex. by apply bool_decide_eq_true in Ex.
  - apply hwp_bind, hwp_lift. destruct platform_asset_name as [asset|e]; [|by split; [apply resolving_refl|]].
    by apply download_and_extract_spec.
Qed.

Lemma resolve_download_spec source install_dir h : cache_ok install_dir h -> (forall p, source <> LocalPath p) ->
  hwp (resolve_binary source install_dir) h (fun r h' => resolving install_dir h h' /\
    forall p v, r = Ok (p, v) -> p = cached_path install_dir v /\ is_Some (host_files h' !! p)).
Proof.
  intros Hc Hs. destruct source as [|version|url|p]; cbn [resolve_binary]; [| | |by destruct (Hs p)].
  - apply hwp_bind, hwp_lift. destruct fetch_latest_version as [v|e]; [by apply resolve_version_spec|].
    by split; [apply resolving_refl|].
  - by apply resolve_version_spec.
  - by apply download_and_extract_spec.
Qed.

Lemma resolve_local_spec p h : exists r, resolve_local p h = (r, h) /\
  forall q v, r = Ok (q, v) -> q = p /\ exists f, host_files h !! p = Some f /\ reported_version f = Some v.
Proof.
  unfold resolve_local. destruct (seen p h); cbn [negb]; [|by eexists].
  unfold mbind, stres_bind, extract_version. destruct (host_files h !! p) as [f|] eqn:Ef; cbn; [|by eexists].
  unfold reported_version. destruct (run_version f) as [[[] out]|] eqn:Ev; eexists; (split; [reflexivity|]); try discriminate.
  intros ? ? [= <- <-]. split; [done|]. exists f. by rewrite Ev.
Qed.

(** The path of what is resolved. *)
Lemma resolve_binary_path source install_dir h : hwp (resolve_binary source install_dir) h (fun r _ =>
  forall q v, r = Ok (q, v) -> match source with LocalPath p => q = p | _ => q = cached_path install_dir v end).
Proof.
  assert (forall url v h, hwp (download_and_extract url install_dir v) h (fun r _ =>
    forall q w, r = Ok (q, w) -> q = cached_path install_dir w)) as Hdown.
  { intros url v h1. unfold hwp, download_and_extract, mbind, stres_bind.
    destruct (download_archive _ _ _) as [[a|e] h2]; [|discriminate].
    destruct (if str_ends_with url ".zip" then _ else _) as [[b|e] h3]; [|discriminate].
    destruct (st_try _ _) as [[x|e] h4]; [|discriminate]. destruct (move_to_cache _ _ _) as [[u|e] h5]; [|discriminate].
    by intros q w [= <- <-]. }
  assert (forall v h, hwp (resolve_version v install_dir) h (fun r _ =>
    forall q w, r = Ok (q, w) -> q = cached_path install_dir w)) as Hver.
  { intros v h1. unfold hwp at 1, resolve_version. destruct (seen _ h1); [by intros q w [= <- <-]|].
    apply hwp_bind, hwp_lift. destruct platform_asset_name; [apply Hdown | discriminate]. }
  destruct source as [|v|url|p]; cbn [resolve_binary]; [|apply Hver|apply Hdown|].
  - apply hwp_bind, hwp_lift. destruct fetch_latest_version; [apply Hver | discriminate].
  - unfold hwp. destruct (resolve_local_spec p h) as (r & -> & Hr). intros q v Hq. by destruct (Hr q v Hq).
Qed.

(** Nothing but names in the cache directory is written. *)
Section Frame.
Context (p install_dir : path) (Hp : forall name, install_dir ++ [name] <> p).

Lemma not_work_file : ~ work_file install_dir p.
Proof. intros [Hq|[Hq|Hq]]; by destruct (Hp _ (eq_sym Hq)). Qed.

Lemma move_to_cache_frame src dst : src <> p -> dst <> p -> leaves p (move_to_cache src dst).
Proof.
  intros Hs Hd. unfold move_to_cache. destruct (bool_decide _); [auto with leaves|].
  intros h. unfold hwp at 1. destruct (seen _ h); cbn [negb]; [by apply leaves_forget | by apply leaves_rename].
Qed.

Lemma extract_version_frame q : leaves p (st_try (E := core_error) (extract_version q)).
Proof. intros h. unfold hwp, st_try, extract_version. by destruct (_ ≫= _) as [[[] ?]|]. Qed.

Lemma download_and_extract_frame url v : leaves p (download_and_extract url install_dir v).
Proof.
  unfold download_and_extract. intros h. apply hwp_bind. eapply hwp_mono; [apply download_archive_spec|].
  intros [archive|e] h1 [(H1 & _) _]; [|by apply H1, not_work_file].
  apply hwp_bind. eapply hwp_mono; [by apply (extract_spec BINARY_NAME)|]. intros r h2 (_ & H2 & Hr).
  assert (host_files h2 !! p = host_files h !! p) as H12
    by (rewrite H2, H1; [done | apply not_work_file | intros Ho; apply not_work_file; by right]).
  destruct r as [bp|e]; [|exact H12]. destruct (Hr bp eq_refl) as (entries & _ & Hfound).
  destruct (Hfound bp eq_refl) as (Hw & _). eapply hwp_mono; [|intros r h3 H3; etransitivity; [exact H3 | exact H12]].
  apply leaves_bind; [apply extract_version_frame|]. intros v'. apply leaves_bind; [|auto with leaves].
  apply move_to_cache_frame; [intros ->; apply not_work_file; by right | apply Hp].
Qed.

Lemma resolve_binary_frame source : leaves p (resolve_binary source install_dir).
Proof.
  assert (forall v, leaves p (resolve_version v install_dir)) as Hv.
  { intros v h. unfold hwp at 1, resolve_version. destruct (seen _ h); [done|].
    apply leaves_bind; [auto with leaves | intros asset; apply download_and_extract_frame]. }
  destruct source as [|v|url|q]; cbn [resolve_binary]; [|apply Hv|apply download_and_extract_frame|].
  - apply leaves_bind; [auto with leaves | apply Hv].
  - intros h. unfold hwp. by destruct (resolve_local_spec q h) as (r & -> & _).
Qed.

End Frame.

End Binary.

(** ** Property *)

(** C37: What the cache of binaries holds was served.  Let every cached binary be a whole
    entry of an archive that some URL served in full, and say that it is the version
    it is filed under or not say anything.  Whatever downloads and file operations
    fail, and at whatever point the process is killed, [resolve_binary] keeps it so,
    never removes an entry, and writes nothing outside the cache; an entry changes
    only when looking for it fails, so that it seems not to be there; when it
    succeeds for a source that is not a local path, what it returns is in the cache
    under the version it returns.  A local path is returned as it is, with the version
    its binary reports, and nothing is written; a version that is cached and seen needs
    neither the network nor the disk. *)
Theorem binary_cache_is_sound `{BinaryTools, stats : Stats} (target_os target_arch : string)
    (source : BinarySource) (install_dir : path) (h : host) (Hc : cache_ok install_dir h) :
  let '(r, h') := resolve_binary target_os target_arch source install_dir h in
  cache_ok install_dir h' /\ cache_kept install_dir h h' /\
  only (fun q => exists name, q = install_dir ++ [name]) (host_files h) (host_files h') /\
  match source with
  | LocalPath p => h' = h /\ forall q v, r = Ok (q, v) ->
      q = p /\ exists f, host_files h !! p = Some f /\ reported_version f = Some v
  | _ => forall q v, r = Ok (q, v) -> q = cached_path install_dir v /\
      exists f url, host_files h' !! q = Some f /\ served_whole url f /\
        (reported_version f = Some v \/ reported_version f = None)
  end /\
  (forall v f, source = Version v -> host_files h !! cached_path install_dir (strip_v v) = Some f ->
     stat_works (disk_of h) (cached_path install_dir (strip_v v)) = true ->
     r = Ok (cached_path install_dir (strip_v v), strip_v v) /\ h' = h).
Proof.
  assert (forall h', resolving install_dir h h' ->
    cache_ok install_dir h' /\ cache_kept install_dir h h' /\
    only (fun q => exists name, q = install_dir ++ [name]) (host_files h) (host_files h')) as Hgo.
  { intros h' (Ho & _ & _ & Hc' & Hk). split; [exact Hc'|]. split; [exact Hk|]. eapply only_mono; [|exact Ho].
    intros q [[Hq|[Hq|Hq]]|[v Hq]]; subst q; by eexists. }
  assert (forall v f, source = Version v -> host_files h !! cached_path install_dir (strip_v v) = Some f ->
     stat_works (disk_of h) (cached_path install_dir (strip_v v)) = true ->
     resolve_binary target_os target_arch source install_dir h =
       (Ok (cached_path install_dir (strip_v v), strip_v v), h)) as Hver.
  { intros v f -> Hf Hst. cbn [resolve_binary]. unfold resolve_version, seen, path_exists.
    by rewrite Hst, Hf, orb_true_r. }
  assert ((exists p, source = LocalPath p) \/ forall p, source <> LocalPath p) as [[p ->]|Hl]
    by (destruct source; eauto; by right).
  - cbn [resolve_binary]. destruct (resolve_local_spec p h) as (r & -> & Hr). destruct (Hgo h (resolving_refl _ _ Hc)) as (? & ? & ?).
    split_and!; try done.
  - pose proof (resolve_download_spec target_os target_arch source install_dir h Hc) as Hs. unfold hwp in Hs.
    destruct (resolve_binary _ _ _ _ _) as [r h']. destruct Hs as [Hres Hr]; [exact Hl|].
    destruct (Hgo h' Hres) as (Hc' & Hk & Ho). split_and!; try done.
    + destruct source as [|v|u|p]; [..|by destruct (Hl p)]; intros q w Hq;
        destruct (Hr q w Hq) as [-> [f Hf]]; (split; [done|]); destruct (cache_whole _ _ Hc' _ _ Hf) as [url Hu];
        exists f, url; (split; [done|]); (split; [done|]); exact (cache_version _ _ Hc' _ _ Hf).
    + intros v f Hv Hf Hst. specialize (Hver v f Hv Hf Hst). by injection Hver as -> ->.
Qed.

(** ** Two builds of one version *)

(** The archive at each address has one file, the bytes of the body; every binary
    says that it is version 0.3.4. *)
#[local] Existing Instance sure_stats.

#[local] Instance sample_tools : BinaryTools := {|
  http_get url := if String.eqb url "https://example.com/mine.tar.gz" then Reply 200 [Some [x02]; Some [x03]]
                  else Reply 200 [Some [x01]];
  tar_entries b := Some [Some (mkEntry (Some ["release"; "ant-node"]%string) (b, true))];
  zip_entries _ := None;
  tag_name _ := Some (Some "v0.3.4"%string);
  run_version _ := Some (true, "ant-node 0.3.4
"%string)
|}.

Definition no_cache : host := mkHost (mkDisk ∅ []) ∅.
Definition bin_dir : path := ["home"; "bin"]%string.
Definition sample_resolve (source : BinarySource) : host -> _ := resolve_binary "linux" "x86_64" source bin_dir.

Lemma no_cache_ok : cache_ok bin_dir no_cache.
Proof. split; [intros v f Hf; change (host_files no_cache) with (∅ : gmap path file) in Hf; by rewrite lookup_empty in Hf..|]. done. Qed.

(** A build of one's own is not used when its version is in the cache: the file that
    was downloaded from the address asked for is deleted. *)
Lemma other_build_is_ignored :
  let h := (sample_resolve (Version "v0.3.4") no_cache).2 in
  let '(r, h') := sample_resolve (Url "https://example.com/mine.tar.gz") h in
  r = Ok (cached_path bin_dir "0.3.4", "0.3.4"%string) /\
  data <$> host_files h' !! cached_path bin_dir "0.3.4" = Some [x01].
Proof. vm_compute. by split. Qed.

(** The second download dies while the archive is unpacked. *)
Definition dying (h : host) : host :=
  mkHost (mkDisk (host_files h) [Works; Works; Works; Works; Works; Works; Works; Partial 1; Clean; Clean]) (dirs h).

Lemma binary_cache_is_sound_witness :
  let h := (sample_resolve (Version "v0.3.4") no_cache).2 in
  let '(r, h') := sample_resolve (Url "https://example.com/mine.tar.gz") (dying h) in
  is_ok r = false /\ host_files h' !! (bin_dir ++ ["ant-node"%string]) = Some (mkFile [x02] DEFAULT_MODE) /\
  exists f url, host_files h' !! cached_path bin_dir "0.3.4" = Some f /\ served_whole url f.
Proof.
  pose proof (binary_cache_is_sound "linux" "x86_64" (Version "v0.3.4") bin_dir no_cache no_cache_ok) as H1.
  fold (sample_resolve (Version "v0.3.4")) in H1.
  assert (data <$> host_files (sample_resolve (Version "v0.3.4") no_cache).2 !! cached_path bin_dir "0.3.4" = Some [x01])
    as Hd by (vm_compute; reflexivity).
  assert (let h := (sample_resolve (Version "v0.3.4") no_cache).2 in
    let '(r, h') := sample_resolve (Url "https://example.com/mine.tar.gz") (dying h) in
    is_ok r = false /\ host_files h' !! (bin_dir ++ ["ant-node"%string]) = Some (mkFile [x02] DEFAULT_MODE)) as Hd'
    by (vm_compute; split; reflexivity).
  destruct (sample_resolve (Version "v0.3.4") no_cache) as [r h]. destruct H1 as (Hc & _). cbn [snd] in *. cbv zeta in *.
  assert (cache_ok bin_dir (dying h)) as Hc' by (destruct Hc; by split).
  pose proof (binary_cache_is_sound "linux" "x86_64" (Url "https://example.com/mine.tar.gz") bin_dir (dying h) Hc') as H2.
  fold (sample_resolve (Url "https://example.com/mine.tar.gz")) in H2.
  destruct (sample_resolve (Url _) (dying h)) as [r' h']. destruct H2 as (Hc2 & Hk & _).
  destruct Hd' as [Hr Hp]. split; [exact Hr|]. split; [exact Hp|].
  destruct (host_files h !! cached_path bin_dir "0.3.4") as [f|] eqn:Ef; [|discriminate Hd].
  destruct (Hk _ f Ef) as (f1 & Hf & _). destruct (cache_whole _ _ Hc2 _ f1 Hf) as [url Hu]. by exists f1, url.
Defined.
