(* ===== verification/CliKey.v ===== *)
(** * The release key of the command line tool

    [RELEASE_SIGNING_KEY] of [ant-client/ant-core/src/update.rs]: the ML-DSA-65 key
    under which archives of the [ant] tool must be signed.  It is not the key of the
    nodes' releases in [ReleaseKey]. *)

From Stdlib Require Import Strings.Byte.
From stdpp Require Import base list.
From S2P Require Import Prelude.

Definition RELEASE_SIGNING_KEY : bytes := [
  xb4; xcf; x2a; x24; x31; xd9; xb2; x3a; xab; xe9; x5e; xfc; xbc; xf3; xb1; x1f; x4e; x50; x0a; x46;
  xeb; x83; xfc; x6f; x0f; x89; x41; x00; x1b; x52; xde; xdc; xb5; xc9; x07; xed; x72; x3a; xe1; xa9;
  x82; xe1; xfc; xff; xab; xce; x9f; x7d; xab; xe2; x57; x92; xe0; xf2; xac; xa1; x41; xd3; x74; x95;
  x41; xd1; xac; x22; xb1; xbb; x5c; xf4; x02; x0b; x73; x85; xfd; x56; x75; x0d; x5c; x38; xe1; x2d;
  xe0; x15; x4f; xbf; x40; xeb; xf1; x0d; x8f; x39; x32; xeb; x80; xa7; x2e; x77; x3e; x54; xe3; x3d;
  x62; xae; xe7; x09; x5e; xfb; xdc; xaa; x07; xdc; xe1; x08; x96; xbb; x4b; xa0; x2e; x05; x2d; xee;
  xeb; x9a; x1a; xae; xde; xe9; x2c; xf8; x2f; x43; x6c; x78; x4b; xde; xef; x91; x8b; x94; x9d; x4f;
  x81; x05; xcc; xf0; x98; xce; xce; x67; x54; xac; xde; xcd; x26; x9e; x84; xf4; x88; xb2; x1a; x3e;
  x93; x2e; xff; xa8; x45; x95; xd1; xd0; xb1; x6c; x3c; x1e; xef; x3d; xe3; xf2; x73; xe2; xf6; xb7;
  xf9; x3f; x10; x0d; x3c; xde; x28; x94; x07; xef; x24; x70; xc4; x5a; x0a; x67; xbb; x0f; x4f; x5c;
  x2b; xd8; x02; x05; xa5; x98; x03; x5d; x8f; xc0; x4a; x84; xe9; xea; xac; x13; xdf; x69; xfc; x1e;
  xcf; xb6; x88; xba; x99; x30; xbc; x7a; xb8; x9d; x3d; x62; x3b; x33; x19; xbb; x3a; x2c; x2b; xa0;
  x5a; xb0; x8f; x9e; x10; x81; xb9; x12; x54; x81; xf8; xe2; x91; xb2; xe7; xe6; x9c; x11; xeb; x49;
  x64; x3a; x25; xd6; x53; x2e; xdf; xfc; x14; x32; x65; xcc; x87; xdb; xfd; xbb; x81; xa8; x50; xcc;
  xb4; x31; x0c; x70; xf3; xb6; x15; x8a; x50; x80; xad; xb1; xb0; x10; x2b; x67; x33; xf5; xf6; x36;
  x35; x5f; xa7; xd2; x81; xd6; x75; xa1; x18; x15; xbe; x1d; x5e; x33; x8e; x98; xdd; x45; x0f; x0c;
  x0f; x0d; x8b; x3f; x97; x11; x21; x2e; xa0; x5e; xfe; x70; x09; xa7; x14; x30; xa3; x01; x2d; x18;
  x2b; x8f; x19; x75; x54; x1f; xd8; xee; x66; x06; x7b; x9d; x7d; xb2; xae; x14; xe6; x51; x19; xc2;
  x45; x2e; x7e; x11; xd9; x7b; x16; x8e; xae; x17; xdb; x1b; x24; x90; xcd; xed; x94; xf9; xf7; xba;
  x9f; x4c; x12; xae; x31; x7b; xd4; x7c; x04; x42; x2c; x32; x16; xc1; x70; x6d; x11; x6f; x3b; x44;
  x62; xba; xbd; xc5; x7a; xec; x55; x1b; xcd; xdb; xb6; x55; x08; x86; x13; x7f; x4e; xa9; x63; xe1;
  x87; xa0; x7e; x49; xfb; xf4; xa3; x46; xcf; x1d; xec; xf5; xc6; x2f; xe1; x43; x02; xd0; xe4; x5f;
  x1b; x20; x1a; xa7; x81; xbd; x31; x19; x6a; x74; xd7; x9a; x6d; x3d; xf8; xac; x4d; xbb; x01; x63;
  xa4; x9d; x3c; xc9; x6c; x8a; x4f; x61; xd6; x98; xf5; x40; x22; xa9; x5e; x93; x5e; x13; xd3; xe0;
  xdb; x54; xab; x0d; xe3; x88; x85; x80; x7a; x5e; x38; x64; x97; xc4; xe9; xb0; x5d; xf7; x40; x5f;
  x6e; x3f; xbe; x14; x9a; x7c; xa2; x7c; x74; xa5; x32; x22; x61; x31; xa5; x0d; xa5; xcc; x93; xe4;
  xfd; xed; xbc; xe7; xf2; xe5; xdb; xc6; x0c; xe1; xc8; x4e; xee; xe6; x76; x1c; x10; x1b; xd8; x53;
  xd4; xe8; x07; xed; xea; x91; xd4; x1b; x91; x5c; x28; x05; xca; xe2; x9c; xd1; x99; x43; xed; xd8;
  x6a; x2b; xd2; x64; x9b; xe1; x0c; x88; x6c; x0d; xb2; x6b; x73; x85; x9d; xbf; x79; x78; xaa; x7b;
  x5e; xf8; xa4; x26; xdf; xb3; x9b; x24; x5a; xc8; x19; x22; xa5; xc6; xca; x00; x59; x3b; xad; x45;
  xdf; x71; x1d; x60; x60; x24; x0d; xa4; x3d; x42; x23; xb8; xfe; xac; x86; x94; x79; x87; x05; xae;
  xb8; x4d; x7e; x11; x5b; x22; x44; x15; x3d; x7f; x82; x98; x65; x0a; x3c; xd3; xef; x80; x0d; x75;
  x03; x92; xf6; x3a; x8b; xa4; xb0; x61; x2d; x2c; xcc; x1f; x01; x8e; x7a; x46; x36; x2a; x83; x21;
  x88; x98; x13; x0a; xd5; xa1; x54; x4b; x63; xe0; xe3; x1c; x07; x5e; x32; x8c; xa4; x6b; x62; xc3;
  x28; x95; xb8; x0a; xb9; x4f; xaf; x7f; x49; xeb; xff; xd7; xa1; x41; x43; x9a; x92; x9a; x5f; xee;
  xbd; xb9; xbe; xb3; x4b; x9d; x0b; xcb; x9b; x2c; x26; x8f; x0f; xb1; xfa; xc0; xe3; x3a; x7f; x2b;
  x51; x79; x75; x25; x5b; x23; x22; xb1; x01; x27; x4e; x43; xdd; x66; x7a; x33; x4d; x32; x96; x83;
  x59; x52; xd7; x3c; xb0; xe3; x03; xd6; xb0; xc7; x99; x68; xc6; xa4; x2d; x35; x3d; xa4; x6a; x17;
  xd9; xf4; x0c; x26; x11; xe4; xbc; x03; x87; x25; x62; xad; xa9; x7e; x96; x4d; x39; x9b; x8f; x09;
  xdc; xd1; x28; x5e; xf4; xe3; x94; xfd; x94; x46; x30; xe2; x24; x46; x30; x7f; xf4; x4c; xaa; x51;
  x7e; x04; x5c; xa4; x8c; xba; x4a; xb8; x61; x5e; x75; x1c; xa8; x0c; xbc; x7f; x36; x16; xa1; x72;
  x98; x6a; x44; x39; x42; x67; xb5; x4a; xac; x14; x35; x8f; xcd; x87; x3f; x9e; x2e; xa1; x53; xf1;
  x45; x68; x26; xcb; x35; x96; x57; xd5; x3a; x24; x74; xe2; xff; xe0; x70; xb1; xbd; xec; x0c; xd2;
  x97; x9a; xe5; x9f; xa9; xfe; x6a; x63; x17; x35; xad; x64; x2f; xd9; x2e; xdb; x47; xdc; x62; xdc;
  xcc; xee; x7e; x23; xa6; x67; x61; x7c; xd1; x03; xbd; x78; xe9; x34; x05; xed; x05; x87; xef; x59;
  xf4; x16; xd6; x8d; x85; x46; x65; x2a; x08; xac; x4a; x5d; xe6; x27; x5f; x43; xdd; x51; x4e; x95;
  x9b; xf5; x0c; x81; x24; x73; x39; x77; xe9; xc8; x35; x4a; xe2; xb8; x35; x92; xde; x5c; x31; x12;
  x36; x5c; xc7; x69; xcd; x79; xa9; xf9; xcf; x13; xa9; x12; x29; x25; x5c; x6a; x34; xa4; xbf; xc5;
  xb6; x2a; xc1; xba; x6a; xd3; x98; x8c; x9b; x6d; x9f; xb9; x25; xa6; xd1; x97; x80; x38; x11; xdc;
  x73; x5c; xe7; x3a; x1f; xd2; x16; xcd; x63; xfb; x41; xb0; xba; xb0; x38; x67; x48; xd2; x8a; x94;
  x2f; x11; x81; xbf; x66; x38; x68; xff; xfe; xd1; x7c; xcd; xa3; xac; xe4; xf7; x58; x19; xcd; x2a;
  xe3; xfa; x4d; xb0; xbe; xac; x05; x1c; xd9; x8d; xf7; x5c; xc0; xfc; xa6; xb5; x99; xb8; x8e; x2b;
  x72; xf8; x19; xfc; x17; x11; xf6; x2b; x08; xe4; x6e; xb0; x65; xab; x78; x8a; xfc; x7c; x09; xca;
  x73; xcd; x35; x5d; x6c; x7a; x36; xc0; x24; xba; x3f; x08; xea; x17; x09; xe1; x9d; x5d; x18; x59;
  x8a; xd8; x6a; x6d; x85; x6a; x9e; xa9; xe5; x4b; x45; xb2; x35; x6e; x62; x24; x08; x00; x1c; x06;
  x73; x27; x5d; x11; x4a; xc8; x51; xbd; x59; xd6; x94; xce; x16; x15; x17; x58; x7f; x39; x9d; x4e;
  x69; x1a; x64; xbb; xd4; x51; xb9; xe4; x7d; x51; x3a; xff; xe5; x1f; x29; xea; x7e; xa5; x62; x63;
  xff; x10; xf7; x54; x35; xd1; xf3; x73; x1e; xab; xca; x52; x14; xc6; x7e; x51; xc2; x48; x13; xcb;
  x30; xb2; x1a; x84; x72; xe5; x44; x83; xc9; x90; xa5; x8c; xf9; xeb; x3c; x5c; xc6; xcc; x8a; x95;
  x8a; xfa; xeb; x37; x9c; xde; xa2; xb1; x72; x4d; xd9; x3d; xab; xfd; x0e; xbd; x32; x9d; x23; xe9;
  x6f; x85; x4e; xfe; xcd; x91; xfb; x82; x94; xee; x8b; xdf; x6a; xd9; x01; xa1; xc6; x22; x18; x01;
  x8d; x10; xd5; x87; x42; xd0; xbd; x23; x75; x44; x53; x46; xa5; xae; x00; x4c; x0e; x88; x4a; xa8;
  x3d; x4a; x30; xe0; x1a; xa4; xe5; x40; xb8; xe0; x12; x9c; x44; x03; xfb; x2e; x4e; xf5; x29; xdb;
  x09; x84; x55; xc7; x6c; xc6; x1f; xf9; xee; x0b; xa4; x91; x7d; x79; x27; x59; x75; x97; xec; x6a;
  xa8; xf8; x55; xa8; x45; xd4; xd7; xa6; xc1; xc4; x27; x35; xe8; x4f; x39; x89; x7d; x41; xf3; xf6;
  xd0; xb6; xf9; x91; xeb; x94; xf1; xbb; x17; x46; x9c; xd5; x5a; x53; x04; x2d; x12; x7c; x17; x6a;
  x36; xb5; xea; xf3; x5b; x96; x1b; xee; xce; xc4; xc0; x11; x5a; xbc; x0c; x29; xd0; x42; x1d; x16;
  x63; xea; x1e; x04; x2f; xe3; x17; xed; x33; xac; x56; x80; x34; x41; x41; x1e; x77; x80; x06; x9f;
  xbc; x2e; x78; xa1; x04; x00; x06; x6f; x36; x2f; xb7; xa5; x95; x37; x82; x9d; xef; x41; x08; x85;
  x3d; x53; xa7; xfb; xfe; xba; x8c; xb9; xae; xc7; x89; x11; x69; x4f; x62; xe6; xb6; x08; x6b; x35;
  x1c; x96; xb3; x7b; x40; x2d; xee; x07; x40; x52; x4f; x68; x60; xf4; xb9; xc3; x54; x9f; x22; x50;
  x88; x48; x6a; x28; x93; x46; x00; xe2; x4a; x85; x41; x78; x0e; x87; xc5; xeb; xfc; xd3; x5f; x4d;
  x24; xe4; x9d; xeb; x1d; x00; x73; x85; x25; x47; x9e; x8c; x5b; x88; xf4; x3b; x33; xf0; x3d; x3a;
  xa1; x28; xd3; x06; xb4; x7a; x4e; x5d; x31; x1b; xca; xf4; x3f; x70; x30; x49; x44; x29; x24; x14;
  x5e; x35; xc2; x6c; x92; x7e; xf8; x97; x0c; x51; x9d; x67; xc0; x10; xa9; x35; x48; x59; x6a; x33;
  xef; x40; x4e; x53; x10; x14; x2a; x12; x38; xe6; xc4; x63; x9c; x84; x85; x06; xaf; x3d; x3a; x84;
  x06; x60; x88; x32; xda; x2c; xe5; xc6; x59; xf1; xe0; x10; xe2; x3c; xe6; xbf; x32; x7d; x32; x39;
  x6d; xe4; xd9; xca; xe7; xf5; xf4; xa6; x5f; xb2; x33; x05; xb5; xad; x5f; xcb; x0b; x14; xaf; xeb;
  xc0; xec; x87; x85; x9b; x13; xb5; x8a; x98; xa9; x92; x13; x1b; x74; xec; xfd; xe1; xc1; x22; x06;
  x5d; x4f; x06; xc7; xdd; xc6; xf0; xc4; x01; x04; xad; x7f; x71; xbc; x74; x4d; xfd; x18; xa3; x56;
  x2c; x45; x28; x2b; x2f; xbc; x9b; xb8; x4b; xe6; x51; x75; x28; x0c; x27; x0e; xf7; x92; x8c; xc9;
  xde; x33; x1a; x65; x28; xc7; x01; x32; xa2; x36; x88; xb6; x64; x10; x03; xd6; xb7; x9f; x9d; x73;
  xe1; xa9; xc7; xdf; xe1; x0b; x39; x31; x77; xbc; x91; xf1; x45; x9a; xc5; x97; x28; xc0; x61; xc5;
  x23; x54; xad; xe3; x23; x18; x69; xf7; x27; xd0; x5b; xf2; x44; x62; xdc; x97; xce; x4e; x40; x76;
  x00; xde; xc2; xf9; x3a; x42; xfd; xd4; xd7; xe1; x85; xd8; xc9; x38; x91; xc1; x79; x87; x58; xf1;
  x26; x1a; x29; x02; xe3; x54; xde; x58; x64; x9d; xe6; x8e; x33; x70; x53; x43; x47; x90; xee; x6e;
  x0f; x8c; xb3; x9e; x47; x45; xfc; xa8; xe3; x52; x62; x74; x6d; xa2; xaf; x28; x9d; xdf; x1e; x69;
  x1f; x56; xbc; x49; xc1; xe5; xd6; xc4; xb5; x5c; x4d; x39; x49; x4b; xb4; xec; x56; x54; x9a; x15;
  x94; x0a; xcb; xa9; x10; x46; x03; x5c; x23; x2f; x29; xed; x72; xa1; x57; xfa; x58; xef; x21; x7e;
  xf2; x8b; xa7; x04; x51; xb4; x03; x5d; xd8; x48; xc0; xe5; x83; xb6; x7a; x6b; xcd; xfb; xda; x47;
  xe8; xa1; xae; x57; x74; x49; xc0; xf9; x4a; x6b; x3c; xb5; xd8; x27; x3d; x1d; x96; x39; x09; x65;
  x95; xdb; x01; xa3; x8b; x78; x8b; x07; x6d; x1c; x8b; x4b; x1d; x9d; x4a; x4f; xcb; xb8; xf6; x22;
  x73; x8a; x7b; xc8; xf2; x0a; xef; x03; x1e; xb7; x4d; x8f; xc0; xdf; x87; x88; x05; xe1; x0a; x30;
  xea; xde; xf3; xc2; xb6; x00; x3c; xd6; xff; x3b; xb5; x01; xfb; xd8; xb2; x65; x26; x5d; xa0; x5a;
  x7c; xef; x1d; x85; xbe; x51; xc2; x57; x0b; x27; x37; x71; x99; xf5; x87; x83; x68; x0b; x88; xed;
  x66; x9e; x37; x59; x84; x23; x72; xc3; x80; xac; xfe; x45; x5f; xdf; x31; xc4; x84; x07; x5a; x17;
  x28; xcd; x64; xb4; xe2; xa3; x0e; x2c; x15; x60; x77; xdc; x08; x45; x36; x37; x68; x50; xba; x03;
  x85; xb7; xed; xd0; x7b; xb2; xa1; x62; xbc; x70; x00; x9e
].
