(* ===== verification/CliUpdate.v ===== *)
(** * Updating the command line tool

    [ant-client/ant-core/src/update.rs] and the [update] command of
    [ant-client/ant-cli/src/commands/update.rs]: finding the newest release, and
    downloading, verifying and unpacking it into a temporary directory, from where it
    replaces the running executable.  Archives, HTTP and running a binary are those of
    [NodeBinary], whose extraction the code calls; progress reports are left out. *)

From Stdlib Require Import ZArith Lia Strings.String Strings.Byte.
From stdpp Require Import base decidable list strings gmap.
From S2P Require Import Prelude Interfaces Reference Release Files Host Supervisor NodeBinary CliKey.

Local Open Scope Z_scope.

Definition GITHUB_REPO : string := "WithAutonomi/ant-client".
Definition CLI_BINARY_NAME : string := "ant".
Definition TAG_PREFIX : string := "ant-cli-v".
Definition SIGNING_CONTEXT : bytes := str_to_bytes "ant-release-v1".
Definition SIGNATURE_SIZE : Z := 3309.

(** ** Interfaces *)

(** The keys of a release that are looked at; [None] when missing or of another type. *)
Record cli_release := mkCliRelease { draft : option bool; prerelease : option bool; tag : option string }.

(** [release_list]: a JSON list of releases.  [verify_with_context]: ML-DSA-65
    verification by key, message, signature and context.  [self_replace exe new]: the
    crate of that name, for an executable at [exe]. *)
Class UpdateTools := {
  release_list : bytes -> option (list cli_release);
  verify_with_context : bytes -> bytes -> bytes -> bytes -> option bool;
  self_replace : path -> path -> stres host unit unit
}.

(** The executable is replaced atomically by one with the content of the new file, or
    is left. *)
Class UpdateToolsLaws `{UpdateTools} : Prop := {
  self_replace_spec exe p h : hwp (self_replace exe p) h (fun r h' => dirs h' = dirs h /\
    match r with
    | Ok _ => exists f g, host_files h !! p = Some f /\ data g = data f /\ host_files h' = <[exe := g]> (host_files h)
    | Err _ => host_files h' = host_files h
    end)
}.

(** ** Operations *)

Record UpdateCheck := mkUpdateCheck {
  current_version : string;
  latest_version : string;
  update_available : bool;
  download_url : option string
}.

Record UpdateResult := mkUpdateResult { previous_version : string; new_version : string }.

Definition update_failed (msg : string) : core_error := UpdateFailed msg.

Section Update.
Context `{semver : Semver, dsa : Dsa, tools : BinaryTools, updates : UpdateTools}.
Context (target_os target_arch : string).

Definition parse_version (version : string) : result core_error Release.Version :=
  ok_or (version_parse (NodeBinary.strip_v version)) (update_failed "invalid version '{version}': {e}").

Definition cli_platform_asset_name (version : string) : result core_error string :=
  let built_for os arch := String.eqb target_os os && String.eqb target_arch arch in
  target_triple ←
    (if built_for "linux" "x86_64" then Ok "x86_64-unknown-linux-musl"
     else if built_for "linux" "aarch64" then Ok "aarch64-unknown-linux-musl"
     else if built_for "macos" "x86_64" then Ok "x86_64-apple-darwin"
     else if built_for "macos" "aarch64" then Ok "aarch64-apple-darwin"
     else if built_for "windows" "x86_64" then Ok "x86_64-pc-windows-msvc"
     else Err (update_failed "unsupported platform: {}-{}"))%string;
  let ext := (if String.eqb target_os "windows" then "zip" else "tar.gz")%string in
  Ok ("ant-" ++ version ++ "-" ++ target_triple ++ "." ++ ext)%string.

Definition build_download_url (version : string) : result core_error string :=
  asset_name ← cli_platform_asset_name version;
  Ok ("https://github.com/" ++ GITHUB_REPO ++ "/releases/download/" ++ TAG_PREFIX ++ version ++ "/" ++ asset_name)%string.

Definition force (check : UpdateCheck) : result core_error UpdateCheck :=
  url ← build_download_url (latest_version check);
  Ok (mkUpdateCheck (current_version check) (latest_version check) true (Some url)).

Definition strip_prefix (prefix s : string) : option string :=
  if String.prefix prefix s then Some (str_drop (String.length prefix) s) else None.

(** The version of a stable release of the tool. *)
Definition release_version (release : cli_release) : option Release.Version :=
  if default false (draft release) || default false (prerelease release) then None
  else version_str ← strip_prefix TAG_PREFIX (default EmptyString (tag release)); version_parse version_str.

Definition keep_best (best : option Release.Version) (release : cli_release) : option Release.Version :=
  match release_version release with
  | Some v => if match best with None => true | Some b => version_gt v b end then Some v else best
  | None => best
  end.

Definition fetch_latest_cli_version : result core_error string :=
  match http_get ("https://api.github.com/repos/" ++ GITHUB_REPO ++ "/releases?per_page=100") with
  | NoReply => Err (update_failed "failed to fetch releases: {e}")
  | Reply status body =>
    if negb (success status) then Err (update_failed "GitHub API returned status {} when fetching releases")
    else
      releases ← ok_or (mapM id body ≫= fun b => release_list (concat b)) (update_failed "failed to parse releases JSON: {e}");
      ok_or (version_to_string <$> fold_left keep_best releases None) (update_failed "no ant-cli release found on GitHub")
  end.

Definition check_for_update (current_version : string) : result core_error UpdateCheck :=
  latest ← fetch_latest_cli_version;
  current ← parse_version current_version;
  latest_parsed ← parse_version latest;
  let update_available := version_gt latest_parsed current in
  download_url ← (if update_available then url ← build_download_url latest; Ok (Some url) else Ok None);
  Ok (mkUpdateCheck current_version latest update_available download_url).

(** The body of a successful response. *)
Definition response (url : string) : result core_error (list (option bytes)) :=
  match http_get url with
  | NoReply => Err (update_failed "download request failed: {e}")
  | Reply status body => if success status then Ok body else Err (update_failed "download returned status {}")
  end.

Definition download_archive (url : string) (tmp_dir : path) : hio (path * bytes) :=
  body ← st_lift (response url);
  let tmp_archive := tmp_dir ++ [".download.tmp"%string] in
  _ ← on_disk (update_failed "failed to create temp file: {e}") (fs_write tmp_archive []);
  _ ← stream_to update_failed tmp_archive body;
  bytes ← on_disk (update_failed "failed to read temp file: {e}") (fs_read tmp_archive);
  mret (tmp_archive, bytes).

Definition download_bytes (url : string) : result core_error bytes :=
  body ← response url;
  chunks ← ok_or (mapM id body) (update_failed "failed to read response body: {e}");
  Ok (concat chunks).

Definition verify_signature (archive_bytes signature_bytes : bytes) : result core_error unit :=
  if negb (lenZ signature_bytes =? SIGNATURE_SIZE) then
    Err (update_failed "invalid signature size: expected {SIGNATURE_SIZE}, got {}")
  else if negb (dsa_pk_valid RELEASE_SIGNING_KEY) then Err (update_failed "invalid embedded release key: {e}")
  else if negb (dsa_sig_valid signature_bytes) then Err (update_failed "invalid signature format: {e}")
  else
    valid ← ok_or (verify_with_context RELEASE_SIGNING_KEY archive_bytes signature_bytes SIGNING_CONTEXT)
              (update_failed "signature verification error: {e}");
    if valid : bool then Ok tt
    else Err (update_failed "signature verification failed: archive may be corrupted or tampered").

(** [extract_version], of which only success is looked at. *)
Definition extract_version (binary_path : path) : hio string := fun h =>
  match host_files h !! binary_path ≫= run_version with
  | None => (Err (update_failed "failed to run {} --version: {e}"), h)
  | Some (false, _) => (Err (update_failed "{} --version exited with status {}"), h)
  | Some (true, stdout) => (Ok (default "unknown"%string (last_word stdout)), h)
  end.

Context (exe tmp : path).

Definition replace_binary (new_binary : path) : hio unit := fun h =>
  let '(r, h') := self_replace exe new_binary h in (map_err (fun _ => update_failed "failed to replace binary: {e}") r, h').

Definition check_version (latest : string) (actual_version : option string) : result core_error unit :=
  match actual_version with
  | Some v => if String.eqb v latest then Ok tt else Err (update_failed "version mismatch: expected {}, binary reports {v}")
  | None => Ok tt
  end.

(** The part of [perform_update] with the temporary directory. *)
Definition update_in (check : UpdateCheck) (download_url : string) : hio UpdateResult :=
  '(archive_path, archive_bytes) ← download_archive download_url tmp;
  sig_bytes ← st_lift (download_bytes (download_url ++ ".sig"));
  _ ← st_lift (verify_signature archive_bytes sig_bytes);
  binary_path ← (if str_ends_with download_url ".zip" then extract_zip archive_bytes tmp CLI_BINARY_NAME
                 else extract_tar_gz archive_bytes tmp CLI_BINARY_NAME);
  actual_version ← st_try (extract_version binary_path);
  _ ← st_lift (check_version (latest_version check) (res_ok actual_version));
  _ ← replace_binary binary_path;
  _ ← on_disk (update_failed "") (io_ignore (fs_remove_file archive_path));
  mret (mkUpdateResult (current_version check) (latest_version check)).

(** [tempdir], the body, and removing the directory when it is dropped. *)
Definition with_tempdir {A} (body : hio A) : hio A := fun h =>
  let '(f, h) := host_fault h in
  match f with
  | Works =>
      let '(r, h) := body (mkHost (disk_of h) (dirs h ∪ {[tmp]})) in
      (r, (remove_dir_all tt tmp h).2)
  | _ => (Err (update_failed "failed to create temp directory: {e}"), h)
  end.

Definition perform_update (check : UpdateCheck) : hio UpdateResult :=
  download_url ← st_lift (ok_or (download_url check)
    (update_failed "no download URL — are you already on the latest version?"));
  with_tempdir (update_in check download_url).

(** [UpdateArgs::execute], without its output. *)
Definition update_command (forced : bool) (own_version : string) : hio (option UpdateResult) :=
  check ← st_lift (check_for_update own_version);
  check ← st_lift (if negb (update_available check) && forced then force check else Ok check);
  if negb (update_available check) then mret None
  else r ← perform_update check; mret (Some r).

End Update.

(** ** The newest release *)

Section Newest.
Context `{semver : Semver, !SemverLaws, tools : BinaryTools, updates : UpdateTools}.

Definition stable_versions (releases : list cli_release) : list Release.Version := omap release_version releases.

(** What the list of releases says. *)
Definition newest_release (v : Release.Version) : Prop :=
  exists status chunks releases,
    http_get ("https://api.github.com/repos/" ++ GITHUB_REPO ++ "/releases?per_page=100") = Reply status (Some <$> chunks) /\
    success status = true /\ release_list (concat chunks) = Some releases /\
    v ∈ stable_versions releases /\ forall w, w ∈ stable_versions releases -> version_gt w v = false.

Lemma not_gt_trans v b c : version_gt v b = false -> version_gt b c = false -> version_gt v c = false.
Proof.
  unfold version_gt. intros Hv Hb. destruct (version_cmp v c) eqn:E; try done.
  rewrite (version_cmp_trans v c b E) in Hv; [done|]. rewrite version_cmp_opp. by destruct (version_cmp b c).
Qed.

Lemma not_gt_below v b c : version_gt v b = true -> version_gt v c = false -> version_gt b c = false.
Proof.
  unfold version_gt. intros Hv Hc. destruct (version_cmp b c) eqn:E; try done.
  rewrite (version_cmp_trans v b c) in Hc; [done | by destruct (version_cmp v b) | by rewrite E].
Qed.

Definition larger (best : option Release.Version) (v : Release.Version) : option Release.Version :=
  if match best with None => true | Some b => version_gt v b end then Some v else best.

Lemma fold_keep_best releases best : fold_left keep_best releases best = fold_left larger (stable_versions releases) best.
Proof.
  unfold stable_versions. revert best. induction releases as [|release releases IH]; intros best; cbn; [done|].
  unfold keep_best at 2. destruct (release_version release); cbn; apply IH.
Qed.

Lemma larger_spec vs best :
  match fold_left larger vs best with
  | Some v => (best = Some v \/ v ∈ vs) /\ forall w, best = Some w \/ w ∈ vs -> version_gt w v = false
  | None => best = None /\ vs = []
  end.
Proof.
  revert best. induction vs as [|v vs IH]; intros best; cbn [fold_left].
  { destruct best as [b|]; [|done]. split; [by left|]. intros w [[= ->]|Hw%not_elem_of_nil]; [apply version_gt_irrefl | done]. }
  specialize (IH (larger best v)). destruct (fold_left larger vs (larger best v)) as [best'|]; unfold larger in IH.
  2: { destruct best as [b|]; [destruct (version_gt v b)|]; by destruct IH. }
  destruct best as [b|]; [destruct (version_gt v b) eqn:Ev|]; destruct IH as [Hin Hle].
  - split; [right; apply elem_of_cons; destruct Hin as [[= ->]|?]; auto|].
    intros w [[= ->]|[->|Hw]%elem_of_cons]; [|apply Hle; auto..]. apply (not_gt_below v); [exact Ev | apply Hle; auto].
  - split; [destruct Hin as [?|?]; [by left | right; by apply elem_of_cons; right]|].
    intros w [?|[->|Hw]%elem_of_cons]; [apply Hle; auto | | apply Hle; auto]. apply (not_gt_trans v b); [exact Ev | apply Hle; auto].
  - split; [right; apply elem_of_cons; destruct Hin as [[= ->]|?]; auto|].
    intros w [?|[->|Hw]%elem_of_cons]; [done | apply Hle; auto..].
Qed.

Lemma mapM_id_Some {A} (l : list (option A)) k : mapM id l = Some k -> l = Some <$> k.
Proof. intros Hl%mapM_Some. induction Hl as [|x y l k Hx _ IH]; [done|]. cbn. by rewrite <- IH, <- Hx. Qed.

Lemma ok_or_Some {E A} (o : option A) (e : E) a : ok_or o e = Ok a -> o = Some a.
Proof. destruct o; cbn; congruence. Qed.

Lemma fetch_latest_spec s : fetch_latest_cli_version = Ok s -> exists v, newest_release v /\ s = version_to_string v.
Proof.
  unfold fetch_latest_cli_version, newest_release. destruct (http_get _) as [|status body]; [discriminate|].
  destruct (success status) eqn:Es; cbn [negb]; [|discriminate]. intros Hs.
  destruct (mapM id body) as [chunks|] eqn:Eb; [|discriminate]. apply mapM_id_Some in Eb as ->. cbn [mbind option_bind] in Hs.
  destruct (release_list (concat chunks)) as [releases|] eqn:Er; [|discriminate]. cbn [ok_or mbind result_bind] in Hs.
  rewrite fold_keep_best in Hs. pose proof (larger_spec (stable_versions releases) None) as Hl.
  destruct (fold_left larger _ None) as [v|]; [|discriminate]. injection Hs as <-. destruct Hl as [[[=]|Hin] Hle].
  exists v. split; [|done]. exists status, chunks, releases. split_and!; try done. intros w Hw. apply Hle. by right.
Qed.

(** What a check says. *)
Definition checked (os arch own : string) (check : UpdateCheck) : Prop :=
  exists v w o, newest_release v /\ latest_version check = version_to_string v /\ current_version check = own /\
    parse_version (latest_version check) = Ok w /\ parse_version own = Ok o /\ update_available check = version_gt w o /\
    (update_available check = true -> exists url, build_download_url os arch (latest_version check) = Ok url /\ download_url check = Some url).

Lemma check_for_update_spec os arch own check : check_for_update os arch own = Ok check -> checked os arch own check.
Proof.
  unfold check_for_update. intros Hc. inv_bind Hc. destruct (fetch_latest_spec _ ltac:(eassumption)) as (v & Hv & Hl).
  destruct (version_gt _ _) eqn:Eg in Heqr2.
  - inv_bind Heqr2. clear Heqr. eexists v, _, _. cbn [latest_version current_version update_available download_url].
    split_and!; [exact Hv | done | done | eassumption.. | by rewrite Eg |]. intros _. by eexists.
  - injection Heqr2 as <-. eexists v, _, _. cbn [latest_version current_version update_available download_url].
    split_and!; [exact Hv | done | done | eassumption.. | done |]. by rewrite Eg.
Qed.

End Newest.

(** ** Performing an update *)

Section Perform.
Context `{semver : Semver, dsa : Dsa, tools : BinaryTools, updates : UpdateTools, !UpdateToolsLaws}.
Context (exe tmp : path) (Hexe : ~ under tmp exe).

(** A body that was served in full. *)
Definition served (url : string) (b : bytes) : Prop :=
  exists status chunks, http_get url = Reply status (Some <$> chunks) /\ success status = true /\ b = concat chunks.

(** A file with the bytes of a whole entry of a signed archive, that does not say it is
    another version. *)
Definition released (url latest : string) (f : file) : Prop :=
  exists archive sig entries g, served url archive /\ served (url ++ ".sig") sig /\ lenZ sig = SIGNATURE_SIZE /\
    verify_with_context RELEASE_SIGNING_KEY archive sig SIGNING_CONTEXT = Some true /\
    archive_entries url archive = Some entries /\ unpacked_from CLI_BINARY_NAME entries g /\ data f = data g /\
    (reported_version g = Some latest \/ reported_version g = None).

Lemma verify_signature_spec archive sig : verify_signature archive sig = Ok tt ->
  lenZ sig = SIGNATURE_SIZE /\ verify_with_context RELEASE_SIGNING_KEY archive sig SIGNING_CONTEXT = Some true.
Proof.
  unfold verify_signature. destruct (Z.eqb_spec (lenZ sig) SIGNATURE_SIZE) as [Hl|]; cbn [negb]; [|discriminate].
  destruct (dsa_pk_valid _); cbn [negb]; [|discriminate]. destruct (dsa_sig_valid _); cbn [negb]; [|discriminate].
  destruct (verify_with_context _ _ _ _) as [[]|]; by split.
Qed.

Lemma response_spec url body : response url = Ok body -> exists status, http_get url = Reply status body /\ success status = true.
Proof. unfold response. destruct (http_get url) as [|status b]; [discriminate|]. destruct (success status) eqn:E; [|discriminate]. intros [= <-]. by exists status. Qed.

Lemma download_bytes_spec url b : download_bytes url = Ok b -> served url b.
Proof.
  unfold download_bytes. intros Hb. destruct (response url) as [body|] eqn:Er; [|discriminate].
  destruct (response_spec _ _ Er) as (status & Hg & Hs). cbn [mbind result_bind] in Hb.
  destruct (mapM id body) as [chunks|] eqn:Em; [|discriminate]. injection Hb as <-.
  apply mapM_id_Some in Em as ->. by exists status, chunks.
Qed.

Abbreviation inside := (under tmp).

Lemma inside_name name : inside (tmp ++ [name]).
Proof. by eexists. Qed.

Lemma only_inside_name name m m' : only (eq (tmp ++ [name])) m m' -> only inside m m'.
Proof. apply only_mono. intros q <-. apply inside_name. Qed.

Lemma archive_spec url h :
  hwp (download_archive url tmp) h (fun r h' => only inside (host_files h) (host_files h') /\
    forall p b, r = Ok (p, b) -> p = tmp ++ [".download.tmp"%string] /\ served url b).
Proof.
  unfold download_archive. apply hwp_bind, hwp_lift. destruct (response url) as [body|e] eqn:Er; [|by split].
  destruct (response_spec _ _ Er) as (status & Hg & Hs).
  apply hwp_bind, hwp_write; [intros h1 _ Ho1 | intros h1 _ Hf1]; [split; [by eapply only_inside_name | discriminate]|].
  assert (only inside (host_files h) (host_files h1)) as H1 by (rewrite Hf1; apply only_put, inside_name).
  destruct (put_data_same (host_files h) (tmp ++ [".download.tmp"%string]) []) as (f & Hl & Hd).
  rewrite <- Hf1 in Hl. apply hwp_bind. eapply hwp_mono; [by apply stream_to_spec|]. intros r h2 (_ & Ho2 & Hr).
  assert (only inside (host_files h) (host_files h2)) as H2 by (etransitivity; [exact H1 | by eapply only_inside_name]).
  destruct r as [[]|e]; [|by split]. destruct (Hr eq_refl) as (chunks & f' & -> & Hf' & Hdata).
  apply hwp_bind, hwp_read; [intros h3 _ H3; split; [by rewrite H3 | discriminate]|]. intros h3 g _ H3 Hg3.
  split; [by rewrite H3|]. intros p b [= <- <-]. split; [done|]. rewrite Hf' in Hg3. injection Hg3 as <-.
  exists status, chunks. by rewrite Hdata, Hd.
Qed.

Lemma try_version p f h : host_files h !! p = Some f ->
  exists r, st_try (extract_version p) h = (Ok r, h) /\ res_ok r = reported_version f.
Proof.
  intros Hf. unfold st_try, extract_version, reported_version. rewrite Hf. cbn.
  destruct (run_version f) as [[[] ?]|]; by eexists.
Qed.

Lemma replace_binary_spec p f h : host_files h !! p = Some f ->
  hwp (replace_binary exe p) h (fun r h' => match r with
    | Ok _ => exists g, data g = data f /\ host_files h' = <[exe := g]> (host_files h)
    | Err _ => host_files h' = host_files h
    end).
Proof.
  intros Hf. unfold hwp, replace_binary. pose proof (self_replace_spec exe p h) as Hs. unfold hwp in Hs.
  destruct (self_replace exe p h) as [[[]|e] h']; destruct Hs as [_ Hs]; [|exact Hs].
  destruct Hs as (f' & g & Hf' & Hg & Hs). rewrite Hf in Hf'. injection Hf' as <-. by exists g.
Qed.

(** The files a step leaves: those outside the temporary directory, or all but the
    executable, which is a release then. *)
Definition updated (check : UpdateCheck) (url : string) (h : host) (r : result core_error UpdateResult) (h' : host) : Prop :=
  only (fun q => q = exe \/ inside q) (host_files h) (host_files h') /\
  match r with
  | Ok res => res = mkUpdateResult (current_version check) (latest_version check) /\
      exists f, host_files h' !! exe = Some f /\ released url (latest_version check) f
  | Err _ => host_files h' !! exe = host_files h !! exe
  end.

Lemma updated_err check url h e h' : only inside (host_files h) (host_files h') -> updated check url h (Err e) h'.
Proof. intros Ho. split; [eapply only_mono; [|exact Ho]; by right | by apply Ho]. Qed.

Lemma update_in_spec check url h : hwp (update_in exe tmp check url) h (updated check url h).
Proof.
  unfold update_in. apply hwp_bind. eapply hwp_mono; [apply archive_spec|]. intros r h1 [H1 Hr].
  destruct r as [[archive_path archive]|e]; [|by apply updated_err]. destruct (Hr _ _ eq_refl) as [-> Harchive].
  apply hwp_bind, hwp_lift. destruct (download_bytes _) as [sig|e] eqn:Es; [|by apply updated_err].
  apply download_bytes_spec in Es. apply hwp_bind, hwp_lift. destruct (verify_signature archive sig) as [[]|e] eqn:Ev; [|by apply updated_err].
  apply verify_signature_spec in Ev as [Hlen Hver].
  apply hwp_bind. eapply hwp_mono; [by apply (extract_spec CLI_BINARY_NAME)|]. intros r2 h2 (_ & Ho2 & Hr2).
  assert (only inside (host_files h) (host_files h2)) as H2.
  { etransitivity; [exact H1|]. eapply only_mono; [|exact Ho2]. intros q [->| ->]; apply inside_name. }
  destruct r2 as [p|e]; [|by apply updated_err]. destruct (Hr2 p eq_refl) as (entries & Hent & Hfound).
  destruct (Hfound p eq_refl) as (Hp & g & Hg & Hun). destruct (try_version p g h2 Hg) as (rv & Hx & Hrv).
  apply hwp_bind. unfold hwp at 1. rewrite Hx. cbv zeta. rewrite Hrv.
  apply hwp_bind, hwp_lift. destruct (check_version _ _) as [[]|e] eqn:Ec; [|by apply updated_err].
  apply hwp_bind. eapply hwp_mono; [by apply (replace_binary_spec p g)|]. intros r3 h3 H3.
  destruct r3 as [[]|e]; [|by apply updated_err; rewrite H3]. destruct H3 as (f & Hdf & H3).
  apply hwp_bind, hwp_forget. intros h4 _ Ho4. apply only_inside_name in Ho4. split.
  - etransitivity; [|eapply only_mono; [|exact Ho4]; by right]. etransitivity; [eapply only_mono; [|exact H2]; by right|].
    rewrite H3. intros q Hq. apply lookup_insert_ne. intros ->. apply Hq. by left.
  - split; [done|]. exists f. split; [by rewrite Ho4, H3, lookup_insert_eq|].
    exists archive, sig, entries, g. split_and!; try done. unfold check_version in Ec.
    destruct (reported_version g) as [v|]; [|by right]. destruct (String.eqb_spec v (latest_version check)) as [->|]; [by left | discriminate].
Qed.

Lemma perform_update_spec check h : hwp (perform_update exe tmp check) h (fun r h' =>
  only (fun q => q = exe \/ inside q) (host_files h) (host_files h') /\
  match r with
  | Ok res => exists url, download_url check = Some url /\ updated check url h r h'
  | Err _ => host_files h' !! exe = host_files h !! exe
  end).
Proof.
  unfold perform_update. apply hwp_bind, hwp_lift. destruct (download_url check) as [url|]; cbn [ok_or]; [|by split].
  unfold hwp, with_tempdir, host_fault. destruct (next_fault (disk_of h)) as [f d] eqn:Ef.
  apply next_fault_files in Ef. cbn [disk_of dirs].
  assert (host_files (mkHost d (dirs h)) = host_files h) as Hd by exact Ef.
  destruct f; [|split; by rewrite Hd..].
  pose proof (update_in_spec check url (mkHost d (dirs h ∪ {[tmp]}))) as Hu. unfold hwp in Hu.
  destruct (update_in exe tmp check url _) as [r h1]. destruct Hu as [Ho Hr].
  assert (forall q, ~ inside q -> host_files (remove_dir_all tt tmp h1).2 !! q = host_files h1 !! q) as Hrm.
  { intros q Hq. pose proof (leaves_remove_dir_all q tt tmp Hq h1) as Hl. unfold hwp in Hl. by destruct (remove_dir_all tt tmp h1). }
  change (host_files {| disk_of := d; dirs := _ |}) with (files d) in Ho, Hr. change (files d) with (host_files (mkHost d (dirs h))) in Ho, Hr.
  rewrite Hd in Ho, Hr.
  assert (only (fun q => q = exe \/ inside q) (host_files h) (host_files (remove_dir_all tt tmp h1).2)) as Ho'.
  { intros q Hq. rewrite Hrm by (intros ?; apply Hq; by right). by apply Ho. }
  split; [exact Ho'|]. destruct r as [res|e]; [|by rewrite Hrm]. exists url. split; [done|]. split; [exact Ho'|].
  by rewrite Hrm.
Qed.

End Perform.

(** What the command says, and what is on the disk then. *)
Definition update_outcome `{semver : Semver, tools : BinaryTools, updates : UpdateTools} (os arch : string) (exe : path)
    (forced : bool) (own : string) (h : host) (r : result core_error (option UpdateResult)) (h' : host) : Prop :=
  match r with
  | Err _ => host_files h' !! exe = host_files h !! exe
  | Ok None => h' = h /\ forced = false /\ exists v w o, newest_release v /\ parse_version (version_to_string v) = Ok w /\
      parse_version own = Ok o /\ version_gt w o = false
  | Ok (Some res) => previous_version res = own /\ exists v w o url f,
      newest_release v /\ new_version res = version_to_string v /\ parse_version (new_version res) = Ok w /\
      parse_version own = Ok o /\ (forced = false -> version_gt w o = true) /\
      build_download_url os arch (new_version res) = Ok url /\
      host_files h' !! exe = Some f /\ released url (new_version res) f
  end.

(** ** Property *)

(** C40: Updates are newer, signed releases.  Whatever server, file system and the
    replacing of the executable do, the [update] command writes nothing but the
    executable and its temporary directory.  When it fails the executable is what it was.  When
    it says that there is nothing to do, the newest stable release that was listed is
    not newer than the tool, and nothing was written.  When it says that it updated,
    it is to the newest stable release that was listed, which is newer than the tool
    unless the update was forced, and the executable has the bytes of a whole entry of
    the archive served for that version and platform, which is signed under the
    embedded key; it says that it is this version, or does not say what it is. *)
Theorem update_installs_newer_signed_release
    `{semver : Semver, !SemverLaws, dsa : Dsa, tools : BinaryTools, updates : UpdateTools, !UpdateToolsLaws}
    (os arch : string) (exe tmp : path) (forced : bool) (own : string) (h : host) (Hexe : ~ under tmp exe) :
  let '(r, h') := update_command os arch exe tmp forced own h in
  only (fun q => q = exe \/ under tmp q) (host_files h) (host_files h') /\
  update_outcome os arch exe forced own h r h'.
Proof.
  change (hwp (update_command os arch exe tmp forced own) h (fun r h' =>
    only (fun q => q = exe \/ under tmp q) (host_files h) (host_files h') /\ update_outcome os arch exe forced own h r h')).
  apply hwp_bind, hwp_lift. destruct (check_for_update os arch own) as [check|e] eqn:Ec; [|done].
  destruct (check_for_update_spec _ _ _ _ Ec) as (v & w & o & Hv & Hl & Hc & Hw & Ho & Ha & Hu).
  apply hwp_bind, hwp_lift. destruct (update_available check) eqn:Eu; cbn [negb andb].
  - destruct (Hu eq_refl) as (url & Hurl & Hd). rewrite Eu. cbn [negb]. apply hwp_bind.
    eapply hwp_mono; [by apply perform_update_spec|]. intros [res|e] h' [Hf Hr]; [|done]. split; [exact Hf|].
    destruct Hr as (url' & Hd' & _ & -> & f & Hfe & Hrel). rewrite Hd in Hd'. injection Hd' as <-.
    split; [exact Hc|]. exists v, w, o, url, f. by rewrite Hl in *.
  - destruct forced; cbn [andb].
    + unfold force. destruct (build_download_url os arch (latest_version check)) as [url|e] eqn:Hurl; [|done].
      cbn [mbind result_bind update_available negb]. apply hwp_bind. eapply hwp_mono; [by apply perform_update_spec|].
      intros [res|e] h' [Hf Hr]; [|done]. split; [exact Hf|].
      destruct Hr as (url' & Hd' & _ & -> & f & Hfe & Hrel). injection Hd' as <-.
      split; [exact Hc|]. exists v, w, o, url, f. cbn in *. by rewrite Hl in *.
    + rewrite Eu. cbn [negb]. apply hwp_ret. split; [done|]. split; [done|]. split; [done|]. exists v, w, o. by rewrite <- Hl.
Qed.

(** ** An update from version 1.0.0 to 2.0.0 *)

#[local] Existing Instance number_semver.
#[local] Existing Instance number_semver_laws.

(** A server that gives every archive two pieces. *)
#[local] Instance sample_server : BinaryTools := {|
  http_get url := if str_ends_with url ".sig" then Reply 200 [Some (replicate 3309 x00)] else Reply 200 [Some [x01]; Some [x02]];
  tar_entries b := Some [Some (mkEntry (Some ["ant-2.0.0"; "README"]%string) ([x00], true));
                         Some (mkEntry (Some ["ant-2.0.0"; "ant"]%string) (b, true))];
  zip_entries _ := None;
  tag_name _ := None;
  run_version _ := Some (true, "ant 2.0.0"%string)
|}.

#[local] Instance sample_updates : UpdateTools := {|
  release_list _ := Some [mkCliRelease (Some true) None (Some "ant-cli-v3.0.0"%string);
    mkCliRelease None (Some false) (Some "ant-cli-v2.0.0"%string); mkCliRelease None None (Some "ant-cli-v1.0.0"%string);
    mkCliRelease None None None];
  verify_with_context pk _ _ _ := Some (bool_decide (pk = RELEASE_SIGNING_KEY));
  self_replace exe p h :=
    match host_files h !! p with
    | Some f => (Ok tt, set_host h (<[exe := mkFile (data f) 493]> (host_files h)) (dirs h))
    | None => (Err tt, h)
    end
|}.

#[local] Instance sample_updates_laws : UpdateToolsLaws.
Proof.
  split. intros exe p h. unfold hwp, self_replace, sample_updates. destruct (host_files h !! p) as [f|] eqn:Ef; [|by split].
  split; [done|]. by exists f, (mkFile (data f) 493).
Qed.

Definition sample_exe : path := ["usr"; "bin"; "ant"]%string.
Definition sample_tmp : path := ["tmp"; "x1"]%string.
Definition sample_host : host := mkHost (mkDisk {[ sample_exe := mkFile [x07] 493 ]} []) ∅.
Definition sample_update (h : host) : result core_error (option UpdateResult) * host :=
  update_command "linux" "x86_64" sample_exe sample_tmp false "1.0.0" h.

Lemma sample_update_result : sample_update sample_host =
  (Ok (Some (mkUpdateResult "1.0.0" "2.0.0")), mkHost (mkDisk {[ sample_exe := mkFile [x01; x02] 493 ]} []) ∅).
Proof. vm_compute. reflexivity. Qed.

(** The executable is replaced by the entry [ant] of a signed archive. *)
Lemma update_installs_newer_signed_release_witness :
  let '(r, h) := sample_update sample_host in
  r = Ok (Some (mkUpdateResult "1.0.0" "2.0.0")) /\
  exists url f, host_files h !! sample_exe = Some f /\ released url "2.0.0" f.
Proof.
  assert (~ under sample_tmp sample_exe) as Hexe by (intros [k Hk]; discriminate Hk).
  pose proof (update_installs_newer_signed_release "linux" "x86_64" sample_exe sample_tmp false "1.0.0" sample_host Hexe) as Hu.
  fold (sample_update sample_host) in Hu. rewrite sample_update_result in Hu |- *. destruct Hu as [_ Hu].
  split; [reflexivity|]. destruct Hu as (_ & v & w & o & url & f & _ & _ & _ & _ & _ & _ & Hf & Hrel).
  exists url, f. split; [exact Hf | exact Hrel].
Defined.
