(* ===== verification/Registry.v ===== *)
(** * The node registry of the native client

    [ant-client/ant-core/src/node/registry.rs], [node/mod.rs], [config.rs] and the
    option types of [node/types.rs]: a file that lists the nodes of a machine, and
    the commands that add, remove and reset them.  Each command holds a lock from
    its load of the registry to its save; [others] is what other processes do to
    the host while it waits for the lock.  Any call of the file system may fail; a
    process that is killed is one all of whose later calls fail.  Looking whether a
    path exists may fail, too, and then the answer is that it does not. *)

From Stdlib Require Import ZArith Lia Strings.Ascii Strings.String Strings.Byte.
From stdpp Require Import base decidable list strings pretty gmap.
From S2P Require Import Prelude Hex Interfaces Release Files Host Supervisor NodeBinary.

Local Open Scope Z_scope.

(** ** Directories of the program, on Linux

    [env] is the environment.  [None]: [unwrap] of a missing home directory panics. *)

Definition home_dir (env : string -> option string) : option path :=
  components <$> match env "HOME"%string with Some s => Some s | None => env "USERPROFILE"%string end.

Definition xdg_dir (env : string -> option string) (var : string) (default_dir : list string) : option path :=
  base ← match env var with
         | Some s => Some (components s)
         | None => home ← home_dir env; Some (home ++ default_dir)
         end;
  Some (base ++ ["ant"%string]).

Definition data_dir (env : string -> option string) : option path :=
  xdg_dir env "XDG_DATA_HOME" [".local"; "share"]%string.
Definition config_dir (env : string -> option string) : option path := xdg_dir env "XDG_CONFIG_HOME" [".config"%string].
Definition log_dir (env : string -> option string) : option path := d ← data_dir env; Some (d ++ ["logs"%string]).

(** [binary_install_dir]. *)
Definition binary_install_dir (ant_dir : path) : path := ant_dir ++ ["bin"%string].

(** ** Options *)

Inductive PortRange := Single (p : Z) | Range (s e : Z).

(** [u16] arithmetic wraps. *)
Definition u16 (z : Z) : Z := z mod 2 ^ 16.

Definition range_len (r : PortRange) : Z :=
  match r with Single _ => 1 | Range s e => u16 (sat_sub e s + 1) end.

Definition port_at (r : PortRange) (index : Z) : option Z :=
  match r with
  | Single p => if index =? 0 then Some p else None
  | Range s e =>
      let port := s + index in
      if port <? 2 ^ 16 then if port <=? e then Some port else None else None
  end.

Record AddNodeOpts := mkAddOpts {
  count : Z;
  opt_rewards_address : string;
  opt_node_port : option PortRange;
  opt_metrics_port : option PortRange;
  data_dir_path : option path;
  log_dir_path : option path;
  opt_network_id : Z;
  binary_source : BinarySource;
  opt_bootstrap_peers : list string;
  opt_env_variables : list (string * string)
}.

Definition AddNodeOpts_default : AddNodeOpts := mkAddOpts 1 "" None None None None 1 Latest [] [].

(** ** The registry *)

Record NodeRegistry := mkRegistry {
  schema_version : Z;
  nodes : gmap Z NodeConfig;
  next_id : Z;
  registry_path : path
}.

Definition empty_registry (p : path) : NodeRegistry := mkRegistry 1 ∅ 1 p.

Definition get (reg : NodeRegistry) (id : Z) : result core_error NodeConfig := ok_or (nodes reg !! id) (NodeNotFound id).

(** Writing through the reference of [get_mut]. *)
Definition set_node (reg : NodeRegistry) (id : Z) (config : NodeConfig) : NodeRegistry :=
  mkRegistry (schema_version reg) (<[id := config]> (nodes reg)) (next_id reg) (registry_path reg).

Definition named (id : Z) (c : NodeConfig) : NodeConfig :=
  mkNodeConfig id ("node" ++ pretty id) (rewards_address c) (Supervisor.data_dir c) (Supervisor.log_dir c)
    (node_port c) (metrics_port c) (network_id c) (binary_path c) (version c) (env_variables c) (bootstrap_peers c).

Definition add (reg : NodeRegistry) (config : NodeConfig) : Z * NodeRegistry :=
  let id := next_id reg in
  (id, mkRegistry (schema_version reg) (<[id := named id config]> (nodes reg)) (u32 (id + 1)) (registry_path reg)).

Fixpoint add_batch (reg : NodeRegistry) (configs : list NodeConfig) : list Z * NodeRegistry :=
  match configs with
  | [] => ([], reg)
  | config :: configs =>
      let '(id, reg) := add reg config in
      let '(ids, reg) := add_batch reg configs in (id :: ids, reg)
  end.

Definition remove (reg : NodeRegistry) (id : Z) : result core_error (NodeConfig * NodeRegistry) :=
  config ← ok_or (nodes reg !! id) (NodeNotFound id);
  Ok (config, mkRegistry (schema_version reg) (base.delete id (nodes reg)) (next_id reg) (registry_path reg)).

(** [list]: the values in some order, sorted. *)
Definition list_nodes (reg : NodeRegistry) : list NodeConfig := sort_by_key config_id (map_to_list (nodes reg)).*2.

Definition find_by_service_name (reg : NodeRegistry) (name : string) : option NodeConfig :=
  snd <$> list_find (fun c => service_name c = name) (map_to_list (nodes reg)).*2.

Definition len (reg : NodeRegistry) : Z := Z.of_nat (size (nodes reg)).
Definition is_empty (reg : NodeRegistry) : bool := len reg =? 0.

Definition clear (reg : NodeRegistry) : NodeRegistry :=
  mkRegistry (schema_version reg) ∅ 1 (registry_path reg).

Section Registry.

(** The path is not serialized.  A text that is not UTF-8 counts as one that does
    not parse. *)
Context `{!Codec serde_json (Z * gmap Z NodeConfig * Z)} {stats : Stats}.

Definition stored (reg : NodeRegistry) : Z * gmap Z NodeConfig * Z := (schema_version reg, nodes reg, next_id reg).
Definition from_stored (p : path) (s : Z * gmap Z NodeConfig * Z) : NodeRegistry :=
  let '(schema_version, nodes, next_id) := s in mkRegistry schema_version nodes next_id p.

Definition load (p : path) : hio NodeRegistry := fun h =>
  if seen p h then
    (contents ← on_disk io_failed (fs_read p);
     registry ← st_lift (ok_or (de serde_json contents) (Json "{e}"));
     mret (from_stored p registry)) h
  else (Ok (empty_registry p), h).

Definition create_parent (p : path) : hio unit :=
  match path_parent p with Some parent => create_dir_all io_failed parent | None => mret tt end.

Definition load_locked (others : host -> host) (p : path) : hio NodeRegistry :=
  _ ← create_parent p;
  _ ← on_disk io_failed (fs_write (with_extension p "lock") []);
  _ ← on_disk io_failed fs_other;
  _ ← (fun h => (Ok tt, others h));
  load p.

Definition save (reg : NodeRegistry) : hio unit :=
  _ ← create_parent (registry_path reg);
  contents ← st_lift (ok_or (ser serde_json (stored reg)) (Json "{e}"));
  let tmp_path := with_extension (registry_path reg) "tmp" in
  _ ← on_disk io_failed (fs_write tmp_path contents);
  on_disk io_failed (fs_rename tmp_path (registry_path reg)).

(** ** Commands *)

Definition validate_rewards_address (address : string) : result core_error unit :=
  let address := str_trim address in
  if String.eqb address "" then Err (InvalidRewardsAddress "rewards address cannot be empty")
  else if negb (String.prefix "0x" address || String.prefix "0X" address) then
    Err (InvalidRewardsAddress "rewards address must start with '0x', got '{address}'")
  else
    let hex_part := str_drop 2 address in
    if negb (String.length hex_part =? 40)%nat then
      Err (InvalidRewardsAddress "rewards address must be 42 characters (0x + 40 hex), got {} characters")
    else if negb (all_hex hex_part) then
      Err (InvalidRewardsAddress "rewards address contains non-hex characters: '{address}'")
    else Ok tt.

Definition node_dir (id : Z) : string := "node-" ++ pretty id.

(** [ant_dir] is the [data_dir] of the process. *)
Definition node_data_dir (ant_dir : path) (custom_prefix : option path) (node_id : Z) : path :=
  match custom_prefix with
  | Some prefix => prefix ++ [node_dir node_id]
  | None => ant_dir ++ ["nodes"%string] ++ [node_dir node_id]
  end.

Definition node_log_dir (custom_prefix : option path) (node_id : Z) : option path :=
  (fun prefix => prefix ++ [node_dir node_id; "logs"%string]) <$> custom_prefix.

Definition resolve_port (range : option PortRange) (index : Z) : option Z := r ← range; port_at r index.

Definition check_ports (range : option PortRange) (count : Z) : result core_error unit :=
  match range with
  | None => Ok tt
  | Some port_range =>
      let n := range_len port_range in
      if negb (n =? 1) && negb (n =? count) then Err (PortRangeMismatch n count) else Ok tt
  end.

Definition MAX_NODES_PER_CALL : Z := 1000.

(** What is checked before anything is done; the normalized address. *)
Definition check_opts (opts : AddNodeOpts) : result core_error string :=
  _ ← validate_rewards_address (opt_rewards_address opts);
  if MAX_NODES_PER_CALL <? count opts then Err (InvalidNodeCount (count opts) MAX_NODES_PER_CALL)
  else
    _ ← check_ports (opt_node_port opts) (count opts);
    _ ← check_ports (opt_metrics_port opts) (count opts);
    Ok (str_trim (opt_rewards_address opts)).

(** The config of a node with the directories of an id. *)
Definition build_config (opts : AddNodeOpts) (ant_dir : path) (rewards_address version : string) (i id : Z) : NodeConfig :=
  mkNodeConfig id "" rewards_address (node_data_dir ant_dir (data_dir_path opts) id) (node_log_dir (log_dir_path opts) id)
    (resolve_port (opt_node_port opts) i) (resolve_port (opt_metrics_port opts) i) (Some (opt_network_id opts))
    [] version (list_to_map (rev (opt_env_variables opts))) (opt_bootstrap_peers opts).

Definition with_dirs (c : NodeConfig) (data_dir : path) (log_dir : option path) : NodeConfig :=
  mkNodeConfig (config_id c) (service_name c) (rewards_address c) data_dir log_dir
    (node_port c) (metrics_port c) (network_id c) (binary_path c) (version c) (env_variables c) (bootstrap_peers c).

Definition with_binary (c : NodeConfig) (binary_path : path) : NodeConfig :=
  mkNodeConfig (config_id c) (service_name c) (rewards_address c) (Supervisor.data_dir c) (Supervisor.log_dir c)
    (node_port c) (metrics_port c) (network_id c) binary_path (version c) (env_variables c) (bootstrap_peers c).

(** The body of the loop: the placeholder id is 0. *)
Definition add_node (opts : AddNodeOpts) (ant_dir : path) (rewards_address : string) (cached_binary : path)
    (version : string) (i : Z) (registry : NodeRegistry) : hio (NodeConfig * NodeRegistry) :=
  let '(assigned_id, registry) := add registry (build_config opts ant_dir rewards_address version i 0) in
  node ← st_lift (get registry assigned_id);
  let node := with_dirs node (node_data_dir ant_dir (data_dir_path opts) assigned_id)
                (node_log_dir (log_dir_path opts) assigned_id) in
  _ ← create_dir_all io_failed (Supervisor.data_dir node);
  _ ← match Supervisor.log_dir node with Some log_dir => create_dir_all io_failed log_dir | None => mret tt end;
  let node_binary := Supervisor.data_dir node ++ [BINARY_NAME] in
  _ ← on_disk io_failed (fs_copy cached_binary node_binary);
  _ ← on_disk io_failed (fs_set_mode node_binary 493);
  let node := with_binary node node_binary in
  mret (node, set_node registry assigned_id node).

(** [n] more rounds, from index [i]. *)
Fixpoint add_loop (opts : AddNodeOpts) (ant_dir : path) (rewards_address : string) (cached_binary : path)
    (version : string) (n : nat) (i : Z) (registry : NodeRegistry) (nodes_added : list NodeConfig)
    : hio (list NodeConfig * NodeRegistry) :=
  match n with
  | O => mret (nodes_added, registry)
  | S n =>
      '(node, registry) ← add_node opts ant_dir rewards_address cached_binary version i registry;
      add_loop opts ant_dir rewards_address cached_binary version n (i + 1) registry (nodes_added ++ [node])
  end.

Context `{!BinaryTools} (target_os target_arch : string) (ant_dir : path) (others : host -> host).

Definition add_nodes (opts : AddNodeOpts) (p : path) : hio (list NodeConfig) :=
  rewards_address ← st_lift (check_opts opts);
  let install_dir := binary_install_dir ant_dir in
  '(cached_binary, version) ← resolve_binary target_os target_arch (binary_source opts) install_dir;
  registry ← load_locked others p;
  '(nodes_added, registry) ←
    add_loop opts ant_dir rewards_address cached_binary version (Z.to_nat (count opts)) 0 registry [];
  _ ← save registry;
  mret nodes_added.

Definition remove_node (node_id : Z) (p : path) : hio NodeConfig :=
  registry ← load_locked others p;
  '(removed, registry) ← st_lift (remove registry node_id);
  _ ← save registry;
  mret removed.

(** Removing a directory when it is there; [true] when it was. *)
Definition remove_if_there (dir : path) : hio bool := fun h =>
  if seen dir h then (_ ← remove_dir_all io_failed dir; mret true) h else (Ok false, h).

Fixpoint remove_node_dirs (configs : list NodeConfig) (data_dirs log_dirs : list path) : hio (list path * list path) :=
  match configs with
  | [] => mret (data_dirs, log_dirs)
  | node :: configs =>
      removed ← remove_if_there (Supervisor.data_dir node);
      let data_dirs := if removed : bool then data_dirs ++ [Supervisor.data_dir node] else data_dirs in
      match Supervisor.log_dir node with
      | None => remove_node_dirs configs data_dirs log_dirs
      | Some log_dir =>
          removed ← remove_if_there log_dir;
          remove_node_dirs configs data_dirs (if removed : bool then log_dirs ++ [log_dir] else log_dirs)
      end
  end.

Record ResetResult := mkResetResult {
  nodes_cleared : Z;
  data_dirs_removed : list path;
  log_dirs_removed : list path
}.

Definition reset (p : path) : hio ResetResult :=
  registry ← load_locked others p;
  let nodes_cleared := u32 (len registry) in
  '(data_dirs_removed, log_dirs_removed) ← remove_node_dirs (list_nodes registry) [] [];
  _ ← save (clear registry);
  mret (mkResetResult nodes_cleared data_dirs_removed log_dirs_removed).

Record NodeStatusSummary := mkSummary {
  node_id : Z;
  summary_name : string;
  summary_version : string;
  summary_status : NodeStatus;
  summary_pid : option Z;
  uptime_secs : option Z
}.

Record NodeStatusResult := mkStatusResult {
  status_nodes : list NodeStatusSummary;
  total_running : Z;
  total_stopped : Z
}.

Definition node_status_offline (p : path) : hio NodeStatusResult :=
  registry ← load p;
  let nodes := (fun c => mkSummary (config_id c) (service_name c) (version c) Stopped None None) <$> list_nodes registry in
  mret (mkStatusResult nodes 0 (u32 (lenZ nodes))).

(** The commands as one. *)
Inductive command := AddNodes (opts : AddNodeOpts) | RemoveNode (id : Z) | Reset.
Inductive response := NodesAdded (nodes_added : list NodeConfig) | NodeRemoved (removed : NodeConfig) | WasReset (r : ResetResult).

Definition run_command (cmd : command) (p : path) : hio response :=
  match cmd with
  | AddNodes opts => nodes_added ← add_nodes opts p; mret (NodesAdded nodes_added)
  | RemoveNode id => removed ← remove_node id p; mret (NodeRemoved removed)
  | Reset => r ← reset p; mret (WasReset r)
  end.

End Registry.

(** ** What a registry is, abstractly *)

(** A config as [add_nodes] makes it for an id. *)
Record node_ok (id : Z) (c : NodeConfig) : Prop := {
  node_ok_id : config_id c = id;
  node_ok_name : service_name c = ("node" ++ pretty id)%string;
  node_ok_data : exists d, Supervisor.data_dir c = d ++ [node_dir id];
  node_ok_log l : Supervisor.log_dir c = Some l -> exists d, l = d ++ [node_dir id; "logs"%string]
}.

Record registry_ok (reg : NodeRegistry) : Prop := {
  registry_ok_next : 0 <= next_id reg < 2 ^ 32;
  registry_ok_nodes id c : nodes reg !! id = Some c -> node_ok id c
}.

Inductive event := Added (cs : list NodeConfig) | Removed (c : NodeConfig) | Cleared.

Definition insert_all (cs : list NodeConfig) (m : gmap Z NodeConfig) : gmap Z NodeConfig :=
  fold_left (fun m c => <[config_id c := c]> m) cs m.

Inductive registry_step (reg : NodeRegistry) : event -> NodeRegistry -> Prop :=
| step_added cs :
    (forall k c, cs !! k = Some c -> node_ok (u32 (next_id reg + Z.of_nat k)) c) ->
    registry_step reg (Added cs)
      (mkRegistry (schema_version reg) (insert_all cs (nodes reg)) (u32 (next_id reg + lenZ cs)) (registry_path reg))
| step_removed id c :
    nodes reg !! id = Some c ->
    registry_step reg (Removed c)
      (mkRegistry (schema_version reg) (base.delete id (nodes reg)) (next_id reg) (registry_path reg))
| step_cleared : registry_step reg Cleared (clear reg).

Inductive registry_run : NodeRegistry -> list event -> NodeRegistry -> Prop :=
| run_nil reg : registry_run reg [] reg
| run_cons reg e reg' l reg'' : registry_step reg e reg' -> registry_run reg' l reg'' -> registry_run reg (e :: l) reg''.

Lemma registry_run_app r1 l1 r2 l2 r3 : registry_run r1 l1 r2 -> registry_run r2 l2 r3 -> registry_run r1 (l1 ++ l2) r3.
Proof. induction 1; [done|]. intros Hr. eapply run_cons; eauto. Qed.

Lemma registry_run_one r1 e r2 : registry_step r1 e r2 -> registry_run r1 [e] r2.
Proof. intros Hs. eapply run_cons; [exact Hs | apply run_nil]. Qed.

Lemma u32_range z : 0 <= u32 z < 2 ^ 32.
Proof. apply Z.mod_pos_bound. lia. Qed.

Lemma insert_all_ok (P : Z -> NodeConfig -> Prop) cs m :
  (forall id c, m !! id = Some c -> P id c) -> Forall (fun c => P (config_id c) c) cs ->
  forall id c, insert_all cs m !! id = Some c -> P id c.
Proof.
  intros Hm Hcs. revert m Hm. induction Hcs as [|c cs Hc _ IH]; intros m Hm; [exact Hm|]. cbn. apply IH.
  intros id d. destruct (decide (config_id c = id)) as [<-|]; [rewrite lookup_insert_eq; by intros [= <-]|].
  rewrite lookup_insert_ne by done. apply Hm.
Qed.

Lemma registry_step_ok reg e reg' : registry_ok reg -> registry_step reg e reg' -> registry_ok reg'.
Proof.
  intros [Hn Hc] Hs. destruct Hs as [cs Hcs|id c Hl|]; split; cbn; try apply u32_range; try exact Hn; try lia.
  - apply insert_all_ok; [exact Hc|]. apply Forall_lookup. intros k c Hk. pose proof (Hcs k c Hk) as Hok.
    by rewrite (node_ok_id _ _ Hok).
  - intros id' c' Hl'. apply Hc. by apply lookup_delete_Some in Hl' as [_ ?].
  - intros id c. by rewrite lookup_empty.
Qed.

Lemma registry_run_ok reg l reg' : registry_run reg l reg' -> registry_ok reg -> registry_ok reg'.
Proof. induction 1; [done|]. intros Hok. eauto using registry_step_ok. Qed.

(** The ids that a run gives. *)
Definition ids_of (e : event) : list Z := match e with Added cs => config_id <$> cs | _ => [] end.
Definition given_ids (l : list event) : list Z := l ≫= ids_of.

Lemma registry_step_next reg e reg' : registry_step reg e reg' -> e <> Cleared ->
  0 <= next_id reg -> next_id reg + lenZ (ids_of e) < 2 ^ 32 ->
  next_id reg' = next_id reg + lenZ (ids_of e) /\ ids_of e = (fun k => next_id reg + Z.of_nat k) <$> seq 0 (length (ids_of e)).
Proof.
  intros Hs Hne Hn Hb. destruct Hs as [cs Hcs|id c Hl|]; cbn in *; [|by split; [unfold lenZ; cbn; lia|]|done].
  unfold lenZ in *. rewrite length_fmap in *. split; [apply Z.mod_small; lia|].
  apply list_eq. intros k. rewrite !list_lookup_fmap. destruct (cs !! k) as [c|] eqn:Ek.
  - rewrite lookup_seq_lt by (by apply lookup_lt_Some in Ek). cbn. rewrite (node_ok_id _ _ (Hcs k c Ek)).
    apply lookup_lt_Some in Ek. unfold u32. rewrite Z.mod_small by lia. reflexivity.
  - rewrite lookup_seq_ge by (by apply lookup_ge_None). reflexivity.
Qed.

(** Between two resets no id is given twice. *)
Lemma given_ids_distinct reg l reg' : registry_run reg l reg' -> Cleared ∉ l ->
  0 <= next_id reg -> next_id reg + lenZ (given_ids l) < 2 ^ 32 ->
  NoDup (given_ids l) /\ Forall (fun id => next_id reg <= id < next_id reg + lenZ (given_ids l)) (given_ids l) /\
  next_id reg' = next_id reg + lenZ (given_ids l).
Proof.
  unfold given_ids. intros Hr. induction Hr as [reg|reg e reg' l reg'' Hs Hr IH]; cbn; intros Hc Hn Hb.
  { unfold lenZ. cbn. repeat split; [constructor | constructor | lia]. }
  apply not_elem_of_cons in Hc as [He Hc]. rewrite lenZ_app in *. pose proof (lenZ_nonneg (ids_of e)). pose proof (lenZ_nonneg (l ≫= ids_of)).
  destruct (registry_step_next _ _ _ Hs (not_eq_sym He) Hn ltac:(lia)) as [Hn' Hids].
  destruct (IH Hc ltac:(lia) ltac:(lia)) as (Hnd & Hin & Hn''). rewrite Hn' in Hin, Hn''.
  assert (Forall (fun id => next_id reg <= id < next_id reg + lenZ (ids_of e)) (ids_of e)) as Hin'.
  { apply Forall_forall. intros id Hid. rewrite Hids in Hid. apply list_elem_of_fmap in Hid as (k & -> & Hk%elem_of_seq).
    unfold lenZ. lia. }
  split_and!; [|apply Forall_app; split; eapply Forall_impl; [exact Hin' | cbn; lia | exact Hin | cbn; lia] | lia].
  apply NoDup_app. split_and!; [|intros id H1 H2|exact Hnd].
  - rewrite Hids. apply NoDup_fmap_2_strong; [lia | apply NoDup_seq].
  - rewrite Forall_forall in Hin, Hin'. specialize (Hin id H2). specialize (Hin' id H1). cbn in *. lia.
Qed.

(** ** The registry file *)

Section File.
Context `{!Codec serde_json (Z * gmap Z NodeConfig * Z), !CodecLaws serde_json (Z * gmap Z NodeConfig * Z)}.
Context `{!BinaryTools} {stats : Stats} (target_os target_arch : string) (ant_dir p : path).

(** The registry that loading the file would give. *)
Definition registry_at (h : host) : option NodeRegistry :=
  match host_files h !! p with
  | None => Some (empty_registry p)
  | Some f => from_stored p <$> de serde_json (data f)
  end.

(** What a process may do to the file, between two points where it has no lock:
    carry out commands. *)
Definition contract (h h' : host) : Prop :=
  forall s, registry_at h = Some s -> registry_ok s ->
    exists l s', registry_run s l s' /\ registry_at h' = Some s'.

(** A path that is apart from the nodes' directories and the cache of binaries. *)
Record path_fit : Prop := {
  fit_lock : with_extension p "lock" <> p;
  fit_tmp : with_extension p "tmp" <> p;
  fit_nodes id : node_dir id ∉ p;
  fit_tmp_nodes id : node_dir id ∉ with_extension p "tmp";
  fit_lock_nodes id : node_dir id ∉ with_extension p "lock";
  fit_cache name : binary_install_dir ant_dir ++ [name] <> p;
  fit_tmp_cache name : binary_install_dir ant_dir ++ [name] <> with_extension p "tmp";
  fit_ant id : node_dir id ∉ ant_dir
}.

(** A local binary that is apart from them, too. *)
Definition source_fit (opts : AddNodeOpts) : Prop :=
  forall l, binary_source opts = LocalPath l -> l <> p /\ l <> with_extension p "tmp" /\ forall id, node_dir id ∉ l.

Context (Hfit : path_fit).

Lemma registry_at_same h h' : host_files h' !! p = host_files h !! p -> registry_at h' = registry_at h.
Proof. unfold registry_at. by intros ->. Qed.

Lemma contract_same h h' : host_files h' !! p = host_files h !! p -> contract h h'.
Proof. intros Hs s Hat _. exists [], s. split; [constructor|]. by rewrite (registry_at_same _ _ Hs). Qed.

Lemma contract_trans h1 h2 h3 : contract h1 h2 -> contract h2 h3 -> contract h1 h3.
Proof.
  intros H1 H2 s Hs Hok. destruct (H1 s Hs Hok) as (l1 & s1 & Hr1 & Hs1).
  destruct (H2 s1 Hs1 (registry_run_ok _ _ _ Hr1 Hok)) as (l2 & s2 & Hr2 & Hs2).
  exists (l1 ++ l2), s2. split; [by eapply registry_run_app | exact Hs2].
Qed.

Lemma registry_at_path h reg : registry_at h = Some reg -> registry_path reg = p.
Proof.
  unfold registry_at. destruct (host_files h !! p) as [f|]; [|by intros [= <-]].
  destruct (de serde_json _) as [[[v ns] n]|]; [by intros [= <-] | discriminate].
Qed.

(** What loading gives: the registry of the file, or an empty one when the file is
    there and is not seen. *)
Definition loads (s reg : NodeRegistry) : Prop := reg = s \/ ~ stats_work /\ reg = empty_registry p.

Lemma load_spec h : hwp (load p) h (fun r h' => host_files h' = host_files h /\
  forall reg s, r = Ok reg -> registry_at h = Some s -> loads s reg).
Proof.
  unfold hwp at 1, load. destruct (seen p h) eqn:Ex.
  - apply hwp_bind, hwp_read; [by intros h' _ ->|]. intros h' f _ Hf Hl. unfold registry_at. rewrite Hl.
    apply hwp_bind, hwp_lift. destruct (de serde_json (data f)) as [s|]; cbn [ok_or]; [|by split].
    split; [exact Hf|]. intros ? ? [= <-] [= <-]. by left.
  - split; [done|]. intros reg s [= <-] Hs. unfold registry_at in Hs. destruct (host_files h !! p) as [f|] eqn:Ef.
    + right. split; [|done]. intros Hst. rewrite seen_works in Ex by exact Hst. unfold path_exists in Ex.
      rewrite Ef, bool_decide_eq_true_2, orb_true_r in Ex by by exists f. discriminate.
    + left. by injection Hs.
Qed.

Lemma loads_ok s reg : loads s reg -> registry_ok s -> registry_ok reg.
Proof. intros [->|[_ ->]] Hok; [done|]. split; [cbn; lia|]. intros id c. cbn. by rewrite lookup_empty. Qed.

Lemma loads_path s reg : loads s reg -> registry_path s = p -> registry_path reg = p.
Proof. by intros [->|[_ ->]]. Qed.

Lemma loads_works s reg : loads s reg -> stats_work -> reg = s.
Proof. by intros [->|[Hn _]] Hs. Qed.

Lemma leaves_create_parent q : leaves p (create_parent q).
Proof. unfold create_parent. destruct (path_parent q); [apply leaves_create_dir_all | apply leaves_ret]. Qed.

(** What the registry can be when a command gets the lock: what others left, or what
    it was when the command failed before that. *)
Definition waited (others : host -> host) (s0 s1 : NodeRegistry) : Prop :=
  s1 = s0 \/ exists h1, registry_at h1 = Some s0 /\ registry_at (others h1) = Some s1.

Lemma load_locked_spec others h s0 : (forall h, contract h (others h)) -> registry_at h = Some s0 -> registry_ok s0 ->
  hwp (load_locked others p) h (fun r h' => exists s1, waited others s0 s1 /\ registry_at h' = Some s1 /\
    forall reg, r = Ok reg -> loads s1 reg).
Proof.
  intros Ho Hs0 Hok. unfold load_locked.
  assert (forall e h', host_files h' !! p = host_files h !! p -> exists s1, waited others s0 s1 /\ registry_at h' = Some s1 /\
    forall reg, Err (A := NodeRegistry) (E := core_error) e = Ok reg -> loads s1 reg) as Hfail.
  { intros e h' Hs. exists s0. split; [by left|]. split; [by rewrite (registry_at_same _ _ Hs) | discriminate]. }
  apply hwp_bind. eapply hwp_mono; [apply leaves_create_parent|]. intros [[]|e] h1 H1; [|by apply Hfail].
  apply hwp_bind. eapply hwp_mono; [apply (leaves_write p), fit_lock, Hfit|].
  intros [[]|e] h2 H2; [|apply Hfail; congruence].
  apply hwp_bind. eapply hwp_mono; [apply (leaves_other p)|]. intros [[]|e] h3 H3; [|apply Hfail; congruence].
  assert (registry_at h3 = Some s0) as Hs3 by (rewrite <- Hs0; apply registry_at_same; congruence).
  destruct (Ho h3 s0 Hs3 Hok) as (l & s1 & _ & Hs1).
  apply hwp_bind. unfold hwp at 1. eapply hwp_mono; [apply load_spec|]. intros r h4 [H4 Hr]. exists s1.
  split; [right; by exists h3|]. split.
  - rewrite <- Hs1. apply registry_at_same. by rewrite H4.
  - intros reg Hreg. by apply (Hr reg s1 Hreg).
Qed.

Lemma from_stored_stored reg : registry_path reg = p -> from_stored p (stored reg) = reg.
Proof. destruct reg; cbn. by intros ->. Qed.

Lemma save_spec reg h : registry_path reg = p ->
  hwp (save reg) h (fun r h' => match r with
    | Ok _ => registry_at h' = Some reg
    | Err _ => host_files h' !! p = host_files h !! p
    end).
Proof.
  intros Hp. unfold save. rewrite Hp. apply hwp_bind. eapply hwp_mono; [apply leaves_create_parent|].
  intros [[]|e] h1 H1; [|done]. apply hwp_bind, hwp_lift.
  destruct (ser serde_json (stored reg)) as [contents|] eqn:Es; cbn [ok_or]; [|done].
  pose proof (fit_tmp Hfit) as Ht. apply hwp_bind, hwp_write; [intros h2 _ H2 | intros h2 _ H2].
  { rewrite <- H1. by apply H2. }
  apply hwp_rename; intros h3; [intros _ ->; rewrite H2, put_data_ne by congruence; exact H1|].
  intros f _ Hf H3. unfold registry_at. rewrite H3, lookup_delete_ne, lookup_insert_eq by done.
  destruct (put_data_same (host_files h1) (with_extension p "tmp") contents) as (g & Hg & Hd).
  rewrite H2, Hg in Hf. injection Hf as <-. rewrite Hd, (ser_de _ _ Es). exact (f_equal Some (from_stored_stored reg Hp)).
Qed.

(** ** The commands *)

(** The config that a round of [add_nodes] ends with. *)
Definition new_config (opts : AddNodeOpts) (rewards_address version : string) (i id : Z) : NodeConfig :=
  let c := with_dirs (named id (build_config opts ant_dir rewards_address version i 0))
             (node_data_dir ant_dir (data_dir_path opts) id) (node_log_dir (log_dir_path opts) id) in
  with_binary c (Supervisor.data_dir c ++ [BINARY_NAME]).

Fixpoint new_configs (opts : AddNodeOpts) (rewards_address version : string) (n : nat) (i id : Z) : list NodeConfig :=
  match n with
  | O => []
  | S n => new_config opts rewards_address version i id :: new_configs opts rewards_address version n (i + 1) (u32 (id + 1))
  end.

Lemma new_config_ok opts rewards version i id : node_ok id (new_config opts rewards version i id).
Proof.
  split; [done | done |..]; cbn.
  - unfold node_data_dir. destruct (data_dir_path opts) as [d|]; [by exists d|].
    exists (ant_dir ++ ["nodes"%string]). by rewrite <- (assoc_L (++)).
  - unfold node_log_dir. intros l. destruct (log_dir_path opts) as [d|]; [|discriminate]. intros [= <-]. by exists d.
Qed.

Lemma new_configs_lookup opts rewards version n i id k c :
  new_configs opts rewards version n i id !! k = Some c -> 0 <= id < 2 ^ 32 ->
  c = new_config opts rewards version (i + Z.of_nat k) (u32 (id + Z.of_nat k)).
Proof.
  revert i id k. induction n as [|n IH]; intros i id [|k]; cbn [new_configs]; try discriminate.
  - intros [= <-] Hid. rewrite !Z.add_0_r. unfold u32. by rewrite Z.mod_small.
  - intros Hk _. apply IH in Hk; [|apply u32_range]. rewrite Hk. f_equal; [lia|]. unfold u32.
    rewrite Zplus_mod_idemp_l. f_equal. lia.
Qed.

Lemma length_new_configs opts rewards version n i id : length (new_configs opts rewards version n i id) = n.
Proof. revert i id. induction n as [|n IH]; intros i id; cbn; [done | by rewrite IH]. Qed.

Definition appended (reg : NodeRegistry) (cs : list NodeConfig) : NodeRegistry :=
  mkRegistry (schema_version reg) (insert_all cs (nodes reg)) (u32 (next_id reg + lenZ cs)) (registry_path reg).

Lemma node_dir_outside d l : ~ under (d ++ node_dir l :: []) p.
Proof. intros [k Hk]. apply (fit_nodes Hfit l). rewrite Hk. set_solver. Qed.

Lemma add_node_frame opts rewards cached version i reg :
  leaves p (add_node opts ant_dir rewards cached version i reg).
Proof.
  unfold add_node. destruct (add reg _) as [id reg']. apply leaves_bind; [auto with leaves|]. intros node.
  assert (node_data_dir ant_dir (data_dir_path opts) id ++ [BINARY_NAME] <> p) as Hne.
  { intros Heq. apply (fit_nodes Hfit id). rewrite <- Heq. unfold node_data_dir. destruct (data_dir_path opts); set_solver. }
  apply leaves_bind; [auto with leaves|]. intros _.
  apply leaves_bind; [destruct (Supervisor.log_dir _); auto with leaves|]. intros _.
  apply leaves_bind; [by apply leaves_copy|]. intros _.
  apply leaves_bind; [by apply leaves_set_mode | auto with leaves].
Qed.

Lemma add_loop_frame opts rewards cached version n i reg cs :
  leaves p (add_loop opts ant_dir rewards cached version n i reg cs).
Proof.
  revert i reg cs. induction n as [|n IH]; intros i reg cs; cbn [add_loop]; [auto with leaves|].
  apply leaves_bind; [apply add_node_frame|]. intros [node reg']. apply IH.
Qed.

Lemma add_node_result opts rewards cached version i reg h :
  hwp (add_node opts ant_dir rewards cached version i reg) h (fun r _ => forall x, r = Ok x ->
    let c := new_config opts rewards version i (next_id reg) in x = (c, appended reg [c])).
Proof.
  unfold add_node. cbn [add]. unfold get. cbn [nodes]. rewrite lookup_insert_eq. cbn [ok_or].
  apply hwp_bind, hwp_lift. apply hwp_bind, hwp_create_dir_all. intros h1 r _ _ _ _ Hr.
  destruct Hr as [->| ->]; [|discriminate]. apply hwp_bind.
  match goal with |- hwp ?m _ _ => assert (forall Q : result core_error unit -> host -> Prop,
    (forall r h', r = Ok tt \/ r = Err io_failed -> Q r h') -> hwp m h1 Q) as Hlog end.
  { intros Q HQ. destruct (Supervisor.log_dir _); [apply hwp_create_dir_all; auto | apply HQ; auto]. }
  apply Hlog. intros r h2 [->| ->]; [|discriminate].
  apply hwp_bind, hwp_copy; [discriminate|]. intros h3 _ _ _ _.
  apply hwp_bind, hwp_set_mode; [discriminate|]. intros h4 _ _ _ _. apply hwp_ret.
  intros x [= <-]. unfold appended, set_node. cbn. by rewrite insert_insert_eq.
Qed.

Lemma appended_nil reg : 0 <= next_id reg < 2 ^ 32 -> appended reg [] = reg.
Proof. intros Hr. destruct reg as [v ns n q]. unfold appended, u32, lenZ. cbn in *. f_equal. rewrite Z.mod_small; lia. Qed.

Lemma appended_app reg cs1 cs2 : appended (appended reg cs1) cs2 = appended reg (cs1 ++ cs2).
Proof.
  unfold appended, insert_all. cbn. rewrite fold_left_app, lenZ_app. f_equal. unfold u32.
  rewrite Zplus_mod_idemp_l. f_equal. lia.
Qed.

Lemma add_loop_result opts rewards cached version n i reg cs h : 0 <= next_id reg < 2 ^ 32 ->
  hwp (add_loop opts ant_dir rewards cached version n i reg cs) h (fun r _ => forall x, r = Ok x ->
    let new := new_configs opts rewards version n i (next_id reg) in x = (cs ++ new, appended reg new)).
Proof.
  revert i reg cs h. induction n as [|n IH]; intros i reg cs h Hn; cbn [add_loop new_configs].
  - intros x [= <-]. by rewrite app_nil_r, appended_nil.
  - apply hwp_bind. eapply hwp_mono; [apply add_node_result|]. intros [x|e] h1 Hx; [|discriminate].
    specialize (Hx x eq_refl). cbn zeta in Hx. subst x. cbn [fst snd].
    eapply hwp_mono; [apply IH; apply u32_range|]. intros r h2 Hr x Hx. rewrite (Hr x Hx).
    unfold appended at 1. cbn [next_id]. cbv zeta. rewrite appended_app, <- (assoc_L (++)).
    unfold lenZ. reflexivity.
Qed.

Lemma remove_dirs_frame cs dds lds : Forall (fun c => exists id, node_ok id c) cs -> leaves p (remove_node_dirs cs dds lds).
Proof.
  assert (forall d, ~ under d p -> leaves p (remove_if_there d)) as Hrm.
  { intros d Hd h. unfold hwp at 1, remove_if_there. destruct (seen d h); [|done].
    apply (leaves_bind p); [by apply leaves_remove_dir_all | auto with leaves]. }
  intros Hcs. revert dds lds. induction Hcs as [|c cs [id [_ _ [d Hd] Hl]] _ IH]; intros dds lds; cbn [remove_node_dirs];
    [auto with leaves|].
  apply leaves_bind; [rewrite Hd; apply Hrm, node_dir_outside|]. intros removed.
  destruct (Supervisor.log_dir c) as [l|] eqn:El; [|apply IH].
  apply leaves_bind; [|intros removed'; apply IH]. destruct (Hl l eq_refl) as [d' ->]. apply Hrm.
  intros Hu. apply (node_dir_outside d' id). etransitivity; [|exact Hu]. exists ["logs"%string]. by rewrite <- (assoc_L (++)).
Qed.

(** *** The directories of nodes *)

Definition node_binary (c : NodeConfig) : path := Supervisor.data_dir c ++ [BINARY_NAME].

(** The node has its directories, and its own copy of the binary at [q]. *)
Definition installed (q : path) (h : host) (c : NodeConfig) : Prop :=
  binary_path c = node_binary c /\ Supervisor.data_dir c ∈ dirs h /\
  (forall l, Supervisor.log_dir c = Some l -> l ∈ dirs h) /\
  exists f, host_files h !! q = Some f /\ host_files h !! node_binary c = Some (mkFile (data f) 493).

Lemma self_ancestor q : q <> [] -> q ∈ ancestors q.
Proof.
  induction q as [|x q IH]; [done|]. intros _. cbn. destruct q as [|y q]; [by left|]. right.
  apply list_elem_of_fmap. exists (y :: q). split; [done | by apply IH].
Qed.

Section Installed.
Context (opts : AddNodeOpts) (rewards version : string) (q : path) (Hq : forall id, node_dir id ∉ q).

Lemma node_binary_not_q id i : node_binary (new_config opts rewards version i id) <> q.
Proof.
  intros Heq. apply (Hq id). rewrite <- Heq. unfold node_binary, new_config, node_data_dir. cbn.
  destruct (data_dir_path opts); set_solver.
Qed.

Lemma node_binary_inj id1 i1 id2 i2 :
  node_binary (new_config opts rewards version i1 id1) = node_binary (new_config opts rewards version i2 id2) -> id1 = id2.
Proof.
  unfold node_binary, new_config, node_data_dir. cbn.
  destruct (data_dir_path opts); intros [[= Heq]%app_inv_head _]%(app_inj_2 _ _ _ _ eq_refl);
    change (pretty id1 = pretty id2) in Heq; by apply (inj pretty) in Heq.
Qed.

Lemma installed_later i id h h' :
  installed q h (new_config opts rewards version i id) -> dirs h ⊆ dirs h' ->
  only (fun r => exists j id', id' <> id /\ r = node_binary (new_config opts rewards version j id')) (host_files h) (host_files h') ->
  installed q h' (new_config opts rewards version i id).
Proof.
  intros (Hb & Hd & Hl & f & Hf & Hn) Hds Ho. split; [exact Hb|]. split; [by apply Hds|]. split; [intros l El; by apply Hds, Hl|].
  exists f. rewrite !Ho; [by split | intros (j & id' & Hne & Heq); by apply Hne, eq_sym, (node_binary_inj _ _ _ _ Heq)
    | intros (j & id' & _ & Heq); by eapply node_binary_not_q].
Qed.

Lemma add_node_installs i reg h :
  hwp (add_node opts ant_dir rewards q version i reg) h (fun r h' => dirs h ⊆ dirs h' /\
    only (eq (node_binary (new_config opts rewards version i (next_id reg)))) (host_files h) (host_files h') /\
    forall x, r = Ok x -> installed q h' (new_config opts rewards version i (next_id reg))).
Proof.
  set (c := new_config opts rewards version i (next_id reg)).
  unfold add_node. cbn [add]. unfold get. cbn [nodes]. rewrite lookup_insert_eq. cbn [ok_or].
  apply hwp_bind, hwp_lift. apply hwp_bind, hwp_create_dir_all. intros h1 r Hf1 Hd1 _ Hin1 Hr.
  destruct Hr as [->| ->]; [|split; [exact Hd1|]; split; [by rewrite Hf1 | discriminate]].
  specialize (Hin1 eq_refl). apply hwp_bind.
  match goal with |- hwp ?m _ _ => assert (hwp m h1 (fun r h' => host_files h' = host_files h1 /\ dirs h1 ⊆ dirs h' /\
    (r = Ok tt -> forall l, Supervisor.log_dir c = Some l -> l ∈ dirs h'))) as Hlog end.
  { change (Supervisor.log_dir c) with (node_log_dir (log_dir_path opts) (next_id reg)). cbn [Supervisor.log_dir with_dirs].
    unfold node_log_dir. destruct (log_dir_path opts) as [d|]; cbn [fmap option_fmap option_map]; [|by split].
    apply hwp_create_dir_all. intros h2 r Hf Hd _ Hin _. split; [exact Hf|]. split; [exact Hd|].
    intros Hr l [= <-]. apply (Hin Hr), self_ancestor. by destruct d. }
  eapply hwp_mono; [exact Hlog|]. intros [u|e] h2 (Hf2 & Hd2 & Hin2).
  2: { split; [set_solver|]. split; [by rewrite Hf2, Hf1 | discriminate]. }
  destruct u. specialize (Hin2 eq_refl).
  change (Supervisor.data_dir _ ++ [BINARY_NAME]) with (node_binary c).
  apply hwp_bind, hwp_copy; [intros h3 Hd3 Ho3 | intros h3 f Hd3 Hf Hf3].
  { split; [rewrite Hd3; set_solver|]. split; [by rewrite <- Hf1, <- Hf2 | discriminate]. }
  assert (only (eq (node_binary c)) (host_files h) (host_files h3)) as Ho3.
  { rewrite Hf3, Hf2, Hf1. intros r Hr. by apply lookup_insert_ne. }
  apply hwp_bind, hwp_set_mode; [intros h4 Hd4 Hf4 | intros h4 g Hd4 Hg Hf4].
  { split; [rewrite Hd4, Hd3; set_solver|]. split; [by rewrite Hf4 | discriminate]. }
  split; [rewrite Hd4, Hd3; set_solver|]. split.
  { etransitivity; [exact Ho3|]. rewrite Hf4. intros r Hr. by apply lookup_insert_ne. }
  intros x _. split; [done|]. rewrite Hd4, Hd3. split.
  { apply Hd2, Hin1, self_ancestor. unfold node_data_dir. destruct (data_dir_path opts) as [d|]; [by destruct d|].
    by destruct ant_dir. }
  split; [exact Hin2|]. exists f.
  assert (q <> node_binary c) as Hne by (intros Heq; by apply (node_binary_not_q (next_id reg) i)).
  rewrite Hf4, Hf3, Hf2, Hf1, lookup_insert_ne, lookup_insert_ne, lookup_insert_eq by done.
  rewrite Hf2, Hf1 in Hf. split; [exact Hf|]. rewrite Hf3, lookup_insert_eq in Hg. by injection Hg as <-.
Qed.

Lemma add_loop_installs n i reg cs h : 0 <= next_id reg < 2 ^ 32 -> (Z.of_nat n <= 2 ^ 32) ->
  hwp (add_loop opts ant_dir rewards q version n i reg cs) h (fun r h' => dirs h ⊆ dirs h' /\
    only (fun r => exists j k, (k < n)%nat /\
            r = node_binary (new_config opts rewards version j (u32 (next_id reg + Z.of_nat k)))) (host_files h) (host_files h') /\
    forall x, r = Ok x -> Forall (installed q h') (new_configs opts rewards version n i (next_id reg))).
Proof.
  revert i reg cs h. induction n as [|n IH]; intros i reg cs h Hn Hb; cbn [add_loop new_configs]; [by split_and!|].
  apply hwp_bind. pose proof (add_node_installs i reg h) as Hin. pose proof (add_node_result opts rewards q version i reg h) as Hres.
  unfold hwp in Hin, Hres |- * at 1. destruct (add_node _ _ _ _ _ _ _ h) as [r h1]. destruct Hin as (Hd1 & Ho1 & Hi1).
  assert (only (fun r => exists j k, (k < S n)%nat /\
    r = node_binary (new_config opts rewards version j (u32 (next_id reg + Z.of_nat k)))) (host_files h) (host_files h1)) as Ho1'.
  { eapply only_mono; [|exact Ho1]. intros ? <-. exists i, O. split; [lia|]. unfold u32.
    by rewrite Z.add_0_r, Z.mod_small. }
  destruct r as [x|e]; [|by split_and!]. rewrite (Hres x eq_refl). cbn [fst snd].
  eapply hwp_mono; [apply IH; [apply u32_range | lia]|]. cbn [next_id appended].
  change (lenZ [new_config opts rewards version i (next_id reg)]) with 1. intros r h2 (Hd2 & Ho2 & Hi2).
  assert (forall k, u32 (u32 (next_id reg + 1) + Z.of_nat k) = u32 (next_id reg + Z.of_nat (S k))) as Hu.
  { intros k. unfold u32. rewrite Zplus_mod_idemp_l. f_equal. lia. }
  split; [set_solver|]. split.
  { etransitivity; [exact Ho1'|]. eapply only_mono; [|exact Ho2]. intros ? (j & k & Hk & ->). exists j, (S k).
    split; [lia|]. by rewrite Hu. }
  intros y Hy. constructor; [|by apply (Hi2 y)]. eapply installed_later; [by apply (Hi1 x) | exact Hd2 |].
  eapply only_mono; [|exact Ho2]. intros ? (j & k & Hk & ->). eexists j, _. split; [|reflexivity].
  rewrite Hu. unfold u32. intros Heq. apply (f_equal (fun z => (z - next_id reg) mod 2 ^ 32)) in Heq.
  rewrite Zminus_mod_idemp_l, Z.sub_diag in Heq. replace (next_id reg + Z.of_nat (S k) - next_id reg) with (Z.of_nat (S k)) in Heq by lia.
  rewrite Z.mod_small, Z.mod_0_l in Heq; lia.
Qed.

End Installed.

(** *** What is removed and what saving leaves alone *)

Definition dirs_gone (h : host) (c : NodeConfig) : Prop :=
  path_exists (Supervisor.data_dir c) h = false /\
  forall l, Supervisor.log_dir c = Some l -> path_exists l h = false.

Definition stays_gone (h h' : host) : Prop := forall d, path_exists d h = false -> path_exists d h' = false.

#[local] Instance stays_gone_preorder : PreOrder stays_gone.
Proof. split; [by intros h d|]. intros h1 h2 h3 H1 H2 d Hd. by apply H2, H1. Qed.

Lemma remove_if_there_spec d h : hwp (remove_if_there d) h (fun r h' =>
  stays_gone h h' /\ (stats_work -> forall b, r = Ok b -> path_exists d h' = false)).
Proof.
  unfold hwp at 1, remove_if_there. destruct (seen d h) eqn:Ex.
  2: { split; [done|]. intros Hst _ _. by rewrite seen_works in Ex. }
  apply hwp_bind. eapply hwp_mono; [apply remove_dir_all_spec|]. intros r h' (Hf & Hd & Hr).
  assert (stays_gone h h') as Hs by (intros d' Hd'; eapply stays_away; [exact Hd' | auto | apply Hd]).
  destruct r as [[]|e]; (split; [exact Hs|]); [auto | discriminate].
Qed.

Lemma remove_dirs_gone (Hst : stats_work) cs dds lds h : hwp (remove_node_dirs cs dds lds) h (fun r h' =>
  stays_gone h h' /\ forall x, r = Ok x -> Forall (dirs_gone h') cs).
Proof.
  revert dds lds h. induction cs as [|c cs IH]; intros dds lds h; cbn [remove_node_dirs]; [by split|].
  apply hwp_bind. eapply hwp_mono; [apply remove_if_there_spec|]. intros [b|e] h1 [Hs1 Hb]; [|by split].
  specialize (Hb Hst b eq_refl).
  assert (forall dds lds h2, stays_gone h1 h2 ->
    (forall l h3, Supervisor.log_dir c = Some l -> stays_gone h2 h3 -> path_exists l h3 = false) ->
    hwp (remove_node_dirs cs dds lds) h2 (fun r h' => stays_gone h h' /\ forall x, r = Ok x ->
      Forall (dirs_gone h') (c :: cs))) as Hrest.
  { intros dds' lds' h2 Hs2 Hl. eapply hwp_mono; [apply IH|]. intros r h3 [Hs3 Hr].
    split; [do 2 (etransitivity; [eassumption|]); exact Hs3|]. intros x Hx. constructor; [|by apply (Hr x)].
    split; [by apply Hs3, Hs2 | intros l El; by apply (Hl l h3)]. }
  destruct (Supervisor.log_dir c) as [l|] eqn:El; [|by apply Hrest].
  apply hwp_bind. eapply hwp_mono; [apply remove_if_there_spec|]. intros [b'|e] h2 [Hs2 Hb'].
  - apply Hrest; [exact Hs2|]. intros l' h3 [= <-] Hs3. apply Hs3. by apply (Hb' Hst b').
  - split; [by etransitivity | discriminate].
Qed.

Lemma create_parent_spec q h : hwp (create_parent q) h (fun _ h' => host_files h' = host_files h /\ dirs h ⊆ dirs h' /\
  forall r, r ∈ dirs h' -> r ∈ dirs h \/ r `prefix_of` q).
Proof.
  unfold create_parent, path_parent. destruct q as [|x q]; [by split_and!; auto|].
  apply hwp_create_dir_all. intros h1 r1 Hf Hd Hd' _ _. split; [exact Hf|]. split; [exact Hd|].
  intros r Hr%Hd'. apply elem_of_union in Hr as [Hr|Hr]; [by left|right].
  apply elem_of_list_to_set, elem_of_ancestors in Hr as [_ Hr]. etransitivity; [exact Hr|].
  exists [List.last (x :: q) ""%string]. by apply app_removelast_last.
Qed.

(** Saving writes two files, and makes the directory of the registry. *)
Lemma save_frame reg h : registry_path reg = p -> hwp (save reg) h (fun _ h' =>
  only (fun q => q = p \/ q = with_extension p "tmp") (host_files h) (host_files h') /\ dirs h ⊆ dirs h' /\
  forall q, q ∈ dirs h' -> q ∈ dirs h \/ q `prefix_of` p).
Proof.
  intros Hp. unfold save. rewrite Hp. apply hwp_bind. eapply hwp_mono; [apply create_parent_spec|].
  intros r h1 (Hf1 & Hd1 & Hd1'). destruct r as [[]|e]; [|by rewrite Hf1].
  apply hwp_bind, hwp_lift. destruct (ser serde_json _); cbn [ok_or]; [|by rewrite Hf1].
  apply hwp_bind, hwp_write; [intros h2 Hd2 Ho2 | intros h2 Hd2 Hf2].
  { rewrite <- Hf1, Hd2. split; [|done]. eapply only_mono; [|exact Ho2]. intros ? <-. by right. }
  apply hwp_rename; [intros h3 Hd3 Hf3 | intros h3 f Hd3 Hf Hf3]; rewrite Hd3, Hd2, Hf3, Hf2, Hf1; (split; [|done]).
  - apply only_put. by right.
  - intros q Hq. rewrite lookup_delete_ne, lookup_insert_ne, put_data_ne; [done|..]; intros Heq; apply Hq; auto.
Qed.

Lemma save_keeps_gone reg h c id : registry_path reg = p -> node_ok id c -> dirs_gone h c ->
  hwp (save reg) h (fun _ h' => dirs_gone h' c).
Proof.
  intros Hp [_ _ [d Hd] Hl] [Hgd Hgl]. eapply hwp_mono; [by apply save_frame|]. intros _ h' (Ho & _ & Hd').
  assert (forall r, node_dir id ∈ r -> path_exists r h = false -> path_exists r h' = false) as Hkeep.
  { intros r Hr Hg. eapply stays_away; [exact Hg|..].
    - intros q [k ->] Hq. rewrite <- Ho; [exact Hq|]. intros [Heq|Heq];
        [apply (fit_nodes Hfit id) | apply (fit_tmp_nodes Hfit id)]; rewrite <- Heq; set_solver.
    - intros [Hin|[k Hk]]%Hd'; [exact Hin|]. destruct (fit_nodes Hfit id). rewrite Hk. set_solver. }
  split; [apply Hkeep; [rewrite Hd; set_solver | exact Hgd]|].
  intros l El. apply Hkeep; [|by apply Hgl]. destruct (Hl l El) as [d' ->]. set_solver.
Qed.

Lemma save_keeps_installed q reg h c id : registry_path reg = p -> node_ok id c -> q <> p -> q <> with_extension p "tmp" ->
  installed q h c -> hwp (save reg) h (fun _ h' => installed q h' c).
Proof.
  intros Hp [_ _ [d Hd] _] Hq Hqt (Hb & Hin & Hl & f & Hf & Hn). eapply hwp_mono; [by apply save_frame|].
  intros _ h' (Ho & Hds & _). split; [exact Hb|]. split; [by apply Hds|]. split; [intros l El; by apply Hds, Hl|].
  exists f. rewrite !Ho; [by split | | by intros [?|?]].
  intros [Heq|Heq]; [apply (fit_nodes Hfit id) | apply (fit_tmp_nodes Hfit id)]; rewrite <- Heq;
    unfold node_binary; rewrite Hd; set_solver.
Qed.

Definition event_of (resp : response) : event :=
  match resp with NodesAdded cs => Added cs | NodeRemoved c => Removed c | WasReset _ => Cleared end.

(** What the answer to a command says, when the registry was [s], and what is on the
    host afterwards. *)
Definition answers (cmd : command) (s : NodeRegistry) (resp : response) (h' : host) : Prop :=
  match cmd, resp with
  | AddNodes opts, NodesAdded cs => exists rewards version q, check_opts opts = Ok rewards /\
      match binary_source opts with LocalPath l => q = l | _ => q = cached_path (binary_install_dir ant_dir) version end /\
      cs = new_configs opts rewards version (Z.to_nat (count opts)) 0 (next_id s) /\ Forall (installed q h') cs
  | RemoveNode id, NodeRemoved c => nodes s !! id = Some c
  | Reset, WasReset r => nodes_cleared r = u32 (len s) /\
      (stats_work -> forall id c, nodes s !! id = Some c -> dirs_gone h' c)
  | _, _ => False
  end.

(** A command that succeeds is one step of the registry that it loads, after what
    others did; one that fails leaves the registry to them. *)
Definition commits (others : host -> host) (cmd : command) (s0 : NodeRegistry) (r : result core_error response) (h' : host) : Prop :=
  exists s1, waited others s0 s1 /\
    match r with
    | Err _ => registry_at h' = Some s1
    | Ok resp => exists s2, loads s1 s2 /\ answers cmd s2 resp h' /\
        exists s', registry_step s2 (event_of resp) s' /\ registry_at h' = Some s'
    end.

Section Commands.
Context (others : host -> host) (Hothers : forall h, contract h (others h)).
Context (s0 : NodeRegistry) (Hok : registry_ok s0).

Lemma waited_ok s1 : waited others s0 s1 -> registry_ok s1.
Proof.
  intros [->|(h1 & Hs & Hs1)]; [exact Hok|]. destruct (Hothers h1 s0 Hs Hok) as (l & s & Hr & Hs').
  rewrite Hs1 in Hs'. injection Hs' as <-. by apply (registry_run_ok _ _ _ Hr).
Qed.

Lemma waited_run s1 : waited others s0 s1 -> exists l, registry_run s0 l s1.
Proof.
  intros [->|(h1 & Hs & Hs1)]; [exists []; constructor|]. destruct (Hothers h1 s0 Hs Hok) as (l & s & Hr & Hs').
  rewrite Hs1 in Hs'. injection Hs' as <-. by exists l.
Qed.

Lemma fails_alone cmd e h h' : registry_at h = Some s0 -> host_files h' !! p = host_files h !! p ->
  commits others cmd s0 (Err e) h'.
Proof. intros Hs Hf. exists s0. split; [by left|]. by rewrite (registry_at_same _ _ Hf). Qed.

(** A command is a body between [load_locked] and [save]. *)
Lemma locked_section {A} (body : NodeRegistry -> hio A) (reg' : NodeRegistry -> A -> NodeRegistry)
    (resp : NodeRegistry -> A -> response) cmd h :
  registry_at h = Some s0 ->
  (forall s, registry_ok s -> registry_path s = p -> leaves p (body s) /\
     (forall h, hwp (body s) h (fun r _ => forall a, r = Ok a ->
       registry_path (reg' s a) = p /\ registry_step s (event_of (resp s a)) (reg' s a))) /\
     forall h, hwp (body s) h (fun r h' => forall a, r = Ok a ->
       hwp (save (reg' s a)) h' (fun _ h'' => answers cmd s (resp s a) h''))) ->
  hwp (reg ← load_locked others p; a ← body reg; _ ← save (reg' reg a); mret (resp reg a)) h (commits others cmd s0).
Proof.
  intros Hs0 Hbody. apply hwp_bind. eapply hwp_mono; [by apply load_locked_spec|]. intros r h1 (s1 & Hw & Hs1 & Hr).
  destruct r as [reg|e]; [|by exists s1]. specialize (Hr reg eq_refl).
  destruct (Hbody reg (loads_ok _ _ Hr (waited_ok _ Hw)) (loads_path _ _ Hr (registry_at_path _ _ Hs1))) as (Hframe & Hres & Hans).
  specialize (Hframe h1). specialize (Hres h1). specialize (Hans h1). apply hwp_bind.
  unfold hwp in Hframe, Hres, Hans |- * at 1.
  destruct (body reg h1) as [[a|e] h2].
  2: { exists s1. by rewrite (registry_at_same _ _ Hframe). }
  destruct (Hres a eq_refl) as (Hpath & Hstep). specialize (Hans a eq_refl). apply hwp_bind.
  pose proof (save_spec (reg' reg a) h2 Hpath) as Hsave. unfold hwp in Hsave, Hans |- * at 1.
  destruct (save (reg' reg a) h2) as [[[]|e] h3]; exists s1; (split; [exact Hw|]).
  - exists reg. split; [exact Hr|]. split; [exact Hans|]. by exists (reg' reg a).
  - rewrite <- Hs1. apply registry_at_same. congruence.
Qed.

Lemma hwp_ext {A} (m m' : hio A) h Q : m h = m' h -> hwp m' h Q -> hwp m h Q.
Proof. unfold hwp. by intros ->. Qed.

Lemma remove_node_spec id h : registry_at h = Some s0 ->
  hwp (run_command target_os target_arch ant_dir others (RemoveNode id) p) h (commits others (RemoveNode id) s0).
Proof.
  intros Hs0. eapply hwp_ext; [|apply (locked_section (fun reg => st_lift (remove reg id)) (fun _ => snd)
    (fun _ x => NodeRemoved x.1) _ _ Hs0)].
  - cbn [run_command]. unfold remove_node, mbind, stres_bind, mret, stres_ret, st_lift.
    destruct (load_locked others p h) as [[reg|e] h1]; [|done].
    destruct (remove reg id) as [[c reg']|e]; [|done]. cbn. by destruct (save reg' h1) as [[] ?].
  - intros s Hs Hp. unfold remove. destruct (nodes s !! id) as [c|] eqn:El; cbn [ok_or mbind result_bind].
    2: { split; [auto with leaves|]. split; intros h1; by apply hwp_lift. }
    split; [auto with leaves|]. split; intros h1; apply hwp_lift; intros ? [= <-]; cbn.
    + split; [exact Hp|]. by apply (step_removed _ id).
    + unfold hwp. by destruct (save _ h1).
Qed.

Lemma list_nodes_ok s : registry_ok s -> Forall (fun c => exists id, node_ok id c) (list_nodes s).
Proof.
  intros Hs. apply Forall_forall. intros c Hc. unfold list_nodes in Hc. rewrite sort_by_key_perm in Hc.
  apply list_elem_of_fmap in Hc as ([id c'] & -> & Hc%elem_of_map_to_list). exists id. by apply Hs.
Qed.

Lemma reset_spec h : registry_at h = Some s0 ->
  hwp (run_command target_os target_arch ant_dir others Reset p) h (commits others Reset s0).
Proof.
  intros Hs0. eapply hwp_ext; [|apply (locked_section (fun reg => remove_node_dirs (list_nodes reg) [] [])
    (fun reg _ => clear reg) (fun reg x => WasReset (mkResetResult (u32 (len reg)) x.1 x.2)) _ _ Hs0)].
  - cbn [run_command]. unfold reset, mbind, stres_bind, mret, stres_ret.
    destruct (load_locked others p h) as [[reg|e] h1]; [|done].
    destruct (remove_node_dirs _ _ _ h1) as [[[d l]|e] h2]; [|done]. by destruct (save (clear reg) h2) as [[] ?].
  - intros s Hs Hp. split; [by apply remove_dirs_frame, list_nodes_ok|]. split; intros h1.
    { unfold hwp. destruct (remove_node_dirs _ _ _ h1) as [r h2]. intros x _. by split; [|constructor]. }
    unfold hwp at 1. destruct (remove_node_dirs _ _ _ h1) as [r h2] eqn:Erm. intros x Hx.
    assert (stats_work -> Forall (dirs_gone h2) (list_nodes s)) as Hr.
    { intros Hst. pose proof (remove_dirs_gone Hst (list_nodes s) [] [] h1) as Hg. unfold hwp in Hg. rewrite Erm in Hg.
      by apply (proj2 Hg x). }
    assert (forall id c, nodes s !! id = Some c -> c ∈ list_nodes s) as Hin.
    { intros id c Hc. unfold list_nodes. rewrite sort_by_key_perm. apply list_elem_of_fmap. exists (id, c).
      split; [done | by apply elem_of_map_to_list]. }
    pose proof (fun c id => save_keeps_gone (clear s) h2 c id Hp) as Hk. unfold hwp in *. destruct (save (clear s) h2) as [r3 h3].
    split; [done|]. intros Hst id c Hc. specialize (Hr Hst). rewrite Forall_forall in Hr.
    apply (Hk c id); [by apply Hs | by apply Hr, (Hin id)].
Qed.

Lemma count_bound opts rewards : check_opts opts = Ok rewards -> Z.of_nat (Z.to_nat (count opts)) <= 2 ^ 32.
Proof.
  unfold check_opts. intros Hc. inv_bind Hc. destruct (Z.ltb_spec MAX_NODES_PER_CALL (count opts)) as [|Hb]; [discriminate|].
  unfold MAX_NODES_PER_CALL in Hb. lia.
Qed.

Lemma resolved_fit opts h : source_fit opts ->
  hwp (resolve_binary target_os target_arch (binary_source opts) (binary_install_dir ant_dir)) h (fun r _ =>
    forall q v, r = Ok (q, v) ->
      match binary_source opts with LocalPath l => q = l | _ => q = cached_path (binary_install_dir ant_dir) v end /\
      q <> p /\ q <> with_extension p "tmp" /\ forall id, node_dir id ∉ q).
Proof.
  intros Hs. eapply hwp_mono; [apply resolve_binary_path|]. intros r h' Hr q v Hq. specialize (Hr q v Hq).
  split; [exact Hr|].
  destruct (binary_source opts) as [|w|u|l] eqn:Es; [..|subst q; by apply Hs]; subst q;
    (split; [intros Heq; by apply (fit_cache Hfit (cached_name v))|]);
    (split; [intros Heq; by apply (fit_tmp_cache Hfit (cached_name v))|]); intros id;
    unfold cached_path, binary_install_dir; rewrite !elem_of_app; intros [[Hin|Hin]|Hin];
    first [by apply (fit_ant Hfit id) | apply list_elem_of_singleton in Hin; discriminate].
Qed.

Lemma add_nodes_spec opts h : source_fit opts -> registry_at h = Some s0 ->
  hwp (run_command target_os target_arch ant_dir others (AddNodes opts) p) h (commits others (AddNodes opts) s0).
Proof.
  intros Hsrc Hs0. destruct (check_opts opts) as [rewards|e] eqn:Ec.
  2: { unfold hwp, run_command, add_nodes, mbind, stres_bind, st_lift. rewrite Ec. by eapply fails_alone. }
  set (loop := fun x reg => add_loop opts ant_dir rewards x.1 x.2 (Z.to_nat (count opts)) 0 reg []).
  eapply hwp_ext with (m' := x ← resolve_binary target_os target_arch (binary_source opts) (binary_install_dir ant_dir);
    reg ← load_locked others p; a ← loop x reg; _ ← save a.2; mret (NodesAdded a.1)).
  { unfold run_command, add_nodes, mbind, stres_bind, mret, stres_ret, st_lift. rewrite Ec.
    destruct (resolve_binary _ _ _ _ h) as [[[cached version]|e] h1]; [|done].
    destruct (load_locked others p h1) as [[reg|e] h2]; [|done]. unfold loop. cbn [fst snd].
    destruct (add_loop _ _ _ _ _ _ _ _ _ h2) as [[[cs reg']|e] h3]; [|done]. cbn. by destruct (save reg' h3) as [[] ?]. }
  apply hwp_bind. pose proof (resolved_fit opts h Hsrc) as Hq.
  pose proof (resolve_binary_frame target_os target_arch p _ (fit_cache Hfit) (binary_source opts) h) as H1.
  unfold hwp in Hq, H1 |- * at 1. destruct (resolve_binary _ _ _ _ h) as [[[cached version]|e] h1]; [|by eapply fails_alone].
  destruct (Hq _ _ eq_refl) as (Hqs & Hqp & Hqt & Hqn).
  assert (registry_at h1 = Some s0) as Hs1 by (by rewrite (registry_at_same _ _ H1)).
  apply (locked_section (loop (cached, version)) (fun _ => snd) (fun _ a => NodesAdded a.1) _ _ Hs1).
  intros s Hs Hp. set (new := new_configs opts rewards version (Z.to_nat (count opts)) 0 (next_id s)).
  assert (forall k c, new !! k = Some c -> node_ok (u32 (next_id s + Z.of_nat k)) c) as Hnew
    by (intros k c Hk; apply new_configs_lookup in Hk as ->; [apply new_config_ok | apply Hs]).
  split; [apply add_loop_frame|]. split; intros h2; unfold loop; cbn [fst snd].
  - eapply hwp_mono; [apply add_loop_result, Hs|]. intros r h3 Hr x Hx. rewrite (Hr x Hx). cbn.
    split; [exact Hp|]. by apply step_added.
  - pose proof (add_loop_result opts rewards cached version (Z.to_nat (count opts)) 0 s [] h2 (registry_ok_next _ Hs)) as Hres.
    pose proof (add_loop_installs opts rewards version cached Hqn (Z.to_nat (count opts)) 0 s [] h2
      (registry_ok_next _ Hs) (count_bound opts rewards Ec)) as Hins.
    unfold hwp in Hres, Hins |- * at 1. destruct (add_loop _ _ _ _ _ _ _ _ _ h2) as [r h3]. intros x Hx.
    rewrite (Hres x Hx). destruct Hins as (_ & _ & Hins). specialize (Hins x Hx). cbn.
    pose proof (fun c id => save_keeps_installed cached (appended s new) h3 c id Hp) as Hk. unfold hwp in Hk |- *.
    destruct (save _ h3) as [r3 h4]. exists rewards, version, cached. split; [exact Ec|]. split; [exact Hqs|]. split; [done|].
    apply Forall_lookup. intros k c Hc. rewrite Forall_lookup in Hins. by apply (Hk c _ (Hnew k c Hc) Hqp Hqt), (Hins k).
Qed.


(** Commands are what other processes may do. *)
Lemma commits_contract cmd r h' h : stats_work -> registry_at h = Some s0 -> commits others cmd s0 r h' -> contract h h'.
Proof.
  intros Hst Hs0 (s1 & Hw & Hr) s Hs _. rewrite Hs0 in Hs. injection Hs as <-. destruct (waited_run _ Hw) as [l Hrun].
  destruct r as [resp|e]; [|by exists l, s1].
  destruct Hr as (s2 & Hl & _ & s' & Hstep & Hs'). apply loads_works in Hl as ->; [|exact Hst]. exists (l ++ [event_of resp]), s'. split; [|exact Hs'].
  eapply registry_run_app; [exact Hrun | by apply registry_run_one].
Qed.

End Commands.

(** *** Without failures *)

(** No call fails, and no file is where the directory of the registry is made. *)
Record calm (h : host) : Prop := {
  calm_faults : faults (disk_of h) = [];
  calm_parent q : q ∈ ancestors (removelast p) -> host_files h !! q = None
}.

Lemma create_parent_works h : calm h -> exists ds, create_parent p h = (Ok tt, mkHost (disk_of h) (dirs h ∪ ds)) /\ p ∉ ds.
Proof.
  intros [Hf Hp]. unfold create_parent, path_parent.
  assert (p <> []) as Hne by (intros Heq; pose proof (fit_tmp Hfit) as Ht; by rewrite Heq in Ht).
  exists (list_to_set (ancestors (removelast p))). split.
  - destruct p as [|x q] eqn:Eq; [done|]. unfold create_dir_all, host_fault, next_fault. rewrite Hf. cbn [host_files disk_of].
    assert (forall l, (forall q, q ∈ l -> host_files h !! q = None) ->
      existsb (fun q => bool_decide (is_Some (files (disk_of h) !! q))) l = false) as Hno.
    { induction l as [|y l IH]; cbn; [done|]. intros Hl. rewrite IH by (intros r Hr; apply Hl; by right).
      rewrite bool_decide_eq_false_2; [done|]. unfold host_files in Hl. rewrite (Hl y) by left. by intros [? ?]. }
    unfold host_files at 1. cbn [disk_of]. rewrite Hno by exact Hp. cbn. unfold set_host, set_files. cbn. by destruct h as [[]].
  - rewrite elem_of_list_to_set. intros [_ [k Hk]]%elem_of_ancestors. apply (f_equal length) in Hk.
    rewrite length_app in Hk. pose proof (app_removelast_last ""%string Hne) as Hl. apply (f_equal length) in Hl.
    rewrite length_app in Hl. cbn in Hl. lia.
Qed.

Lemma path_not_nil : p <> [].
Proof. intros Heq. pose proof (fit_tmp Hfit) as Ht. by rewrite Heq in Ht. Qed.

Lemma with_extension_not_above ext : with_extension p ext ∉ ancestors (removelast p).
Proof.
  intros [_ [k Hk]]%elem_of_ancestors. unfold with_extension in Hk.
  destruct (last p) eqn:El; [|apply last_None in El; by apply path_not_nil].
  apply (f_equal length) in Hk. rewrite !length_app in Hk. cbn in Hk. lia.
Qed.

Lemma write_works {E} (e : E) q b h : faults (disk_of h) = [] ->
  on_disk e (fs_write q b) h = (Ok tt, set_host h (put_data (host_files h) q b) (dirs h)).
Proof. intros Hf. unfold on_disk, fs_write, next_fault. by rewrite Hf. Qed.

Lemma calm_put ext b h ds : calm h -> calm (set_host h (put_data (host_files h) (with_extension p ext) b) ds).
Proof.
  intros [Hf Hp]. split; [exact Hf|]. intros q Hq. unfold host_files, set_host. cbn.
  rewrite put_data_ne; [by apply Hp|]. intros ->. by apply (with_extension_not_above ext).
Qed.

Lemma calm_dirs h ds : calm h -> calm (mkHost (disk_of h) ds).
Proof. intros [Hf Hp]. by split. Qed.

Lemma save_works reg h : calm h -> registry_path reg = p -> is_Some (ser serde_json (stored reg)) ->
  is_ok (save reg h).1 = true.
Proof.
  intros Hc Hp [b Hb]. destruct (create_parent_works h Hc) as (ds & Hcp & _).
  unfold save, mbind, stres_bind, st_lift. rewrite Hp, Hcp, Hb. cbn [ok_or].
  rewrite write_works by apply Hc. unfold on_disk, fs_rename, io_call, next_fault. cbn [disk_of set_host set_files faults].
  rewrite (calm_faults _ Hc). unfold host_files. cbn [files set_files disk_of set_host dirs].
  destruct (put_data_same (files (disk_of h)) (with_extension p "tmp") b) as (f & Hf & _). by rewrite Hf.
Qed.

Lemma load_locked_works (Hst : stats_work) h s : calm h -> is_dir p h = false -> registry_at h = Some s ->
  exists h', load_locked (fun h => h) p h = (Ok s, h') /\ calm h' /\ (forall q, q <> with_extension p "lock" ->
    host_files h' !! q = host_files h !! q).
Proof.
  intros Hc Hd Hs. destruct (create_parent_works h Hc) as (ds & Hcp & Hds).
  set (h1 := mkHost (disk_of h) (dirs h ∪ ds)). set (lock := with_extension p "lock").
  set (h2 := set_host h1 (put_data (host_files h1) lock []) (dirs h1)).
  assert (calm h2) as Hc2 by (by apply calm_put, calm_dirs).
  assert (forall q, q <> lock -> host_files h2 !! q = host_files h !! q) as Hkeep by (intros q Hq; by apply put_data_ne).
  assert (load_locked (fun h => h) p h = load p h2) as ->.
  { unfold load_locked, mbind, stres_bind. rewrite Hcp. fold h1. rewrite write_works by apply Hc. fold lock h2.
    unfold on_disk, fs_other, io_call, next_fault. rewrite (calm_faults _ Hc2). by destruct h2 as [[] ?]. }
  exists h2. split; [|by split]. pose proof (fit_lock Hfit) as Hl. fold lock in Hl. specialize (Hkeep p (not_eq_sym Hl)).
  rewrite <- (registry_at_same _ _ Hkeep) in Hs. unfold load, registry_at in *.
  destruct (host_files h2 !! p) as [f|] eqn:Ef.
  - rewrite seen_works by exact Hst. assert (path_exists p h2 = true) as ->
      by (apply orb_true_iff; right; apply bool_decide_eq_true_2; rewrite Ef; by eexists).
    unfold mbind, stres_bind, on_disk, fs_read, io_call, next_fault, st_lift. rewrite (calm_faults _ Hc2).
    unfold host_files in Ef. rewrite Ef. cbn. destruct (de serde_json (data f)) as [x|]; [|discriminate].
    cbn in *. injection Hs as <-. reflexivity.
  - injection Hs as <-. rewrite seen_works by exact Hst. assert (path_exists p h2 = false) as ->; [|done]. apply is_dir_false in Hd as [Hd Hu].
    unfold path_exists. rewrite Ef. apply orb_false_iff. split; [|done]. apply is_dir_false. split; [cbn; set_solver|].
    intros q Hq Hpq. destruct (decide (q = lock)) as [->|Hne]; [|apply Hu; [|done]; by rewrite <- (put_data_ne _ lock _ [])].
    destruct Hpq as [k Hk]. unfold lock, with_extension in *. destruct (last p) as [x|] eqn:El; [|by rewrite Hk in *].
    exfalso. pose proof (app_removelast_last ""%string path_not_nil) as Hpl. apply (f_equal length) in Hk as Hlen.
    rewrite Hpl in Hlen at 2. rewrite !length_app in Hlen. destruct k; [by rewrite app_nil_r in Hk | cbn in Hlen; lia].
Qed.

Lemma remove_node_works (Hst : stats_work) h s id : calm h -> is_dir p h = false -> registry_at h = Some s ->
  (forall s, is_Some (ser serde_json (stored s))) ->
  is_ok (run_command target_os target_arch ant_dir (fun h => h) (RemoveNode id) p h).1 =
    bool_decide (is_Some (nodes s !! id)).
Proof.
  intros Hc Hd Hs Hser. destruct (load_locked_works Hst h s Hc Hd Hs) as (h' & Hl & Hc' & _).
  unfold run_command, remove_node, mbind, stres_bind, st_lift. rewrite Hl. unfold remove.
  destruct (nodes s !! id) as [c|]; cbn [ok_or mbind result_bind]; [|by rewrite bool_decide_eq_false_2 by (by intros [? ?])].
  rewrite bool_decide_eq_true_2 by (by eexists). set (reg := mkRegistry _ _ _ _).
  pose proof (save_works reg h' Hc' (registry_at_path _ _ Hs) (Hser reg)) as Hw.
  by destruct (save reg h') as [[[]|e] h3].
Qed.

(** A directory that can be removed: nothing but directories, and the registry is not
    below them. *)
Definition removable (h : host) (c : NodeConfig) : Prop :=
  host_files h !! Supervisor.data_dir c = None /\
  forall l, Supervisor.log_dir c = Some l -> host_files h !! l = None.

Lemma remove_if_there_works d h : calm h -> host_files h !! d = None ->
  exists b h', remove_if_there d h = (Ok b, h') /\ calm h' /\ forall q, host_files h !! q = None -> host_files h' !! q = None.
Proof.
  intros [Hf Hp] Hd. unfold remove_if_there. destruct (seen d h) eqn:Ex; [|by exists false, h].
  apply seen_there in Ex. unfold path_exists in Ex. rewrite Hd in Ex. apply orb_true_iff in Ex as [Ex|[? [=]]%bool_decide_eq_true].
  set (h' := set_host h (filter (fun kv => ~ under d kv.1) (host_files h)) (filter (fun q => ~ under d q) (dirs h))).
  assert (forall q, host_files h !! q = None -> host_files h' !! q = None) as Hnone.
  { intros q Hq. unfold h', host_files, set_host. cbn. apply map_lookup_filter_None_2. by left. }
  exists true, h'. split; [|split; [split; [exact Hf | intros q Hq; by apply Hnone, Hp] | exact Hnone]].
  unfold mbind, stres_bind, remove_dir_all, host_fault, next_fault. rewrite Hf.
  assert (is_dir d (mkHost (disk_of h) (dirs h)) = true) as -> by (by destruct h). by destruct h.
Qed.

Lemma remove_dirs_works cs dds lds h : calm h -> Forall (removable h) cs ->
  exists x h', remove_node_dirs cs dds lds h = (Ok x, h') /\ calm h'.
Proof.
  revert dds lds h. induction cs as [|c cs IH]; intros dds lds h Hc Hcs; cbn [remove_node_dirs]; [by eexists _, h|].
  apply Forall_cons in Hcs as [[Hd Hl] Hcs]. unfold mbind at 1, stres_bind at 1.
  destruct (remove_if_there_works _ h Hc Hd) as (b & h1 & -> & Hc1 & Hn1).
  assert (forall h2, (forall q, host_files h !! q = None -> host_files h2 !! q = None) -> Forall (removable h2) cs) as Hcs2.
  { intros h2 Hn. eapply Forall_impl; [exact Hcs|]. intros c' [Hd' Hl']. split; [by apply Hn|]. intros l El. by apply Hn, Hl'. }
  destruct (Supervisor.log_dir c) as [l|] eqn:El; [|by apply IH; auto].
  unfold mbind at 1, stres_bind at 1.
  destruct (remove_if_there_works l h1 Hc1 (Hn1 _ (Hl _ eq_refl))) as (b' & h2 & -> & Hc2 & Hn2). apply IH; [exact Hc2|].
  apply Hcs2. auto.
Qed.

Lemma reset_works (Hst : stats_work) h s : calm h -> is_dir p h = false -> registry_at h = Some s ->
  (forall s, is_Some (ser serde_json (stored s))) ->
  (forall id c, nodes s !! id = Some c -> node_ok id c /\ removable h c) ->
  is_ok (run_command target_os target_arch ant_dir (fun h => h) Reset p h).1 = true.
Proof.
  intros Hc Hd Hs Hser Hrm. destruct (load_locked_works Hst h s Hc Hd Hs) as (h1 & Hl & Hc1 & Hk).
  unfold run_command, reset, mbind, stres_bind. rewrite Hl.
  destruct (remove_dirs_works (list_nodes s) [] [] h1 Hc1) as ([dds lds] & h2 & -> & Hc2).
  { apply Forall_forall. intros c Hin. unfold list_nodes in Hin. rewrite sort_by_key_perm in Hin.
    apply list_elem_of_fmap in Hin as ([id c'] & -> & Hin%elem_of_map_to_list).
    destruct (Hrm id c' Hin) as [[_ _ [d Ed] Elog] [Hd' Hl']]. pose proof (fit_lock_nodes Hfit id) as Hlock.
    split; [rewrite Hk; [exact Hd'|] | intros l El; rewrite Hk; [by apply Hl'|]]; intros Heq; apply Hlock; rewrite <- Heq.
    - cbn. rewrite Ed. set_solver.
    - destruct (Elog l El) as [d' ->]. set_solver. }
  cbn beta iota. pose proof (save_works (clear s) h2 Hc2 (registry_at_path _ _ Hs) (Hser _)) as Hw.
  by destruct (save (clear s) h2) as [[[]|e] h3].
Qed.

End File.

(** ** Property *)

(** C38: The registry is shared safely.  Let every other process keep the contract, to do
    nothing to the registry file but carry out commands, each at once.  Then a
    command, whatever fails and wherever it is killed, either leaves the file to them,
    or is one step, after the steps of those that held the lock before it, of the
    registry that it loaded.  That is the registry of the file, unless looking for the
    file fails: then it is an empty one, and what the file held is lost.  When such
    looks do not fail the command keeps the contract, too.  Its answer tells of that step:
    [add_nodes] gives the next ids, in order, each with the ports of its index, its own
    directories and its own copy of the binary; [remove_node] gives back the config;
    after [reset] the directories of all registered nodes are gone, if no look fails.  No two nodes that are added
    between two resets have the same id, as long as there are fewer than 2^32.
    When nothing fails, [reset] succeeds, and [remove_node] does for the registered
    ids; options that do not pass the checks have no effect at all. *)
Theorem registry_commands_linearize
    `{!Codec serde_json (Z * gmap Z NodeConfig * Z), !CodecLaws serde_json (Z * gmap Z NodeConfig * Z), !BinaryTools, stats : Stats}
    (target_os target_arch : string) (ant_dir p : path) (others : host -> host) (cmd : command) (s0 : NodeRegistry) (h : host)
    (Hfit : path_fit ant_dir p) (Hothers : forall h, contract p h (others h))
    (Hsource : forall opts, cmd = AddNodes opts -> source_fit p opts)
    (Hs0 : registry_at p h = Some s0) (Hok : registry_ok s0) :
  let '(r, h') := run_command target_os target_arch ant_dir others cmd p h in
  commits ant_dir p others cmd s0 r h' /\ (stats_work -> contract p h h') /\
  (forall s l s', registry_run s l s' -> Cleared ∉ l -> 0 <= next_id s ->
     next_id s + lenZ (given_ids l) < 2 ^ 32 -> NoDup (given_ids l)) /\
  (forall opts e, cmd = AddNodes opts -> check_opts opts = Err e -> r = Err e /\ h' = h) /\
  (stats_work -> calm p h -> is_dir p h = false -> (forall s, is_Some (ser serde_json (stored s))) -> others = (fun h => h) ->
     (forall id, cmd = RemoveNode id -> is_ok r = bool_decide (is_Some (nodes s0 !! id))) /\
     ((forall id c, nodes s0 !! id = Some c -> removable h c) -> cmd = Reset -> is_ok r = true)).
Proof.
  assert (hwp (run_command target_os target_arch ant_dir others cmd p) h (commits ant_dir p others cmd s0)) as Hc.
  { destruct cmd as [opts|id|]; [by apply add_nodes_spec; auto | by apply remove_node_spec | by apply reset_spec]. }
  unfold hwp in Hc. destruct (run_command _ _ _ _ _ _ h) as [r h'] eqn:Er. split; [exact Hc|].
  split; [intros Hst; by eapply commits_contract|].
  split; [intros s l s' Hr Hcl Hn Hb; by apply (given_ids_distinct s l s')|]. split.
  - intros opts e -> He. unfold run_command, add_nodes, mbind, stres_bind, st_lift in Er. rewrite He in Er. by injection Er as <- <-.
  - intros Hst Hcalm Hd Hser ->. split.
    + intros id ->. pose proof (remove_node_works target_os target_arch ant_dir p Hfit Hst h s0 id Hcalm Hd Hs0 Hser) as Hw.
      by rewrite Er in Hw.
    + intros Hrm ->. pose proof (reset_works target_os target_arch ant_dir p Hfit Hst h s0 Hcalm Hd Hs0 Hser) as Hw.
      rewrite Er in Hw. apply Hw. intros id c Hl. split; [by apply Hok | by apply (Hrm id)].
Qed.

(** ** Two commands on an empty host *)

(** A text that names the registry it stands for. *)
#[local] Instance NodeConfig_eq_dec : EqDecision NodeConfig.
Proof. solve_decision. Defined.

Fixpoint index_of {A} `{EqDecision A} (a : A) (l : list A) : option nat :=
  match l with [] => None | x :: l => if decide (a = x) then Some O else S <$> index_of a l end.

Lemma index_of_lookup {A} `{EqDecision A} (a : A) l n : index_of a l = Some n -> l !! n = Some a.
Proof.
  revert n. induction l as [|x l IH]; intros n; cbn; [discriminate|]. destruct (decide (a = x)) as [->|]; [by intros [= <-]|].
  destruct (index_of a l) as [k|] eqn:Ek; [|discriminate]. intros [= <-]. by apply IH.
Qed.

Definition sample_opts : AddNodeOpts :=
  mkAddOpts 2 "0x00112233445566778899aabbccddeeff00112233 " (Some (Range 7000 7001)) None None None 1
    (LocalPath ["tmp"; "ant-node"]%string) [] [].
Definition home : path := ["home"%string].
Definition registry_file : path := home ++ ["node_registry.json"%string].

Definition sample_nodes : list NodeConfig :=
  new_configs home sample_opts "0x00112233445566778899aabbccddeeff00112233" "0.3.4" 2 0 1.
Definition sample_states : list (Z * gmap Z NodeConfig * Z) :=
  [(1, insert_all sample_nodes ∅, 3); (1, base.delete 1 (insert_all sample_nodes ∅), 3); (1, ∅, 1)].

#[local] Instance sample_json : Codec serde_json (Z * gmap Z NodeConfig * Z) := {|
  ser x := (fun n => [byte_of_Z (Z.of_nat n)]) <$> index_of x sample_states;
  de b := match b with [b] => sample_states !! Z.to_nat (byte_to_Z b) | _ => None end
|}.

#[local] Instance sample_json_laws : CodecLaws serde_json (Z * gmap Z NodeConfig * Z).
Proof.
  split. intros x b Hb. change ((fun n => [byte_of_Z (Z.of_nat n)]) <$> index_of x sample_states = Some b) in Hb.
  apply fmap_Some in Hb as (n & En & ->). apply index_of_lookup in En. apply lookup_lt_Some in En as Hn.
  change (sample_states !! Z.to_nat (byte_to_Z (byte_of_Z (Z.of_nat n))) = Some x).
  rewrite byte_to_Z_of_Z, Z.mod_small, Nat2Z.id; [exact En|]. change (length sample_states) with 3%nat in Hn. lia.
Qed.

#[local] Existing Instances sample_tools sure_stats.

Definition fresh_host : host := mkHost (mkDisk {[ ["tmp"; "ant-node"]%string := mkFile [x01] 493 ]} []) ∅.
Definition sample_command (cmd : command) : hio response :=
  run_command "linux" "x86_64" home (fun h => h) cmd registry_file.

(** A file that a node has written. *)
Definition node_key : path := home ++ ["nodes"; "node-1"; "key"]%string.
Definition after_use (h : host) : host := set_host h (put_data (host_files h) node_key [x07]) (dirs h).

(** A removed node keeps its directory, and [reset] does not know it: the next node
    with its id starts with the files of the old one. *)
Lemma removed_nodes_are_inherited :
  let '(r1, h1) := sample_command (AddNodes sample_opts) fresh_host in
  let '(r2, h2) := sample_command (RemoveNode 1) (after_use h1) in
  let '(r3, h3) := sample_command Reset h2 in
  let '(r4, h4) := sample_command (AddNodes sample_opts) h3 in
  r4 = Ok (NodesAdded sample_nodes) /\ data <$> host_files h4 !! node_key = Some [x07] /\
  (Supervisor.data_dir <$> head sample_nodes) = Some (removelast node_key).
Proof. vm_compute. by split_and!. Qed.

(** A machine on which no path can be looked at. *)
Definition blind : Stats := fun _ _ => false.

(** Two nodes are registered; then the registry file is not seen.  [reset] clears no
    node and removes no directory, and saves an empty registry over the file. *)
Lemma unseen_registry_is_lost :
  let '(r1, h1) := sample_command (AddNodes sample_opts) fresh_host in
  let '(r2, h2) := run_command (stats := blind) "linux" "x86_64" home (fun h => h) Reset registry_file h1 in
  r1 = Ok (NodesAdded sample_nodes) /\ r2 = Ok (WasReset (mkResetResult 0 [] [])) /\
  registry_at registry_file h2 = Some (empty_registry registry_file) /\
  forallb (fun c => path_exists (Supervisor.data_dir c) h2) sample_nodes = true.
Proof. vm_compute. by split_and!. Qed.

Lemma registry_file_fit : path_fit home registry_file.
Proof.
  split; try discriminate; intros id Hin; repeat (apply elem_of_cons in Hin as [Hin|Hin]; [discriminate Hin|]);
    by apply not_elem_of_nil in Hin.
Qed.

Lemma sample_source_fit opts : AddNodes sample_opts = AddNodes opts -> source_fit registry_file opts.
Proof.
  intros [= <-] l [= <-]. split; [discriminate|]. split; [discriminate|]. intros id Hin.
  repeat (apply elem_of_cons in Hin as [Hin|Hin]; [discriminate Hin|]). by apply not_elem_of_nil in Hin.
Qed.

Lemma empty_registry_ok p : registry_ok (empty_registry p).
Proof. split; [cbn; lia|]. intros id c. cbn. by rewrite lookup_empty. Qed.


(** The disk fails while the registry is saved. *)
Definition failing (h : host) : host :=
  mkHost (mkDisk (host_files h) [Works; Works; Works; Works; Works; Partial 0]) (dirs h).

Lemma sample_results :
  let '(r1, h1) := sample_command (AddNodes sample_opts) fresh_host in
  r1 = Ok (NodesAdded sample_nodes) /\ is_ok (sample_command (RemoveNode 1) (failing h1)).1 = false.
Proof. vm_compute. by split. Qed.

(** Two nodes are added; then the disk fails while the next command saves. *)
Lemma registry_commands_linearize_witness :
  let '(r1, h1) := sample_command (AddNodes sample_opts) fresh_host in
  let '(r2, h2) := sample_command (RemoveNode 1) (failing h1) in
  r1 = Ok (NodesAdded sample_nodes) /\ is_ok r2 = false /\
  exists s, registry_at registry_file h1 = Some s /\ registry_at registry_file h2 = Some s /\ registry_ok s.
Proof.
  assert (forall h, contract registry_file h h) as Hid by (intros h; by apply contract_same).
  assert (registry_at registry_file fresh_host = Some (empty_registry registry_file)) as H0 by (vm_compute; reflexivity).
  pose proof (registry_commands_linearize "linux" "x86_64" home registry_file (fun h => h) (AddNodes sample_opts)
    _ fresh_host registry_file_fit Hid sample_source_fit H0 (empty_registry_ok _)) as H1.
  fold (sample_command (AddNodes sample_opts)) in H1. pose proof sample_results as Hr.
  destruct (sample_command (AddNodes sample_opts) fresh_host) as [r1 h1]. destruct Hr as [-> Hr2]. destruct H1 as (_ & Hc & _).
  destruct (Hc sure_stats_work _ H0 (empty_registry_ok _)) as (l & s & Hrun & Hs).
  assert (registry_at registry_file (failing h1) = Some s) as Hs' by exact Hs.
  pose proof (registry_run_ok _ _ _ Hrun (empty_registry_ok _)) as Hok.
  pose proof (registry_commands_linearize "linux" "x86_64" home registry_file (fun h => h) (RemoveNode 1)
    s (failing h1) registry_file_fit Hid ltac:(discriminate) Hs' Hok) as H2.
  fold (sample_command (RemoveNode 1)) in H2. destruct (sample_command (RemoveNode 1) (failing h1)) as [r2 h2].
  destruct H2 as ((s2 & Hw & Hr) & _). destruct r2 as [resp|e]; [discriminate Hr2|].
  split; [reflexivity|]. split; [reflexivity|]. exists s. split; [exact Hs|]. split; [|exact Hok].
  destruct Hw as [->|(h3 & Hs3 & Hs2)]; [exact Hr|]. rewrite Hs3 in Hs2. injection Hs2 as <-. exact Hr.
Defined.
