(* ===== verification/Daemon.v ===== *)
(** * The daemon's HTTP interface

    [ant-client/ant-core/src/node/daemon/server.rs]: the handlers of the daemon that
    manages the nodes of a machine.  They share a copy of the registry and the
    supervisor, each behind a lock that a handler takes and gives back several
    times, so a handler is a sequence of steps between which others run; a command
    of [Registry] is one step.  A handler that stops a node keeps the supervisor's
    lock while the node is killed: what needs the lock waits, and the rest goes on.
    The handler of a closed connection is dropped.  Server-sent events, the console page, the text of the
    API description and the socket are left out. *)

From Stdlib Require Import ZArith Lia Strings.String Strings.Byte.
From stdpp Require Import base decidable list strings pretty gmap relations.
From S2P Require Import Prelude Interfaces Files Host Supervisor NodeBinary Registry.

Local Open Scope Z_scope.

(** ** Queries *)

Record DaemonStatus := mkDaemonStatus {
  running : bool;
  daemon_pid : option Z;
  port : option Z;
  daemon_uptime_secs : option Z;
  nodes_total : Z;
  nodes_running : Z;
  nodes_stopped : Z;
  nodes_errored : Z
}.

Definition get_status (registry : NodeRegistry) (supervisor : Supervisor) (pid bound_port start_time now : Z) : DaemonStatus :=
  let '(running, stopped, errored) := node_counts supervisor in
  mkDaemonStatus true (Some pid) (Some bound_port) (Some (sat_sub now start_time / second)) (u32 (len registry))
    running stopped errored.

Definition status_or_stopped (supervisor : Supervisor) (id : Z) : NodeStatus :=
  match node_status supervisor id with Ok status => status | Err _ => Stopped end.

Definition summary_of (supervisor : Supervisor) (now : Z) (config : NodeConfig) : NodeStatusSummary :=
  let id := config_id config in
  mkSummary id (service_name config) (version config) (status_or_stopped supervisor id) (node_pid supervisor id)
    (node_uptime_secs supervisor id now).

Definition counts_as_running (status : NodeStatus) : bool :=
  match status with Running | Starting => true | _ => false end.

Definition add_summary (supervisor : Supervisor) (now : Z) (acc : NodeStatusResult) (config : NodeConfig) : NodeStatusResult :=
  let summary := summary_of supervisor now config in
  let is_up := counts_as_running (summary_status summary) in
  mkStatusResult (status_nodes acc ++ [summary])
    (if is_up then u32 (total_running acc + 1) else total_running acc)
    (if is_up then total_stopped acc else u32 (total_stopped acc + 1)).

Definition get_nodes_status (registry : NodeRegistry) (supervisor : Supervisor) (now : Z) : NodeStatusResult :=
  fold_left (add_summary supervisor now) (list_nodes registry) (mkStatusResult [] 0 0).

(** What a refusal says of the node. *)
Record current_state := mkCurrentState { state_node_id : Z; state_status : NodeStatus; state_pid : option Z; state_uptime_secs : option Z }.

Record http_error := mkHttpError { code : Z; message : string; state : option current_state }.

Definition NOT_FOUND : Z := 404.
Definition CONFLICT : Z := 409.
Definition BAD_REQUEST : Z := 400.
Definition INTERNAL_SERVER_ERROR : Z := 500.

Definition not_found (id : Z) : http_error := mkHttpError NOT_FOUND ("Node not found: " ++ pretty id) None.
Definition internal (e : core_error) : http_error := mkHttpError INTERNAL_SERVER_ERROR (show_error e) None.

Record NodeInfo := mkNodeInfo {
  info_config : NodeConfig;
  info_status : NodeStatus;
  info_pid : option Z;
  info_uptime_secs : option Z
}.

Definition registered (registry : NodeRegistry) (id : Z) : result http_error NodeConfig :=
  map_err (fun _ => not_found id) (get registry id).

Definition get_node_detail (registry : NodeRegistry) (supervisor : Supervisor) (id now : Z) : result http_error NodeInfo :=
  config ← registered registry id;
  Ok (mkNodeInfo config (status_or_stopped supervisor id) (node_pid supervisor id) (node_uptime_secs supervisor id now)).

(** ** The supervisor's commands on the world *)

(** What the operating system does with a start. *)
Record launch := mkLaunch { spawns : spawn_result; shows : health }.

Definition start_in (w : world) (id : Z) (l : launch) : result core_error Z * world :=
  let '(r, sup', _) := start_node (sup w) id (spawns l) (shows l) (now w) in
  (r, mkWorld sup'
        (match launched (sup w) id (spawns l) (shows l) with Some p => <[p := id]> (procs w) | None => procs w end)
        (monitors w ++ match r with Ok p => [mkMonitor id (Watching p)] | Err _ => [] end) (now w) (stopping w)).

(** [stop_node] up to its await, and after it. *)
Definition stop_begin_in (w : world) (id : Z) : result core_error unit * world :=
  let '(r, sup', _) := stop_begin (sup w) id in
  match r with
  | Ok killed => (Ok tt, mkWorld sup' (procs w) (monitors w) (now w) (Some (id, killed)))
  | Err e => (Err e, w)
  end.

Definition stop_end_in (w : world) : world :=
  match stopping w with
  | Some (id, killed) => mkWorld (stop_end (sup w) id).1 (kill killed (procs w)) (monitors w) (now w) None
  | None => w
  end.

(** The loop of [stop_all_nodes] up to the next await: the node that is killed then,
    and the rest of the loop. *)
Fixpoint stop_next (w : world) (configs : list (Z * string)) (res : StopNodeResult)
    : StopNodeResult * option (Z * string * list (Z * string)) * world :=
  match configs with
  | [] => (res, None, w)
  | (id, service_name) :: configs =>
    let already := mkStopResult (stopped res) (Supervisor.failed res) (already_stopped res ++ [id]) in
    match node_status (sup w) id with
    | Ok Running =>
      match stop_begin_in w id with
      | (Ok _, w) => (res, Some (id, service_name, configs), w)
      | (Err (NodeNotRunning _), w) => stop_next w configs already
      | (Err e, w) =>
          stop_next w configs (mkStopResult (stopped res) (Supervisor.failed res ++ [(id, service_name, show_error e)]) (already_stopped res))
      end
    | _ => stop_next w configs already
    end
  end.

(** ** Handlers *)

Record StartNodeResult := mkStartResult {
  started : list (Z * string * Z);
  start_failed : list (Z * string * string);
  already_running : list Z
}.

Inductive reply :=
| Created (nodes_added : list NodeConfig)
| Deleted (removed : NodeConfig)
| NodeUp (id : Z) (name : string) (pid : Z)
| AllUp (res : StartNodeResult)
| NodeDown (id : Z) (name : string)
| AllDown (res : StopNodeResult)
| AllReset (res : ResetResult)
| Refused (e : http_error).

(** Where a handler stands; it has no lock but when it is killing a node. *)
Inductive task :=
| PostNodes (opts : AddNodeOpts)
| DeleteNode (id : Z)
| Deleting (id : Z)
| PostStartNode (id : Z)
| StartingNode (id : Z) (config : NodeConfig)
| PostStartAll
| StartingAll (configs : list NodeConfig) (res : StartNodeResult)
| PostStopNode (id : Z)
| StoppingNode (id : Z) (config : NodeConfig)
| KillingNode (id : Z) (config : NodeConfig)
| PostStopAll
| StoppingAll (configs : list (Z * string))
| KillingAll (id : Z) (name : string) (configs : list (Z * string)) (res : StopNodeResult)
| PostReset
| Resetting
| Refreshing (r : reply).

Record daemon := mkDaemon { mem : NodeRegistry; super : world; machine : host }.

Definition already_running_error (w : world) (id : Z) : http_error :=
  mkHttpError CONFLICT ("Node " ++ pretty id ++ " is already running")
    (Some (mkCurrentState id Running (node_pid (sup w) id) (node_uptime_secs (sup w) id (now w)))).

Definition not_running_error (w : world) (id : Z) : http_error :=
  mkHttpError CONFLICT ("Node " ++ pretty id ++ " is not running")
    (Some (mkCurrentState id (status_or_stopped (sup w) id) None None)).

Definition running_error (id : Z) : http_error :=
  mkHttpError CONFLICT ("Cannot remove node " ++ pretty id ++ " while it is running. Stop it first.")
    (Some (mkCurrentState id Running None None)).

Definition still_running_error (n : Z) : http_error :=
  mkHttpError CONFLICT (show_error (NodesStillRunning n)) None.

(** [post_start_node] with the write lock. *)
Definition start_reply (w : world) (config : NodeConfig) (id : Z) (l : launch) : reply * world :=
  if is_running (sup w) id then (Refused (already_running_error w id), w)
  else
    let '(r, w') := start_in w (config_id config) l in
    (match r with
     | Ok p => NodeUp (config_id config) (service_name config) p
     | Err (NodeAlreadyRunning id) => Refused (already_running_error w' id)
     | Err e => Refused (internal e)
     end, w').

(** One round of the loop of [post_start_all]. *)
Definition start_one (w : world) (config : NodeConfig) (res : StartNodeResult) (l : launch) : StartNodeResult * world :=
  let id := config_id config in
  if is_running (sup w) id then (mkStartResult (started res) (start_failed res) (already_running res ++ [id]), w)
  else
    let '(r, w') := start_in w id l in
    (match r with
     | Ok p => mkStartResult (started res ++ [(id, service_name config, p)]) (start_failed res) (already_running res)
     | Err (NodeAlreadyRunning id) => mkStartResult (started res) (start_failed res) (already_running res ++ [id])
     | Err e => mkStartResult (started res) (start_failed res ++ [(id, service_name config, show_error e)]) (already_running res)
     end, w').

(** [post_stop_node] with the write lock. *)
Definition stop_reply (w : world) (config : NodeConfig) (id : Z) : (task + reply) * world :=
  if negb (is_running (sup w) id) then (inr (Refused (not_running_error w id)), w)
  else
    let '(r, w') := stop_begin_in w id in
    (match r with
     | Ok _ => inl (KillingNode id config)
     | Err (NodeNotRunning id) => inr (Refused (not_running_error w' id))
     | Err e => inr (Refused (internal e))
     end, w').

(** [post_stop_all] with the write lock, between two awaits. *)
Definition stop_all_reply (w : world) (configs : list (Z * string)) (res : StopNodeResult) : (task + reply) * world :=
  let '(res, next, w') := stop_next w configs res in
  (match next with
   | Some (id, name, configs) => inl (KillingAll id name configs res)
   | None => inr (AllDown res)
   end, w').

(** The supervisor's lock: who needs it for the next step, and who has it. *)
Definition needs_supervisor (t : task) : bool :=
  match t with
  | DeleteNode _ | StartingNode _ _ | StartingAll (_ :: _) _ | StoppingNode _ _ | StoppingAll _ | PostReset => true
  | _ => false
  end.

Definition holds (t : task) : bool := match t with KillingNode _ _ | KillingAll _ _ _ _ => true | _ => false end.

Definition ready (d : daemon) (t : task) : bool := negb (needs_supervisor t && bool_decide (is_Some (stopping (super d)))).

(** A dropped handler gives its lock back. *)
Definition dropped (d : daemon) (t : task) : daemon :=
  if holds t then
    let w := super d in mkDaemon (mem d) (mkWorld (sup w) (procs w) (monitors w) (now w) None) (machine d)
  else d.

Section Steps.
Context `{!Codec serde_json (Z * gmap Z NodeConfig * Z), !BinaryTools} {stats : Stats}.
Context (target_os target_arch : string) (ant_dir p : path) (others : host -> host).

(** A handler up to the next point where others can run: that point or the reply. *)
Definition task_step (d : daemon) (t : task) (l : launch) : (task + reply) * daemon :=
  let with_machine h := mkDaemon (mem d) (super d) h in
  let with_super w := mkDaemon (mem d) w (machine d) in
  match t with
  | PostNodes opts =>
      let '(r, h) := add_nodes target_os target_arch ant_dir others opts p (machine d) in
      (match r with
       | Ok nodes_added => inl (Refreshing (Created nodes_added))
       | Err e => inr (Refused (mkHttpError BAD_REQUEST (show_error e) None))
       end, with_machine h)
  | DeleteNode id =>
      if is_running (sup (super d)) id then (inr (Refused (running_error id)), d) else (inl (Deleting id), d)
  | Deleting id =>
      let '(r, h) := remove_node others id p (machine d) in
      (match r with
       | Ok removed => inl (Refreshing (Deleted removed))
       | Err (NodeNotFound id) => inr (Refused (not_found id))
       | Err e => inr (Refused (internal e))
       end, with_machine h)
  | PostStartNode id =>
      (match registered (mem d) id with Ok config => inl (StartingNode id config) | Err e => inr (Refused e) end, d)
  | StartingNode id config => let '(r, w) := start_reply (super d) config id l in (inr r, with_super w)
  | PostStartAll => (inl (StartingAll (list_nodes (mem d)) (mkStartResult [] [] [])), d)
  | StartingAll [] res => (inr (AllUp res), d)
  | StartingAll (config :: configs) res =>
      let '(res, w) := start_one (super d) config res l in (inl (StartingAll configs res), with_super w)
  | PostStopNode id =>
      (match registered (mem d) id with Ok config => inl (StoppingNode id config) | Err e => inr (Refused e) end, d)
  | StoppingNode id config => let '(x, w) := stop_reply (super d) config id in (x, with_super w)
  | KillingNode id config => (inr (NodeDown id (service_name config)), with_super (stop_end_in (super d)))
  | PostStopAll => (inl (StoppingAll ((fun c => (config_id c, service_name c)) <$> list_nodes (mem d))), d)
  | StoppingAll configs =>
      let '(x, w) := stop_all_reply (super d) configs (mkStopResult [] [] []) in (x, with_super w)
  | KillingAll id name configs res =>
      let res := mkStopResult (stopped res ++ [(id, name)]) (Supervisor.failed res) (already_stopped res) in
      let '(x, w) := stop_all_reply (stop_end_in (super d)) configs res in (x, with_super w)
  | PostReset =>
      let '(running, _, _) := node_counts (sup (super d)) in
      if 0 <? running then (inr (Refused (still_running_error running)), d) else (inl Resetting, d)
  | Resetting =>
      let '(r, h) := reset others p (machine d) in
      (match r with Ok res => inl (Refreshing (AllReset res)) | Err e => inr (Refused (internal e)) end, with_machine h)
  | Refreshing r =>
      let '(fresh, h) := load p (machine d) in
      (inr r, mkDaemon (match fresh with Ok fresh => fresh | Err _ => mem d end) (super d) h)
  end.

(** A handler that runs without others. *)
Fixpoint run_task (fuel : nat) (d : daemon) (t : task) (launches : nat -> launch) : option (reply * daemon) :=
  match fuel with
  | O => None
  | S fuel =>
      if ready d t then
        match task_step d t (launches 0%nat) with
        | (inr r, d) => Some (r, d)
        | (inl t, d) => run_task fuel d t (fun k => launches (S k))
        end
      else None
  end.

(** What a client can ask for. *)
Definition request (t : task) : Prop :=
  match t with
  | PostNodes opts => source_fit p opts
  | DeleteNode _ | PostStartNode _ | PostStartAll | PostStopNode _ | PostStopAll | PostReset => True
  | _ => False
  end.

Definition fresh_launch (w : world) (l : launch) : Prop := forall pid, spawns l = Spawned pid -> fresh w pid.

(** The daemon with its handlers, the monitors of its nodes, and other processes. *)
Inductive daemon_step : daemon * list task -> daemon * list task -> Prop :=
| daemon_request d ts t : request t -> daemon_step (d, ts) (d, t :: ts)
| daemon_task d l1 t l2 l t' d' :
    ready d t = true -> task_step d t l = (inl t', d') -> fresh_launch (super d) l -> daemon_step (d, l1 ++ t :: l2) (d', l1 ++ t' :: l2)
| daemon_reply d l1 t l2 l r d' :
    ready d t = true -> task_step d t l = (inr r, d') -> fresh_launch (super d) l -> daemon_step (d, l1 ++ t :: l2) (d', l1 ++ l2)
| daemon_dropped d l1 t l2 : daemon_step (d, l1 ++ t :: l2) (dropped d t, l1 ++ l2)
| daemon_super d ts w : tick (super d) w -> daemon_step (d, ts) (mkDaemon (mem d) w (machine d), ts)
| daemon_outside d ts h : contract p (machine d) h -> daemon_step (d, ts) (mkDaemon (mem d) (super d) h, ts).

End Steps.

(** ** The supervisor's part *)











(** ** Invariants *)

Section Invariants.
Context `{!Codec serde_json (Z * gmap Z NodeConfig * Z), !CodecLaws serde_json (Z * gmap Z NodeConfig * Z), !BinaryTools}.
Context {stats : Stats} (Hstats : stats_work).
Context (target_os target_arch : string) (ant_dir p : path) (others : host -> host).
Context (Hfit : path_fit ant_dir p) (Hothers : forall h, contract p h (others h)).

Abbreviation task_step := (task_step target_os target_arch ant_dir p others).
Abbreviation daemon_step := (daemon_step target_os target_arch ant_dir p others).



























End Invariants.

(** ** Running nodes *)

Definition runs (w : world) (id : Z) : Prop := is_running (sup w) id = true.








(** ** One request at a time *)

Section Alone.
Context `{!Codec serde_json (Z * gmap Z NodeConfig * Z), !CodecLaws serde_json (Z * gmap Z NodeConfig * Z), !BinaryTools}.
Context {stats : Stats} (Hstats : stats_work).
Context (target_os target_arch : string) (ant_dir p : path) (Hfit : path_fit ant_dir p).

Abbreviation alone := (fun h : host => h).
Abbreviation task_step := (task_step target_os target_arch ant_dir p alone).
Abbreviation run_task := (run_task target_os target_arch ant_dir p alone).

(** The copy in memory is what the file says. *)
Definition in_sync (d : daemon) : Prop := registry_at p (machine d) = Some (mem d).

(** Every node that runs is in the file. *)
Definition no_orphans (d : daemon) : Prop :=
  exists s, registry_at p (machine d) = Some s /\ registry_ok s /\ forall id, runs (super d) id -> is_Some (nodes s !! id).

























End Alone.

(** ** Property *)


(** ** A daemon with two nodes *)

#[local] Existing Instance sample_json.
#[local] Existing Instance sample_json_laws.
#[local] Existing Instances sample_tools sure_stats.

Definition two_nodes : NodeRegistry := mkRegistry 1 (insert_all sample_nodes ∅) 3 registry_file.
Definition two_node_host : host := mkHost (mkDisk {[ registry_file := mkFile [x00] 420 ]} []) ∅.
Definition idle : daemon := mkDaemon two_nodes (init 7) two_node_host.
Definition first_node : NodeConfig := List.hd (build_config sample_opts home "" "" 0 0) sample_nodes.
Definition up_42 : launch := mkLaunch (Spawned 42) StillRunning.
Definition node_1_up : daemon := mkDaemon two_nodes started_world two_node_host.
Definition sample_daemon_step := daemon_step "linux" "x86_64" home registry_file (fun h => h).



Lemma fresh_42 : fresh_launch (init 7) up_42.
Proof. intros pid [= <-]. split; [done|]. intros m Hm. by apply not_elem_of_nil in Hm. Qed.

Lemma start_node_1 : task_step "linux" "x86_64" home registry_file (fun h => h) idle (StartingNode 1 first_node) up_42 =
  (inr (NodeUp 1 "node1" 42), node_1_up).
Proof. by vm_compute. Qed.





(** [post_reset] gives the supervisor's lock back before it resets: a node that is
    started in between runs on, and is no longer in the registry. *)
Lemma reset_forgets_a_node : exists d, rtc sample_daemon_step (idle, []) (d, []) /\
  runs (super d) 1 /\ nodes (mem d) = ∅ /\ in_sync registry_file d /\ ~ no_orphans registry_file d.
Proof.
  set (d1 := (task_step "linux" "x86_64" home registry_file (fun h => h) node_1_up Resetting up_42).2).
  set (r1 := AllReset (mkResetResult 2 [] [])).
  set (d2 := (task_step "linux" "x86_64" home registry_file (fun h => h) d1 (Refreshing r1) up_42).2).
  assert (fresh_launch started_world (mkLaunch NoPid StillRunning)) as Hf by (intros pid [=]).
  exists d2. split; [|split; [by vm_compute | split; [by vm_compute | split; [by vm_compute|]]]].
  - eapply rtc_l; [by apply (daemon_request _ _ _ _ _ idle [] PostReset)|].
    eapply rtc_l; [apply (daemon_task _ _ _ _ _ idle [] PostReset [] up_42 Resetting idle);
      [done | by vm_compute | apply fresh_42]|].
    eapply rtc_l; [by apply (daemon_request _ _ _ _ _ idle [Resetting] (PostStartNode 1))|].
    eapply rtc_l; [apply (daemon_task _ _ _ _ _ idle [] (PostStartNode 1) [Resetting] up_42 (StartingNode 1 first_node) idle);
      [done | by vm_compute | apply fresh_42]|].
    eapply rtc_l; [exact (daemon_reply _ _ _ _ _ idle [] (StartingNode 1 first_node) [Resetting] up_42 _ node_1_up eq_refl start_node_1 fresh_42)|].
    eapply rtc_l; [apply (daemon_task _ _ _ _ _ node_1_up [] Resetting [] (mkLaunch NoPid StillRunning) (Refreshing r1) d1);
      [done | by vm_compute | exact Hf]|].
    eapply rtc_l; [|reflexivity].
    apply (daemon_reply _ _ _ _ _ d1 [] (Refreshing r1) [] (mkLaunch NoPid StillRunning) r1 d2); [done | by vm_compute | exact Hf].
  - intros (s & Hs & _ & Hr). assert (nodes s = ∅) as He by (vm_compute in Hs; injection Hs as <-; by vm_compute).
    destruct (Hr 1 ltac:(by vm_compute)) as [c Hc]. rewrite He in Hc. discriminate.
Qed.

(** When the registry file cannot be looked at, refreshing gives the daemon an empty
    registry, while the file is as it was and the node runs. *)
Lemma unseen_registry_empties_the_daemon r :
  let '(_, d) := task_step (stats := blind) "linux" "x86_64" home registry_file (fun h => h) node_1_up (Refreshing r) up_42 in
  mem d = empty_registry registry_file /\ registry_at registry_file (machine d) = Some two_nodes /\ runs (super d) 1.
Proof. vm_compute. by split_and!. Qed.

(** ** Stopping all nodes *)

Lemma foldr_delete_comm {A} (m : gmap Z A) k l :
  foldr base.delete (base.delete k m) l = base.delete k (foldr base.delete m l).
Proof. induction l as [|x l IH]; cbn; [done|]. by rewrite IH, delete_delete. Qed.

Definition join_stops (r1 r2 : StopNodeResult) : StopNodeResult :=
  mkStopResult (stopped r1 ++ stopped r2) (Supervisor.failed r1 ++ Supervisor.failed r2)
    (already_stopped r1 ++ already_stopped r2).

Section StopAll.
Context `{!Codec serde_json (Z * gmap Z NodeConfig * Z), !BinaryTools} {stats : Stats}.
Context (target_os target_arch : string) (ant_dir p : path) (others : host -> host).

Abbreviation run := (run_task target_os target_arch ant_dir p others).

(** Between its awaits the loop does what [stop_all_nodes] does at once. *)
Lemma stop_all_alone configs d res x w fuel ls : stopping (super d) = None -> (length configs <= fuel)%nat ->
  stop_all_reply (super d) configs res = (x, w) ->
  let '(res', killed, sup') := stop_all_nodes (sup (super d)) configs in
  (match x with
   | inr r => Some (r, mkDaemon (mem d) w (machine d))
   | inl t => run fuel (mkDaemon (mem d) w (machine d)) t ls
   end) =
  Some (AllDown (join_stops res res'),
        mkDaemon (mem d)
          (mkWorld sup' (foldr base.delete (procs (super d)) killed) (monitors (super d)) (now (super d)) None)
          (machine d)).
Proof.
  unfold stop_all_reply.
  revert d res x w fuel ls. induction configs as [|[id name] configs IH]; intros d res x w fuel ls Hn Hf; cbn [stop_next stop_all_nodes].
  { intros [= <- <-]. unfold join_stops. cbn. rewrite !app_nil_r. destruct res, d as [m [s ps ms t st] h]. cbn in *. by subst. }
  cbn [length] in Hf. destruct (node_status (sup (super d)) id) as [st|e] eqn:Est; [destruct st|];
    try (intros Hx; specialize (IH d _ x w fuel ls Hn ltac:(lia) Hx);
         destruct (stop_all_nodes (sup (super d)) configs) as [[r ps] t]; rewrite IH;
         unfold join_stops; cbn; by rewrite <- (assoc_L (++))).
  unfold node_status in Est. destruct (sup (super d) !! id) as [s|] eqn:Es; [|discriminate]. injection Est as Est.
  unfold stop_node, stop_begin_in, stop_begin. rewrite Es, Est. cbn [negb]. rewrite bool_decide_eq_true_2 by done. cbn [negb].
  unfold stop_end. rewrite lookup_insert_eq, insert_insert_eq. cbn [status pid started_at restart_count first_crash_at].
  intros [= <- <-]. destruct fuel as [|fuel]; [lia|]. cbn [run_task ready needs_supervisor andb negb task_step super].
  unfold stop_end_in. cbn [stopping sup procs monitors now]. unfold stop_end. rewrite lookup_insert_eq, insert_insert_eq.
  cbn [fst status pid started_at restart_count first_crash_at].
  set (s1 := <[id := _]> (sup (super d))). set (w1 := mkWorld s1 _ _ _ None).
  unfold stop_all_reply. destruct (stop_next w1 configs _) as [[res1 next] w2] eqn:E.
  specialize (IH (mkDaemon (mem d) w1 (machine d)) (mkStopResult (stopped res ++ [(id, name)]) (Supervisor.failed res) (already_stopped res))).
  cbn [super mem machine] in IH. rewrite E in IH. specialize (IH _ _ fuel (fun k => ls (S k)) eq_refl ltac:(lia) eq_refl).
  change (sup w1) with s1 in IH. destruct (stop_all_nodes s1 configs) as [[r ps] t].
  assert (foldr base.delete (procs w1) ps = foldr base.delete (procs (super d)) match pid s with Some p => p :: ps | None => ps end) as Hps.
  { unfold w1. cbn [procs]. destruct (pid s) as [q|]; cbn; [apply foldr_delete_comm | done]. }
  rewrite Hps in IH. unfold join_stops in *. cbn [stopped Supervisor.failed already_stopped] in *. rewrite <- (assoc_L (++)) in IH. cbn in IH.
  destruct next as [[[i n] rest]|]; exact IH.
Qed.

End StopAll.
