(* ===== verification/DaemonClient.v ===== *)
(** * Starting, finding and stopping the daemon

    [ant-client/ant-core/src/node/daemon/client.rs], with the files that
    [daemon/server.rs] leaves for it: the command line tool finds the daemon by a
    file with its pid and one with its port, asks it over HTTP, and stops it with a
    signal.  What the rest of the machine does while the tool waits is an argument.
    As on Linux. *)

From Stdlib Require Import ZArith Lia Strings.Ascii Strings.String Strings.Byte.
From stdpp Require Import base decidable list strings pretty gmap.
From S2P Require Import Prelude Interfaces Release Files Host Supervisor NodeBinary Registry Daemon.

Local Open Scope Z_scope.

(** ** Numbers as text *)

Definition digit_of (a : ascii) : option N :=
  let n := N_of_ascii a in if (48 <=? n)%N && (n <=? 57)%N then Some (n - 48)%N else None.

Fixpoint parse_digits (s : string) (acc : N) : option N :=
  match s with
  | EmptyString => Some acc
  | String a s => d ← digit_of a; parse_digits s (acc * 10 + d)%N
  end.

(** [parse::<uN>]: a plus sign is accepted, nothing at all and a number above the
    largest are not. *)
Definition parse_uint (max : Z) (s : string) : option Z :=
  let s := match s with String "+"%char s' => s' | _ => s end in
  match s with
  | EmptyString => None
  | _ => n ← parse_digits s 0; if Z.of_N n <=? max then Some (Z.of_N n) else None
  end.

Definition u16_max : Z := 65535.
Definition u32_max : Z := 4294967295.

(** ** The machine *)

(** What [/proc/<pid>/cmdline] holds, [None] when it cannot be read; and whether
    this user may send the process signals. *)
Record process := mkProcess { cmdline : option bytes; ours : bool }.

Record machine := mkMachine { m_host : host; m_procs : gmap Z process; sent : list Z }.

Abbreviation cli := (stres machine core_error).

Definition on_host {A} (m : stres host core_error A) : cli A := fun st =>
  let '(r, h) := m (m_host st) in (r, mkMachine h (m_procs st) (sent st)).

(** A look at the machine. *)
Definition look : cli machine := fun st => (Ok st, st).

Record DaemonConfig := mkDaemonConfig {
  listen_addr : bytes;
  listen_port : option Z;
  dc_registry_path : path;
  log_path : path;
  port_file_path : path;
  pid_file_path : path
}.

Record DaemonInfo := mkDaemonInfo { is_up : bool; info_pid : option Z; info_port : option Z; api_base : option string }.
Record DaemonStartResult := mkDaemonStart { was_running : bool; start_pid : Z; start_port : option Z }.

Definition base_url (port : Z) : string := "http://127.0.0.1:" ++ pretty port ++ "/api/v1".

(** ** The daemon's side: [server::start] and its task's last lines *)

Definition write_file (p : path) (contents : string) : stres host core_error unit :=
  _ ← create_parent p;
  on_disk io_failed (fs_write p (str_to_bytes contents)).

(** The socket is bound to [bound], or is not. *)
Definition server_start (config : DaemonConfig) (own_pid : Z) (bound : result string Z) : stres host core_error Z :=
  bound_port ← st_lift (map_err BindError bound);
  _ ← write_file (port_file_path config) (pretty bound_port);
  _ ← write_file (pid_file_path config) (pretty own_pid);
  mret bound_port.

Definition forget (p : path) : stres host core_error unit := on_disk io_failed (io_ignore (fs_remove_file p)).

Definition server_cleanup (config : DaemonConfig) : stres host core_error unit :=
  _ ← forget (port_file_path config);
  forget (pid_file_path config).

(** ** The tool's side *)

Definition read_text (p : path) : cli (option string) :=
  r ← st_try (on_host (on_disk io_failed (fs_read p)));
  mret (match r with Ok b => Some (String.string_of_list_byte b) | Err _ => None end).

(** Text that is not UTF-8 has no digits only, and is no number either. *)
Definition read_port_file (p : path) : cli (option Z) :=
  s ← read_text p;
  mret (s ← s; parse_uint u16_max (str_trim s)).

Definition read_pid_file (p : path) : cli Z :=
  s ← read_text p;
  contents ← st_lift (ok_or s DaemonNotRunning);
  st_lift (ok_or (parse_uint u32_max (str_trim contents)) DaemonNotRunning).

Definition pid_to_i32 (pid : Z) : option Z := if (0 <? pid) && (pid <=? 2147483647) then Some pid else None.

(** Signal 0 reaches a process or is refused with [EPERM]; both mean that it exists. *)
Definition is_process_alive (pid : Z) (st : machine) : bool :=
  match pid_to_i32 pid with Some pid => bool_decide (is_Some (m_procs st !! pid)) | None => false end.

(** [SIGTERM]; [sent] has the signals that were delivered. *)
Definition send_terminate (pid : Z) : cli unit := fun st =>
  (Ok tt, match pid_to_i32 pid with
          | Some pid =>
              match m_procs st !! pid with
              | Some (mkProcess _ true) => mkMachine (m_host st) (m_procs st) (sent st ++ [pid])
              | _ => st
              end
          | None => st
          end).

Fixpoint split_nul (b word : bytes) : list bytes :=
  match b with
  | [] => [word]
  | c :: b => if Byte.eqb c x00 then word :: split_nul b [] else split_nul b (word ++ [c])
  end.

(** [Path::file_name]. *)
Definition file_name (s : string) : option string :=
  match last (components s) with Some ".."%string => None | name => name end.

(** Bytes that are not UTF-8 are never part of the names that are looked for. *)
Definition daemon_args (raw : bytes) : bool :=
  let args := String.string_of_list_byte <$> filter (fun s => s <> []) (split_nul raw []) in
  let exe_matches :=
    match head args ≫= file_name with
    | Some name => String.eqb name "ant" || String.eqb name "ant.exe"
    | None => false
    end in
  exe_matches && existsb (fun a => String.eqb a "daemon") args.

Definition validate_daemon_process (pid : Z) (st : machine) : bool :=
  match m_procs st !! pid ≫= cmdline with Some raw => daemon_args raw | None => true end.

Definition check_running (pid_file : path) : cli (option Z) :=
  r ← st_try (read_pid_file pid_file);
  st ← look;
  mret (match r with Ok pid => if is_process_alive pid st then Some pid else None | Err _ => None end).

Definition info (config : DaemonConfig) : cli DaemonInfo :=
  s ← read_text (pid_file_path config);
  let pid := s ← s; parse_uint u32_max (str_trim s) in
  port ← read_port_file (port_file_path config);
  st ← look;
  mret (mkDaemonInfo (match pid with Some pid => is_process_alive pid st | None => false end) pid port (base_url <$> port)).

(** *** Waiting; [world k] is what the others do in the [k]-th tenth of a second *)

Section Wait.
Context (world : nat -> list Z -> host * gmap Z process -> host * gmap Z process).

Definition sleep (k : nat) : cli unit := fun st =>
  let '(h, ps) := world k (sent st) (m_host st, m_procs st) in (Ok tt, mkMachine h ps (sent st)).

Fixpoint await_exit (rounds k : nat) (pid : Z) : cli unit :=
  match rounds with
  | O => mret tt
  | S rounds =>
      _ ← sleep k;
      st ← look;
      if is_process_alive pid st then await_exit rounds (S k) pid else mret tt
  end.

Fixpoint await_port (rounds k : nat) (p : path) : cli (option Z) :=
  match rounds with
  | O => mret None
  | S rounds =>
      _ ← sleep k;
      port ← read_port_file p;
      match port with Some port => mret (Some port) | None => await_port rounds (S k) p end
  end.

Definition forget_files (config : DaemonConfig) : cli unit :=
  _ ← on_host (forget (pid_file_path config));
  on_host (forget (port_file_path config)).

Definition stop (config : DaemonConfig) : cli Z :=
  pid ← read_pid_file (pid_file_path config);
  st ← look;
  if negb (is_process_alive pid st) then _ ← forget_files config; mret pid
  else if negb (validate_daemon_process pid st) then
    _ ← forget_files config;
    st_lift (Err (DaemonStopFailed "PID {pid} is alive but does not appear to be the ant daemon (possible PID reuse). Stale PID file removed."))
  else
    _ ← send_terminate pid;
    _ ← await_exit 50 0 pid;
    st ← look;
    if is_process_alive pid st then st_lift (Err (DaemonStopFailed "Daemon (PID {pid}) is still alive after 5 seconds"))
    else _ ← forget_files config; mret pid.

(** The process is in the table as soon as [spawn] returns. *)
Definition spawn_detached (exe : string) (args : list string) (spawned : option Z) : cli Z := fun st =>
  match spawned with
  | Some pid =>
      (Ok pid, mkMachine (m_host st)
         (<[pid := mkProcess (Some (concat ((fun a => str_to_bytes a ++ [x00]) <$> exe :: args))) true]> (m_procs st)) (sent st))
  | None => (Err (ProcessSpawn "Failed to spawn detached process: {e}"), st)
  end.

(** [exe] is the path of this program, or [None] inside when it is not UTF-8. *)
Definition start (config : DaemonConfig) (exe : result string (option string)) (spawned : option Z) : cli DaemonStartResult :=
  running ← check_running (pid_file_path config);
  match running with
  | Some pid => port ← read_port_file (port_file_path config); mret (mkDaemonStart true pid port)
  | None =>
      exe ← st_lift (map_err (fun _ => ProcessSpawn "Failed to get current executable: {e}") exe);
      exe_str ← st_lift (ok_or exe (ProcessSpawn "Executable path is not valid UTF-8"));
      pid ← spawn_detached exe_str ["node"; "daemon"; "run"] spawned;
      port ← await_port 20 0 (port_file_path config);
      mret (mkDaemonStart false pid port)
  end.
End Wait.

(** *** Requests *)

Section Requests.
(** One request: no answer, or its status and its body, which may break off.  [POST]
    is [true]. *)
Context (http : bool -> string -> option (Z * option bytes)).
Context `{!Codec serde_json DaemonStatus, !Codec serde_json NodeStatusResult, !Codec serde_json StartNodeResult,
  !Codec serde_json StopNodeResult}.

(** The answers about one node; [NodeStarted] and [NodeStopped] of [types.rs]. *)
Context `{!Codec serde_json (Z * string * Z), !Codec serde_json (Z * string)}.

Definition offline (port : option Z) : DaemonStatus := mkDaemonStatus false None port None 0 0 0 0.

Definition json {A} `{!Codec serde_json A} (body : option bytes) : result core_error A :=
  ok_or (body ≫= de serde_json) (HttpRequest "{e}").

Definition status (config : DaemonConfig) : cli DaemonStatus :=
  port ← read_port_file (port_file_path config);
  match port with
  | None => mret (offline None)
  | Some port =>
      match http false (base_url port ++ "/status") with
      | Some (_, body) => st_lift (json body)
      | None => mret (offline (Some port))
      end
  end.

(** What the five requests share.  The text of a refusal is passed on. *)
Definition request {A} `{!Codec serde_json A} (post : bool) (config : DaemonConfig) (rest : string) : cli A :=
  port ← read_port_file (port_file_path config);
  port ← st_lift (ok_or port DaemonNotRunning);
  st_lift
    (match http post (base_url port ++ rest) with
     | Some (code, body) =>
         if (200 <=? code) && (code <? 300) then json body
         else Err (HttpRequest (String.string_of_list_byte (default [] body)))
     | None => Err (HttpRequest "{e}")
     end).

Definition start_node (config : DaemonConfig) (node_id : Z) : cli (Z * string * Z) :=
  request true config ("/nodes/" ++ pretty node_id ++ "/start").
Definition start_all_nodes (config : DaemonConfig) : cli StartNodeResult := request true config "/nodes/start-all".
Definition stop_node (config : DaemonConfig) (node_id : Z) : cli (Z * string) :=
  request true config ("/nodes/" ++ pretty node_id ++ "/stop").
Definition stop_all_nodes (config : DaemonConfig) : cli StopNodeResult := request true config "/nodes/stop-all".
Definition node_status (config : DaemonConfig) : cli NodeStatusResult := request false config "/nodes/status".
End Requests.

(** ** Numbers as text, and back *)

Lemma digit_of_char d : (d < 10)%N -> digit_of (pretty_N_char d) = Some d.
Proof. intros Hd. destruct d as [|p]; [done|]. do 4 (destruct p as [p|p|]; try done; try lia). Qed.

Lemma parse_go x : forall s, parse_digits (pretty_N_go x s) 0 = parse_digits s x.
Proof.
  induction (N.lt_wf_0 x) as [x _ IH]. intros s. destruct (decide (x = 0)%N) as [->|Hx]; [done|].
  rewrite pretty_N_go_step, IH by first [lia | apply N.div_lt; lia]. cbn [parse_digits].
  pose proof (N.mod_lt x 10). rewrite digit_of_char by lia. cbn [mbind option_bind]. f_equal.
  rewrite (N.div_mod' x 10) at 3. lia.
Qed.

Definition all_digits (s : string) : Prop := Forall (fun a => is_Some (digit_of a)) (String.list_ascii_of_string s).

Lemma go_digits x : forall s, all_digits s -> all_digits (pretty_N_go x s).
Proof.
  induction (N.lt_wf_0 x) as [x _ IH]. intros s Hs. destruct (decide (x = 0)%N) as [->|Hx]; [done|].
  rewrite pretty_N_go_step by lia. apply IH; [apply N.div_lt; lia|]. constructor; [|done].
  rewrite digit_of_char; [by eexists|]. pose proof (N.mod_lt x 10). lia.
Qed.

Lemma digit_not_white a s : is_Some (digit_of a) -> white_len (String a s) = 0%nat.
Proof.
  intros [d Hd]. destruct a as [[] [] [] [] [] [] [] []]; first [discriminate Hd | reflexivity].
Qed.

Lemma trim_start_digits s : all_digits s -> trim_start s = s.
Proof.
  destruct s as [|a s]; [done|]. intros Hs. apply Forall_inv in Hs. unfold trim_start. cbn [String.length skip_white].
  by rewrite (digit_not_white a s Hs).
Qed.

Lemma trim_end_digits s : all_digits s -> trim_end s = s.
Proof.
  induction s as [|a s IH]; [done|]. intros Hs. cbn [trim_end]. rewrite (trim_start_digits _ Hs).
  cbn. f_equal. apply IH. by apply Forall_inv_tail in Hs.
Qed.

Lemma pretty_nonneg n : 0 <= n -> exists s, pretty n = s /\ all_digits s /\ parse_digits s 0 = Some (Z.to_N n) /\ s <> EmptyString.
Proof.
  destruct n as [|p|p]; intros Hn; [|eexists; split; [reflexivity|]|lia].
  { exists "0"%string. split; [done|]. split; [by repeat constructor; eexists|]. done. }
  change (pretty (Z.pos p)) with (pretty_N_go (N.pos p) ""). rewrite parse_go.
  split; [apply go_digits; constructor|]. split; [done|]. intros He. pose proof (parse_go (N.pos p) "") as Hp. by rewrite He in Hp.
Qed.

(** What the daemon writes the tool reads. *)
Lemma parse_pretty max n : 0 <= n <= max -> parse_uint max (str_trim (pretty n)) = Some n.
Proof.
  intros Hn. destruct (pretty_nonneg n) as (s & -> & Hs & Hp & Hne); [lia|].
  unfold str_trim. rewrite (trim_start_digits _ Hs), (trim_end_digits _ Hs). unfold parse_uint.
  assert (match s with String "+" s' => s' | _ => s end = s)%char as ->.
  { destruct s as [|a s]; [done|]. apply Forall_inv in Hs as [d Hd].
    destruct a as [[] [] [] [] [] [] [] []]; first [discriminate Hd | reflexivity]. }
  destruct s as [|a s]; [done|]. rewrite Hp. cbn [mbind option_bind]. rewrite Z2N.id by lia.
  by rewrite (proj2 (Z.leb_le _ _)) by lia.
Qed.

(** ** Reasoning about the tool *)

Definition cwp {A} (m : cli A) (st : machine) (Q : result core_error A -> machine -> Prop) : Prop :=
  let '(r, st') := m st in Q r st'.

Lemma cwp_bind {A B} (m : cli A) (f : A -> cli B) st Q :
  cwp m st (fun r st' => match r with Ok a => cwp (f a) st' Q | Err e => Q (Err e) st' end) -> cwp (m ≫= f) st Q.
Proof. unfold cwp, mbind, stres_bind. destruct (m st) as [[a|e] st']; auto. Qed.

Lemma cwp_mono {A} (m : cli A) st (Q Q' : result core_error A -> machine -> Prop) :
  cwp m st Q -> (forall r st', Q r st' -> Q' r st') -> cwp m st Q'.
Proof. unfold cwp. destruct (m st). auto. Qed.

(** Nothing but the list of faults has changed. *)
Definition same (st st' : machine) : Prop :=
  host_files (m_host st') = host_files (m_host st) /\ m_procs st' = m_procs st /\ sent st' = sent st.

(** The pid in a file. *)
Definition recorded (p : path) (pid : Z) (st : machine) : Prop :=
  exists f, host_files (m_host st) !! p = Some f /\
    parse_uint u32_max (str_trim (String.string_of_list_byte (data f))) = Some pid.

Lemma cwp_read_pid p st Q :
  (forall r st', same st st' -> (r = Err DaemonNotRunning \/ exists pid, r = Ok pid /\ recorded p pid st) -> Q r st') ->
  cwp (read_pid_file p) st Q.
Proof.
  intros HQ. unfold read_pid_file, read_text. apply cwp_bind. unfold cwp at 1, st_try, on_host, mbind, stres_bind.
  pose proof (hwp_read io_failed p (m_host st)
    (fun r h' => host_files h' = host_files (m_host st) /\
       match r with Ok b => exists f, host_files (m_host st) !! p = Some f /\ b = data f | Err _ => True end)) as Hr.
  unfold hwp in Hr. destruct (on_disk io_failed (fs_read p) (m_host st)) as [[b|e] h'] eqn:E; cbn.
  - destruct Hr as (Hh & f & Hf & ->); [done | by intros; split; eauto|].
    destruct (parse_uint _ _) as [pid|] eqn:Ep; cbn; apply HQ; [by repeat split | | by repeat split | by left].
    right. exists pid. split; [done|]. by exists f.
  - destruct Hr as [Hh _]; [done | by intros; split; eauto|]. apply HQ; [by repeat split | by left].
Qed.

(** What the tool and the world do to the files leaves the table and the signals
    alone. *)
Lemma cwp_forget config st Q :
  (forall st', m_procs st' = m_procs st -> sent st' = sent st -> Q (Ok tt) st') -> cwp (forget_files config) st Q.
Proof.
  intros HQ.
  assert (forall p h, exists h', forget p h = (Ok tt, h')) as Hf.
  { intros p h. unfold forget, on_disk, io_ignore, io_try, mbind, io_bind.
    destruct (fs_remove_file p (disk_of h)) as [r d]. by eexists. }
  unfold forget_files. apply cwp_bind. unfold cwp at 1, on_host.
  destruct (Hf (pid_file_path config) (m_host st)) as [h1 ->]. unfold cwp, on_host. cbn [m_host].
  destruct (Hf (port_file_path config) h1) as [h2 ->]. by apply HQ.
Qed.

Lemma same_alive pid st st' : m_procs st' = m_procs st -> is_process_alive pid st' = is_process_alive pid st.
Proof. unfold is_process_alive. by intros ->. Qed.

Section Stop.
Context (world : nat -> list Z -> host * gmap Z process -> host * gmap Z process).

Lemma cwp_await rounds pid Q : forall k st,
  (forall st', sent st' = sent st -> Q (Ok tt) st') -> cwp (await_exit world rounds k pid) st Q.
Proof.
  induction rounds as [|rounds IH]; intros k st HQ; [by apply HQ|]. cbn [await_exit]. apply cwp_bind.
  unfold cwp at 1, sleep. destruct (world k (sent st) _) as [h ps]. apply cwp_bind. unfold cwp at 1, look.
  destruct (is_process_alive _ _); [|by apply HQ]. by apply IH.
Qed.

(** Whatever else happens on the machine, and whichever file operations fail, [stop]
    sends at most one signal.  It goes to the process whose pid is in the pid file,
    which runs as this user and is, as far as its command line can be read, [ant]
    with the argument [daemon]: a process that got the pid of a daemon that crashed
    is left alone.  When [stop] succeeds, the pid was in the file and no process has
    it any more. *)
Theorem stop_signals_only_the_daemon (config : DaemonConfig) (st : machine) :
  let '(r, st') := stop world config st in
  (sent st' = sent st \/
   exists pid raw, recorded (pid_file_path config) pid st /\ sent st' = sent st ++ [pid] /\
     m_procs st !! pid = Some (mkProcess raw true) /\ match raw with Some b => daemon_args b = true | None => True end) /\
  (forall pid, r = Ok pid -> recorded (pid_file_path config) pid st /\ is_process_alive pid st' = false).
Proof.
  change (cwp (stop world config) st (fun r st' =>
    (sent st' = sent st \/
     exists pid raw, recorded (pid_file_path config) pid st /\ sent st' = sent st ++ [pid] /\
       m_procs st !! pid = Some (mkProcess raw true) /\ match raw with Some b => daemon_args b = true | None => True end) /\
    (forall pid, r = Ok pid -> recorded (pid_file_path config) pid st /\ is_process_alive pid st' = false))).
  unfold stop. apply cwp_bind, cwp_read_pid. intros r st1 (_ & Hp1 & Hs1) [->|(pid & -> & Hrec)].
  { split; [by left | by intros pid [=]]. }
  apply cwp_bind. unfold cwp at 1, look.
  destruct (is_process_alive pid st1) eqn:Ea; cbn [negb].
  2:{ apply cwp_bind, cwp_forget. intros st2 Hp2 Hs2. split; [left; by rewrite Hs2|].
      intros pid' [= <-]. split; [done|]. by rewrite (same_alive _ st1). }
  destruct (validate_daemon_process pid st1) eqn:Ev; cbn [negb].
  2:{ apply cwp_bind, cwp_forget. intros st2 Hp2 Hs2. split; [left; by rewrite Hs2 | by intros pid' [=]]. }
  apply cwp_bind. unfold cwp at 1, send_terminate. cbv beta iota. set (st2 := match pid_to_i32 pid with Some _ => _ | None => _ end).
  assert (sent st2 = sent st \/ exists raw, sent st2 = sent st ++ [pid] /\ m_procs st !! pid = Some (mkProcess raw true) /\
    match raw with Some b => daemon_args b = true | None => True end) as Hsig.
  { unfold st2, is_process_alive, pid_to_i32, validate_daemon_process in *. rewrite Hp1 in Ev. rewrite Hp1.
    destruct (_ && _); [|by left]. destruct (m_procs st !! pid) as [[raw []]|]; [|by left..].
    right. exists raw. split; [by cbn; rewrite Hs1|]. split; [done|]. by destruct raw. }
  apply cwp_bind, cwp_await. intros st3 Hs3. apply cwp_bind. unfold cwp at 1, look.
  assert (forall st' : machine, sent st' = sent st3 -> sent st' = sent st \/
    exists pid raw, recorded (pid_file_path config) pid st /\ sent st' = sent st ++ [pid] /\
      m_procs st !! pid = Some (mkProcess raw true) /\ match raw with Some b => daemon_args b = true | None => True end) as Hdone.
  { intros st' ->. rewrite Hs3. destruct Hsig as [?|(raw & ?)]; [by left | right]. by exists pid, raw. }
  destruct (is_process_alive pid st3) eqn:E3; [split; [by apply Hdone | by intros pid' [=]]|].
  apply cwp_bind, cwp_forget. intros st4 Hp4 Hs4. split; [by apply Hdone|].
  intros pid' [= <-]. split; [done|]. by rewrite (same_alive _ st3).
Qed.
End Stop.

(** ** The daemon that was started is found *)

Definition holds (p : path) (text : string) (h : host) : Prop :=
  exists f, host_files h !! p = Some f /\ data f = str_to_bytes text.

Lemma write_file_holds p text h (Q : result core_error unit -> host -> Prop) :
  (forall e h', Q (Err e) h') ->
  (forall h', holds p text h' -> (forall q t, q <> p -> holds q t h -> holds q t h') -> Q (Ok tt) h') ->
  hwp (write_file p text) h Q.
Proof.
  intros He Ho. unfold write_file. apply hwp_bind.
  eapply hwp_mono; [apply create_parent_spec|]. intros [[]|e] h1 [Hh1 _]; [|apply He]. apply hwp_write; [intros; apply He|].
  intros h2 _ Hh2. apply Ho.
  - unfold holds. rewrite Hh2. apply put_data_same.
  - intros q t Hq. unfold holds. rewrite Hh2, put_data_ne, Hh1 by done. auto.
Qed.

Lemma read_text_holds p text st :
  holds p text (m_host st) -> faults (disk_of (m_host st)) = [] -> read_text p st = (Ok (Some text), st).
Proof.
  destruct st as [[[m fs] ds] ps log]. unfold holds, host_files. cbn. intros (f & Hf & Hd) ->.
  unfold read_text, st_try, on_host, on_disk, fs_read, io_call, next_fault, mbind, stres_bind. cbn. rewrite Hf, Hd. cbn.
  unfold str_to_bytes. by rewrite String.string_of_list_byte_of_string.
Qed.

(** The machine after [k] waits. *)
Fixpoint slept (world : nat -> list Z -> host * gmap Z process -> host * gmap Z process) (k : nat) (st : machine) : machine :=
  match k with O => st | S k => (sleep world k (slept world k st)).2 end.

Lemma await_exit_sees world pid st : forall rounds k j,
  (k <= j < k + rounds)%nat -> is_process_alive pid (slept world (S j) st) = false ->
  exists st', await_exit world rounds k pid (slept world k st) = (Ok tt, st') /\ is_process_alive pid st' = false.
Proof.
  induction rounds as [|rounds IH]; intros k j Hj Hd; [lia|]. cbn [await_exit]. unfold mbind, stres_bind.
  assert (sleep world k (slept world k st) = (Ok tt, slept world (S k) st)) as ->
    by (cbn [slept]; unfold sleep; destruct (world k _ _); reflexivity).
  cbn [look]. destruct (is_process_alive pid (slept world (S k) st)) eqn:E; [|by eexists].
  apply (IH (S k) j); [|done]. enough (j <> k) by lia. intros ->. congruence.
Qed.

Lemma server_start_holds config own_pid bound h port h' :
  port_file_path config <> pid_file_path config -> server_start config own_pid (Ok bound) h = (Ok port, h') ->
  port = bound /\ holds (port_file_path config) (pretty bound) h' /\ holds (pid_file_path config) (pretty own_pid) h'.
Proof.
  intros Hne Hs.
  assert (hwp (server_start config own_pid (Ok bound)) h (fun r h' => forall port, r = Ok port ->
    port = bound /\ holds (port_file_path config) (pretty bound) h' /\ holds (pid_file_path config) (pretty own_pid) h')) as Hw.
  { unfold server_start. apply hwp_bind, hwp_lift. cbn [map_err]. apply hwp_bind, write_file_holds; [by intros|].
    intros h1 H1 _. apply hwp_bind, write_file_holds; [by intros|]. intros h2 H2 H12. apply hwp_ret.
    intros ? [= <-]. split; [done|]. split; [by apply H12 | done]. }
  unfold hwp in Hw. rewrite Hs in Hw. by apply Hw.
Qed.

(** A daemon that has written its files, with the two kept apart and numbers that
    fit their types, is found by the tool: [info] has its pid and its port, [start]
    does not start a second one while its process lives, and [stop] ends with its
    pid when the process, being [ant ... daemon] of this user, goes away within fifty
    waits of the signal. *)
Theorem started_daemon_is_found (config : DaemonConfig) (own_pid bound port : Z) (h h' : host)
    (ps : gmap Z process) (log : list Z) :
  port_file_path config <> pid_file_path config ->
  0 <= bound <= u16_max -> 0 <= own_pid <= u32_max ->
  server_start config own_pid (Ok bound) h = (Ok port, h') -> faults (disk_of h') = [] ->
  let st := mkMachine h' ps log in
  info config st =
    (Ok (mkDaemonInfo (is_process_alive own_pid st) (Some own_pid) (Some bound) (Some (base_url bound))), st) /\
  (is_process_alive own_pid st = true ->
   (forall world exe spawned, start world config exe spawned st = (Ok (mkDaemonStart true own_pid (Some bound)), st)) /\
   (forall world raw k, ps !! own_pid = Some (mkProcess (Some raw) true) -> daemon_args raw = true -> (k < 50)%nat ->
    is_process_alive own_pid (slept world (S k) (mkMachine h' ps (log ++ [own_pid]))) = false ->
    (stop world config st).1 = Ok own_pid)).
Proof.
  intros Hne Hb Hp Hs Hc st. destruct (server_start_holds _ _ _ _ _ _ Hne Hs) as (_ & Hport & Hpid).
  pose proof (read_text_holds _ _ st Hport Hc) as Rport. pose proof (read_text_holds _ _ st Hpid Hc) as Rpid.
  assert (read_port_file (port_file_path config) st = (Ok (Some bound), st)) as Rp.
  { unfold read_port_file, mbind, stres_bind. rewrite Rport. cbn. by rewrite parse_pretty. }
  assert (read_pid_file (pid_file_path config) st = (Ok own_pid, st)) as Ri.
  { unfold read_pid_file, mbind, stres_bind. rewrite Rpid. cbn. by rewrite parse_pretty. }
  split.
  { unfold info, mbind, stres_bind. rewrite Rpid. cbn [option_bind]. rewrite parse_pretty by done. by rewrite Rp. }
  intros Ha. split.
  - intros world exe spawned. unfold start, check_running, st_try, mbind, stres_bind. rewrite Ri. cbn. rewrite Ha.
    by rewrite Rp.
  - intros world raw k Hproc Hargs Hk Hdead. unfold stop, mbind, stres_bind. rewrite Ri. cbn [look].
    assert (validate_daemon_process own_pid st = true) as Hv
      by (unfold validate_daemon_process, st; cbn; by rewrite Hproc).
    rewrite Ha, Hv. cbn [negb].
    assert (send_terminate own_pid st = (Ok tt, mkMachine h' ps (log ++ [own_pid]))) as ->.
    { unfold send_terminate, is_process_alive, pid_to_i32 in *. destruct (_ && _); [|done]. cbn. by rewrite Hproc. }
    destruct (await_exit_sees world own_pid _ 50 0 k ltac:(lia) Hdead) as (st' & Hw & Hd). cbn [slept] in Hw.
    rewrite Hw. cbn [look]. rewrite Hd.
    pose proof (cwp_forget config st' (fun r _ => r = Ok tt) (fun _ _ _ => eq_refl)) as Hf. unfold cwp in Hf.
    destruct (forget_files config st') as [[u|e] st'']; [reflexivity | discriminate Hf].
Qed.

(** ** A machine *)

Definition sample_daemon_config : DaemonConfig :=
  mkDaemonConfig [x7f; x00; x00; x01] None ["home"; "node_registry.json"] ["home"; "daemon.log"]
    ["home"; "daemon.port"] ["home"; "daemon.pid"]%string.

Definition daemon_process : process :=
  mkProcess (Some (concat ((fun a => str_to_bytes a ++ [x00]) <$> ["/usr/bin/ant"; "node"; "daemon"; "run"]%string))) true.
Definition other_process : process := mkProcess (Some (str_to_bytes "/usr/bin/phantom-daemon" ++ [x00])) true.

Definition no_files : host := mkHost (mkDisk ∅ []) ∅.
Definition announced (pid port : Z) (h : host) : host := (server_start sample_daemon_config pid (Ok port) h).2.

(** A daemon that exits, and removes its files, when it is signalled. *)
Definition obedient (pid : Z) (_ : nat) (sent : list Z) (m : host * gmap Z process) : host * gmap Z process :=
  if bool_decide (pid ∈ sent) then ((server_cleanup sample_daemon_config m.1).2, base.delete pid m.2) else m.

Lemma started_daemon_is_found_witness :
  let st := mkMachine (announced 8 5000 no_files) {[ 8 := daemon_process ]} [] in
  info sample_daemon_config st =
    (Ok (mkDaemonInfo true (Some 8) (Some 5000) (Some "http://127.0.0.1:5000/api/v1"%string)), st) /\
  (stop (obedient 8) sample_daemon_config st).1 = Ok 8.
Proof.
  destruct (started_daemon_is_found sample_daemon_config 8 5000 5000 no_files (announced 8 5000 no_files)
    {[ 8 := daemon_process ]} []) as [Hi Hr]; [done | done | done | reflexivity | reflexivity |].
  destruct Hr as [_ Hstop]; [reflexivity|]. split; [exact Hi|].
  apply (Hstop (obedient 8) _ 0%nat eq_refl); [reflexivity | lia | reflexivity].
Defined.

(** A daemon that crashed leaves its port file, and [start] takes its port for that
    of the new daemon, which has not written its own yet. *)
Definition announcing (pid port : Z) (k : nat) (_ : list Z) (m : host * gmap Z process) : host * gmap Z process :=
  if (k =? 3)%nat then (announced pid port m.1, m.2) else m.

Lemma stale_port_is_reported :
  let st := mkMachine (announced 7 4000 no_files) ∅ [] in
  (start (announcing 8 5000) sample_daemon_config (Ok (Some "/usr/bin/ant"%string)) (Some 8) st).1 =
    Ok (mkDaemonStart false 8 (Some 4000)).
Proof. vm_compute. reflexivity. Qed.

(** When the pid of a daemon that crashed was given to another process, [start] says
    that the daemon is running; [stop] sees that it is not. *)
Lemma reused_pid_prevents_start :
  let st := mkMachine (announced 7 4000 no_files) {[ 7 := other_process ]} [] in
  (start (fun _ _ m => m) sample_daemon_config (Ok (Some "/usr/bin/ant"%string)) (Some 8) st).1 =
    Ok (mkDaemonStart true 7 (Some 4000)) /\
  is_ok (stop (fun _ _ m => m) sample_daemon_config st).1 = false.
Proof. vm_compute. split; reflexivity. Qed.

(** A daemon that needs more than two seconds to write its files is started twice. *)
Lemma slow_daemon_is_started_twice :
  let st := mkMachine no_files ∅ [] in
  let '(r1, st1) := start (fun _ _ m => m) sample_daemon_config (Ok (Some "/usr/bin/ant"%string)) (Some 8) st in
  let '(r2, st2) := start (fun _ _ m => m) sample_daemon_config (Ok (Some "/usr/bin/ant"%string)) (Some 9) st1 in
  r1 = Ok (mkDaemonStart false 8 None) /\ r2 = Ok (mkDaemonStart false 9 None) /\
  m_procs st2 = {[ 8 := daemon_process; 9 := daemon_process ]}.
Proof. vm_compute. repeat split; reflexivity. Qed.
