(* ===== verification/Wallet.v ===== *)
(** * Rewards addresses

    [ant-node/src/payment/wallet.rs] and [EvmNetworkConfig] of
    [ant-node/src/config.rs]: the address a node is paid at.  The node manager of
    the native client checks the addresses it hands to nodes with code of its own
    ([Registry.validate_rewards_address]); the two are proved to agree. *)

From Stdlib Require Import ZArith Lia Strings.Ascii Strings.String.
From stdpp Require Import base decidable list strings.
From S2P Require Import Prelude Hex Storage Release Supervisor NodeBinary Registry.

Local Open Scope Z_scope.

Inductive EvmNetworkConfig := ArbitrumOne | ArbitrumSepolia.
#[export] Instance EvmNetworkConfig_eq_dec : EqDecision EvmNetworkConfig.
Proof. solve_decision. Defined.

(** [evmlib::Network]; a custom network is known by its RPC address. *)
Inductive EvmNetwork := EvmArbitrumOne | EvmArbitrumSepoliaTest | EvmCustom (rpc_url : string).
#[export] Instance EvmNetwork_eq_dec : EqDecision EvmNetwork.
Proof. solve_decision. Defined.

Definition evm_network_of (c : EvmNetworkConfig) : EvmNetwork :=
  match c with ArbitrumOne => EvmArbitrumOne | ArbitrumSepolia => EvmArbitrumSepoliaTest end.

(** [copy_from_slice] panics unless it gets 20 bytes: it always does, by
    [parsed_address]. *)
Definition parse_rewards_address (address : string) : result NodeError bytes :=
  if negb (String.prefix "0x" address) && negb (String.prefix "0X" address) then
    Err (PaymentError "Invalid rewards address format: must start with '0x', got: {address}")
  else if negb (String.length address =? 42)%nat then
    Err (PaymentError "Invalid rewards address length: expected 42 characters, got {len}")
  else
    let hex_part := str_drop 2 address in
    if negb (all_hex hex_part) then
      Err (PaymentError "Invalid rewards address: contains non-hex characters: {address}")
    else
      ok_or (hex_decode hex_part) (PaymentError "Failed to decode rewards address: {e}").

Definition is_valid_address (address : string) : bool := is_ok (parse_rewards_address address).

Record WalletConfig := mkWallet { w_rewards_address : option bytes; w_network : EvmNetwork }.

Definition wallet_new (rewards_address : option string) (evm_network : EvmNetworkConfig) : result NodeError WalletConfig :=
  rewards_address ← match rewards_address with
                    | Some a => a ← parse_rewards_address a; Ok (Some a)
                    | None => Ok None
                    end;
  Ok (mkWallet rewards_address (evm_network_of evm_network)).

Definition has_rewards_address (w : WalletConfig) : bool := bool_decide (is_Some (w_rewards_address w)).
Definition get_rewards_address (w : WalletConfig) : option bytes := w_rewards_address w.
Definition is_mainnet (w : WalletConfig) : bool := bool_decide (w_network w = EvmArbitrumOne).

(** ** What is accepted *)

(** "0x" or "0X" and 40 digits. *)
Definition address_text (s : string) : Prop :=
  exists h, (s = "0x" +:+ h \/ s = "0X" +:+ h) /\ String.length h = 40%nat /\ all_hex h = true.

Lemma prefix_split p s : String.prefix p s = true <-> exists h, s = p +:+ h.
Proof.
  revert s. induction p as [|c p IH]; intros s; [split; [by exists s | by destruct s]|].
  destruct s as [|c' s]; [split; [done|]; by intros [h [=]]|]. cbn [String.prefix]. destruct (ascii_dec c c') as [->|Hc].
  - rewrite IH. split; intros [h Hh]; exists h; [by rewrite Hh | by injection Hh].
  - split; [done|]. by intros [h [= -> ->]].
Qed.

Lemma starts_0x s : String.prefix "0x" s || String.prefix "0X" s = true <->
  exists h, (s = "0x" +:+ h \/ s = "0X" +:+ h) /\ str_drop 2 s = h /\ String.length s = S (S (String.length h)).
Proof.
  rewrite orb_true_iff, !prefix_split. split.
  - intros [[h ->]|[h ->]]; exists h; auto.
  - intros (h & [->| ->] & _); [left | right]; by exists h.
Qed.

(** The checks, and what they leave for [hex::decode] and [copy_from_slice]. *)
Lemma parsed_address s :
  match parse_rewards_address s with
  | Ok a => address_text s /\ length a = 20%nat /\ hex_decode (str_drop 2 s) = Some a
  | Err _ => ~ address_text s
  end.
Proof.
  unfold parse_rewards_address, address_text. rewrite <- negb_orb.
  destruct (String.prefix "0x" s || String.prefix "0X" s) eqn:Ep; cbn [negb].
  2:{ intros (h & Hs & _). enough (String.prefix "0x" s || String.prefix "0X" s = true) by congruence.
      apply starts_0x. exists h. destruct Hs as [->| ->]; auto. }
  apply starts_0x in Ep as (h & Hs & Hd & Hl). rewrite Hd, Hl.
  assert (forall h', (s = "0x" +:+ h' \/ s = "0X" +:+ h') -> h' = h) as Hone.
  { intros h' [->| ->]; rewrite <- Hd; reflexivity. }
  destruct (Nat.eqb_spec (S (S (String.length h))) 42) as [H40|H40]; cbn [negb].
  2:{ intros (h' & ->%Hone & Hl' & _). lia. }
  destruct (all_hex h) eqn:Eh; cbn [negb]; [|intros (h' & ->%Hone & _ & ?); congruence].
  pose proof (hex_decode_spec 20 h ltac:(lia)) as Hspec.
  destruct (hex_decode h) as [a|] eqn:Ea; cbn [ok_or]; [|congruence].
  split; [|by destruct Hspec]. exists h. repeat split; [done|lia|done].
Qed.

Lemma is_valid_address_spec s : is_valid_address s = true <-> address_text s.
Proof.
  unfold is_valid_address. pose proof (parsed_address s) as Hs.
  destruct (parse_rewards_address s); cbn; split; try done; by intros; destruct Hs.
Qed.

(** An address is read back from its text. *)
Lemma parse_address_text a : length a = 20%nat -> parse_rewards_address ("0x" +:+ hex_encode a) = Ok a.
Proof.
  intros Ha. pose proof (parsed_address ("0x" +:+ hex_encode a)) as Hs.
  destruct (parse_rewards_address _) as [b|e].
  - destruct Hs as (_ & _ & Hb). change (str_drop 2 _) with (hex_encode a) in Hb.
    rewrite hex_decode_encode in Hb. congruence.
  - destruct Hs. exists (hex_encode a). split; [auto|]. rewrite length_hex_encode, Ha. split; [done|]. apply all_hex_encode.
Qed.

(** The manager accepts what a node accepts, with blanks around it. *)
Lemma managers_and_nodes_agree s : is_ok (validate_rewards_address s) = is_valid_address (str_trim s).
Proof.
  apply Bool.eq_iff_eq_true. rewrite is_valid_address_spec. unfold validate_rewards_address, address_text.
  set (t := str_trim s). destruct (String.eqb_spec t "") as [->|_].
  { split; [done|]. by intros (h & [[=]|[=]] & _). }
  destruct (String.prefix "0x" t || String.prefix "0X" t) eqn:Ep; cbn [negb].
  2:{ split; [done|]. intros (h & Ht & _). enough (String.prefix "0x" t || String.prefix "0X" t = true) by congruence.
      apply starts_0x. exists h. destruct Ht as [->| ->]; auto. }
  apply starts_0x in Ep as (h & Ht & Hd & _). rewrite Hd.
  assert (forall h', (t = "0x" +:+ h' \/ t = "0X" +:+ h') -> h' = h) as Hone.
  { intros h' [H'|H']; rewrite <- Hd, H'; reflexivity. }
  destruct (Nat.eqb_spec (String.length h) 40) as [H40|H40]; cbn [negb].
  2:{ split; [done|]. by intros (h' & ->%Hone & ? & _). }
  destruct (all_hex h) eqn:Eh; cbn [negb is_ok]; split; try done; [by exists h|].
  intros (h' & ->%Hone & _ & ?). congruence.
Qed.
