(* ===== verification/NodeConfig.v ===== *)
(** * The configuration of a node

    [ant-node/src/config.rs] and [ant-node/src/bin/ant-node/cli.rs]: the options of
    a node, their TOML file, the file of bootstrap peers that is looked for in
    several places, and the command line that is laid over them.  The TOML library
    is a class; what the [Serialize] and [Deserialize] attributes make of a value is
    written out over [toml].  The text of a file that is not UTF-8 counts as one that does
    not parse. *)

From Stdlib Require Import ZArith Lia Strings.Ascii Strings.String Strings.Byte.
From stdpp Require Import base decidable list strings gmap.
From S2P Require Import Prelude Protocol Storage Release Files Host Wallet.

Local Open Scope Z_scope.

Abbreviation nio := (stres host NodeError).

(** ** TOML *)

(** Floats and dates are not used. *)
Inductive toml :=
| TInt (z : Z) | TStr (s : string) | TBool (b : bool) | TOther
| TArr (l : list toml) | TTable (t : list (string * toml)).

Class Toml := { toml_parse : bytes -> option toml; toml_print : toml -> option bytes }.
Class TomlLaws `{Toml} : Prop := { toml_parse_print t b : toml_print t = Some b -> toml_parse b = Some t }.

(** [Display] and [FromStr] of socket addresses. *)
Inductive SocketAddr := V4 (ip : list Z) (port : Z) | V6 (ip : list Z) (port : Z).
#[export] Instance SocketAddr_eq_dec : EqDecision SocketAddr.
Proof. solve_decision. Defined.

Class SocketText := { show_socket : SocketAddr -> string; parse_socket : string -> option SocketAddr }.
Class SocketTextLaws `{SocketText} : Prop := { parse_show a : parse_socket (show_socket a) = Some a }.

(** What becomes of a field is [Some (Some v)] when it is written, [Some None] when
    it is left out ([None] of an [Option]) and [None] when it cannot be written.
    [#[serde(default = d)]] is what it is read as without an entry. *)
Definition or_default {A} (read : toml -> option A) (d : A) (v : option toml) : option A :=
  match v with Some v => read v | None => Some d end.

Fixpoint lookup_key (k : string) (t : list (string * toml)) : option toml :=
  match t with [] => None | (k', v) :: t => if String.eqb k k' then Some v else lookup_key k t end.

(** The entries of a struct: the first that cannot be written is an error. *)
Fixpoint entries (fs : list (string * option (option toml))) : option (list (string * toml)) :=
  match fs with
  | [] => Some []
  | (k, f) :: fs =>
      v ← f; rest ← entries fs;
      Some match v with Some v => (k, v) :: rest | None => rest end
  end.

Definition struct_out (fs : list (string * option (option toml))) : option (option toml) :=
  t ← entries fs; Some (Some (TTable t)).

Definition table_of (v : toml) : option (list (string * toml)) := match v with TTable t => Some t | _ => None end.

(** *** Values *)

(** TOML integers are [i64]: a larger [u64] is an error. *)
Definition int_out (z : Z) : option (option toml) := if z <? 2 ^ 63 then Some (Some (TInt z)) else None.
Definition int_in (max : Z) (v : toml) : option Z :=
  match v with TInt z => if (0 <=? z) && (z <=? max) then Some z else None | _ => None end.
Definition str_in (v : toml) : option string := match v with TStr s => Some s | _ => None end.
Definition bool_in (v : toml) : option bool := match v with TBool b => Some b | _ => None end.
Definition opt_out {A} (w : A -> option (option toml)) (a : option A) : option (option toml) :=
  match a with Some a => w a | None => Some None end.
Definition opt_in {A} (read : toml -> option A) (v : toml) : option (option A) := a ← read v; Some (Some a).

Definition usize_max : Z := 2 ^ 64 - 1.
Definition u16_in := int_in 65535.
Definition u64_in := int_in usize_max.

Section Config.
Context `{sockets : SocketText}.
(** The directories of [ProjectDirs::from("", "", "ant")], if there are any; the
    working directory; the environment; the program. *)
Context (proj_dirs : option (path * path)) (cwd : path).

Definition path_of_text (s : string) : path := if String.prefix "/" s then components s else cwd ++ components s.
Definition path_in (v : toml) : option path := s ← str_in v; Some (path_of_text s).
Definition path_out (p : path) : option (option toml) := Some (Some (TStr (display p))).

Definition sockets_out (l : list SocketAddr) : option (option toml) := Some (Some (TArr ((TStr ∘ show_socket) <$> l))).
Definition socket_in (v : toml) : option SocketAddr := s ← str_in v; parse_socket s.
Definition sockets_in (v : toml) : option (list SocketAddr) := match v with TArr l => mapM socket_in l | _ => None end.

(** ** The options *)

Inductive NetworkMode := Production | Testnet | Development.
#[export] Instance NetworkMode_eq_dec : EqDecision NetworkMode.
Proof. solve_decision. Defined.

Record TestnetConfig := mkTestnet { max_per_ip : option Z; max_per_subnet : option Z }.
Definition default_testnet_max_per_ip : option Z := Some usize_max.
Definition default_testnet_max_per_subnet : option Z := Some usize_max.
Definition TestnetConfig_default : TestnetConfig := mkTestnet default_testnet_max_per_ip default_testnet_max_per_subnet.

Record PaymentConfig := mkPayment {
  p_cache_capacity : Z;
  p_rewards_address : option string;
  p_evm_network : EvmNetworkConfig;
  p_metrics_port : Z
}.
Definition default_metrics_port : Z := 9100.
Definition default_cache_capacity : Z := 100000.
Definition PaymentConfig_default : PaymentConfig := mkPayment default_cache_capacity None ArbitrumOne default_metrics_port.

Record BootstrapCacheConfig := mkBootstrapCache {
  bc_enabled : bool;
  bc_cache_dir : option path;
  max_contacts : Z;
  stale_threshold_days : Z
}.
Definition default_bootstrap_cache_enabled : bool := true.
Definition default_bootstrap_max_contacts : Z := 10000.
Definition default_bootstrap_stale_days : Z := 7.
Definition BootstrapCacheConfig_default : BootstrapCacheConfig :=
  mkBootstrapCache default_bootstrap_cache_enabled None default_bootstrap_max_contacts default_bootstrap_stale_days.

Record StorageConfig := mkStorageOptions {
  st_enabled : bool;
  st_max_chunks : Z;
  st_verify_on_read : bool;
  db_size_gb : Z
}.
Definition default_storage_enabled : bool := true.
Definition default_storage_verify_on_read : bool := true.
Definition StorageConfig_default : StorageConfig := mkStorageOptions default_storage_enabled 0 default_storage_verify_on_read 0.

Record NodeConfig := mkNodeConfig {
  n_root_dir : path;
  n_port : Z;
  ipv4_only : bool;
  bootstrap : list SocketAddr;
  network_mode : NetworkMode;
  testnet_config : TestnetConfig;
  upgrade_config : UpgradeConfig;
  payment : PaymentConfig;
  bootstrap_cache : BootstrapCacheConfig;
  storage_config : StorageConfig;
  close_group_cache_dir : option path;
  max_message_size : Z;
  log_level : string
}.

Definition NODE_IDENTITY_FILENAME : string := "node_identity.key".
Definition NODES_SUBDIR : string := "nodes".

Definition default_root_dir : path :=
  match proj_dirs with Some (data_dir, _) => data_dir | None => cwd ++ [".ant"%string] end.
Definition default_nodes_dir : path := default_root_dir ++ [NODES_SUBDIR].
Definition default_max_message_size : Z := MAX_WIRE_MESSAGE_SIZE.
Definition default_log_level : string := "info".

Definition NodeConfig_default : NodeConfig :=
  mkNodeConfig default_root_dir 0 false [] Production TestnetConfig_default UpgradeConfig_default
    PaymentConfig_default BootstrapCacheConfig_default StorageConfig_default None
    default_max_message_size default_log_level.

Definition default_testnet_bootstrap : list SocketAddr := [V4 [165; 22; 4; 178] 12000; V4 [164; 92; 111; 156] 12000].

Definition with_mode (c : NodeConfig) (mode : NetworkMode) (t : TestnetConfig) (peers : list SocketAddr) : NodeConfig :=
  mkNodeConfig (n_root_dir c) (n_port c) (ipv4_only c) peers mode t (upgrade_config c) (payment c)
    (bootstrap_cache c) (storage_config c) (close_group_cache_dir c) (max_message_size c) (log_level c).

Definition with_root_dir (c : NodeConfig) (root_dir : path) : NodeConfig :=
  mkNodeConfig root_dir (n_port c) (ipv4_only c) (bootstrap c) (network_mode c) (testnet_config c) (upgrade_config c)
    (payment c) (bootstrap_cache c) (storage_config c) (close_group_cache_dir c) (max_message_size c) (log_level c).

Definition with_bootstrap (c : NodeConfig) (peers : list SocketAddr) : NodeConfig :=
  with_mode c (network_mode c) (testnet_config c) peers.

Definition testnet : NodeConfig := with_mode NodeConfig_default Testnet TestnetConfig_default default_testnet_bootstrap.
Definition development : NodeConfig :=
  with_mode NodeConfig_default Development (mkTestnet (Some usize_max) (Some usize_max)) [].
Definition is_relaxed (c : NodeConfig) : bool := negb (bool_decide (network_mode c = Production)).

(** ** The file *)

Definition mode_out (m : NetworkMode) : option (option toml) :=
  Some (Some (TStr match m with Production => "production" | Testnet => "testnet" | Development => "development" end)).
Definition mode_in (v : toml) : option NetworkMode :=
  s ← str_in v;
  if String.eqb s "production" then Some Production else if String.eqb s "testnet" then Some Testnet
  else if String.eqb s "development" then Some Development else None.

Definition channel_out (c : UpgradeChannel) : option (option toml) :=
  Some (Some (TStr match c with Stable => "stable" | Beta => "beta" end)).
Definition channel_in (v : toml) : option UpgradeChannel :=
  s ← str_in v; if String.eqb s "stable" then Some Stable else if String.eqb s "beta" then Some Beta else None.

Definition evm_out (c : EvmNetworkConfig) : option (option toml) :=
  Some (Some (TStr match c with ArbitrumOne => "arbitrum-one" | ArbitrumSepolia => "arbitrum-sepolia" end)).
Definition evm_in (v : toml) : option EvmNetworkConfig :=
  s ← str_in v;
  if String.eqb s "arbitrum-one" then Some ArbitrumOne else if String.eqb s "arbitrum-sepolia" then Some ArbitrumSepolia else None.

Definition bool_out (b : bool) : option (option toml) := Some (Some (TBool b)).
Definition str_out (s : string) : option (option toml) := Some (Some (TStr s)).

Definition testnet_out (c : TestnetConfig) : option (option toml) :=
  struct_out [("max_per_ip"%string, opt_out int_out (max_per_ip c)); ("max_per_subnet"%string, opt_out int_out (max_per_subnet c))].
Definition testnet_in (v : toml) : option TestnetConfig :=
  t ← table_of v;
  a ← or_default (opt_in u64_in) default_testnet_max_per_ip (lookup_key "max_per_ip" t);
  b ← or_default (opt_in u64_in) default_testnet_max_per_subnet (lookup_key "max_per_subnet" t);
  Some (mkTestnet a b).

Definition upgrade_out (c : UpgradeConfig) : option (option toml) :=
  struct_out [("channel"%string, channel_out (upgrade_channel c)); ("check_interval_hours"%string, int_out (check_interval_hours c));
    ("github_repo"%string, str_out (github_repo c)); ("staged_rollout_hours"%string, int_out (staged_rollout_hours c));
    ("stop_on_upgrade"%string, bool_out (stop_on_upgrade c))].
Definition upgrade_in (v : toml) : option UpgradeConfig :=
  t ← table_of v;
  a ← or_default channel_in Stable (lookup_key "channel" t);
  b ← or_default u64_in 1 (lookup_key "check_interval_hours" t);
  c ← or_default str_in "WithAutonomi/ant-node"%string (lookup_key "github_repo" t);
  d ← or_default u64_in 24 (lookup_key "staged_rollout_hours" t);
  e ← or_default bool_in false (lookup_key "stop_on_upgrade" t);
  Some (mkUpgradeConfig a b c d e).

Definition payment_out (c : PaymentConfig) : option (option toml) :=
  struct_out [("cache_capacity"%string, int_out (p_cache_capacity c)); ("rewards_address"%string, opt_out str_out (p_rewards_address c));
    ("evm_network"%string, evm_out (p_evm_network c)); ("metrics_port"%string, int_out (p_metrics_port c))].
Definition payment_in (v : toml) : option PaymentConfig :=
  t ← table_of v;
  a ← or_default u64_in default_cache_capacity (lookup_key "cache_capacity" t);
  b ← or_default (opt_in str_in) None (lookup_key "rewards_address" t);
  c ← or_default evm_in ArbitrumOne (lookup_key "evm_network" t);
  d ← or_default u16_in default_metrics_port (lookup_key "metrics_port" t);
  Some (mkPayment a b c d).

Definition bootstrap_cache_out (c : BootstrapCacheConfig) : option (option toml) :=
  struct_out [("enabled"%string, bool_out (bc_enabled c)); ("cache_dir"%string, opt_out path_out (bc_cache_dir c));
    ("max_contacts"%string, int_out (max_contacts c)); ("stale_threshold_days"%string, int_out (stale_threshold_days c))].
Definition bootstrap_cache_in (v : toml) : option BootstrapCacheConfig :=
  t ← table_of v;
  a ← or_default bool_in default_bootstrap_cache_enabled (lookup_key "enabled" t);
  b ← or_default (opt_in path_in) None (lookup_key "cache_dir" t);
  c ← or_default u64_in default_bootstrap_max_contacts (lookup_key "max_contacts" t);
  d ← or_default u64_in default_bootstrap_stale_days (lookup_key "stale_threshold_days" t);
  Some (mkBootstrapCache a b c d).

Definition storage_out (c : StorageConfig) : option (option toml) :=
  struct_out [("enabled"%string, bool_out (st_enabled c)); ("max_chunks"%string, int_out (st_max_chunks c));
    ("verify_on_read"%string, bool_out (st_verify_on_read c)); ("db_size_gb"%string, int_out (db_size_gb c))].
Definition storage_in (v : toml) : option StorageConfig :=
  t ← table_of v;
  a ← or_default bool_in default_storage_enabled (lookup_key "enabled" t);
  b ← or_default u64_in 0 (lookup_key "max_chunks" t);
  c ← or_default bool_in default_storage_verify_on_read (lookup_key "verify_on_read" t);
  d ← or_default u64_in 0 (lookup_key "db_size_gb" t);
  Some (mkStorageOptions a b c d).

Definition config_out (c : NodeConfig) : option (option toml) :=
  struct_out [("root_dir"%string, path_out (n_root_dir c)); ("port"%string, int_out (n_port c));
    ("ipv4_only"%string, bool_out (ipv4_only c)); ("bootstrap"%string, sockets_out (bootstrap c));
    ("network_mode"%string, mode_out (network_mode c)); ("testnet"%string, testnet_out (testnet_config c));
    ("upgrade"%string, upgrade_out (upgrade_config c)); ("payment"%string, payment_out (payment c));
    ("bootstrap_cache"%string, bootstrap_cache_out (bootstrap_cache c)); ("storage"%string, storage_out (storage_config c));
    ("close_group_cache_dir"%string, opt_out path_out (close_group_cache_dir c));
    ("max_message_size"%string, int_out (max_message_size c)); ("log_level"%string, str_out (log_level c))].
Definition config_in (v : toml) : option NodeConfig :=
  t ← table_of v;
  root_dir ← or_default path_in default_root_dir (lookup_key "root_dir" t);
  port ← or_default u16_in 0 (lookup_key "port" t);
  ipv4 ← or_default bool_in false (lookup_key "ipv4_only" t);
  peers ← or_default sockets_in [] (lookup_key "bootstrap" t);
  mode ← or_default mode_in Production (lookup_key "network_mode" t);
  test ← or_default testnet_in TestnetConfig_default (lookup_key "testnet" t);
  upgrade ← or_default upgrade_in UpgradeConfig_default (lookup_key "upgrade" t);
  pay ← or_default payment_in PaymentConfig_default (lookup_key "payment" t);
  cache ← or_default bootstrap_cache_in BootstrapCacheConfig_default (lookup_key "bootstrap_cache" t);
  store ← or_default storage_in StorageConfig_default (lookup_key "storage" t);
  close ← or_default (opt_in path_in) None (lookup_key "close_group_cache_dir" t);
  size ← or_default u64_in default_max_message_size (lookup_key "max_message_size" t);
  level ← or_default str_in default_log_level (lookup_key "log_level" t);
  Some (mkNodeConfig root_dir port ipv4 peers mode test upgrade pay cache store close size level).

Context `{Toml}.
Context {stats : Stats}.

(** [NodeConfig::from_file] and [to_file]. *)
Definition from_file (p : path) : nio NodeConfig :=
  content ← on_disk io_error (fs_read p);
  st_lift (ok_or (t ← toml_parse content; config_in t) (ConfigError "{e}")).

Definition to_file (c : NodeConfig) (p : path) : nio unit :=
  content ← st_lift (ok_or (v ← config_out c; t ← v; toml_print t) (ConfigError "{e}"));
  on_disk io_error (fs_write p content).

(** ** Bootstrap peers *)

Definition BOOTSTRAP_PEERS_FILENAME : string := "bootstrap_peers.toml".
Definition BOOTSTRAP_PEERS_ENV : string := "ANT_BOOTSTRAP_PEERS_PATH".

Inductive BootstrapSource := FromCli | FromConfigFile | AutoDiscovered (p : path) | NoSource.

Definition peers_in (v : toml) : option (list SocketAddr) :=
  t ← table_of v; or_default sockets_in [] (lookup_key "peers" t).

Definition peers_from_file (p : path) : nio (list SocketAddr) :=
  content ← on_disk io_error (fs_read p);
  st_lift (ok_or (t ← toml_parse content; peers_in t) (ConfigError "{e}")).

Context (env : string -> option string) (current_exe : option path).

Definition search_paths : list path :=
  match env BOOTSTRAP_PEERS_ENV with Some p => [path_of_text p] | None => [] end ++
  match current_exe ≫= path_parent with Some d => [d ++ [BOOTSTRAP_PEERS_FILENAME]] | None => [] end ++
  match proj_dirs with Some (_, config_dir) => [config_dir ++ [BOOTSTRAP_PEERS_FILENAME]] | None => [] end ++
  [["etc"; "ant"; BOOTSTRAP_PEERS_FILENAME]%string].

(** [Path::is_file]. *)
Definition is_file (p : path) (h : host) : bool :=
  stat_works (disk_of h) p && bool_decide (is_Some (host_files h !! p)).

(** The loop of [discover]: a file that cannot be read is skipped with a warning. *)
Fixpoint discover_in (candidates : list path) : nio (option (list SocketAddr * path)) := fun h =>
  match candidates with
  | [] => (Ok None, h)
  | p :: rest =>
      if is_file p h then
        match peers_from_file p h with
        | (Ok peers, h) => if bool_decide (peers = []) then discover_in rest h else (Ok (Some (peers, p)), h)
        | (Err _, h) => discover_in rest h
        end
      else discover_in rest h
  end.

Definition discover : nio (option (list SocketAddr * path)) := discover_in search_paths.

(** ** The command line *)

Inductive CliLogLevel := LError | LWarn | LInfo | LDebug | LTrace.
Definition log_level_text (l : CliLogLevel) : string :=
  match l with LError => "error" | LWarn => "warn" | LInfo => "info" | LDebug => "debug" | LTrace => "trace" end.

(** The enums of the command line are those of the configuration under other
    names; the options of the log output are used by [main] alone. *)
Record Cli := mkCli {
  cli_root_dir : option path;
  cli_port : Z;
  cli_ipv4_only : bool;
  cli_bootstrap : list SocketAddr;
  cli_upgrade_channel : UpgradeChannel;
  cli_cache_capacity : Z;
  cli_rewards_address : option string;
  cli_evm_network : EvmNetworkConfig;
  cli_metrics_port : Z;
  cli_log_level : CliLogLevel;
  cli_network_mode : NetworkMode;
  cli_config : option path;
  cli_stop_on_upgrade : bool;
  disable_bootstrap_cache : bool;
  bootstrap_cache_dir : option path;
  bootstrap_cache_capacity : Z
}.

(** What clap makes of an empty command line and environment. *)
Definition Cli_default : Cli :=
  mkCli None 0 false [] Stable 100000 None ArbitrumOne 9100 LInfo Production None false false None 10000.

(** The assignments to the loaded configuration. *)
Definition override (cli : Cli) (c : NodeConfig) : NodeConfig :=
  mkNodeConfig
    (default (n_root_dir c) (cli_root_dir cli))
    (cli_port cli) (cli_ipv4_only cli)
    (if bool_decide (cli_bootstrap cli = []) then bootstrap c else cli_bootstrap cli)
    (cli_network_mode cli) (testnet_config c)
    (mkUpgradeConfig (cli_upgrade_channel cli) (check_interval_hours (upgrade_config c)) (github_repo (upgrade_config c))
       (staged_rollout_hours (upgrade_config c)) (cli_stop_on_upgrade cli))
    (mkPayment (cli_cache_capacity cli) (cli_rewards_address cli) (cli_evm_network cli) (cli_metrics_port cli))
    (mkBootstrapCache (negb (disable_bootstrap_cache cli)) (bootstrap_cache_dir cli) (bootstrap_cache_capacity cli)
       (stale_threshold_days (bootstrap_cache c)))
    (storage_config c) (close_group_cache_dir c) (max_message_size c) (log_level_text (cli_log_level cli)).

Definition into_config (cli : Cli) : nio (NodeConfig * BootstrapSource) :=
  config ← match cli_config cli with Some p => from_file p | None => mret NodeConfig_default end;
  let config := override cli config in
  if bool_decide (cli_bootstrap cli <> []) then mret (config, FromCli)
  else if bool_decide (bootstrap config <> []) && bool_decide (is_Some (cli_config cli)) then mret (config, FromConfigFile)
  else if bool_decide (bootstrap config = []) then
    found ← discover;
    mret match found with
         | Some (peers, p) => (with_bootstrap config peers, AutoDiscovered p)
         | None => (config, NoSource)
         end
  else mret (config, NoSource).

End Config.

(** ** A configuration that is saved is loaded again *)

Lemma entries_missing fs t k : entries fs = Some t -> k ∉ fs.*1 -> lookup_key k t = None.
Proof.
  revert t. induction fs as [|[k' [v|]] fs IH]; cbn; intros t; [by intros [= <-]| |done].
  destruct (entries fs) as [rest|]; cbn; [|done]. intros [= <-] [Hk Hfs]%not_elem_of_cons.
  destruct v; cbn; [|by apply IH]. apply String.eqb_neq in Hk. rewrite Hk. by apply IH.
Qed.

Lemma entries_field fs t k o : entries fs = Some t -> NoDup fs.*1 -> (k, o) ∈ fs -> o = Some (lookup_key k t).
Proof.
  revert t. induction fs as [|[k' v] fs IH]; intros t; [by intros _ _ ?%not_elem_of_nil|]. cbn [entries fmap list_fmap].
  intros Ht [Hk' Hnd]%NoDup_cons Hin. cbn in Hk'. destruct v as [v|]; [|done]. cbn in Ht.
  destruct (entries fs) as [rest|] eqn:Er; [|done]. injection Ht as <-.
  apply elem_of_cons in Hin as [[= -> ->]|Hin].
  - destruct v; cbn; [by rewrite String.eqb_refl|]. by rewrite (entries_missing _ _ _ Er Hk').
  - rewrite (IH _ eq_refl Hnd Hin). destruct v; cbn; [|done].
    destruct (String.eqb_spec k k') as [->|_]; [|done]. destruct Hk'. apply list_elem_of_fmap. by exists (k', o).
Qed.

(** What is written is read as the same value. *)
Definition reads_back {A} (out : A -> option (option toml)) (read : toml -> option A) (a : A) : Prop :=
  forall f, out a = Some f -> exists v, f = Some v /\ read v = Some a.
Definition field_reads_back {A} (o : option (option toml)) (read : toml -> option A) (d a : A) : Prop :=
  forall f, o = Some f -> or_default read d f = Some a.

Lemma read_field {A} fs t k o (read : toml -> option A) d a :
  entries fs = Some t -> NoDup fs.*1 -> (k, o) ∈ fs -> field_reads_back o read d a ->
  or_default read d (lookup_key k t) = Some a.
Proof. intros Ht Hnd Hin Ho. apply Ho. by eapply entries_field. Qed.

Lemma field_always {A} (out : A -> option (option toml)) read d a : reads_back out read a -> field_reads_back (out a) read d a.
Proof. intros Ha f Hf. by destruct (Ha f Hf) as (v & -> & Hv). Qed.

Lemma field_opt {A} (out : A -> option (option toml)) read o :
  (forall a, o = Some a -> reads_back out read a) -> field_reads_back (opt_out out o) (opt_in read) None o.
Proof.
  intros Ho f. destruct o as [a|]; cbn; [|by intros [= <-]]. intros Hf. destruct (Ho a eq_refl f Hf) as (v & -> & Hv).
  cbn. unfold opt_in. by rewrite Hv.
Qed.

Lemma field_some {A} (out : A -> option (option toml)) read d a :
  reads_back out read a -> field_reads_back (opt_out out (Some a)) (opt_in read) d (Some a).
Proof. intros Ha f Hf. destruct (Ha f Hf) as (v & -> & Hv). cbn. unfold opt_in. by rewrite Hv. Qed.

Lemma int_reads_back max z : 0 <= z <= max -> reads_back int_out (int_in max) z.
Proof.
  intros Hz f. unfold int_out. destruct (z <? 2 ^ 63); [|done]. intros [= <-]. eexists. split; [done|]. cbn.
  by rewrite (proj2 (Z.leb_le _ _) (proj1 Hz)), (proj2 (Z.leb_le _ _) (proj2 Hz)).
Qed.

Lemma bool_reads_back b : reads_back bool_out bool_in b.
Proof. intros f [= <-]. by eexists. Qed.
Lemma str_reads_back s : reads_back str_out str_in s.
Proof. intros f [= <-]. by eexists. Qed.
Lemma mode_reads_back m : reads_back mode_out mode_in m.
Proof. intros f [= <-]. eexists. split; [done|]. by destruct m. Qed.
Lemma channel_reads_back c : reads_back channel_out channel_in c.
Proof. intros f [= <-]. eexists. split; [done|]. by destruct c. Qed.
Lemma evm_reads_back c : reads_back evm_out evm_in c.
Proof. intros f [= <-]. eexists. split; [done|]. by destruct c. Qed.

Lemma path_reads_back cwd p : path_ok p -> reads_back path_out (path_in cwd) p.
Proof.
  intros Hp f [= <-]. eexists. split; [done|]. cbn [path_in str_in mbind option_bind]. unfold path_of_text.
  assert (String.prefix "/" (display p) = true) as -> by (apply prefix_split; destruct p; by eexists). by rewrite components_display.
Qed.

Lemma sockets_read_back `{SocketText, !SocketTextLaws} l : reads_back sockets_out sockets_in l.
Proof.
  intros f [= <-]. eexists. split; [done|]. cbn. apply mapM_Some. induction l as [|a l IH]; constructor; [|done].
  cbn. by rewrite parse_show.
Qed.

Create HintDb round.
#[local] Hint Resolve field_always field_some bool_reads_back str_reads_back mode_reads_back channel_reads_back
  evm_reads_back int_reads_back path_reads_back sockets_read_back : round.

Ltac read_fields :=
  repeat (erewrite read_field; cycle 1;
    [eassumption | by apply (bool_decide_unpack _) | repeat first [apply list_elem_of_here | apply list_elem_of_further]
    | first [solve [eauto with round] | apply field_opt; intros ? ?; eauto with round] |]; cbn [mbind option_bind]).

Ltac read_struct :=
  let f := fresh in let Hf := fresh in
  intros f Hf; unfold struct_out in Hf;
  match type of Hf with context [entries ?fs] => destruct (entries fs) as [?|] eqn:?; [|discriminate] end;
  injection Hf as <-; eexists; split; [reflexivity|]; cbn [table_of mbind option_bind]; read_fields.

Lemma upgrade_reads_back c : 0 <= check_interval_hours c <= usize_max -> 0 <= staged_rollout_hours c <= usize_max ->
  reads_back upgrade_out upgrade_in c.
Proof. intros H1 H2. unfold upgrade_out, upgrade_in, u64_in. read_struct. by destruct c. Qed.

(** What the types of the Rust fields say, absolute paths, and limits that are set. *)
Definition u64 (z : Z) : Prop := 0 <= z <= usize_max.

Record config_ok (c : NodeConfig) : Prop := {
  ok_root_dir : path_ok (n_root_dir c);
  ok_port : 0 <= n_port c <= 65535;
  ok_per_ip : exists z, max_per_ip (testnet_config c) = Some z /\ u64 z;
  ok_per_subnet : exists z, max_per_subnet (testnet_config c) = Some z /\ u64 z;
  ok_check_interval : u64 (check_interval_hours (upgrade_config c));
  ok_rollout : u64 (staged_rollout_hours (upgrade_config c));
  ok_cache_capacity : u64 (p_cache_capacity (payment c));
  ok_metrics_port : 0 <= p_metrics_port (payment c) <= 65535;
  ok_cache_dir : forall p, bc_cache_dir (bootstrap_cache c) = Some p -> path_ok p;
  ok_contacts : u64 (max_contacts (bootstrap_cache c));
  ok_stale : u64 (stale_threshold_days (bootstrap_cache c));
  ok_chunks : u64 (st_max_chunks (storage_config c));
  ok_db_size : u64 (db_size_gb (storage_config c));
  ok_close_group : forall p, close_group_cache_dir c = Some p -> path_ok p;
  ok_message_size : u64 (max_message_size c)
}.

Section RoundTrip.
Context `{sockets : SocketText, !SocketTextLaws}.
Context (proj_dirs : option (path * path)) (cwd : path).

Lemma testnet_reads_back c :
  (exists z, max_per_ip c = Some z /\ u64 z) -> (exists z, max_per_subnet c = Some z /\ u64 z) ->
  reads_back testnet_out testnet_in c.
Proof.
  destruct c as [ip sub]. cbn [max_per_ip max_per_subnet]. intros (z & -> & Hz) (z' & -> & Hz').
  unfold testnet_out, testnet_in, u64_in, u64 in *. cbn [max_per_ip max_per_subnet]. by read_struct.
Qed.

Lemma payment_reads_back c : u64 (p_cache_capacity c) -> 0 <= p_metrics_port c <= 65535 -> reads_back payment_out payment_in c.
Proof. intros H1 H2. unfold payment_out, payment_in, u64_in, u16_in, u64 in *. read_struct. by destruct c. Qed.

Lemma bootstrap_cache_reads_back c :
  (forall p, bc_cache_dir c = Some p -> path_ok p) -> u64 (max_contacts c) -> u64 (stale_threshold_days c) ->
  reads_back bootstrap_cache_out (bootstrap_cache_in cwd) c.
Proof. intros H1 H2 H3. unfold bootstrap_cache_out, bootstrap_cache_in, u64_in, u64 in *. read_struct. by destruct c. Qed.

Lemma storage_reads_back c : u64 (st_max_chunks c) -> u64 (db_size_gb c) -> reads_back storage_out storage_in c.
Proof. intros H1 H2. unfold storage_out, storage_in, u64_in, u64 in *. read_struct. by destruct c. Qed.

#[local] Hint Resolve upgrade_reads_back testnet_reads_back payment_reads_back bootstrap_cache_reads_back storage_reads_back : round.

Lemma config_reads_back c : config_ok c -> reads_back config_out (config_in proj_dirs cwd) c.
Proof.
  intros []. unfold config_out, config_in, u64_in, u16_in, u64 in *. read_struct. by destruct c.
Qed.

End RoundTrip.

(** ** Properties *)

(** A configuration that was saved is loaded again.  After [to_file] has
    succeeded, [from_file] returns the configuration that was given to it, whatever
    its values, or reports that the file could not be read. *)
Theorem saved_config_is_loaded `{SocketText, !SocketTextLaws, Toml, !TomlLaws}
    (proj_dirs : option (path * path)) (cwd p : path) (c : NodeConfig) (h h' : host) :
  config_ok c -> to_file c p h = (Ok tt, h') ->
  hwp (from_file proj_dirs cwd p) h' (fun r _ => r = Ok c \/ r = Err io_error).
Proof.
  intros Hc. unfold to_file. intros Hto.
  destruct (config_out c) as [f|] eqn:Ef; [|discriminate].
  destruct (config_reads_back proj_dirs cwd c Hc f Ef) as (v & -> & Hv). cbn in Hto.
  destruct (toml_print v) as [content|] eqn:Ec; [|discriminate].
  assert (forall g, host_files h' !! p = Some g -> data g = content) as Hg.
  { assert (hwp (on_disk io_error (fs_write p content)) h
      (fun r h' => r = Ok tt -> forall g, host_files h' !! p = Some g -> data g = content)) as Hw.
    { apply hwp_write; intros h1 _; [done|]. intros -> _. unfold put_data. rewrite lookup_insert_eq. by intros g [= <-]. }
    unfold hwp in Hw. unfold st_lift, mbind, stres_bind in Hto. cbn in Hto. rewrite Hto in Hw. by apply Hw. }
  unfold from_file. apply hwp_bind, hwp_read; [auto|].
  intros h1 g _ _ Hp. apply hwp_lift. left. rewrite (Hg _ Hp), (toml_parse_print _ _ Ec). cbn. by rewrite Hv.
Qed.

(** The peers of a file, when it has any. *)
Definition peers_at `{SocketText, Toml} (h : host) (p : path) : option (list SocketAddr * path) :=
  f ← host_files h !! p; t ← toml_parse (data f); l ← peers_in t;
  if bool_decide (l = []) then None else Some (l, p).

Lemma read_works {E} (e : E) p h : faults (disk_of h) = [] ->
  on_disk e (fs_read p) h = (match host_files h !! p with Some f => Ok (data f) | None => Err e end, h).
Proof.
  destruct h as [[m fs] ds]. cbn. intros ->. unfold on_disk, fs_read, io_call, host_files. cbn.
  by destruct (m !! p).
Qed.

Lemma discover_in_first `{SocketText, Toml, Stats} l h : stats_work -> faults (disk_of h) = [] ->
  discover_in l h = (Ok (head (omap (peers_at h) l)), h).
Proof.
  intros Hs Hf. induction l as [|p l IH]; [done|]. cbn [discover_in omap list_omap]. unfold is_file, peers_from_file.
  rewrite Hs. cbn [andb].
  unfold mbind at 1, stres_bind at 1. rewrite (read_works _ _ _ Hf). unfold peers_at at 1.
  destruct (host_files h !! p) as [f|]; cbn; [|exact IH].
  destruct (toml_parse (data f)) as [t|]; cbn; [|exact IH].
  destruct (peers_in t) as [peers|]; cbn; [|exact IH].
  destruct peers; cbn; [exact IH | done].
Qed.

Lemma override_bootstrap cli c : cli_bootstrap cli = [] -> bootstrap (override cli c) = bootstrap c.
Proof. intros Hc. unfold override. cbn. by rewrite Hc. Qed.

Lemma with_own_bootstrap c : with_bootstrap c (bootstrap c) = c.
Proof. by destruct c. Qed.

(** Bootstrap peers come from the first source that has any: the command line,
    the configuration file, the first of the well-known files that lists peers,
    and otherwise there are none, when every file can be looked at.  Every other option is the one of the command
    line laid over the file, or over the defaults. *)
Theorem peers_come_from_the_first_source `{SocketText, Toml, Stats}
    (proj_dirs : option (path * path)) (cwd : path) (env : string -> option string) (exe : option path)
    (cli : Cli) (h : host) (file : NodeConfig)
    (Hstats : stats_work) (Hworks : faults (disk_of h) = [])
    (Hfile : match cli_config cli with
             | Some p => from_file proj_dirs cwd p h = (Ok file, h)
             | None => file = NodeConfig_default proj_dirs cwd
             end) :
  let found := head (omap (peers_at h) (search_paths proj_dirs cwd env exe)) in
  let '(peers, source) :=
    match cli_bootstrap cli, bootstrap file, found with
    | _ :: _, _, _ => (cli_bootstrap cli, FromCli)
    | [], _ :: _, _ => (bootstrap file, FromConfigFile)
    | [], [], Some (l, p) => (l, AutoDiscovered p)
    | [], [], None => ([], NoSource)
    end in
  into_config proj_dirs cwd env exe cli h = (Ok (with_bootstrap (override cli file) peers, source), h).
Proof.
  cbv zeta. set (found := head _).
  assert (into_config proj_dirs cwd env exe cli h =
    (if bool_decide (cli_bootstrap cli <> []) then mret (override cli file, FromCli)
     else if bool_decide (bootstrap (override cli file) <> []) && bool_decide (is_Some (cli_config cli))
          then mret (override cli file, FromConfigFile)
     else if bool_decide (bootstrap (override cli file) = []) then
       found ← discover proj_dirs cwd env exe;
       mret match found with
            | Some (peers, p) => (with_bootstrap (override cli file) peers, AutoDiscovered p)
            | None => (override cli file, NoSource)
            end
     else mret (override cli file, NoSource)) h) as ->.
  { unfold into_config. destruct (cli_config cli) as [p|]; [|by subst].
    unfold mbind at 1, stres_bind at 1. by rewrite Hfile. }
  destruct (cli_bootstrap cli) as [|a l] eqn:Ecli; [|].
  2:{ rewrite bool_decide_true by done. rewrite <- Ecli. f_equal. f_equal. f_equal.
      rewrite <- (with_own_bootstrap (override cli file)) at 1. f_equal. unfold override. cbn. by rewrite Ecli. }
  rewrite bool_decide_false by (intros Hn; by destruct Hn).
  rewrite (override_bootstrap cli file Ecli).
  destruct (bootstrap file) as [|a l] eqn:Ef; cbn [bool_decide].
  - rewrite bool_decide_false by (intros Hn; by destruct Hn). cbn [andb]. rewrite bool_decide_true by done.
    unfold discover, mbind, stres_bind. rewrite (discover_in_first _ _ Hstats Hworks). fold found.
    destruct found as [[l p]|]; [done|]. cbn. f_equal. f_equal. f_equal.
    rewrite <- (with_own_bootstrap (override cli file)) at 1. by rewrite (override_bootstrap cli file Ecli), Ef.
  - rewrite (bool_decide_true (a :: l <> [])) by done.
    assert (is_Some (cli_config cli)) as Hs.
    { destruct (cli_config cli); [done|]. subst file. discriminate. }
    rewrite bool_decide_true by done. cbn [andb]. rewrite <- Ef, <- (override_bootstrap cli file Ecli).
    by rewrite with_own_bootstrap.
Qed.

(** What a file says about payment is lost: the command line has a value or a
    default for every field. *)
Lemma file_payment_is_discarded `{SocketText, Toml, Stats} proj_dirs cwd env exe cli h c source h' :
  into_config proj_dirs cwd env exe cli h = (Ok (c, source), h') ->
  payment c = mkPayment (cli_cache_capacity cli) (cli_rewards_address cli) (cli_evm_network cli) (cli_metrics_port cli) /\
  network_mode c = cli_network_mode cli /\ n_port c = cli_port cli.
Proof.
  unfold into_config, mbind, stres_bind.
  destruct (match cli_config cli with Some p => from_file proj_dirs cwd p | None => mret (NodeConfig_default proj_dirs cwd) end h)
    as [[file|e] h1]; [|discriminate].
  destruct (bool_decide _); [by intros [= <- _ _]|]. destruct (_ && _); [by intros [= <- _ _]|].
  destruct (bool_decide _); [|by intros [= <- _ _]].
  destruct (discover proj_dirs cwd env exe h1) as [[[[l p]|]|e] h2]; [| |discriminate]; by intros [= <- _ _].
Qed.

(** The default configuration cannot be saved: its limits of a testnet are no TOML
    integers. *)
Lemma default_config_cannot_be_saved `{SocketText, Toml} proj_dirs cwd p h :
  to_file (NodeConfig_default proj_dirs cwd) p h = (Err (ConfigError "{e}"), h).
Proof. reflexivity. Qed.

(** An empty file is the default configuration. *)
Lemma empty_config_is_default `{SocketText} proj_dirs cwd :
  config_in proj_dirs cwd (TTable []) = Some (NodeConfig_default proj_dirs cwd).
Proof. reflexivity. Qed.

(** ** A sample *)

Fixpoint toml_eqb (a b : toml) : bool :=
  match a, b with
  | TInt x, TInt y => x =? y
  | TStr x, TStr y => String.eqb x y
  | TBool x, TBool y => Bool.eqb x y
  | TOther, TOther => true
  | TArr l, TArr l' =>
      (fix go l l' := match l, l' with
                      | [], [] => true
                      | x :: l, y :: l' => toml_eqb x y && go l l'
                      | _, _ => false
                      end) l l'
  | TTable t, TTable t' =>
      (fix go t t' := match t, t' with
                      | [], [] => true
                      | (k, x) :: t, (k', y) :: t' => String.eqb k k' && toml_eqb x y && go t t'
                      | _, _ => false
                      end) t t'
  | _, _ => false
  end.

Lemma toml_eqb_eq : forall a b, toml_eqb a b = true -> a = b.
Proof.
  fix IH 1. intros [x|x|x| |l|t] [y|y|y| |l'|t']; cbn [toml_eqb]; try discriminate.
  - by intros ->%Z.eqb_eq.
  - by intros ->%String.eqb_eq.
  - by intros ->%Bool.eqb_prop.
  - done.
  - intros Hl. f_equal. revert l' Hl. induction l as [|x l IHl]; intros [|y l']; try discriminate; [done|].
    intros [Hx Hl]%andb_prop. f_equal; [by apply IH | by apply IHl].
  - intros Ht. f_equal. revert t' Ht. induction t as [|[k x] t IHt]; intros [|[k' y] t']; try discriminate; [done|].
    intros [[->%String.eqb_eq Hx]%andb_prop Ht]%andb_prop. f_equal; [f_equal; by apply IH | by apply IHt].
Qed.

(** Files that have the number of the value they stand for. *)
Fixpoint toml_index (t : toml) (l : list toml) : option nat :=
  match l with [] => None | x :: l => if toml_eqb t x then Some O else S <$> toml_index t l end.

Lemma toml_index_lookup t l n : toml_index t l = Some n -> l !! n = Some t.
Proof.
  revert n. induction l as [|x l IH]; intros n; cbn; [done|].
  destruct (toml_eqb t x) eqn:E; [apply toml_eqb_eq in E as ->; by intros [= <-]|].
  destruct (toml_index t l) as [k|]; [|done]. intros [= <-]. by apply IH.
Qed.

Definition sample_toml (l : list toml) : Toml := {|
  toml_parse b := l !! length b;
  toml_print t := (fun n => repeat x00 n) <$> toml_index t l
|}.

Lemma sample_toml_laws l : @TomlLaws (sample_toml l).
Proof.
  split. intros t b Hb. change ((fun n => repeat x00 n) <$> toml_index t l = Some b) in Hb.
  apply fmap_Some in Hb as (n & Hn & ->). change (l !! length (repeat x00 n) = Some t).
  rewrite repeat_length. by apply toml_index_lookup.
Qed.

(** An address as the digits of its number. *)
Definition socket_code (a : SocketAddr) : positive :=
  match a with V4 ip port => xO (encode (ip, port)) | V6 ip port => xI (encode (ip, port)) end.
Definition socket_of_code (p : positive) : option SocketAddr :=
  match p with
  | xO p => '(ip, port) ← decode p; Some (V4 ip port)
  | xI p => '(ip, port) ← decode p; Some (V6 ip port)
  | xH => None
  end.

Fixpoint digits (p : positive) : string :=
  match p with xH => "" | xO p => String "0" (digits p) | xI p => String "1" (digits p) end.
Fixpoint of_digits (s : string) : positive :=
  match s with EmptyString => xH | String c s => if Ascii.eqb c "0" then xO (of_digits s) else xI (of_digits s) end.

#[local] Instance sample_sockets : SocketText :=
  {| show_socket a := digits (socket_code a); parse_socket s := socket_of_code (of_digits s) |}.

#[local] Instance sample_sockets_laws : SocketTextLaws.
Proof.
  split. intros a. change (socket_of_code (of_digits (digits (socket_code a))) = Some a).
  assert (forall p, of_digits (digits p) = p) as -> by (induction p as [p IH|p IH|]; cbn; by rewrite ?IH).
  destruct a as [ip port|ip port]; cbn; by rewrite decode_encode.
Qed.

(** A node with a directory and an address of its own, and limits that fit. *)
Definition sample_dirs : option (path * path) := Some (["home"; "share"; "ant"], ["home"; "config"; "ant"])%string.
Definition sample_address_text : string := "0x00112233445566778899aabbccddeeff00112233".
Definition sample_config : NodeConfig :=
  mkNodeConfig ["srv"; "ant"]%string 12000 false [V4 [10; 0; 0; 1] 12000] Testnet (mkTestnet (Some 10) (Some 20))
    UpgradeConfig_default (mkPayment 100 (Some sample_address_text) ArbitrumSepolia 9100)
    BootstrapCacheConfig_default StorageConfig_default None default_max_message_size "debug".

Definition sample_texts : list toml :=
  match config_out sample_config with Some (Some t) => [t] | _ => [] end ++
  [TTable [("peers"%string, TArr [TStr (show_socket (V4 [10; 0; 0; 2] 12000))])]].

#[local] Instance sample_texts_toml : Toml := sample_toml sample_texts.
#[local] Instance sample_texts_laws : TomlLaws := sample_toml_laws sample_texts.

#[local] Existing Instance sure_stats.

Definition config_file : path := ["srv"; "ant"; "config.toml"]%string.
Definition empty_host : host := mkHost (mkDisk ∅ []) ∅.

Lemma sample_config_ok : config_ok sample_config.
Proof. split; cbn; unfold u64, usize_max, MAX_WIRE_MESSAGE_SIZE; try discriminate; eauto with lia; by apply (bool_decide_unpack _). Qed.

Lemma saved_config_is_loaded_witness :
  exists h', to_file sample_config config_file empty_host = (Ok tt, h') /\
    hwp (from_file sample_dirs ["tmp"%string] config_file) h' (fun r _ => r = Ok sample_config \/ r = Err io_error).
Proof.
  eexists. split; [vm_compute; reflexivity|].
  eapply (saved_config_is_loaded sample_dirs ["tmp"%string] config_file sample_config empty_host);
    [apply sample_config_ok | vm_compute; reflexivity].
Defined.

(** The file of the system has the peers; without a command line there is nothing
    before it. *)
Definition peers_file : path := ["etc"; "ant"; BOOTSTRAP_PEERS_FILENAME]%string.
Definition peers_host : host := mkHost (mkDisk {[ peers_file := mkFile [x00] 420 ]} []) ∅.
Definition sample_exe : option path := Some ["usr"; "bin"; "ant-node"]%string.

Lemma peers_come_from_the_first_source_witness :
  into_config sample_dirs ["tmp"%string] (fun _ => None) sample_exe Cli_default peers_host =
  (Ok (with_bootstrap (override Cli_default (NodeConfig_default sample_dirs ["tmp"%string])) [V4 [10; 0; 0; 2] 12000],
       AutoDiscovered peers_file), peers_host).
Proof.
  exact (peers_come_from_the_first_source sample_dirs ["tmp"%string] (fun _ => None) sample_exe Cli_default peers_host
    (NodeConfig_default sample_dirs ["tmp"%string]) (fun _ _ => eq_refl) eq_refl eq_refl).
Defined.

(** The configuration file of a node names the address it is paid at; the node is
    started with that file, and has none. *)
Definition config_host : host := mkHost (mkDisk {[ config_file := mkFile [] 420 ]} []) ∅.
Definition cli_with_file : Cli :=
  mkCli None 0 false [] Stable 100000 None ArbitrumOne 9100 LInfo Production (Some config_file) false false None 10000.

Lemma file_address_is_ignored :
  from_file sample_dirs ["tmp"%string] config_file config_host = (Ok sample_config, config_host) /\
  p_rewards_address (payment sample_config) = Some sample_address_text /\
  exists c source h, into_config sample_dirs ["tmp"%string] (fun _ => None) sample_exe cli_with_file config_host = (Ok (c, source), h) /\
    p_rewards_address (payment c) = None /\ network_mode sample_config = Testnet /\ network_mode c = Production.
Proof.
  split; [vm_compute; reflexivity|]. split; [reflexivity|].
  do 3 eexists. split; [vm_compute; reflexivity|]. by vm_compute.
Qed.
