(* ===== verification/PayCache.v ===== *)
(** * The cache of verified addresses

    [ant-node/src/payment/cache.rs]: [VerifiedCache], an LRU cache behind a mutex
    with three atomic counters.  Clones share everything ([Arc]s), so one value of
    [VerifiedCache] stands for all handles. *)

From Stdlib Require Import ZArith Lia Strings.Byte.
From stdpp Require Import base list strings.
From S2P Require Import Prelude Interfaces Cipher Reference.

Local Open Scope Z_scope.

Definition DEFAULT_CACHE_CAPACITY : Z := 100000.

Record CacheStats := mkCacheStats { hits : Z; misses : Z; additions : Z }.

Section PayCache.
Context `{!Lru XorName unit}.

Record VerifiedCache := mkCache { inner : lru XorName unit; counters : CacheStats }.

(** [with_capacity]; [NonZeroUsize::new] cannot fail after [max(1)]. *)
Definition with_capacity (capacity : Z) : VerifiedCache :=
  mkCache (lru_new XorName unit (Z.max capacity 1)) (mkCacheStats 0 0 0).

Definition cache_new : VerifiedCache := with_capacity DEFAULT_CACHE_CAPACITY.

Definition cache_contains (c : VerifiedCache) (xorname : XorName) : bool * VerifiedCache :=
  let '(v, l) := lru_get (inner c) xorname in
  let found := match v with Some _ => true | None => false end in
  let st := counters c in
  (found, mkCache l
    (if found then mkCacheStats (wadd (hits st) 1) (misses st) (additions st)
     else mkCacheStats (hits st) (wadd (misses st) 1) (additions st))).

Definition cache_insert (c : VerifiedCache) (xorname : XorName) : VerifiedCache :=
  let st := counters c in
  mkCache (lru_put (inner c) xorname tt)
    (mkCacheStats (hits st) (misses st) (wadd (additions st) 1)).

Definition cache_stats (c : VerifiedCache) : CacheStats := counters c.
Definition cache_len (c : VerifiedCache) : Z := lru_len (inner c).
Definition cache_is_empty (c : VerifiedCache) : bool := cache_len c =? 0.
Definition cache_clear (c : VerifiedCache) : VerifiedCache := mkCache (lru_clear (inner c)) (counters c).

(** Whether an address is held, without touching the cache. *)
Definition holds (c : VerifiedCache) (x : XorName) : bool :=
  match lru_peek (inner c) x with Some _ => true | None => false end.

(** ** Facts for the clients of the cache *)

Section Facts.
Context `{!LruLaws XorName unit}.

Lemma contains_holds c x : (cache_contains c x).1 = holds c x.
Proof.
  unfold cache_contains, holds. rewrite <- lru_get_value.
  destruct (lru_get (inner c) x) as [v l]. reflexivity.
Qed.

Lemma holds_contains c x y : holds (cache_contains c x).2 y = holds c y.
Proof.
  unfold cache_contains, holds. rewrite <- (lru_get_peek (inner c) x y).
  destruct (lru_get (inner c) x) as [v l]. reflexivity.
Qed.

Lemma holds_insert c x y : holds (cache_insert c x) y = true -> y = x \/ holds c y = true.
Proof.
  unfold holds. cbn. destruct (decide (y = x)) as [->|Hne]; [auto|].
  destruct (lru_peek (lru_put (inner c) x tt) y) as [[]|] eqn:E; [|discriminate].
  apply lru_put_other in E; [|assumption]. rewrite E. auto.
Qed.

Lemma holds_new capacity x : holds (with_capacity capacity) x = false.
Proof. unfold holds, with_capacity. cbn. rewrite lru_new_empty. reflexivity. Qed.

Lemma holds_clear c x : holds (cache_clear c) x = false.
Proof. unfold holds, cache_clear. cbn. rewrite lru_clear_empty. reflexivity. Qed.

End Facts.

(** ** Runs *)

Inductive cache_op :=
| CacheContains (x : XorName)
| CacheInsert (x : XorName)
| CacheClear.

Definition cache_exec (c : VerifiedCache) (o : cache_op) : option bool * VerifiedCache :=
  match o with
  | CacheContains x => let '(b, c') := cache_contains c x in (Some b, c')
  | CacheInsert x => (None, cache_insert c x)
  | CacheClear => (None, cache_clear c)
  end.

Fixpoint cache_run (c : VerifiedCache) (os : list cache_op) : list (option bool) * VerifiedCache :=
  match os with
  | [] => ([], c)
  | o :: os' =>
    let '(r, c') := cache_exec c o in
    let '(rs, c'') := cache_run c' os' in (r :: rs, c'')
  end.

(** Addresses inserted since the last [clear] of a run that starts with
    [verified]. *)
Fixpoint inserted (verified : list XorName) (os : list cache_op) : list XorName :=
  match os with
  | [] => verified
  | CacheContains _ :: os' => inserted verified os'
  | CacheInsert x :: os' => inserted (x :: verified) os'
  | CacheClear :: os' => inserted [] os'
  end.

Definition count_bool (b : bool) (rs : list (option bool)) : Z :=
  lenZ (filter (fun r => r = Some b) rs).
Definition is_insert (o : cache_op) : bool := match o with CacheInsert _ => true | _ => false end.
Definition count_insert (os : list cache_op) : Z := lenZ (filter (fun o => is_insert o = true) os).

Context `{!LruLaws XorName unit}.

Definition within (capacity : Z) (c : VerifiedCache) : Prop :=
  lru_cap (inner c) = Z.max capacity 1 /\ cache_len c <= Z.max capacity 1.

Lemma exec_within capacity c o : within capacity c -> within capacity (cache_exec c o).2.
Proof.
  unfold within, cache_len. intros [Hc Hl]. destruct o as [x|x|]; cbn.
  - pose proof (lru_get_len (inner c) x) as H1. pose proof (lru_get_cap (inner c) x) as H2.
    unfold cache_contains. destruct (lru_get (inner c) x) as [v l]. cbn in *. lia.
  - rewrite lru_put_cap. split; [assumption|]. rewrite <- Hc. apply lru_put_len; lia.
  - rewrite lru_clear_cap, lru_clear_len. lia.
Qed.

Lemma wadd_add a b c : wadd (wadd a b) c = wadd a (b + c).
Proof. unfold wadd. rewrite Z.add_mod_idemp_l by (unfold usize_modulus; lia). f_equal. lia. Qed.

Lemma wadd_0 a : wadd (a mod usize_modulus) 0 = a mod usize_modulus.
Proof. unfold wadd. rewrite Z.add_0_r, Z.mod_mod by (unfold usize_modulus; lia). reflexivity. Qed.

(** The counters after [h] hits, [m] misses and [k] additions more. *)
Definition counted (st : CacheStats) (h m k : Z) : CacheStats :=
  mkCacheStats (wadd (hits st) h) (wadd (misses st) m) (wadd (additions st) k).

Lemma counted_counted st h m k h' m' k' :
  counted (counted st h m k) h' m' k' = counted st (h + h') (m + m') (k + k').
Proof. unfold counted. cbn. rewrite !wadd_add. reflexivity. Qed.

Definition normal (st : CacheStats) : Prop := counted st 0 0 0 = st.

Lemma count_bool_one b r :
  count_bool b [r] = match r with Some b' => if Bool.eqb b' b then 1 else 0 | None => 0 end.
Proof. destruct r as [[]|], b; reflexivity. Qed.

Lemma count_insert_one o : count_insert [o] = if is_insert o then 1 else 0.
Proof. destruct o; reflexivity. Qed.

Lemma exec_counters c o :
  normal (counters c) ->
  counters (cache_exec c o).2 =
    counted (counters c) (count_bool true [(cache_exec c o).1])
      (count_bool false [(cache_exec c o).1]) (count_insert [o]).
Proof.
  destruct c as [l [h m k]]. unfold normal, counted. cbn [counters hits misses additions].
  intros [= Hh Hm Hk]. rewrite !count_bool_one, count_insert_one. destruct o as [x|x|]; cbn [cache_exec].
  - unfold cache_contains. cbn [inner counters hits misses additions].
    destruct (lru_get l x) as [[[]|] l']; cbn; rewrite ?Hh, ?Hm, ?Hk; reflexivity.
  - cbn. rewrite Hh, Hm. reflexivity.
  - cbn. rewrite Hh, Hm, Hk. reflexivity.
Qed.

Lemma run_counters os c :
  normal (counters c) ->
  counters (cache_run c os).2 =
    counted (counters c) (count_bool true (cache_run c os).1)
      (count_bool false (cache_run c os).1) (count_insert os).
Proof.
  revert c. induction os as [|o os IH]; intros c Hn; cbn [cache_run]; [symmetry; exact Hn|].
  pose proof (exec_counters c o Hn) as Hx. destruct (cache_exec c o) as [r c'] eqn:E. cbn in Hx.
  assert (normal (counters c')) as Hn'.
  { unfold normal. rewrite Hx, counted_counted, !Z.add_0_r. reflexivity. }
  specialize (IH c' Hn'). destruct (cache_run c' os) as [rs c'']. cbn in IH |- *.
  rewrite IH, Hx, counted_counted. unfold count_bool, count_insert.
  change (r :: rs) with ([r] ++ rs). change (o :: os) with ([o] ++ os).
  rewrite !filter_app, !lenZ_app. reflexivity.
Qed.

Lemma run_within capacity os c : within capacity c -> within capacity (cache_run c os).2.
Proof.
  revert c. induction os as [|o os IH]; intros c Hw; cbn [cache_run]; [assumption|].
  pose proof (exec_within capacity c o Hw) as Hw'. destruct (cache_exec c o) as [r c'].
  specialize (IH c' Hw'). destruct (cache_run c' os). exact IH.
Qed.

Lemma exec_holds o c verified :
  (forall x, holds c x = true -> x ∈ verified) ->
  (forall x, holds (cache_exec c o).2 x = true -> x ∈ inserted verified [o]).
Proof.
  intros Hv x. destruct o as [y|y|]; cbn [cache_exec inserted].
  - pose proof (holds_contains c y x) as Hx. destruct (cache_contains c y) as [b c'].
    cbn in Hx |- *. rewrite Hx. auto.
  - intros Hx. apply holds_insert in Hx as [-> | Hx]; apply elem_of_cons; auto.
  - cbn. rewrite holds_clear. discriminate.
Qed.

Lemma run_sound os c verified :
  (forall x, holds c x = true -> x ∈ verified) ->
  forall i x, os !! i = Some (CacheContains x) -> (cache_run c os).1 !! i = Some (Some true) ->
  x ∈ inserted verified (take i os).
Proof.
  revert c verified. induction os as [|o os IH]; intros c verified Hv i x Hi Hr; [discriminate|].
  cbn [cache_run] in Hr. destruct i as [|i].
  - injection Hi as ->. cbn. apply Hv. rewrite <- contains_holds. cbn in Hr.
    destruct (cache_contains c x) as [b c']. destruct (cache_run c' os). cbn in *. congruence.
  - pose proof (exec_holds o c verified Hv) as Hv'. destruct (cache_exec c o) as [r c'].
    specialize (IH c' _ Hv' i x Hi). destruct (cache_run c' os) as [rs c'']. cbn in Hr, IH.
    specialize (IH Hr). destruct o; exact IH.
Qed.

End PayCache.

(** A verified-address cache only ever confirms an address that was
    inserted since the last [clear]; it never holds more than its capacity (one,
    when created with zero); and its statistics count exactly the positive
    answers, the negative ones and the insertions, modulo the width of the
    counters. *)
Theorem cache_confirms_only_inserted `{!Lru XorName unit, !LruLaws XorName unit}
    (capacity : Z) (os : list cache_op) :
  let '(rs, c) := cache_run (with_capacity capacity) os in
  (forall i x, os !! i = Some (CacheContains x) -> rs !! i = Some (Some true) ->
     x ∈ inserted [] (take i os)) /\
  cache_len c <= Z.max capacity 1 /\
  cache_stats c = mkCacheStats (count_bool true rs mod 2 ^ 64) (count_bool false rs mod 2 ^ 64)
    (count_insert os mod 2 ^ 64).
Proof.
  pose proof (run_sound os (with_capacity capacity) []) as Hs.
  pose proof (run_within capacity os (with_capacity capacity)) as Hw.
  pose proof (run_counters os (with_capacity capacity) eq_refl) as Hc.
  destruct (cache_run (with_capacity capacity) os) as [rs c]. cbn in Hs, Hw, Hc.
  split; [|split].
  - apply Hs. intros x. rewrite holds_new. discriminate.
  - apply Hw. split; cbn; [apply lru_new_cap | unfold cache_len; cbn; rewrite lru_new_len; lia].
  - exact Hc.
Qed.

Definition sample_run : list cache_op :=
  [CacheContains [x01]; CacheInsert [x01]; CacheInsert [x02]; CacheContains [x01];
   CacheContains [x02]; CacheClear; CacheContains [x02]].

(** Capacity zero means one: the second insertion evicts the first. *)
Lemma cache_confirms_only_inserted_witness :
  let '(rs, c) := cache_run (with_capacity 0) sample_run in
  rs = [Some false; None; None; Some false; Some true; None; Some false] /\
  cache_len c <= 1 /\ cache_stats c = mkCacheStats 1 3 2.
Proof.
  pose proof (cache_confirms_only_inserted 0 sample_run) as Hp.
  destruct (cache_run (with_capacity 0) sample_run) as [rs c] eqn:E.
  assert (rs = [Some false; None; None; Some false; Some true; None; Some false]) as ->.
  { apply (f_equal fst) in E. vm_compute in E. symmetry. exact E. }
  destruct Hp as (_ & Hl & Hs). split; [reflexivity|]. split; [exact Hl|].
  rewrite Hs. vm_compute. reflexivity.
Defined.
