(* ===== verification/Evm.v ===== *)
(** * Data and functions of the payment library

    [evmlib] is not part of the repository.  Its data types appear here with the
    fields the repository reads or constructs, its functions as operations of the
    class [Evm].  Answers of the payment contracts depend on the chain and are
    arguments of the operations that ask them. *)

From Stdlib Require Import ZArith.
From stdpp Require Import base countable list strings.
From S2P Require Import Prelude Interfaces Cipher Reference.

Local Open Scope Z_scope.

(** An [Amount] is a 256-bit unsigned integer. *)
Definition amount_modulus : Z := 2 ^ 256.
Definition amount_ok (a : Z) : Prop := 0 <= a < amount_modulus.
Definition checked_mul (a b : Z) : option Z :=
  if a * b <? amount_modulus then Some (a * b) else None.

Record QuotingMetrics := mkMetrics {
  data_type : Z;
  data_size : Z;
  m_close_records_stored : Z;
  m_records_per_type : list (Z * Z);
  m_max_records : Z;
  m_received_payment_count : Z;
  live_time : Z;
  network_density : option bytes;
  m_network_size : option Z
}.

#[export] Instance QuotingMetrics_eq_dec : EqDecision QuotingMetrics.
Proof. solve_decision. Defined.

(** [timestamp] is a [SystemTime], in nanoseconds. *)
Record PaymentQuote := mkQuote {
  q_content : XorName;
  timestamp : Z;
  quoting_metrics : QuotingMetrics;
  q_pub_key : bytes;
  rewards_address : bytes;
  q_signature : bytes
}.

#[export] Instance PaymentQuote_eq_dec : EqDecision PaymentQuote.
Proof. solve_decision. Defined.

(** An [EncodedPeerId] is its bytes. *)
Record ProofOfPayment := mkProofOfPayment { peer_quotes : list (bytes * PaymentQuote) }.

#[export] Instance ProofOfPayment_eq_dec : EqDecision ProofOfPayment.
Proof. solve_decision. Defined.

Record MerklePaymentCandidateNode := mkCandidate {
  c_pub_key : bytes;
  c_quoting_metrics : QuotingMetrics;
  reward_address : bytes;
  merkle_payment_timestamp : Z;
  c_signature : bytes
}.

#[export] Instance MerklePaymentCandidateNode_eq_dec : EqDecision MerklePaymentCandidateNode.
Proof. solve_decision. Defined.

(** The proofs of membership in the merkle tree are opaque. *)
Record MerklePaymentCandidatePool := mkPool {
  midpoint_proof : bytes;
  candidate_nodes : list MerklePaymentCandidateNode
}.

#[export] Instance MerklePaymentCandidatePool_eq_dec : EqDecision MerklePaymentCandidatePool.
Proof. solve_decision. Defined.

Record MerklePaymentProof := mkMerkleProof {
  mp_address : XorName;
  data_proof : bytes;
  winner_pool : MerklePaymentCandidatePool
}.

#[export] Instance MerklePaymentProof_eq_dec : EqDecision MerklePaymentProof.
Proof. solve_decision. Defined.

Record OnChainPaymentInfo := mkOnChain {
  depth : Z;
  on_chain_timestamp : Z;
  paid_node_addresses : list (bytes * Z)
}.

#[export] Instance OnChainPaymentInfo_eq_dec : EqDecision OnChainPaymentInfo.
Proof. solve_decision. Defined.

(** What the merkle contract answers about a pool. *)
Record MerklePaymentInfo := mkMerkleInfo {
  info_depth : Z;
  merklePaymentTimestamp : Z;
  paidNodeAddresses : list (bytes * Z)
}.

(** One result of the contract's [verifyPayment]. *)
Record PaymentVerificationResult := mkPaid { amountPaid : Z; isValid : bool }.

Class Evm := {
  (** [PaymentQuote::bytes_for_signing], [bytes_for_sig], [hash]. *)
  quote_bytes_for_signing : XorName -> Z -> QuotingMetrics -> bytes -> bytes;
  quote_bytes_for_sig : PaymentQuote -> bytes;
  quote_hash : PaymentQuote -> bytes;
  (** [ProofOfPayment::digest]. *)
  payment_digest : ProofOfPayment -> list (bytes * QuotingMetrics * bytes);
  (** [MerklePaymentCandidateNode::bytes_to_sign]. *)
  candidate_bytes_to_sign : QuotingMetrics -> bytes -> Z -> bytes;
  (** [MerklePaymentProof::winner_pool_hash], the root of the midpoint proof and
      [evmlib::merkle_payments::verify_merkle_proof]. *)
  winner_pool_hash : MerklePaymentProof -> bytes;
  midpoint_root : bytes -> bytes;
  verify_merkle_proof : XorName -> bytes -> bytes -> Z -> bytes -> Z -> result string unit
}.

(** [saorsa_core]'s [peer_id_from_public_key_bytes]. *)
Class PeerIds := { peer_id_from_public_key_bytes : bytes -> result string bytes }.

Class EvmLaws `{Evm} : Prop := {
  bytes_for_sig_spec q :
    quote_bytes_for_sig q =
    quote_bytes_for_signing (q_content q) (timestamp q) (quoting_metrics q) (rewards_address q)
}.

(** A concrete instance for the witnesses. *)
#[export] Instance toy_evm : Evm := {|
  quote_bytes_for_signing content ts m rewards :=
    content ++ le_bytes 8 ts ++ le_bytes 8 (data_size m) ++ rewards;
  quote_bytes_for_sig q :=
    q_content q ++ le_bytes 8 (timestamp q) ++ le_bytes 8 (data_size (quoting_metrics q)) ++
    rewards_address q;
  quote_hash q := toy_hash (q_content q ++ q_pub_key q);
  payment_digest p :=
    (fun '(_, q) => (toy_hash (q_content q ++ q_pub_key q), quoting_metrics q, rewards_address q))
    <$> peer_quotes p;
  candidate_bytes_to_sign m rewards ts := rewards ++ le_bytes 8 ts;
  winner_pool_hash p := toy_hash (midpoint_proof (winner_pool p));
  midpoint_root p := p;
  verify_merkle_proof address dp mp d root ts :=
    if bool_decide (dp = address) then Ok tt else Err "wrong proof"%string
|}.

#[export] Instance toy_evm_laws : EvmLaws.
Proof. split. reflexivity. Qed.

#[export] Instance toy_peer_ids : PeerIds := {|
  peer_id_from_public_key_bytes pk :=
    if lenZ pk =? 1952 then Ok (toy_hash pk) else Err "invalid length"%string
|}.

(** For keys of any length. *)
Definition short_peer_ids : PeerIds := {| peer_id_from_public_key_bytes pk := Ok (toy_hash pk) |}.
