(* ===== verification/Metrics.v ===== *)
(** * Quoting metrics

    [ant-node/src/payment/metrics.rs]: the counters a node quotes its prices
    from, and their debounced persistence.  The atomic counters wrap around; the
    file the tracker writes to is part of the state. *)

From Stdlib Require Import ZArith Lia Strings.Byte.
From stdpp Require Import base countable list strings.
From S2P Require Import Prelude Interfaces Cipher Protocol Evm.

Local Open Scope Z_scope.

Definition PERSIST_INTERVAL : Z := 10.

Record QuotingMetricsTracker := mkTracker {
  received_payment_count : Z;
  max_records : Z;
  close_records_stored : Z;
  records_per_type : list (Z * Z);
  start_time : Z;
  persist_path : option string;
  network_size : Z;
  ops_since_persist : Z
}.

Record PersistedMetrics := mkPersisted {
  p_received_payment_count : Z;
  p_close_records_stored : Z;
  p_records_per_type : list (Z * Z)
}.

#[export] Instance PersistedMetrics_eq_dec : EqDecision PersistedMetrics.
Proof. solve_decision. Defined.

(** What became of the file when it was written: the new contents, or an error
    after which anything may be there. *)
Inductive write_outcome := Written | WriteFails (remains : option bytes).

Definition set_counts (t : QuotingMetricsTracker) (payments stored : Z) (per_type : list (Z * Z))
    : QuotingMetricsTracker :=
  mkTracker payments (max_records t) stored per_type (start_time t) (persist_path t)
    (network_size t) (ops_since_persist t).

Definition set_ops (t : QuotingMetricsTracker) (ops : Z) : QuotingMetricsTracker :=
  mkTracker (received_payment_count t) (max_records t) (close_records_stored t)
    (records_per_type t) (start_time t) (persist_path t) (network_size t) ops.

Section Metrics.
Context `{!Codec rmp_serde PersistedMetrics}.

(** [QuotingMetricsTracker::new] at time [now]. *)
Definition tracker_new (max_records initial_records now : Z) : QuotingMetricsTracker :=
  mkTracker 0 max_records initial_records [] now None 500 0.

Definition load_from_disk (file : option bytes) : option PersistedMetrics :=
  bs ← file; de rmp_serde bs.

Definition with_persistence (max_records : Z) (path : string) (now : Z) (file : option bytes)
    : QuotingMetricsTracker :=
  let t := tracker_new max_records 0 now in
  let t := mkTracker (received_payment_count t) max_records (close_records_stored t)
    (records_per_type t) (start_time t) (Some path) (network_size t) (ops_since_persist t) in
  match load_from_disk file with
  | Some loaded => set_counts t (p_received_payment_count loaded) (p_close_records_stored loaded)
                     (p_records_per_type loaded)
  | None => t
  end.

Definition persisted (t : QuotingMetricsTracker) : PersistedMetrics :=
  mkPersisted (received_payment_count t) (close_records_stored t) (records_per_type t).

Definition persist (w : write_outcome) (t : QuotingMetricsTracker) (file : option bytes)
    : option bytes :=
  match persist_path t with
  | None => file
  | Some _ =>
    match ser rmp_serde (persisted t) with
    | None => file
    | Some bs => match w with Written => Some bs | WriteFails remains => remains end
    end
  end.

Definition maybe_persist (w : write_outcome) (t : QuotingMetricsTracker) (file : option bytes)
    : QuotingMetricsTracker * option bytes :=
  let ops := ops_since_persist t in
  let t := set_ops t (wadd ops 1) in
  (t, if ops mod PERSIST_INTERVAL =? 0 then persist w t file else file).

Definition record_payment (w : write_outcome) (t : QuotingMetricsTracker) (file : option bytes)
    : QuotingMetricsTracker * option bytes :=
  maybe_persist w
    (set_counts t (wadd (received_payment_count t) 1) (close_records_stored t) (records_per_type t))
    file.

(** [entry.1.saturating_add(1)] of the first entry of this type, or a new entry. *)
Fixpoint bump (data_type : Z) (records : list (Z * Z)) : list (Z * Z) :=
  match records with
  | [] => [(data_type, 1)]
  | (t, n) :: records' =>
      if t =? data_type then (t, Z.min (n + 1) u32_max) :: records'
      else (t, n) :: bump data_type records'
  end.

Definition record_store (w : write_outcome) (data_type : Z) (t : QuotingMetricsTracker)
    (file : option bytes) : QuotingMetricsTracker * option bytes :=
  maybe_persist w
    (set_counts t (received_payment_count t) (wadd (close_records_stored t) 1)
       (bump data_type (records_per_type t)))
    file.

Definition payment_count (t : QuotingMetricsTracker) : Z := received_payment_count t.
Definition records_stored (t : QuotingMetricsTracker) : Z := close_records_stored t.

Definition live_time_hours (t : QuotingMetricsTracker) (now : Z) : Z := (now - start_time t) / 3600.

Definition set_network_size (t : QuotingMetricsTracker) (size : Z) : QuotingMetricsTracker :=
  mkTracker (received_payment_count t) (max_records t) (close_records_stored t)
    (records_per_type t) (start_time t) (persist_path t) size (ops_since_persist t).

Definition get_metrics (t : QuotingMetricsTracker) (now data_size data_type : Z) : QuotingMetrics :=
  {| data_type := data_type; data_size := data_size;
     m_close_records_stored := close_records_stored t;
     m_records_per_type := records_per_type t;
     m_max_records := max_records t;
     m_received_payment_count := received_payment_count t;
     live_time := live_time_hours t now;
     network_density := None;
     m_network_size := Some (network_size t) |}.

(** [Drop::drop]. *)
Definition tracker_drop (w : write_outcome) (t : QuotingMetricsTracker) (file : option bytes)
    : option bytes := persist w t file.

(** ** Runs *)

Inductive metrics_op := RecordPayment | RecordStore (data_type : Z).

#[export] Instance metrics_op_eq_dec : EqDecision metrics_op.
Proof. solve_decision. Defined.

Definition metrics_exec (w : write_outcome) (o : metrics_op) (t : QuotingMetricsTracker)
    (file : option bytes) : QuotingMetricsTracker * option bytes :=
  match o with
  | RecordPayment => record_payment w t file
  | RecordStore d => record_store w d t file
  end.

Fixpoint metrics_run (os : list metrics_op) (t : QuotingMetricsTracker) (file : option bytes)
    : QuotingMetricsTracker * option bytes :=
  match os with
  | [] => (t, file)
  | o :: os' => let '(t', file') := metrics_exec Written o t file in metrics_run os' t' file'
  end.

Definition counts_only (o : metrics_op) (t : QuotingMetricsTracker) : QuotingMetricsTracker :=
  match o with
  | RecordPayment =>
      set_counts t (wadd (received_payment_count t) 1) (close_records_stored t) (records_per_type t)
  | RecordStore d =>
      set_counts t (received_payment_count t) (wadd (close_records_stored t) 1)
        (bump d (records_per_type t))
  end.

Lemma metrics_exec_eq w o t file :
  metrics_exec w o t file = maybe_persist w (counts_only o t) file.
Proof. destruct o; reflexivity. Qed.

Lemma metrics_run_app os os' t file :
  metrics_run (os ++ os') t file =
  let '(t', file') := metrics_run os t file in metrics_run os' t' file'.
Proof.
  revert t file. induction os as [|o os IH]; intros t file; [reflexivity|].
  cbn. destruct (metrics_exec Written o t file). apply IH.
Qed.

Lemma run_path os t file : persist_path (metrics_run os t file).1 = persist_path t.
Proof.
  revert t file. induction os as [|o os IH]; intros t file; [reflexivity|].
  cbn [metrics_run]. rewrite metrics_exec_eq. unfold maybe_persist. rewrite IH.
  destruct o; reflexivity.
Qed.

Lemma run_ops os t file :
  0 <= ops_since_persist t < usize_modulus ->
  ops_since_persist (metrics_run os t file).1 = (ops_since_persist t + lenZ os) mod usize_modulus.
Proof.
  revert t file. induction os as [|o os IH]; intros t file Ht; cbn [metrics_run].
  - unfold lenZ. cbn. rewrite Z.add_0_r, Z.mod_small by assumption. reflexivity.
  - rewrite metrics_exec_eq. unfold maybe_persist. rewrite IH.
    + assert (ops_since_persist (counts_only o t) = ops_since_persist t) as -> by (destruct o; reflexivity).
      cbn [set_ops ops_since_persist]. unfold wadd, lenZ. cbn [length].
      rewrite Z.add_mod_idemp_l by (unfold usize_modulus; lia). f_equal. lia.
    + cbn. unfold wadd. apply Z.mod_pos_bound. unfold usize_modulus. lia.
Qed.

(** Writing the file at an operation, and not. *)
Lemma persist_now t file path bs :
  persist_path t = Some path -> ser rmp_serde (persisted t) = Some bs -> persist Written t file = Some bs.
Proof. unfold persist. intros -> ->. reflexivity. Qed.

(** Between two writes the file does not change. *)
Lemma run_between os t file k :
  ops_since_persist t = k -> 0 < k -> k mod PERSIST_INTERVAL <> 0 ->
  k mod PERSIST_INTERVAL + lenZ os <= PERSIST_INTERVAL -> k + lenZ os < usize_modulus ->
  (metrics_run os t file).2 = file.
Proof.
  revert t k. induction os as [|o os IH]; intros t k Hk Hpos Hm Hl Hb; [reflexivity|].
  unfold lenZ in Hl, Hb. cbn [length] in Hl, Hb. cbn [metrics_run]. rewrite metrics_exec_eq.
  unfold maybe_persist. assert (ops_since_persist (counts_only o t) = k) as Hk'
    by (destruct o; exact Hk).
  rewrite Hk'. apply Z.eqb_neq in Hm as Hm'. rewrite Hm'.
  destruct os as [|o' os]; [reflexivity|].
  unfold PERSIST_INTERVAL in *. cbn [length] in Hl.
  assert ((k + 1) mod 10 = k mod 10 + 1) as Hk1.
  { rewrite <- Z.add_mod_idemp_l by lia. apply Z.mod_small. pose proof (Z.mod_pos_bound k 10). lia. }
  pose proof (Z.mod_pos_bound k 10).
  assert (wadd k 1 = k + 1) as Hw by (unfold wadd; apply Z.mod_small; lia).
  apply (IH _ (k + 1)).
  - cbn. exact Hw.
  - lia.
  - lia.
  - unfold lenZ. cbn [length]. lia.
  - unfold lenZ. cbn [length] in *. lia.
Qed.

(** Every tenth operation writes the file. *)
Lemma exec_writes o t file path :
  persist_path t = Some path -> ops_since_persist t mod PERSIST_INTERVAL = 0 ->
  (forall m, is_Some (ser rmp_serde (A := PersistedMetrics) m)) ->
  (metrics_exec Written o t file).2 = ser rmp_serde (persisted (metrics_exec Written o t file).1).
Proof.
  intros Hp Hk Hs. rewrite metrics_exec_eq. unfold maybe_persist.
  assert (ops_since_persist (counts_only o t) = ops_since_persist t) as -> by (destruct o; reflexivity).
  rewrite Hk. cbn [Z.eqb fst snd].
  set (t' := set_ops _ _). destruct (Hs (persisted t')) as [bs Hbs]. rewrite Hbs.
  apply (persist_now _ _ path); [|exact Hbs]. destruct o; exact Hp.
Qed.

Lemma reload `{!CodecLaws rmp_serde PersistedMetrics} max path now (m : PersistedMetrics) file :
  ser rmp_serde m = file -> is_Some file ->
  persisted (with_persistence max path now file) = m.
Proof.
  intros Hs [bs ->]. unfold with_persistence, load_from_disk. cbn.
  rewrite (ser_de m bs Hs). destruct m. reflexivity.
Qed.

(** Operations of which a restart is certain to remember the effect: all but at
    most nine. *)
Definition remembered (os : list metrics_op) : list metrics_op :=
  take (Z.to_nat ((lenZ os - 1) / PERSIST_INTERVAL * PERSIST_INTERVAL + 1)) os.

Lemma remembered_split os :
  1 <= lenZ os ->
  exists pre o rest, os = (pre ++ [o]) ++ rest /\ remembered os = pre ++ [o] /\
    lenZ pre mod PERSIST_INTERVAL = 0 /\ lenZ rest < PERSIST_INTERVAL.
Proof.
  intros Hos. set (k := Z.to_nat ((lenZ os - 1) / PERSIST_INTERVAL * PERSIST_INTERVAL)).
  pose proof (Z.div_mod (lenZ os - 1) PERSIST_INTERVAL ltac:(discriminate)) as Hdm.
  pose proof (Z.mod_pos_bound (lenZ os - 1) PERSIST_INTERVAL eq_refl) as Hmb.
  assert (0 <= (lenZ os - 1) / PERSIST_INTERVAL) as Hq by (apply Z.div_pos; [lia | reflexivity]).
  assert (Z.of_nat k = (lenZ os - 1) / PERSIST_INTERVAL * PERSIST_INTERVAL) as Hk.
  { unfold k. rewrite Z2Nat.id; [reflexivity|]. unfold PERSIST_INTERVAL in *. lia. }
  assert (k < length os)%nat as Hlt by (unfold PERSIST_INTERVAL, lenZ in *; lia).
  destruct (lookup_lt_is_Some_2 os k Hlt) as [o Ho].
  exists (take k os), o, (drop (S k) os). repeat split.
  - rewrite <- app_assoc. symmetry. apply take_drop_middle. exact Ho.
  - unfold remembered. replace (Z.to_nat _) with (S k) by (unfold k; lia). apply take_S_r. exact Ho.
  - replace (lenZ (take k os)) with (Z.of_nat k) by (unfold lenZ; rewrite length_take; lia).
    rewrite Hk. apply Z.mod_mul. discriminate.
  - unfold lenZ in *. rewrite length_drop. unfold PERSIST_INTERVAL in *. lia.
Qed.

(** The file at the end of a run is the one its last tenth operation wrote. *)
Lemma run_file t0 file path os :
  persist_path t0 = Some path -> ops_since_persist t0 = 0 -> 1 <= lenZ os < usize_modulus ->
  (forall m, is_Some (ser rmp_serde (A := PersistedMetrics) m)) ->
  (metrics_run os t0 file).2 = ser rmp_serde (persisted (metrics_run (remembered os) t0 file).1).
Proof.
  intros Hpath Hops0 Hos Hser.
  destruct (remembered_split os (proj1 Hos)) as (pre & o & rest & Hsplit & Hrem & Hmod & Hrest).
  rewrite Hrem. rewrite Hsplit in Hos |- *. rewrite !lenZ_app in Hos.
  pose proof (lenZ_nonneg pre). pose proof (lenZ_nonneg rest).
  change (lenZ [o]) with 1 in Hos. rewrite metrics_run_app.
  pose proof (run_ops (pre ++ [o]) t0 file) as Hopsr. pose proof (run_ops pre t0 file) as Hopsk.
  pose proof (run_path pre t0 file) as Hpk. pose proof (metrics_run_app pre [o] t0 file) as Hwrite.
  rewrite Hops0, lenZ_app, Z.mod_small in Hopsr by (change (lenZ [o]) with 1; lia).
  rewrite Hops0, Z.mod_small in Hopsk by lia. change (lenZ [o]) with 1 in Hopsr.
  destruct (metrics_run (pre ++ [o]) t0 file) as [tr fr]. cbn [fst] in Hopsr |- *.
  assert ((0 + lenZ pre + 1) mod PERSIST_INTERVAL = 1) as Hone.
  { rewrite Z.add_0_l, <- Z.add_mod_idemp_l, Hmod by discriminate. reflexivity. }
  rewrite (run_between rest tr fr (0 + (lenZ pre + 1))).
  - destruct (metrics_run pre t0 file) as [tk fk]. cbn [fst] in Hopsk, Hpk. cbn [metrics_run] in Hwrite.
    rewrite (surjective_pairing (metrics_exec Written o tk fk)) in Hwrite. injection Hwrite as -> ->.
    apply (exec_writes o tk fk path); [congruence | | exact Hser].
    rewrite Hopsk by (unfold usize_modulus; lia). exact Hmod.
  - apply Hopsr. unfold usize_modulus. lia.
  - lia.
  - rewrite Z.add_assoc, Hone. discriminate.
  - rewrite Z.add_assoc, Hone. lia.
  - lia.
Qed.

End Metrics.

(** A node that is killed after any positive number of payments and stores
    comes back with exactly the counters it had after a prefix of them that lacks
    at most nine (one less than [PERSIST_INTERVAL]) of the last; a node that
    shuts down in order comes back with all of them.  This supposes that the
    metrics serialize and that writes succeed. *)
Theorem metrics_survive_restart
    `{!Codec rmp_serde PersistedMetrics, !CodecLaws rmp_serde PersistedMetrics}
    (max max' now now' : Z) (path : string) (file : option bytes) (os : list metrics_op)
    (Hser : forall m, is_Some (ser rmp_serde (A := PersistedMetrics) m))
    (Hos : 1 <= lenZ os < usize_modulus) :
  let t0 := with_persistence max path now file in
  let '(t, file') := metrics_run os t0 file in
  lenZ os - lenZ (remembered os) <= 9 /\
  persisted (with_persistence max' path now' file') = persisted (metrics_run (remembered os) t0 file).1 /\
  persisted (with_persistence max' path now' (tracker_drop Written t file')) = persisted t.
Proof.
  set (t0 := with_persistence max path now file). cbv zeta.
  assert (persist_path t0 = Some path /\ ops_since_persist t0 = 0) as [Hpath Hops0].
  { unfold t0, with_persistence. destruct (load_from_disk file); split; reflexivity. }
  pose proof (run_file t0 file path os Hpath Hops0 Hos Hser) as Hfile.
  pose proof (run_path os t0 file) as Hpo.
  destruct (remembered_split os (proj1 Hos)) as (pre & o & rest & Hsplit & Hrem & _ & Hrest).
  destruct (metrics_run os t0 file) as [t file']. cbn [fst snd] in *. split; [|split].
  - rewrite Hrem, Hsplit, (lenZ_app _ rest). unfold PERSIST_INTERVAL in Hrest. lia.
  - apply reload; [symmetry; exact Hfile|]. rewrite Hfile. apply Hser.
  - destruct (Hser (persisted t)) as [bs Hbs].
    unfold tracker_drop. rewrite (persist_now t file' path bs) by congruence.
    apply reload; [exact Hbs | eauto].
Qed.

#[export] Instance PersistedMetrics_countable : Countable PersistedMetrics.
Proof.
  refine (inj_countable'
    (fun m => (p_received_payment_count m, p_close_records_stored m, p_records_per_type m))
    (fun '(a, b, c) => mkPersisted a b c) _).
  intros []; reflexivity.
Defined.

#[export] Instance rmp_persisted : Codec rmp_serde PersistedMetrics := {|
  ser := countable_ser; de := countable_de |}.

#[export] Instance rmp_persisted_laws : CodecLaws rmp_serde PersistedMetrics.
Proof. split. apply countable_ser_de. Qed.

(** After twelve operations the last write was at the eleventh. *)
Lemma metrics_survive_restart_witness :
  let os := [RecordPayment; RecordStore 0; RecordStore 0; RecordPayment; RecordPayment;
             RecordStore 1; RecordPayment; RecordPayment; RecordPayment; RecordStore 0;
             RecordPayment; RecordPayment] in
  let t0 := with_persistence 100 "metrics" 0 None in
  let '(t, file') := metrics_run os t0 None in
  persisted t = mkPersisted 8 4 [(0, 3); (1, 1)] /\
  persisted (with_persistence 100 "metrics" 5 file') = mkPersisted 7 4 [(0, 3); (1, 1)].
Proof.
  cbv zeta. set (os := [RecordPayment; _; _; _; _; _; _; _; _; _; _; _]).
  assert (1 <= lenZ os < usize_modulus) as Hos by (vm_compute; split; [discriminate | reflexivity]).
  pose proof (metrics_survive_restart 100 100 0 5 "metrics" None os ltac:(intros m; eexists; reflexivity) Hos)
    as Hp.
  cbv zeta in Hp. set (t0 := with_persistence 100 "metrics" 0 None) in *.
  assert (persisted (metrics_run os t0 None).1 = mkPersisted 8 4 [(0, 3); (1, 1)]) as H1
    by (vm_compute; reflexivity).
  assert (persisted (metrics_run (remembered os) t0 None).1 = mkPersisted 7 4 [(0, 3); (1, 1)]) as H2
    by (vm_compute; reflexivity).
  destruct (metrics_run os t0 None) as [t file']. split; [exact H1|].
  destruct Hp as (_ & -> & _). exact H2.
Defined.
