(* ===== verification/Quote.v ===== *)
(** * Quotes

    [ant-node/src/payment/quote.rs]: a node's signed price quotes and merkle
    candidate quotes, and their verification. *)

From Stdlib Require Import ZArith Lia Strings.Byte.
From stdpp Require Import base list strings.
From S2P Require Import Prelude Interfaces Cipher Reference Protocol Evm Metrics Storage.

Local Open Scope Z_scope.

(** [sign_fn] is the closure a signer installs; it answers no bytes when signing
    fails. *)
Record QuoteGenerator := mkGenerator {
  g_rewards_address : bytes;
  metrics_tracker : QuotingMetricsTracker;
  sign_fn : option (bytes -> bytes);
  pub_key : bytes
}.

Definition set_tracker (g : QuoteGenerator) (t : QuotingMetricsTracker) : QuoteGenerator :=
  mkGenerator (g_rewards_address g) t (sign_fn g) (pub_key g).

Definition generator_new (rewards_address : bytes) (metrics_tracker : QuotingMetricsTracker)
    : QuoteGenerator := mkGenerator rewards_address metrics_tracker None [].

Definition set_signer (g : QuoteGenerator) (pub_key : bytes) (sign : bytes -> bytes)
    : QuoteGenerator := mkGenerator (g_rewards_address g) (metrics_tracker g) (Some sign) pub_key.

Definition can_sign (g : QuoteGenerator) : bool :=
  match sign_fn g with Some _ => true | None => false end.

(** [b"ant-signing-probe"]. *)
Definition probe_message : bytes := String.list_byte_of_string "ant-signing-probe".

Definition probe_signer (g : QuoteGenerator) : result NodeError unit :=
  sign ← ok_or (sign_fn g) (PaymentError "Signer not set");
  if lenZ (sign probe_message) =? 0 then
    Err (PaymentError "ML-DSA-65 signing probe failed: empty signature produced")
  else Ok tt.

Section Quotes.
Context `{Evm, Dsa}.

(** [now] is [SystemTime::now()] in nanoseconds and [instant] the monotonic clock
    in seconds. *)
Definition create_quote (g : QuoteGenerator) (now instant : Z) (content : XorName)
    (data_size data_type : Z) : result NodeError PaymentQuote :=
  sign ← ok_or (sign_fn g) (PaymentError "Quote signing not configured");
  let metrics := get_metrics (metrics_tracker g) instant data_size data_type in
  let bs := quote_bytes_for_signing content now metrics (g_rewards_address g) in
  let signature := sign bs in
  if lenZ signature =? 0 then Err (PaymentError "Signing produced empty signature")
  else
    Ok {| q_content := content; timestamp := now; quoting_metrics := metrics;
          q_pub_key := pub_key g; rewards_address := g_rewards_address g;
          q_signature := signature |}.

Definition create_merkle_candidate_quote (g : QuoteGenerator) (instant : Z)
    (data_size data_type merkle_payment_timestamp : Z)
    : result NodeError MerklePaymentCandidateNode :=
  sign ← ok_or (sign_fn g) (PaymentError "Quote signing not configured");
  let metrics := get_metrics (metrics_tracker g) instant data_size data_type in
  let msg := candidate_bytes_to_sign metrics (g_rewards_address g) merkle_payment_timestamp in
  let signature := sign msg in
  if lenZ signature =? 0 then
    Err (PaymentError "ML-DSA-65 signing produced empty signature for merkle candidate")
  else
    Ok {| c_pub_key := pub_key g; c_quoting_metrics := metrics;
          reward_address := g_rewards_address g;
          merkle_payment_timestamp := merkle_payment_timestamp; c_signature := signature |}.

Definition verify_quote_content (quote : PaymentQuote) (expected_content : XorName) : bool :=
  bool_decide (q_content quote = expected_content).

Definition verify_quote_signature (quote : PaymentQuote) : bool :=
  if negb (dsa_pk_valid (q_pub_key quote)) then false
  else if negb (dsa_sig_valid (q_signature quote)) then false
  else dsa_verify (q_pub_key quote) (quote_bytes_for_sig quote) (q_signature quote).

Definition verify_merkle_candidate_signature (candidate : MerklePaymentCandidateNode) : bool :=
  if negb (dsa_pk_valid (c_pub_key candidate)) then false
  else if negb (dsa_sig_valid (c_signature candidate)) then false
  else
    let msg := candidate_bytes_to_sign (c_quoting_metrics candidate) (reward_address candidate)
                 (merkle_payment_timestamp candidate) in
    dsa_verify (c_pub_key candidate) msg (c_signature candidate).

Definition wire_ml_dsa_signer (g : QuoteGenerator) (identity : bytes * bytes)
    : result NodeError QuoteGenerator :=
  let '(pk, sk) := identity in
  if negb (dsa_sk_valid sk) then
    Err (CryptoError "Failed to deserialize ML-DSA-65 secret key: {e}")
  else
    let g := set_signer g pk
               (fun msg => match dsa_sign sk msg with Some sig => sig | None => [] end) in
    _ ← probe_signer g;
    Ok g.

(** ** Facts *)

Context `{!DsaLaws, !EvmLaws}.

Lemma wired_sign g pk sk g' :
  dsa_keypair pk sk -> wire_ml_dsa_signer g (pk, sk) = Ok g' ->
  pub_key g' = pk /\ g_rewards_address g' = g_rewards_address g /\
  metrics_tracker g' = metrics_tracker g /\
  exists sign, sign_fn g' = Some sign /\
    forall m, lenZ (sign m) <> 0 -> dsa_sig_valid (sign m) = true /\ dsa_verify pk m (sign m) = true.
Proof.
  intros Hk. unfold wire_ml_dsa_signer. rewrite (dsa_sk_valid_spec _ _ Hk). cbn [negb].
  destruct (probe_signer _) as [[]|]; [|discriminate]. intros [= <-]. cbn.
  repeat split. eexists. split; [reflexivity|]. intros m. cbn beta. intros Hm.
  destruct (dsa_sign sk m) as [sig|] eqn:E; [|destruct (Hm eq_refl)].
  split; [exact (dsa_sig_valid_spec _ _ _ _ Hk E) | exact (proj2 (dsa_sign_spec _ _ _ _ Hk E))].
Qed.

End Quotes.

(** What a wired generator signs names its reward address and verifies. *)
Lemma wired_quote `{Evm, Dsa, !DsaLaws, !EvmLaws} g g' pk sk now instant size ty content q :
  dsa_keypair pk sk -> wire_ml_dsa_signer g (pk, sk) = Ok g' ->
  create_quote g' now instant content size ty = Ok q ->
  verify_quote_signature q = true /\ q_content q = content /\ q_pub_key q = pk /\
  rewards_address q = g_rewards_address g /\ timestamp q = now /\
  quoting_metrics q = get_metrics (metrics_tracker g) instant size ty.
Proof.
  intros Hkeys Hw Hq. destruct (wired_sign _ _ _ _ Hkeys Hw) as (Hpk & Hrw & Htr & sign & Hsign & Hver).
  unfold create_quote in Hq. rewrite Hsign in Hq. cbn in Hq. rewrite Hpk, Hrw, Htr in *.
  destruct (lenZ (sign _) =? 0) eqn:Ez in Hq; [discriminate|]. b2p.
  destruct (Hver _ Ez) as [Hv1 Hv2]. injection Hq as <-.
  unfold verify_quote_signature. cbn. rewrite (proj2 (dsa_keypair_spec _ _ Hkeys)), Hv1, bytes_for_sig_spec. cbn.
  by rewrite Hv2.
Qed.

(** With a wired signer, every quote a node creates is for the content it
    was asked about, carries the node's key, reward address and current metrics,
    and passes [verify_quote_content] for exactly that content and
    [verify_quote_signature]; likewise a merkle candidate quote passes
    [verify_merkle_candidate_signature].  Without a signer both are refused. *)
Theorem quotes_verify `{Evm, Dsa, !DsaLaws, !EvmLaws}
    (g g' : QuoteGenerator) (pk sk : bytes) (now instant size ty ts : Z) (content : XorName)
    (q : PaymentQuote) (c : MerklePaymentCandidateNode)
    (Hkeys : dsa_keypair pk sk) (Hfresh : sign_fn g = None)
    (Hw : wire_ml_dsa_signer g (pk, sk) = Ok g')
    (Hq : create_quote g' now instant content size ty = Ok q)
    (Hc : create_merkle_candidate_quote g' instant size ty ts = Ok c) :
  verify_quote_signature q = true /\ verify_merkle_candidate_signature c = true /\
  (forall x, verify_quote_content q x = true <-> x = content) /\
  q_pub_key q = pk /\ rewards_address q = g_rewards_address g /\ timestamp q = now /\
  quoting_metrics q = get_metrics (metrics_tracker g) instant size ty /\
  c_pub_key c = pk /\ reward_address c = g_rewards_address g /\ merkle_payment_timestamp c = ts /\
  is_ok (create_quote g now instant content size ty) = false /\
  is_ok (create_merkle_candidate_quote g instant size ty ts) = false.
Proof.
  destruct (wired_quote _ _ _ _ _ _ _ _ _ _ Hkeys Hw Hq) as (Hs & <- & Hk & Hr & Ht & Hm).
  destruct (wired_sign _ _ _ _ Hkeys Hw) as (Hpk & Hrw & Htr & sign & Hsign & Hver).
  clear Hq. unfold create_quote, create_merkle_candidate_quote in *. rewrite Hfresh. rewrite Hsign in Hc.
  cbn in Hc. rewrite Hpk, Hrw, Htr in *.
  destruct (lenZ (sign _) =? 0) eqn:Ez in Hc; [discriminate|]. b2p.
  destruct (Hver _ Ez) as [Hv3 Hv4]. injection Hc as <-.
  unfold verify_merkle_candidate_signature, verify_quote_content. cbn.
  rewrite (proj2 (dsa_keypair_spec _ _ Hkeys)), Hv3, Hv4. split; [exact Hs|]. split; [done|]. split; [|done].
  intros x. by rewrite bool_decide_eq_true.
Qed.

Definition sample_key (b : byte) : bytes := replicate 1952 b.

Lemma quotes_verify_witness :
  let g := generator_new [x07] (tracker_new 1000 0 0) in
  let pk := sample_key x11 in
  exists g' q c, wire_ml_dsa_signer g (pk, pk) = Ok g' /\
    create_quote g' 5 0 [x01] 100 0 = Ok q /\ create_merkle_candidate_quote g' 0 100 0 9 = Ok c /\
    verify_quote_signature q = true /\ verify_merkle_candidate_signature c = true /\
    verify_quote_content q [x01] = true.
Proof.
  cbv zeta. set (g := generator_new [x07] (tracker_new 1000 0 0)). set (pk := sample_key x11).
  assert (dsa_keypair pk pk) as Hk by (split; [reflexivity | vm_compute; reflexivity]).
  assert (is_ok (wire_ml_dsa_signer g (pk, pk)) = true) as Hw by (vm_compute; reflexivity).
  destruct (wire_ml_dsa_signer g (pk, pk)) as [g'|] eqn:Ew; [|discriminate].
  assert (exists q, create_quote g' 5 0 [x01] 100 0 = Ok q) as [q Hq].
  { injection Ew as <-. eexists. cbn [create_quote]. reflexivity. }
  assert (exists c, create_merkle_candidate_quote g' 0 100 0 9 = Ok c) as [c Hc].
  { injection Ew as <-. eexists. reflexivity. }
  destruct (quotes_verify g g' pk pk 5 0 100 0 9 [x01] q c Hk eq_refl Ew Hq Hc)
    as (Hv & Hm & Hx & _).
  exists g', q, c. repeat split; [assumption.. |]. apply Hx. reflexivity.
Defined.
