(* ===== verification/PayProof.v ===== *)
(** * Payment proofs on the wire

    [ant-node/src/payment/proof.rs]: a proof is a tag byte and a MessagePack
    body; the tag says which of the two kinds of payment it proves. *)

From Stdlib Require Import ZArith Lia Strings.Byte.
From stdpp Require Import base countable list strings.
From S2P Require Import Prelude Interfaces Cipher Protocol Evm.

Local Open Scope Z_scope.

Record PaymentProof := mkPaymentProof {
  proof_of_payment : ProofOfPayment;
  tx_hashes : list bytes
}.

Inductive ProofType := SingleNode | Merkle.

Definition detect_proof_type (bs : bytes) : option ProofType :=
  match bs with
  | b :: _ =>
      if bool_decide (b = PROOF_TAG_SINGLE_NODE) then Some SingleNode
      else if bool_decide (b = PROOF_TAG_MERKLE) then Some Merkle
      else None
  | [] => None
  end.

Section Proofs.
Context `{!Codec rmp_serde PaymentProof, !Codec rmp_serde MerklePaymentProof}.

Definition serialize_single_node_proof (proof : PaymentProof) : option bytes :=
  body ← ser rmp_serde proof; Some (PROOF_TAG_SINGLE_NODE :: body).

Definition serialize_merkle_proof (proof : MerklePaymentProof) : option bytes :=
  body ← ser rmp_serde proof; Some (PROOF_TAG_MERKLE :: body).

Definition deserialize_proof (bs : bytes) : result string (ProofOfPayment * list bytes) :=
  if negb (bool_decide (head bs = Some PROOF_TAG_SINGLE_NODE)) then
    Err "Missing single-node proof tag byte"%string
  else
    proof ← ok_or (de rmp_serde (A := PaymentProof) (tail bs))
              "Failed to deserialize single-node proof: {e}"%string;
    Ok (proof_of_payment proof, tx_hashes proof).

Definition deserialize_merkle_proof (bs : bytes) : result string MerklePaymentProof :=
  if negb (bool_decide (head bs = Some PROOF_TAG_MERKLE)) then
    Err "Missing merkle proof tag byte"%string
  else ok_or (de rmp_serde (tail bs)) "Failed to deserialize merkle proof: {e}"%string.

Lemma detect_single bs :
  detect_proof_type bs = Some SingleNode <-> head bs = Some PROOF_TAG_SINGLE_NODE.
Proof.
  destruct bs as [|b bs]; cbn; [split; discriminate|].
  case_bool_decide as E; [subst; tauto|].
  case_bool_decide; split; try discriminate; intros [= Hb]; contradiction.
Qed.

Lemma detect_merkle bs : detect_proof_type bs = Some Merkle <-> head bs = Some PROOF_TAG_MERKLE.
Proof.
  destruct bs as [|b bs]; cbn; [split; discriminate|].
  case_bool_decide as E; [subst; split; discriminate|].
  case_bool_decide as E'; [subst; tauto|]. split; [discriminate|]. intros [= Hb]; contradiction.
Qed.

End Proofs.

(** A proof of either kind round-trips through its tagged form, the tag is
    detected as its kind, and the reader of the other kind refuses it: whichever
    reader accepts some bytes, detection names that kind. *)
Theorem proofs_round_trip
    `{!Codec rmp_serde PaymentProof, !Codec rmp_serde MerklePaymentProof}
    `{!CodecLaws rmp_serde PaymentProof, !CodecLaws rmp_serde MerklePaymentProof}
    (p : PaymentProof) (m : MerklePaymentProof) (bs bs' any : bytes)
    (Hp : serialize_single_node_proof p = Some bs) (Hm : serialize_merkle_proof m = Some bs') :
  deserialize_proof bs = Ok (proof_of_payment p, tx_hashes p) /\
  detect_proof_type bs = Some SingleNode /\ is_ok (deserialize_merkle_proof bs) = false /\
  deserialize_merkle_proof bs' = Ok m /\
  detect_proof_type bs' = Some Merkle /\ is_ok (deserialize_proof bs') = false /\
  (is_ok (deserialize_proof any) = true -> detect_proof_type any = Some SingleNode) /\
  (is_ok (deserialize_merkle_proof any) = true -> detect_proof_type any = Some Merkle).
Proof.
  unfold serialize_single_node_proof, serialize_merkle_proof in *.
  destruct (ser rmp_serde p) as [body|] eqn:Ep; [|discriminate]. injection Hp as <-.
  destruct (ser rmp_serde m) as [body'|] eqn:Em; [|discriminate]. injection Hm as <-.
  unfold deserialize_proof, deserialize_merkle_proof. cbn [head tail].
  rewrite (ser_de _ _ Ep), (ser_de _ _ Em). repeat split.
  - intros Hok. apply detect_single. case_bool_decide as E; [exact E | discriminate].
  - intros Hok. apply detect_merkle. case_bool_decide as E; [exact E | discriminate].
Qed.

(** ** Countable data, for the concrete codec *)

#[export] Instance QuotingMetrics_countable : Countable QuotingMetrics.
Proof.
  refine (inj_countable'
    (fun m => (data_type m, data_size m, m_close_records_stored m, m_records_per_type m,
               m_max_records m, m_received_payment_count m, live_time m, network_density m,
               m_network_size m))
    (fun '(a, b, c, d, e, f, g, h, i) => mkMetrics a b c d e f g h i) _).
  intros []; reflexivity.
Defined.

#[export] Instance PaymentQuote_countable : Countable PaymentQuote.
Proof.
  refine (inj_countable'
    (fun q => (q_content q, timestamp q, quoting_metrics q, q_pub_key q, rewards_address q,
               q_signature q))
    (fun '(a, b, c, d, e, f) => mkQuote a b c d e f) _).
  intros []; reflexivity.
Defined.

#[export] Instance PaymentProof_eq_dec : EqDecision PaymentProof.
Proof. solve_decision. Defined.

#[export] Instance PaymentProof_countable : Countable PaymentProof.
Proof.
  refine (inj_countable' (fun p => (peer_quotes (proof_of_payment p), tx_hashes p))
    (fun '(a, b) => mkPaymentProof (mkProofOfPayment a) b) _).
  intros [[] ?]; reflexivity.
Defined.

#[export] Instance candidate_countable : Countable MerklePaymentCandidateNode.
Proof.
  refine (inj_countable'
    (fun c => (c_pub_key c, c_quoting_metrics c, reward_address c, merkle_payment_timestamp c,
               c_signature c))
    (fun '(a, b, c, d, e) => mkCandidate a b c d e) _).
  intros []; reflexivity.
Defined.

#[export] Instance MerklePaymentProof_countable : Countable MerklePaymentProof.
Proof.
  refine (inj_countable'
    (fun p => (mp_address p, data_proof p, midpoint_proof (winner_pool p),
               candidate_nodes (winner_pool p)))
    (fun '(a, b, c, d) => mkMerkleProof a b (mkPool c d)) _).
  intros [? ? []]; reflexivity.
Defined.

#[export] Instance rmp_payment_proof : Codec rmp_serde PaymentProof := {|
  ser := countable_ser; de := countable_de |}.
#[export] Instance rmp_payment_proof_laws : CodecLaws rmp_serde PaymentProof.
Proof. split. apply countable_ser_de. Qed.

#[export] Instance rmp_merkle_proof : Codec rmp_serde MerklePaymentProof := {|
  ser := countable_ser; de := countable_de |}.
#[export] Instance rmp_merkle_proof_laws : CodecLaws rmp_serde MerklePaymentProof.
Proof. split. apply countable_ser_de. Qed.

Lemma proofs_round_trip_witness :
  let p := mkPaymentProof (mkProofOfPayment []) [[x01]] in
  let m := mkMerkleProof [x02] [x03] (mkPool [] []) in
  exists bs bs', serialize_single_node_proof p = Some bs /\ serialize_merkle_proof m = Some bs' /\
    deserialize_proof bs = Ok (mkProofOfPayment [], [[x01]]) /\ deserialize_merkle_proof bs' = Ok m.
Proof.
  cbv zeta. set (p := mkPaymentProof _ _). set (m := mkMerkleProof _ _ _).
  destruct (serialize_single_node_proof p) as [bs|] eqn:Ep; [|discriminate].
  destruct (serialize_merkle_proof m) as [bs'|] eqn:Em; [|discriminate].
  destruct (proofs_round_trip p m bs bs' [] Ep Em) as (H1 & _ & _ & H2 & _).
  exists bs, bs'. repeat split; assumption.
Defined.
