(* ===== verification/SingleNode.v ===== *)
(** * Paying one node of five

    [ant-node/src/payment/single_node.rs]: the median-priced of five quotes is
    paid three times its price, the others nothing. *)

From Stdlib Require Import ZArith Lia Strings.Byte Sorting.Sorted.
From stdpp Require Import base list strings gmap sorting.
From S2P Require Import Prelude Interfaces Cipher Protocol Evm Storage.

Local Open Scope Z_scope.

Definition zero_quoting_metrics : QuotingMetrics := mkMetrics 0 0 0 [] 0 0 0 None None.

Definition MEDIAN_INDEX : nat := CLOSE_GROUP_SIZE / 2.

Record QuotePaymentInfo := mkPaymentInfo {
  i_quote_hash : bytes;
  i_rewards_address : bytes;
  amount : Z;
  i_quoting_metrics : QuotingMetrics
}.

(** A fixed-size array of [CLOSE_GROUP_SIZE]. *)
Record SingleNodePayment := mkSingleNode { quotes : list QuotePaymentInfo }.

Section SingleNode.
Context `{Evm}.

Definition from_quotes (quotes_with_prices : list (PaymentQuote * Z))
    : result NodeError SingleNodePayment :=
  if negb (bool_decide (length quotes_with_prices = CLOSE_GROUP_SIZE)) then
    Err (PaymentError "SingleNode payment requires exactly {CLOSE_GROUP_SIZE} quotes, got {len}")
  else
    let sorted := sort_by_key snd quotes_with_prices in
    median ← ok_or (sorted !! MEDIAN_INDEX)
      (PaymentError "Missing median quote at index {MEDIAN_INDEX}: expected {CLOSE_GROUP_SIZE} quotes but get() failed");
    enhanced_price ← ok_or (checked_mul median.2 3)
      (PaymentError "Price overflow when calculating 3x median");
    let quotes_vec :=
      (fun '(idx, (quote, _)) =>
         mkPaymentInfo (quote_hash quote) (rewards_address quote)
           (if idx =? Z.of_nat MEDIAN_INDEX then enhanced_price else 0) (quoting_metrics quote))
      <$> enumerate sorted in
    if bool_decide (length quotes_vec = CLOSE_GROUP_SIZE) then Ok (mkSingleNode quotes_vec)
    else Err (PaymentError "Failed to convert quotes to fixed array").

(** The sum of [Amount]s wraps around. *)
Definition total_amount (p : SingleNodePayment) : Z :=
  fold_left (fun acc q => (acc + amount q) mod amount_modulus) (quotes p) 0.

Definition paid_quote (p : SingleNodePayment) : option QuotePaymentInfo := quotes p !! MEDIAN_INDEX.

(** The wallet answers transaction hashes by quote hash; when it fails, with those
    of the transactions that it made before, which are dropped here. *)
Definition pay (p : SingleNodePayment)
    (pay_for_quotes : list (bytes * bytes * Z) -> result (string * gmap bytes bytes) (gmap bytes bytes))
    : result NodeError (list bytes) :=
  let quote_payments := (fun q => (i_quote_hash q, i_rewards_address q, amount q)) <$> quotes p in
  hashes ← map_err (fun _ => PaymentError "Failed to pay for quotes: {err}")
             (pay_for_quotes quote_payments);
  try_fold (fun (result_hashes : list bytes) q =>
      if 0 <? amount q then
        tx_hash ← ok_or (hashes !! i_quote_hash q)
          (PaymentError "Missing transaction hash for non-zero quote {}");
        Ok (result_hashes ++ [tx_hash])
      else Ok result_hashes)
    [] (quotes p).

(** [verify_data_payment] is the contract call on the node's network. *)
Definition verify (p : SingleNodePayment) (owned_quote_hash : option bytes)
    (verify_data_payment :
       list bytes -> list (bytes * QuotingMetrics * bytes) -> result string Z)
    : result NodeError Z :=
  let payment_digest :=
    (fun q => (i_quote_hash q, zero_quoting_metrics, i_rewards_address q)) <$> quotes p in
  let owned_quote_hashes := match owned_quote_hash with Some h => [h] | None => [] end in
  verified_amount ← map_err (fun _ => PaymentError "Payment verification failed: {e}")
    (verify_data_payment owned_quote_hashes payment_digest);
  match owned_quote_hash with
  | None => Ok verified_amount
  | Some h =>
    owned ← ok_or (snd <$> list_find (fun q => i_quote_hash q = h) (quotes p))
      (PaymentError "Owned quote hash not found in payment");
    if negb (verified_amount =? amount owned) then
      Err (PaymentError "Payment amount mismatch: expected {expected}, verified {verified_amount}")
    else Ok verified_amount
  end.

(** ** The median *)

(** Quotes in the order in which they appear in the payment. *)
Definition by_price (qs : list (PaymentQuote * Z)) : list (PaymentQuote * Z) := sort_by_key snd qs.

Definition info_for (price : Z) (q : PaymentQuote * Z) : QuotePaymentInfo :=
  mkPaymentInfo (quote_hash q.1) (rewards_address q.1) price (quoting_metrics q.1).

Lemma five_elements {A} (l : list A) :
  length l = CLOSE_GROUP_SIZE -> exists a b c d e, l = [a; b; c; d; e].
Proof.
  unfold CLOSE_GROUP_SIZE. intros Hl. destruct l as [|a [|b [|c [|d [|e [|]]]]]]; try discriminate.
  eauto 6.
Qed.

Lemma from_quotes_five qs a b c d e :
  by_price qs = [a; b; c; d; e] ->
  from_quotes qs =
    match checked_mul c.2 3 with
    | None => Err (PaymentError "Price overflow when calculating 3x median")
    | Some enhanced_price =>
        Ok (mkSingleNode [info_for 0 a; info_for 0 b; info_for enhanced_price c;
                          info_for 0 d; info_for 0 e])
    end.
Proof.
  intros Hs. unfold from_quotes.
  assert (length qs = CLOSE_GROUP_SIZE) as Hl.
  { unfold by_price in Hs. rewrite <- (length_sort_by_key snd qs), Hs. reflexivity. }
  rewrite (bool_decide_true _ Hl). cbn [negb]. unfold by_price in Hs. rewrite Hs. cbn.
  destruct (checked_mul c.2 3); [|reflexivity]. destruct a, b, c, d, e. reflexivity.
Qed.

Lemma total_five x a b c d e :
  amount_ok x ->
  total_amount (mkSingleNode [info_for 0 a; info_for 0 b; info_for x c; info_for 0 d; info_for 0 e]) = x.
Proof.
  intros Hx. unfold total_amount. cbn. unfold amount_ok in Hx.
  rewrite !Z.add_0_r, Z.mod_0_l, Z.add_0_l by (unfold amount_modulus; lia).
  rewrite !Z.mod_mod, Z.mod_small by (unfold amount_modulus in *; lia). reflexivity.
Qed.

Lemma pay_five x a b c d e wallet hashes tx :
  0 <= x ->
  let p := mkSingleNode [info_for 0 a; info_for 0 b; info_for x c; info_for 0 d; info_for 0 e] in
  wallet ((fun q => (i_quote_hash q, i_rewards_address q, amount q)) <$> quotes p) = Ok hashes ->
  hashes !! quote_hash c.1 = Some tx ->
  pay p wallet = Ok (if 0 <? x then [tx] else []).
Proof.
  intros Hx p Hw Ht. unfold pay. rewrite Hw. cbn.
  destruct (0 <? x); [|reflexivity]. cbn. rewrite Ht. reflexivity.
Qed.

(** How many prices lie on each side of the middle one. *)
Definition cheaper_or_equal (x : Z) (qs : list (PaymentQuote * Z)) : nat :=
  length (filter (fun q => q.2 <= x) qs).
Definition dearer_or_equal (x : Z) (qs : list (PaymentQuote * Z)) : nat :=
  length (filter (fun q => x <= q.2) qs).

Lemma by_price_median qs a b c d e :
  by_price qs = [a; b; c; d; e] ->
  (3 <= cheaper_or_equal c.2 qs)%nat /\ (3 <= dearer_or_equal c.2 qs)%nat.
Proof.
  intros Hs. pose proof (sort_by_key_sorted snd qs) as Hsorted.
  pose proof (sort_by_key_perm snd qs) as Hperm. unfold by_price in Hs. rewrite Hs in Hsorted, Hperm.
  assert (a.2 <= c.2 /\ b.2 <= c.2 /\ c.2 <= d.2 /\ c.2 <= e.2) as (Ha & Hb & Hd & He).
  { unfold key_sorted in Hsorted.
    repeat match goal with
    | H : StronglySorted _ (_ :: _) |- _ => apply StronglySorted_inv in H as [? ?]
    | H : Forall _ (_ :: _) |- _ => inversion H; clear H; subst
    end. cbn in *. repeat split; assumption. }
  unfold cheaper_or_equal, dearer_or_equal. rewrite <- Hperm. split.
  - rewrite !filter_cons_True by (assumption || lia). cbn. lia.
  - rewrite (filter_app _ [a; b] [c; d; e]), length_app.
    rewrite (filter_cons_True _ c), (filter_cons_True _ d), (filter_cons_True _ e) by (assumption || lia).
    cbn. lia.
Qed.
End SingleNode.

(** C13: From exactly five quotes a payment is built in which one quote, whose
    price is a median of the five (at least three are no dearer and at least
    three no cheaper), is to receive three times that price and the four others
    nothing; the total is that amount, and paying yields the one transaction of
    the paid quote, or none when the median is free.  Any other number of quotes
    is refused, and so is a price whose triple overflows. *)
Theorem median_node_is_paid `{Evm} (qs : list (PaymentQuote * Z))
    (Hprices : Forall (fun q => amount_ok q.2) qs) :
  (length qs <> CLOSE_GROUP_SIZE -> is_ok (from_quotes qs) = false) /\
  (length qs = CLOSE_GROUP_SIZE ->
   exists before m after, by_price qs = before ++ m :: after /\ length before = 2%nat /\
     length after = 2%nat /\ by_price qs ≡ₚ qs /\
     (3 <= cheaper_or_equal m.2 qs)%nat /\ (3 <= dearer_or_equal m.2 qs)%nat /\
     (amount_modulus <= m.2 * 3 -> is_ok (from_quotes qs) = false) /\
     (m.2 * 3 < amount_modulus ->
      exists p, from_quotes qs = Ok p /\
        quotes p = (info_for 0 <$> before) ++ info_for (m.2 * 3) m :: (info_for 0 <$> after) /\
        paid_quote p = Some (info_for (m.2 * 3) m) /\ total_amount p = m.2 * 3 /\
        forall wallet hashes tx,
          wallet ((fun q => (i_quote_hash q, i_rewards_address q, amount q)) <$> quotes p) = Ok hashes ->
          hashes !! quote_hash m.1 = Some tx ->
          pay p wallet = Ok (if 0 <? m.2 * 3 then [tx] else []))).
Proof.
  split; intros Hl.
  - unfold from_quotes. rewrite (bool_decide_false _ Hl). reflexivity.
  - assert (length (by_price qs) = CLOSE_GROUP_SIZE) as Hl' by (unfold by_price; rewrite length_sort_by_key; exact Hl).
    destruct (five_elements _ Hl') as (a & b & c & d & e & Hs).
    assert (amount_ok c.2) as [Hc0 _].
    { rewrite <- (sort_by_key_perm snd qs) in Hprices. unfold by_price in Hs. rewrite Hs in Hprices.
      exact (Forall_lookup_1 _ _ 2%nat c Hprices eq_refl). }
    destruct (by_price_median qs a b c d e Hs) as [Hlow Hhigh].
    pose proof (from_quotes_five qs a b c d e Hs) as Hf. unfold checked_mul in Hf.
    exists [a; b], c, [d; e]. repeat split; [exact Hs | | exact Hlow | exact Hhigh | |].
    + apply sort_by_key_perm.
    + intros Hov. destruct (c.2 * 3 <? amount_modulus) eqn:E; [b2p; lia|]. rewrite Hf. reflexivity.
    + intros Hov. destruct (c.2 * 3 <? amount_modulus) eqn:E; [|b2p; lia].
      eexists. split; [exact Hf|]. split; [reflexivity|]. split; [reflexivity|]. split.
      * apply total_five. unfold amount_ok. lia.
      * intros wallet hashes tx Hw Ht. apply (pay_five _ a b c d e wallet hashes tx); [lia | exact Hw | exact Ht].
Qed.

Definition sample_quote (b : byte) : PaymentQuote := mkQuote [x01] 0 zero_quoting_metrics [b] [b] [].

Lemma median_node_is_paid_witness :
  let qs := [(sample_quote x0a, 50); (sample_quote x0b, 10); (sample_quote x0c, 40);
             (sample_quote x0d, 20); (sample_quote x0e, 30)] in
  exists p, from_quotes qs = Ok p /\ total_amount p = 90 /\
    paid_quote p = Some (info_for 90 (sample_quote x0e, 30)).
Proof.
  cbv zeta. set (qs := [_; _; _; _; _]).
  assert (Forall (fun q : PaymentQuote * Z => amount_ok q.2) qs) as Hp.
  { repeat (apply Forall_cons_2; [split; [discriminate | reflexivity]|]). apply Forall_nil_2. }
  destruct (median_node_is_paid qs Hp) as [_ Hm].
  destruct (Hm eq_refl) as (before & m & after & Hs & Hb & Ha & _ & _ & _ & _ & Hok).
  assert (m = (sample_quote x0e, 30)) as ->.
  { apply (f_equal (fun l => l !! 2%nat)) in Hs. rewrite lookup_app_r, Hb in Hs by (rewrite Hb; lia).
    cbn in Hs. congruence. }
  destruct (Hok eq_refl) as (p & Hp1 & _ & Hp2 & Hp3 & _). exists p. auto.
Defined.
