(* ===== verification/Pricing.v ===== *)
(** * The local price estimate

    [ant-node/src/payment/pricing.rs]: the price of a record at a node of a given
    fullness, in floating point.  The arithmetic is that of [Float64]; how exact
    [f64::ln] is depends on the platform, so it is a parameter, and what is proved
    holds for all of them. *)

From Stdlib Require Import ZArith Lia Floats.SpecFloat.
From stdpp Require Import base decidable list tactics.
From S2P Require Import Prelude Float64 Interfaces Protocol Evm.

Local Open Scope Z_scope.

Class Ln := f64_ln : spec_float -> spec_float.

Definition MIN_PRICE : Z := 3.
Definition SCALING_FACTOR : spec_float := f64_one.
Definition ANT_PRICE : spec_float := f64_one.

Section Pricing.
Context `{Ln}.

(** The formula, for fullness [r_lower] before and [r_upper] after the record. *)
Definition curve (r_lower r_upper upper_diff lower_diff : spec_float) : spec_float :=
  let log_diff := f64_sub (f64_ln upper_diff) (f64_ln lower_diff) in
  let linear_part := f64_sub r_upper r_lower in
  let part_one := f64_mul (f64_div (SFopp SCALING_FACTOR) ANT_PRICE) log_diff in
  let part_two := f64_mul (f64_of_Z MIN_PRICE) linear_part in
  let part_three := f64_div linear_part ANT_PRICE in
  f64_sub (f64_add part_one part_two) part_three.

(** The record that is added is counted in a release build, where the sum wraps. *)
Definition calculate_price (metrics : QuotingMetrics) : Z :=
  if m_max_records metrics =? 0 then MIN_PRICE
  else
    let total_records := m_close_records_stored metrics in
    let max_records := f64_of_Z (m_max_records metrics) in
    let r_lower := f64_div (f64_of_Z total_records) max_records in
    let r_upper := f64_div (f64_of_Z ((total_records + 1) mod 2 ^ 64)) max_records in
    if SFleb f64_one r_lower || SFleb f64_one r_upper then u64_max
    else if SFltb (SFabs (f64_sub r_upper r_lower)) f64_epsilon then MIN_PRICE
    else
      let upper_diff := SFabs (f64_sub r_upper f64_one) in
      let lower_diff := SFabs (f64_sub r_lower f64_one) in
      if SFltb upper_diff f64_epsilon || SFltb lower_diff f64_epsilon then MIN_PRICE
      else
        let price := curve r_lower r_upper upper_diff lower_diff in
        if SFleb price (S754_zero false) || negb (is_finite price) then MIN_PRICE
        else
          let scaled_price := f64_mul price (f64_of_Z (Z.max (data_size metrics) 1)) in
          if negb (is_finite scaled_price) then MIN_PRICE
          else if SFltb (f64_of_Z u64_max) scaled_price then u64_max
          else Z.max (u64_of_f64 scaled_price) MIN_PRICE.

(** ** Properties *)

(** Whatever metrics a node sends, its price is at least the floor and fits [u64],
    and it is the price of any node as full for a record as large: how the records
    split into types, the payments received and the age do not matter.  A node
    whose next record would make it full asks the highest price. *)
Theorem prices_are_bounded (m : QuotingMetrics) :
  MIN_PRICE <= calculate_price m <= u64_max /\
  (m_max_records m = 0 -> calculate_price m = MIN_PRICE) /\
  (0 < m_max_records m < 2 ^ 53 -> m_max_records m <= m_close_records_stored m + 1 < 2 ^ 53 ->
   calculate_price m = u64_max) /\
  (forall m', m_max_records m' = m_max_records m -> m_close_records_stored m' = m_close_records_stored m ->
    Z.max (data_size m') 1 = Z.max (data_size m) 1 -> calculate_price m' = calculate_price m).
Proof.
  split; [|split; [|split]].
  - unfold calculate_price. repeat case_match; try (unfold MIN_PRICE, u64_max; lia).
    split; [lia|]. apply Z.max_lub; [|unfold MIN_PRICE, u64_max; lia]. apply u64_of_f64_max.
  - unfold calculate_price. by intros ->.
  - intros Hmax Hfull. unfold calculate_price. rewrite (proj2 (Z.eqb_neq _ _)) by lia. cbv zeta.
    rewrite (Z.mod_small (_ + 1)) by lia. rewrite (f64_div_at_least_one (_ + 1)) by lia. by rewrite orb_true_r.
  - intros m' Hm Hc Hs. unfold calculate_price. by rewrite Hm, Hc, Hs.
Qed.
End Pricing.

(** ** The prices of the tests *)

(** The logarithms of the numbers between 0 and 1 that a node for 1000 records asks
    for when it is empty, half full, and 90 and 99 per cent full. *)
Definition sample_ln : Ln := fun x =>
  match x with
  | S754_finite false 8998192055486251 (-53) => S754_finite true 4613993399819123 (-62)
  | S754_finite false 8989184856231510 (-54) => S754_finite true 6261347205128635 (-53)
  | S754_finite false 4503599627370496 (-53) => S754_finite true 6243314768165359 (-53)
  | S754_finite false 7133701809754864 (-56) => S754_finite true 5207592027800811 (-51)
  | S754_finite false 7205759403792792 (-56) => S754_finite true 5184960683398422 (-51)
  | S754_finite false 5188146770730816 (-59) => S754_finite true 5303586078162458 (-50)
  | S754_finite false 5764607523034240 (-59) => S754_finite true 5184960683398421 (-50)
  | _ => S754_zero false
  end.

Definition metrics_of (stored size : Z) : QuotingMetrics := mkMetrics 0 size stored [] 1000 0 0 None (Some 500).

Lemma prices_rise : (fun stored => @calculate_price sample_ln (metrics_of stored 1024)) <$> [0; 500; 900; 990; 999; 1100]
  = [3; 4; 12; 109; u64_max; u64_max].
Proof. vm_compute. reflexivity. Qed.

Lemma larger_records_cost_more :
  (fun size => @calculate_price sample_ln (metrics_of 500 size)) <$> [0; 1; 100; 10000] = [3; 3; 3; 40].
Proof. vm_compute. reflexivity. Qed.
