(* ===== verification/Verifier.v ===== *)
(** * Verification of payments

    [ant-node/src/payment/verifier.rs]: before a node stores a new chunk it checks
    the payment proof against the quotes' signatures and the chain.  Verified
    addresses and merkle pools are cached.  What the chain, the clock and the task
    runtime answer during a call is a [world]. *)

From Stdlib Require Import ZArith Lia Strings.Byte.
From stdpp Require Import base list strings.
From S2P Require Import Prelude Interfaces Cipher Reference Protocol Evm Metrics Storage PayCache.
From S2P Require Import Quote PayProof.

Local Open Scope Z_scope.

Definition MIN_PAYMENT_PROOF_SIZE_BYTES : Z := 32.
Definition MAX_PAYMENT_PROOF_SIZE_BYTES : Z := 262144.
Definition QUOTE_MAX_AGE_SECS : Z := 86400.
Definition QUOTE_CLOCK_SKEW_TOLERANCE_SECS : Z := 60.
Definition DEFAULT_POOL_CACHE_CAPACITY : Z := 1000.

Record PaymentVerifierConfig := mkVerifierConfig {
  cache_capacity : Z;
  local_rewards_address : bytes
}.

Inductive PaymentStatus := CachedAsVerified | PaymentRequired | PaymentVerified.

Definition can_store (s : PaymentStatus) : bool :=
  match s with CachedAsVerified | PaymentVerified => true | PaymentRequired => false end.

Definition is_cached (s : PaymentStatus) : bool :=
  match s with CachedAsVerified => true | _ => false end.

(** [now] in nanoseconds; [sig_task_lost] when the blocking task that checks the
    signatures does not come back. *)
Record world := mkWorld {
  now : Z;
  sig_task_lost : bool;
  rpc_verify_payment :
    list (bytes * QuotingMetrics * bytes) -> result string (list PaymentVerificationResult);
  rpc_merkle_payment_info : bytes -> result string MerklePaymentInfo
}.

(** [SystemTime::duration_since] and [Duration::as_secs]. *)
Definition duration_since (a b : Z) : option Z := if b <=? a then Some (a - b) else None.
Definition as_secs (d : Z) : Z := d / 1000000000.

Section Verifier.
Context `{Evm, Dsa, PeerIds}.
Context `{!Lru XorName unit, !Lru bytes OnChainPaymentInfo}.
Context `{!Codec rmp_serde PaymentProof, !Codec rmp_serde MerklePaymentProof}.

Record PaymentVerifier := mkVerifier {
  cache : VerifiedCache;
  pool_cache : lru bytes OnChainPaymentInfo;
  v_config : PaymentVerifierConfig
}.

Definition verifier_new (config : PaymentVerifierConfig) : PaymentVerifier :=
  mkVerifier (with_capacity (cache_capacity config))
    (lru_new bytes OnChainPaymentInfo DEFAULT_POOL_CACHE_CAPACITY) config.

Definition set_cache (v : PaymentVerifier) (c : VerifiedCache) : PaymentVerifier :=
  mkVerifier c (pool_cache v) (v_config v).
Definition set_pool_cache (v : PaymentVerifier) (l : lru bytes OnChainPaymentInfo)
    : PaymentVerifier := mkVerifier (cache v) l (v_config v).

Definition check_payment_required (v : PaymentVerifier) (xorname : XorName)
    : PaymentStatus * PaymentVerifier :=
  let '(found, c) := cache_contains (cache v) xorname in
  (if found then CachedAsVerified else PaymentRequired, set_cache v c).

(** ** Single-node payments *)

Fixpoint all_ok {A} (check : A -> result NodeError unit) (l : list A) : result NodeError unit :=
  match l with
  | [] => Ok tt
  | a :: l' => _ ← check a; all_ok check l'
  end.

Fixpoint no_duplicate_peers (seen : list bytes) (quotes : list (bytes * PaymentQuote))
    : result NodeError unit :=
  match quotes with
  | [] => Ok tt
  | (peer, _) :: quotes' =>
      if bool_decide (peer ∈ seen) then
        Err (PaymentError "Duplicate peer ID in payment quotes: {encoded_peer_id:?}")
      else no_duplicate_peers (seen ++ [peer]) quotes'
  end.

Definition validate_quote_structure (payment : ProofOfPayment) : result NodeError unit :=
  if bool_decide (peer_quotes payment = []) then Err (PaymentError "Payment has no quotes")
  else if negb (bool_decide (length (peer_quotes payment) = CLOSE_GROUP_SIZE)) then
    Err (PaymentError "Payment must have exactly {CLOSE_GROUP_SIZE} quotes, got {quote_count}")
  else no_duplicate_peers [] (peer_quotes payment).

Definition validate_quote_content (payment : ProofOfPayment) (xorname : XorName)
    : result NodeError unit :=
  all_ok (fun pq => if negb (verify_quote_content pq.2 xorname) then
      Err (PaymentError "Quote content address mismatch for peer {encoded_peer_id:?}: expected {expected_hex}, got {actual_hex}")
    else Ok tt) (peer_quotes payment).

Definition validate_quote_timestamp (t : Z) (q : PaymentQuote) : result NodeError unit :=
  match duration_since t (timestamp q) with
  | Some age =>
      if QUOTE_MAX_AGE_SECS <? as_secs age then
        Err (PaymentError "Quote from peer {encoded_peer_id:?} expired: age {}s exceeds max {QUOTE_MAX_AGE_SECS}s")
      else Ok tt
  | None =>
      match duration_since (timestamp q) t with
      | Some skew =>
          if QUOTE_CLOCK_SKEW_TOLERANCE_SECS <? as_secs skew then
            Err (PaymentError "Quote from peer {encoded_peer_id:?} has timestamp {}s in the future (exceeds {QUOTE_CLOCK_SKEW_TOLERANCE_SECS}s tolerance)")
          else Ok tt
      | None => Err (PaymentError "Quote from peer {encoded_peer_id:?} has invalid timestamp")
      end
  end.

Definition validate_quote_timestamps (t : Z) (payment : ProofOfPayment) : result NodeError unit :=
  all_ok (fun pq => validate_quote_timestamp t pq.2) (peer_quotes payment).

Definition validate_peer_bindings (payment : ProofOfPayment) : result NodeError unit :=
  all_ok (fun pq =>
    expected_peer_id ← map_err (fun _ => PaymentError "Invalid ML-DSA public key in quote: {e}")
      (peer_id_from_public_key_bytes (q_pub_key pq.2));
    if negb (bool_decide (expected_peer_id = pq.1)) then
      Err (PaymentError "Quote pub_key does not belong to claimed peer {encoded_peer_id:?}: BLAKE3(pub_key) = {expected_hex}, peer_id = {actual_hex}")
    else Ok tt) (peer_quotes payment).

Definition validate_local_recipient (v : PaymentVerifier) (payment : ProofOfPayment)
    : result NodeError unit :=
  if existsb (fun pq => bool_decide (rewards_address pq.2 = local_rewards_address (v_config v)))
       (peer_quotes payment)
  then Ok tt
  else Err (PaymentError "Payment proof does not include this node as a recipient").

Definition validate_signatures (w : world) (payment : ProofOfPayment) : result NodeError unit :=
  if sig_task_lost w then Err (PaymentError "Signature verification task failed: {e}")
  else all_ok (fun pq => if negb (verify_quote_signature pq.2) then
      Err (PaymentError "Quote ML-DSA-65 signature verification failed for peer {encoded_peer_id:?}")
    else Ok tt) (peer_quotes payment).

Definition validate_on_chain (w : world) (payment : ProofOfPayment) : result NodeError unit :=
  let payment_digest := payment_digest payment in
  if bool_decide (length payment_digest = 0%nat) then Err (PaymentError "Payment has no quotes")
  else
    results ← map_err (fun _ => PaymentError "EVM verification error for {xorname_hex}: {e}")
      (rpc_verify_payment w payment_digest);
    let paid_results := List.filter (fun r => 0 <? amountPaid r) results in
    if bool_decide (length paid_results = 0%nat) then
      Err (PaymentError "Payment verification failed on-chain for {xorname_hex} (no paid quotes found)")
    else
      all_ok (fun r => if negb (isValid r) then
        Err (PaymentError "Payment verification failed on-chain for {xorname_hex} (paid quote is invalid)")
      else Ok tt) paid_results.

Definition verify_evm_payment (v : PaymentVerifier) (w : world) (xorname : XorName)
    (payment : ProofOfPayment) : result NodeError unit :=
  _ ← validate_quote_structure payment;
  _ ← validate_quote_content payment xorname;
  _ ← validate_quote_timestamps (now w) payment;
  _ ← validate_peer_bindings payment;
  _ ← validate_local_recipient v payment;
  _ ← validate_signatures w payment;
  validate_on_chain w payment.

(** ** Merkle batch payments *)

Definition on_chain_info (info : MerklePaymentInfo) : OnChainPaymentInfo :=
  mkOnChain (info_depth info) (merklePaymentTimestamp info) (paidNodeAddresses info).

(** The payment of a pool, from the cache or from the chain. *)
Definition pool_payment (v : PaymentVerifier) (w : world) (pool_hash : bytes)
    : result NodeError OnChainPaymentInfo * PaymentVerifier :=
  let '(cached_info, l) := lru_get (pool_cache v) pool_hash in
  let v := set_pool_cache v l in
  match cached_info with
  | Some info => (Ok info, v)
  | None =>
    match rpc_merkle_payment_info w pool_hash with
    | Err _ => (Err (PaymentError "Failed to query merkle payment info for pool {pool_hex}: {e}"), v)
    | Ok info =>
        let info := on_chain_info info in
        (Ok info, set_pool_cache v (lru_put l pool_hash info))
    end
  end.

(** The checks of a proof against the payment of its pool. *)
Definition check_merkle (payment_info : OnChainPaymentInfo) (merkle_proof : MerklePaymentProof)
    : result NodeError unit :=
  let pool := winner_pool merkle_proof in
  _ ← all_ok (fun candidate =>
        if negb (verify_merkle_candidate_signature candidate) then
          Err (PaymentError "Invalid ML-DSA-65 signature on merkle candidate node (reward: {})")
        else if negb (merkle_payment_timestamp candidate =? on_chain_timestamp payment_info) then
          Err (PaymentError "Candidate timestamp mismatch: expected {}, got {} (reward: {})")
        else Ok tt) (candidate_nodes pool);
  _ ← map_err (fun _ => PaymentError "Merkle proof verification failed for {xorname_hex}: {e}")
        (verify_merkle_proof (mp_address merkle_proof) (data_proof merkle_proof)
           (midpoint_proof pool) (depth payment_info) (midpoint_root (midpoint_proof pool))
           (on_chain_timestamp payment_info));
  if negb (lenZ (paid_node_addresses payment_info) =? depth payment_info) then
    Err (PaymentError "Wrong number of paid nodes: expected {expected_depth}, got {actual_paid}")
  else
    all_ok (fun '(addr, idx) =>
      node ← ok_or (candidate_nodes pool !! Z.to_nat idx)
        (PaymentError "Paid node index {idx} out of bounds for pool size {}");
      if negb (bool_decide (reward_address node = addr)) then
        Err (PaymentError "Paid node address mismatch at index {idx}: expected {addr}, got {}")
      else Ok tt) (paid_node_addresses payment_info).

Definition verify_merkle_payment (v : PaymentVerifier) (w : world) (xorname : XorName)
    (proof_bytes : bytes) : result NodeError unit * PaymentVerifier :=
  match deserialize_merkle_proof proof_bytes with
  | Err _ => (Err (PaymentError "Failed to deserialize merkle proof: {e}"), v)
  | Ok merkle_proof =>
    if negb (bool_decide (mp_address merkle_proof = xorname)) then
      (Err (PaymentError "Merkle proof address mismatch: proof is for {proof_hex}, but storing {store_hex}"), v)
    else
      let '(info, v) := pool_payment v w (winner_pool_hash merkle_proof) in
      (payment_info ← info; check_merkle payment_info merkle_proof, v)
  end.

(** ** The entry point *)

Definition verify_proof (v : PaymentVerifier) (w : world) (xorname : XorName) (proof : bytes)
    : result NodeError unit * PaymentVerifier :=
  if lenZ proof <? MIN_PAYMENT_PROOF_SIZE_BYTES then
    (Err (PaymentError "Payment proof too small: {proof_len} bytes (min {MIN_PAYMENT_PROOF_SIZE_BYTES})"), v)
  else if MAX_PAYMENT_PROOF_SIZE_BYTES <? lenZ proof then
    (Err (PaymentError "Payment proof too large: {proof_len} bytes (max {MAX_PAYMENT_PROOF_SIZE_BYTES} bytes)"), v)
  else
    match detect_proof_type proof with
    | Some Merkle => verify_merkle_payment v w xorname proof
    | Some SingleNode =>
        ('(payment, _) ← map_err (fun _ => PaymentError "Failed to deserialize payment proof: {e}")
           (deserialize_proof proof);
         verify_evm_payment v w xorname payment, v)
    | None => (Err (PaymentError "Unknown payment proof type tag: 0x{tag:02x}"), v)
    end.

Definition verify_payment (v : PaymentVerifier) (w : world) (xorname : XorName)
    (payment_proof : option bytes) : result NodeError PaymentStatus * PaymentVerifier :=
  let '(status, v) := check_payment_required v xorname in
  match status with
  | CachedAsVerified => (Ok status, v)
  | PaymentRequired =>
    match payment_proof with
    | None => (Err (PaymentError "Payment required for new data {xorname_hex}"), v)
    | Some proof =>
      let '(r, v) := verify_proof v w xorname proof in
      match r with
      | Err e => (Err e, v)
      | Ok _ => (Ok PaymentVerified, set_cache v (cache_insert (cache v) xorname))
      end
    end
  | PaymentVerified =>
      (Err (PaymentError "Unexpected PaymentVerified status from check_payment_required"), v)
  end.

Definition verifier_cache_stats (v : PaymentVerifier) : CacheStats := cache_stats (cache v).
Definition verifier_cache_len (v : PaymentVerifier) : Z := cache_len (cache v).

End Verifier.

(** ** What an accepted payment is *)

Section Accepted.
Context `{Evm, Dsa, PeerIds}.
Context `{!Codec rmp_serde PaymentProof, !Codec rmp_serde MerklePaymentProof}.

Definition fresh (t : Z) (q : PaymentQuote) : Prop :=
  (timestamp q <= t -> as_secs (t - timestamp q) <= 86400) /\
  (t < timestamp q -> as_secs (timestamp q - t) <= 60).

(** Five quotes for this address by five distinct peers, each fresh, with a key
    that is the peer's and a signature that verifies, one of which rewards this
    node; and on the chain at least one of them is paid and every paid one is
    valid. *)
Record valid_evm_payment (local : bytes) (w : world) (x : XorName) (p : ProofOfPayment) : Prop := {
  vp_count : length (peer_quotes p) = CLOSE_GROUP_SIZE;
  vp_distinct : NoDup (fst <$> peer_quotes p);
  vp_quotes : Forall (fun pq =>
      q_content pq.2 = x /\ fresh (now w) pq.2 /\
      peer_id_from_public_key_bytes (q_pub_key pq.2) = Ok pq.1 /\
      verify_quote_signature pq.2 = true) (peer_quotes p);
  vp_recipient : Exists (fun pq => rewards_address pq.2 = local) (peer_quotes p);
  vp_digest : payment_digest p <> [];
  vp_paid : exists results, rpc_verify_payment w (payment_digest p) = Ok results /\
      Exists (fun r => 0 < amountPaid r) results /\
      Forall (fun r => 0 < amountPaid r -> isValid r = true) results
}.

(** A proof for this address in a pool of candidates that all signed the
    timestamp of the payment, whose merkle proofs verify, and of which the chain
    paid as many as the tree is deep, each at the reward address of its index. *)
Record valid_merkle_payment (info : OnChainPaymentInfo) (x : XorName) (p : MerklePaymentProof)
    : Prop := {
  vm_address : mp_address p = x;
  vm_candidates : Forall (fun c => verify_merkle_candidate_signature c = true /\
      merkle_payment_timestamp c = on_chain_timestamp info) (candidate_nodes (winner_pool p));
  vm_proof : is_ok (verify_merkle_proof (mp_address p) (data_proof p)
      (midpoint_proof (winner_pool p)) (depth info)
      (midpoint_root (midpoint_proof (winner_pool p))) (on_chain_timestamp info)) = true;
  vm_paid_count : lenZ (paid_node_addresses info) = depth info;
  vm_paid_nodes : Forall (fun '(addr, idx) => exists node,
      candidate_nodes (winner_pool p) !! Z.to_nat idx = Some node /\ reward_address node = addr)
      (paid_node_addresses info)
}.

Lemma then_ok {E A} (r : result E unit) (k : result E A) a :
  (_ ← r; k) = Ok a <-> r = Ok tt /\ k = Ok a.
Proof. destruct r as [[]|]; cbn; split; [auto | intros []; assumption | discriminate | intros []; discriminate]. Qed.

Lemma unless_ok (b : bool) (e : NodeError) : (if negb b then Err e else Ok tt) = Ok tt <-> b = true.
Proof. destruct b; cbn; split; congruence. Qed.

Lemma when_ok (b : bool) (e : NodeError) : (if b then Err e else Ok tt) = Ok tt <-> b = false.
Proof. destruct b; cbn; split; congruence. Qed.

Lemma all_ok_Forall {A} (check : A -> result NodeError unit) l :
  all_ok check l = Ok tt <-> Forall (fun a => check a = Ok tt) l.
Proof.
  induction l as [|a l IH]; cbn [all_ok]; [split; auto using Forall_nil_2|].
  rewrite then_ok, Forall_cons, IH. reflexivity.
Qed.

Lemma no_duplicate_peers_ok seen l :
  no_duplicate_peers seen l = Ok tt <-> NoDup (fst <$> l) /\ Forall (fun pq => pq.1 ∉ seen) l.
Proof.
  revert seen. induction l as [|[peer q] l IH]; intros seen; cbn [no_duplicate_peers].
  - split; [intros _; split; [apply NoDup_nil_2 | apply Forall_nil_2] | reflexivity].
  - rewrite fmap_cons, NoDup_cons, Forall_cons. cbn [fst].
    assert (forall l : list (bytes * PaymentQuote), Forall (fun pq => pq.1 ∉ seen ++ [peer]) l <->
      Forall (fun pq => pq.1 ∉ seen) l /\ peer ∉ (fst <$> l)) as Hsplit.
    { intros l0. rewrite !Forall_forall, list_elem_of_fmap. setoid_rewrite elem_of_app.
      setoid_rewrite list_elem_of_singleton. split.
      - intros Hx. split; [intros y Hy; specialize (Hx y Hy); tauto|].
        intros (y & -> & Hy). specialize (Hx y Hy). tauto.
      - intros [Hx Hp] y Hy [Hs|Hs]; [exact (Hx y Hy Hs)|]. apply Hp. eauto. }
    case_bool_decide as E.
    + split; [discriminate|]. intros (_ & Hx & _). contradiction.
    + rewrite IH, Hsplit. tauto.
Qed.

Lemma validate_quote_timestamp_ok t q : validate_quote_timestamp t q = Ok tt <-> fresh t q.
Proof.
  unfold validate_quote_timestamp, duration_since, fresh.
  destruct (timestamp q <=? t) eqn:E.
  - rewrite when_ok, Z.ltb_ge. b2p. unfold QUOTE_MAX_AGE_SECS. split; [split; [auto | lia] | tauto].
  - b2p. assert ((t <=? timestamp q) = true) as -> by (apply Z.leb_le; lia).
    rewrite when_ok, Z.ltb_ge. unfold QUOTE_CLOCK_SKEW_TOLERANCE_SECS.
    split; [split; [lia | auto] | tauto].
Qed.

Lemma binding_ok (pq : bytes * PaymentQuote) :
  (expected_peer_id ← map_err (fun _ => PaymentError "Invalid ML-DSA public key in quote: {e}")
      (peer_id_from_public_key_bytes (q_pub_key pq.2));
    if negb (bool_decide (expected_peer_id = pq.1)) then
      Err (PaymentError "Quote pub_key does not belong to claimed peer {encoded_peer_id:?}: BLAKE3(pub_key) = {expected_hex}, peer_id = {actual_hex}")
    else Ok tt) = Ok tt <-> peer_id_from_public_key_bytes (q_pub_key pq.2) = Ok pq.1.
Proof.
  destruct (peer_id_from_public_key_bytes (q_pub_key pq.2)) as [i|e]; cbn; [|split; discriminate].
  rewrite unless_ok, bool_decide_eq_true. split; congruence.
Qed.

Lemma existsb_Exists {A} (f : A -> bool) (P : A -> Prop) l :
  (forall a, f a = true <-> P a) -> existsb f l = true <-> Exists P l.
Proof.
  intros Hf. rewrite existsb_exists, Exists_exists. setoid_rewrite <- list_elem_of_In.
  split; intros (a & Ha & Hb); exists a; (split; [assumption | apply Hf; assumption]).
Qed.

Lemma validate_structure_ok p :
  validate_quote_structure p = Ok tt <->
  length (peer_quotes p) = CLOSE_GROUP_SIZE /\ NoDup (fst <$> peer_quotes p).
Proof.
  unfold validate_quote_structure. case_bool_decide as E1.
  { rewrite E1. split; [discriminate | intros [? _]; discriminate]. }
  case_bool_decide as E2; cbn [negb]; [|split; [discriminate | intros [? _]; contradiction]].
  rewrite no_duplicate_peers_ok. split; [tauto|]. intros [_ Hn]. repeat split; auto.
  apply Forall_forall. intros x _. apply not_elem_of_nil.
Qed.

Lemma validate_on_chain_ok w p :
  validate_on_chain w p = Ok tt <->
  payment_digest p <> [] /\
  exists results, rpc_verify_payment w (payment_digest p) = Ok results /\
      Exists (fun r => 0 < amountPaid r) results /\
      Forall (fun r => 0 < amountPaid r -> isValid r = true) results.
Proof.
  unfold validate_on_chain. case_bool_decide as E1.
  { apply nil_length_inv in E1. split; [discriminate | intros [? _]; contradiction]. }
  assert (payment_digest p <> []) as Hne by (intros Hx; rewrite Hx in E1; auto).
  destruct (rpc_verify_payment w (payment_digest p)) as [results|e]; cbn [map_err mbind result_bind].
  2:{ split; [discriminate | intros (_ & r & Hr & _); discriminate]. }
  assert (Exists (fun r => 0 < amountPaid r) results <->
          List.filter (fun r => 0 <? amountPaid r) results <> []) as Hex.
  { induction results as [|r rs IH]; cbn; [rewrite Exists_nil; split; [tauto | congruence]|].
    rewrite Exists_cons, IH. destruct (0 <? amountPaid r) eqn:E; b2p.
    - split; [discriminate | auto].
    - split; [intros [?|?]; [lia | assumption] | auto]. }
  case_bool_decide as E2.
  { apply nil_length_inv in E2. split; [discriminate|]. intros (_ & rs & [= <-] & Hx & _).
    apply Hex in Hx. contradiction. }
  rewrite all_ok_Forall. setoid_rewrite unless_ok.
  assert (Forall (fun r => isValid r = true) (List.filter (fun r => 0 <? amountPaid r) results) <->
          Forall (fun r => 0 < amountPaid r -> isValid r = true) results) as Hall.
  { rewrite !Forall_forall. setoid_rewrite list_elem_of_In. setoid_rewrite filter_In.
    setoid_rewrite Z.ltb_lt. firstorder. }
  rewrite Hall. split.
  - intros Hv. split; [exact Hne|]. exists results. repeat split; [|exact Hv]. apply Hex.
    intros Hx. rewrite Hx in E2. auto.
  - intros (_ & rs & [= <-] & _ & Hv). exact Hv.
Qed.

Context `{!Lru XorName unit, !Lru bytes OnChainPaymentInfo}.

Lemma verify_evm_payment_ok v w x p :
  verify_evm_payment v w x p = Ok tt <->
  sig_task_lost w = false /\ valid_evm_payment (local_rewards_address (v_config v)) w x p.
Proof.
  unfold verify_evm_payment. rewrite !then_ok, validate_structure_ok, validate_on_chain_ok.
  unfold validate_quote_content, validate_quote_timestamps, validate_peer_bindings.
  rewrite !all_ok_Forall. setoid_rewrite unless_ok. setoid_rewrite validate_quote_timestamp_ok.
  setoid_rewrite binding_ok. unfold validate_local_recipient, validate_signatures.
  assert (forall (b : bool) (e : NodeError),
    (if b then Ok tt else Err e) = (Ok tt : result NodeError unit) <-> b = true) as Hb
    by (intros [] e; split; congruence).
  rewrite Hb, (existsb_Exists _ (fun pq => rewards_address pq.2 = local_rewards_address (v_config v)))
    by (intros a; apply bool_decide_eq_true).
  assert (Hs : (if sig_task_lost w then Err (PaymentError "Signature verification task failed: {e}")
     else all_ok (fun pq => if negb (verify_quote_signature pq.2) then
      Err (PaymentError "Quote ML-DSA-65 signature verification failed for peer {encoded_peer_id:?}")
      else Ok tt) (peer_quotes p)) = Ok tt <->
    sig_task_lost w = false /\ Forall (fun pq => verify_quote_signature pq.2 = true) (peer_quotes p)).
  { destruct (sig_task_lost w); [split; [discriminate | intros []; discriminate]|].
    rewrite all_ok_Forall. setoid_rewrite unless_ok. tauto. }
  rewrite Hs. unfold verify_quote_content. setoid_rewrite bool_decide_eq_true. split.
  - intros ([P1 P2] & P3 & P4 & P5 & P6 & [P7 P8] & P9 & P10). split; [exact P7|].
    constructor; auto. rewrite !Forall_and. auto.
  - intros [P7 [P1 P2 Hq P6 P9 P10]]. rewrite !Forall_and in Hq.
    destruct Hq as (P3 & P4 & P5 & P8). auto 12.
Qed.

Lemma check_merkle_ok info p :
  check_merkle info p = Ok tt <-> valid_merkle_payment info (mp_address p) p.
Proof.
  unfold check_merkle. rewrite !then_ok, all_ok_Forall.
  assert (forall c,
    (if negb (verify_merkle_candidate_signature c) then
       Err (PaymentError "Invalid ML-DSA-65 signature on merkle candidate node (reward: {})")
     else if negb (merkle_payment_timestamp c =? on_chain_timestamp info) then
       Err (PaymentError "Candidate timestamp mismatch: expected {}, got {} (reward: {})")
     else Ok tt) = Ok tt <->
    verify_merkle_candidate_signature c = true /\ merkle_payment_timestamp c = on_chain_timestamp info)
    as Hc.
  { intros c. destruct (verify_merkle_candidate_signature c); cbn [negb].
    - rewrite unless_ok, Z.eqb_eq. tauto.
    - split; [discriminate | intros []; discriminate]. }
  setoid_rewrite Hc.
  assert (forall (r : result string unit), map_err
      (fun _ => PaymentError "Merkle proof verification failed for {xorname_hex}: {e}") r = Ok tt <->
      is_ok r = true) as Hm by (intros [[]|]; cbn; split; congruence).
  rewrite Hm.
  assert (forall l, all_ok (fun '(addr, idx) =>
      node ← ok_or (candidate_nodes (winner_pool p) !! Z.to_nat idx)
        (PaymentError "Paid node index {idx} out of bounds for pool size {}");
      if negb (bool_decide (reward_address node = addr)) then
        Err (PaymentError "Paid node address mismatch at index {idx}: expected {addr}, got {}")
      else Ok tt) l = Ok tt <->
    Forall (fun '(addr, idx) => exists node,
      candidate_nodes (winner_pool p) !! Z.to_nat idx = Some node /\ reward_address node = addr) l)
    as Hp.
  { intros l. rewrite all_ok_Forall. apply Forall_proper; [|reflexivity]. intros [addr idx].
    destruct (candidate_nodes (winner_pool p) !! Z.to_nat idx) as [node|]; cbn.
    - rewrite unless_ok, bool_decide_eq_true. split; [eauto | intros (n & [= <-] & Hn); exact Hn].
    - split; [discriminate | intros (n & Hn & _); discriminate]. }
  destruct (lenZ (paid_node_addresses info) =? depth info) eqn:E; cbn [negb]; b2p.
  - rewrite Hp. split.
    + intros (P1 & P2 & P3). constructor; auto.
    + intros [_ P1 P2 _ P3]. auto.
  - split; [intros (_ & _ & ?); discriminate | intros [_ _ _ ? _]; contradiction].
Qed.

End Accepted.

(** ** Decisions and runs *)

Section Runs.
Context `{Evm, Dsa, PeerIds}.
Context `{!Lru XorName unit, !Lru bytes OnChainPaymentInfo}.
Context `{!LruLaws XorName unit, !LruLaws bytes OnChainPaymentInfo}.
Context `{!Codec rmp_serde PaymentProof, !Codec rmp_serde MerklePaymentProof}.

Definition answers_pool (w : world) (h : bytes) (info : OnChainPaymentInfo) : Prop :=
  exists i, rpc_merkle_payment_info w h = Ok i /\ info = on_chain_info i.

(** The payment of a pool that a call uses: the cached one if there is one. *)
Definition used_payment (v : PaymentVerifier) (w : world) (h : bytes) (info : OnChainPaymentInfo)
    : Prop :=
  lru_peek (pool_cache v) h = Some info \/
  (lru_peek (pool_cache v) h = None /\ answers_pool w h info).

Definition size_ok (proof : bytes) : Prop := 32 <= lenZ proof <= 262144.

Definition valid_single (local : bytes) (w : world) (x : XorName) (proof : bytes) : Prop :=
  exists p txs, deserialize_proof proof = Ok (p, txs) /\ valid_evm_payment local w x p.

Definition valid_merkle (pays : bytes -> OnChainPaymentInfo -> Prop) (x : XorName) (proof : bytes)
    : Prop :=
  exists p info, deserialize_merkle_proof proof = Ok p /\ pays (winner_pool_hash p) info /\
    valid_merkle_payment info x p.

Lemma pool_payment_spec v w h r v' :
  pool_payment v w h = (r, v') ->
  cache v' = cache v /\ v_config v' = v_config v /\
  (forall info, r = Ok info <-> used_payment v w h info) /\
  (forall h' info, lru_peek (pool_cache v') h' = Some info ->
     lru_peek (pool_cache v) h' = Some info \/ (h' = h /\ answers_pool w h info)).
Proof.
  unfold pool_payment, used_payment, answers_pool.
  pose proof (lru_get_value (pool_cache v) h) as Hv. pose proof (lru_get_peek (pool_cache v) h) as Hk.
  pose proof (lru_get_cap (pool_cache v) h) as Hcap.
  destruct (lru_get (pool_cache v) h) as [[info0|] l]; cbn in Hv, Hk, Hcap.
  - intros [= <- <-]. rewrite <- Hv. cbn. repeat split.
    + intros [= <-]. auto.
    + intros [[= <-] | [? _]]; congruence.
    + intros h' info. rewrite Hk. auto.
  - destruct (rpc_merkle_payment_info w h) as [i|e]; intros [= <- <-]; rewrite <- Hv; cbn; repeat split.
    + intros [= <-]. right. eauto.
    + intros [? | (_ & i' & [= <-] & ->)]; [discriminate | reflexivity].
    + intros h' info. destruct (decide (h' = h)) as [->|Hne].
      * intros Hp. apply lru_put_value in Hp as ->. right. eauto.
      * intros Hp. apply lru_put_other in Hp; [|assumption]. rewrite Hk in Hp. auto.
    + intros Hx. discriminate.
    + intros [? | (_ & i' & ? & _)]; discriminate.
    + intros h' info. rewrite Hk. auto.
Qed.

(** The proofs that [verify_payment] accepts in a given state and world. *)
Definition accepted (v : PaymentVerifier) (w : world) (x : XorName) (proof : bytes) : Prop :=
  size_ok proof /\
  ((sig_task_lost w = false /\ valid_single (local_rewards_address (v_config v)) w x proof) \/
   valid_merkle (used_payment v w) x proof).

(** What a call may add to the pool cache. *)
Definition pools_from (w : world) (v v' : PaymentVerifier) : Prop :=
  forall h info, lru_peek (pool_cache v') h = Some info ->
    lru_peek (pool_cache v) h = Some info \/ answers_pool w h info.

Lemma verify_merkle_spec v w x proof r v' :
  verify_merkle_payment v w x proof = (r, v') ->
  cache v' = cache v /\ v_config v' = v_config v /\ pools_from w v v' /\
  (r = Ok tt <-> valid_merkle (used_payment v w) x proof).
Proof.
  unfold verify_merkle_payment, valid_merkle, pools_from.
  destruct (deserialize_merkle_proof proof) as [p|e].
  2:{ intros [= <- <-]. repeat split; auto; [discriminate|].
      intros (p & info & ? & _). discriminate. }
  case_bool_decide as Ha; cbn [negb].
  2:{ intros [= <- <-]. repeat split; auto; [discriminate|].
      intros (p' & info & [= <-] & _ & Hv). destruct (Ha (vm_address _ _ _ Hv)). }
  destruct (pool_payment v w (winner_pool_hash p)) as [ri v1] eqn:E.
  apply pool_payment_spec in E as (Hc & Hcfg & Hi & Hp). intros [= <- <-].
  split; [exact Hc|]. split; [exact Hcfg|]. split.
  { intros h info Hl. apply Hp in Hl as [Hl | [-> Hl]]; auto. }
  split.
  - destruct ri as [info|e]; cbn; [|discriminate]. intros Hk. exists p, info.
    split; [reflexivity|]. split; [apply Hi; reflexivity|]. apply check_merkle_ok in Hk.
    rewrite Ha in Hk. exact Hk.
  - intros (p' & info & [= <-] & Hu & Hv). apply Hi in Hu as ->. cbn. apply check_merkle_ok.
    rewrite Ha. exact Hv.
Qed.

Lemma single_not_merkle proof :
  detect_proof_type proof = Some SingleNode -> is_ok (deserialize_merkle_proof proof) = false.
Proof.
  intros Hd. apply detect_single in Hd. unfold deserialize_merkle_proof. rewrite Hd.
  reflexivity.
Qed.

Lemma not_single proof :
  detect_proof_type proof <> Some SingleNode -> is_ok (deserialize_proof proof) = false.
Proof.
  intros Hd. unfold deserialize_proof. case_bool_decide as E; [|reflexivity].
  destruct Hd. apply detect_single. exact E.
Qed.

Lemma not_merkle proof :
  detect_proof_type proof <> Some Merkle -> is_ok (deserialize_merkle_proof proof) = false.
Proof.
  intros Hd. unfold deserialize_merkle_proof. case_bool_decide as E; [|reflexivity].
  destruct Hd. apply detect_merkle. exact E.
Qed.

Lemma no_valid_single local w x proof :
  is_ok (deserialize_proof proof) = false -> ~ valid_single local w x proof.
Proof. intros Hn (p & txs & Hd & _). rewrite Hd in Hn. discriminate. Qed.

Lemma no_valid_merkle pays x proof :
  is_ok (deserialize_merkle_proof proof) = false -> ~ valid_merkle pays x proof.
Proof. intros Hn (p & info & Hd & _). rewrite Hd in Hn. discriminate. Qed.

Lemma verify_proof_spec v w x proof r v' :
  verify_proof v w x proof = (r, v') ->
  cache v' = cache v /\ v_config v' = v_config v /\ pools_from w v v' /\
  (r = Ok tt <-> accepted v w x proof).
Proof.
  unfold verify_proof, accepted, size_ok, MIN_PAYMENT_PROOF_SIZE_BYTES, MAX_PAYMENT_PROOF_SIZE_BYTES.
  destruct (lenZ proof <? 32) eqn:E1; b2p.
  { intros [= <- <-]. split; [reflexivity|]. split; [reflexivity|]. split; [intros h info; auto|]. split; [discriminate|].
    intros [Hs _]. lia. }
  destruct (262144 <? lenZ proof) eqn:E2; b2p.
  { intros [= <- <-]. split; [reflexivity|]. split; [reflexivity|]. split; [intros h info; auto|]. split; [discriminate|].
    intros [Hs _]. lia. }
  destruct (detect_proof_type proof) as [[|]|] eqn:Ed.
  - intros [= <- <-]. split; [reflexivity|]. split; [reflexivity|]. split; [intros h info; auto|]. split.
    + pose proof (single_not_merkle proof Ed) as Hm. intros Hr. split; [lia|]. left.
      destruct (deserialize_proof proof) as [[p txs]|] eqn:Es; [|discriminate]. cbn in Hr.
      apply verify_evm_payment_ok in Hr as [Hl Hv]. split; [exact Hl|]. exists p, txs. auto.
    + intros (_ & [(Hl & p & txs & Hs & Hv) | Hv]).
      * rewrite Hs. cbn. apply verify_evm_payment_ok. auto.
      * destruct (no_valid_merkle _ _ _ (single_not_merkle proof Ed) Hv).
  - intros E. apply verify_merkle_spec in E as (Hc & Hcfg & Hp & Hr).
    assert (detect_proof_type proof <> Some SingleNode) as Hns by congruence.
    split; [exact Hc|]. split; [exact Hcfg|]. split; [exact Hp|]. split.
    + intros Hx. split; [lia|]. right. apply Hr. exact Hx.
    + intros (_ & [(_ & Hv) | Hv]); [|apply Hr; exact Hv].
      destruct (no_valid_single _ _ _ _ (not_single proof Hns) Hv).
  - intros [= <- <-]. split; [reflexivity|]. split; [reflexivity|]. split; [intros h info; auto|]. split; [discriminate|].
    intros (_ & [(_ & Hv) | Hv]).
    + destruct (no_valid_single _ _ _ _ (not_single proof ltac:(congruence)) Hv).
    + destruct (no_valid_merkle _ _ _ (not_merkle proof ltac:(congruence)) Hv).
Qed.

Lemma verify_payment_spec v w x proof r v' :
  verify_payment v w x proof = (r, v') ->
  v_config v' = v_config v /\ pools_from w v v' /\
  (forall y, holds (cache v') y = true ->
     holds (cache v) y = true \/ (y = x /\ exists bs, proof = Some bs /\ accepted v w x bs)) /\
  (holds (cache v) x = true -> r = Ok CachedAsVerified) /\
  (holds (cache v) x = false ->
     (r = Ok PaymentVerified <-> exists bs, proof = Some bs /\ accepted v w x bs) /\
     r <> Ok CachedAsVerified) /\
  r <> Ok PaymentRequired.
Proof.
  unfold verify_payment, check_payment_required.
  pose proof (contains_holds (cache v) x) as Hch. pose proof (holds_contains (cache v) x) as Hk.
  destruct (cache_contains (cache v) x) as [found c]. cbn in Hch, Hk. subst found.
  destruct (holds (cache v) x) eqn:Eh.
  { intros [= <- <-]. cbn. split; [reflexivity|]. split; [intros h info; auto|].
    split; [intros y; rewrite Hk; auto|]. split; [reflexivity|]. split; discriminate. }
  destruct proof as [bs|].
  2:{ intros [= <- <-]. cbn. split; [reflexivity|]. split; [intros h info; auto|].
      split; [intros y; rewrite Hk; auto|]. split; [discriminate|]. split; [|discriminate].
      intros _. split; [|discriminate]. split; [discriminate|]. intros (bs & ? & _). discriminate. }
  destruct (verify_proof (set_cache v c) w x bs) as [r1 v1] eqn:E.
  apply verify_proof_spec in E as (Hc & Hcfg & Hp & Hr). cbn in Hc, Hcfg.
  assert (accepted (set_cache v c) w x bs <-> accepted v w x bs) as Hacc by reflexivity.
  rewrite Hacc in Hr. destruct r1 as [[]|e]; intros [= <- <-]; cbn; split; auto; split; auto;
    (split; [|split; [discriminate | split; [|discriminate]]]).
  - intros y Hy. apply holds_insert in Hy as [-> | Hy].
    + right. split; [reflexivity|]. exists bs. split; [reflexivity|]. apply Hr. reflexivity.
    + rewrite Hc in Hy. rewrite Hk in Hy. auto.
  - intros _. split; [|discriminate]. split; [|reflexivity]. intros _. exists bs.
    split; [reflexivity|]. apply Hr. reflexivity.
  - intros y Hy. rewrite Hc, Hk in Hy. auto.
  - intros _. split; [|discriminate]. split; [discriminate|]. intros (bs' & [= <-] & Ha).
    apply Hr in Ha. discriminate.
Qed.

(** *** Sequences of calls *)

Abbreviation request := (world * XorName * option bytes)%type.

Fixpoint verify_run (v : PaymentVerifier) (reqs : list request)
    : list (result NodeError PaymentStatus) * PaymentVerifier :=
  match reqs with
  | [] => ([], v)
  | (w, x, proof) :: reqs' =>
    let '(r, v') := verify_payment v w x proof in
    let '(rs, v'') := verify_run v' reqs' in (r :: rs, v'')
  end.

(** A call for this address brought a proof that was valid in its world; the
    payment of a merkle pool was answered by the chain in that call or before. *)
Definition proven (local : bytes) (past : list request) (q : request) : Prop :=
  exists bs, q.2 = Some bs /\ size_ok bs /\
    (valid_single local q.1.1 q.1.2 bs \/
     valid_merkle (fun h info => Exists (fun q' => answers_pool q'.1.1 h info) (past ++ [q])) q.1.2 bs).

Definition paid_for (local : bytes) (reqs : list request) (x : XorName) : Prop :=
  exists past q rest, reqs = past ++ q :: rest /\ q.1.2 = x /\ proven local past q.

Lemma paid_for_app local reqs more x : paid_for local reqs x -> paid_for local (reqs ++ more) x.
Proof.
  intros (past & q & rest & -> & Hx & Hp). exists past, q, (rest ++ more).
  rewrite <- app_assoc. auto.
Qed.

Record verifier_inv (local : bytes) (reqs : list request) (v : PaymentVerifier) : Prop := {
  vi_local : local_rewards_address (v_config v) = local;
  vi_cache : forall x, holds (cache v) x = true -> paid_for local reqs x;
  vi_pools : forall h info, lru_peek (pool_cache v) h = Some info ->
      Exists (fun q => answers_pool q.1.1 h info) reqs
}.

Lemma verifier_inv_new config : verifier_inv (local_rewards_address config) [] (verifier_new config).
Proof.
  split; [reflexivity | |].
  - intros x. cbn. rewrite holds_new. discriminate.
  - intros h info. cbn. rewrite lru_new_empty. discriminate.
Qed.

Lemma accepted_proven local reqs v w x bs :
  verifier_inv local reqs v -> accepted v w x bs -> proven local reqs (w, x, Some bs).
Proof.
  intros [Hl _ Hp] [Hs Ha]. exists bs. split; [reflexivity|]. split; [exact Hs|]. cbn.
  destruct Ha as [(_ & Hv) | (p & info & Hd & Hu & Hv)].
  - left. rewrite <- Hl. exact Hv.
  - right. exists p, info. split; [exact Hd|]. split; [|exact Hv]. apply Exists_app.
    destruct Hu as [Hc | [_ Hc]]; [left; exact (Hp _ _ Hc) | right; apply Exists_cons_hd; exact Hc].
Qed.

Lemma verify_payment_inv local reqs v w x proof r v' :
  verifier_inv local reqs v -> verify_payment v w x proof = (r, v') ->
  verifier_inv local (reqs ++ [(w, x, proof)]) v' /\
  (is_ok r = true -> paid_for local (reqs ++ [(w, x, proof)]) x).
Proof.
  intros Hi Hv. apply verify_payment_spec in Hv as (Hcfg & Hpools & Hcache & Hcached & Hnew & Hnr).
  assert (forall bs, proof = Some bs -> accepted v w x bs -> paid_for local (reqs ++ [(w, x, proof)]) x)
    as Hpaid.
  { intros bs -> Ha. exists reqs, (w, x, Some bs), []. split; [reflexivity|]. split; [reflexivity|].
    exact (accepted_proven _ _ _ _ _ _ Hi Ha). }
  split.
  - split.
    + rewrite Hcfg. apply Hi.
    + intros y Hy. apply Hcache in Hy as [Hy | (-> & bs & Hb & Ha)].
      * apply paid_for_app, (vi_cache _ _ _ Hi), Hy.
      * exact (Hpaid bs Hb Ha).
    + intros h info Hl. apply Exists_app. apply Hpools in Hl as [Hl | Hl].
      * left. exact (vi_pools _ _ _ Hi h info Hl).
      * right. apply Exists_cons_hd. exact Hl.
  - intros Hok. destruct (holds (cache v) x) eqn:E.
    + apply paid_for_app, (vi_cache _ _ _ Hi), E.
    + destruct (Hnew eq_refl) as [Hiff Hncached]. destruct r as [[]|]; try contradiction; try discriminate.
      destruct (proj1 Hiff eq_refl) as (bs & Hb & Ha). exact (Hpaid bs Hb Ha).
Qed.

Lemma verify_run_inv local past v reqs :
  verifier_inv local past v ->
  verifier_inv local (past ++ reqs) (verify_run v reqs).2 /\
  forall i q r, reqs !! i = Some q -> (verify_run v reqs).1 !! i = Some r -> is_ok r = true ->
    paid_for local (past ++ take (S i) reqs) q.1.2.
Proof.
  revert past v. induction reqs as [|[[w x] proof] reqs IH]; intros past v Hi.
  - rewrite app_nil_r. split; [exact Hi | discriminate].
  - cbn [verify_run]. destruct (verify_payment v w x proof) as [r v'] eqn:E.
    destruct (verify_payment_inv _ _ _ _ _ _ _ _ Hi E) as [Hi' Hok].
    destruct (IH (past ++ [(w, x, proof)]) v' Hi') as [IH1 IH2].
    rewrite <- app_assoc in IH1. destruct (verify_run v' reqs) as [rs v'']. cbn [fst snd] in *.
    split; [exact IH1|]. intros i q r0 Hq Hr Hk. destruct i as [|i].
    + injection Hq as <-. injection Hr as ->. exact (Hok Hk).
    + specialize (IH2 i q r0 Hq Hr Hk). rewrite <- app_assoc in IH2. exact IH2.
Qed.

End Runs.

(** C14: [verify_payment] decides exactly: an address in the cache is let through;
    any other only with a proof of acceptable size that is either a single-node
    proof satisfying every condition of [valid_evm_payment] in the current world
    or a merkle proof satisfying [valid_merkle_payment] for the payment of its
    pool (the cached one, or what the chain answers), and every such proof is
    accepted; everything else is an error, never a "payment required" status. *)
Theorem verify_payment_decides `{Evm, Dsa, PeerIds}
    `{!Lru XorName unit, !Lru bytes OnChainPaymentInfo}
    `{!LruLaws XorName unit, !LruLaws bytes OnChainPaymentInfo}
    `{!Codec rmp_serde PaymentProof, !Codec rmp_serde MerklePaymentProof}
    (v v' : PaymentVerifier) (w : world) (x : XorName) (proof : option bytes)
    (r : result NodeError PaymentStatus) (Hv : verify_payment v w x proof = (r, v')) :
  (r = Ok CachedAsVerified <-> holds (cache v) x = true) /\
  (r = Ok PaymentVerified <->
     holds (cache v) x = false /\ exists bs, proof = Some bs /\ 32 <= lenZ bs <= 262144 /\
       ((sig_task_lost w = false /\
         exists p txs, deserialize_proof bs = Ok (p, txs) /\
           valid_evm_payment (local_rewards_address (v_config v)) w x p) \/
        (exists p info, deserialize_merkle_proof bs = Ok p /\
           used_payment v w (winner_pool_hash p) info /\ valid_merkle_payment info x p))) /\
  r <> Ok PaymentRequired.
Proof.
  apply verify_payment_spec in Hv as (_ & _ & _ & Hcached & Hnew & Hnr).
  destruct (holds (cache v) x) eqn:E.
  - rewrite (Hcached eq_refl). split; [tauto|]. split; [|discriminate].
    split; [discriminate | intros []; discriminate].
  - destruct (Hnew eq_refl) as [Hiff Hnc]. split; [split; [contradiction | discriminate]|].
    split; [|exact Hnr]. rewrite Hiff. unfold accepted, size_ok, valid_single, valid_merkle. tauto.
Qed.

(** Over any sequence of calls to a fresh verifier, in whatever worlds, an
    address is only ever let through, from the cache or not, when some call up to
    then brought a valid proof for that very address: a single-node proof valid
    in the world of that call, or a merkle proof valid for a payment that the
    chain had answered for its pool. *)
Theorem only_paid_addresses_pass `{Evm, Dsa, PeerIds}
    `{!Lru XorName unit, !Lru bytes OnChainPaymentInfo}
    `{!LruLaws XorName unit, !LruLaws bytes OnChainPaymentInfo}
    `{!Codec rmp_serde PaymentProof, !Codec rmp_serde MerklePaymentProof}
    (config : PaymentVerifierConfig) (reqs : list (world * XorName * option bytes)) (i : nat)
    (w : world) (x : XorName) (proof : option bytes) (r : result NodeError PaymentStatus)
    (Hi : reqs !! i = Some (w, x, proof))
    (Hr : (verify_run (verifier_new config) reqs).1 !! i = Some r) (Hok : is_ok r = true) :
  paid_for (local_rewards_address config) (take (S i) reqs) x.
Proof.
  destruct (verify_run_inv _ [] _ reqs (verifier_inv_new config)) as [_ Hp].
  exact (Hp i (w, x, proof) r Hi Hr Hok).
Qed.

(** ** A concrete payment *)

#[local] Existing Instance short_dsa.
#[local] Existing Instance short_peer_ids.

Definition sample_address : XorName := compute_address [x01; x02; x03].

Definition signed_quote (b : byte) : bytes * PaymentQuote :=
  let pk := [b] in
  let m := get_metrics (tracker_new 1000 0 0) 0 3 0 in
  let q := mkQuote sample_address 7000000000 m pk [b] [] in
  (toy_hash pk,
   mkQuote sample_address 7000000000 m pk [b]
     (default [] (dsa_sign pk (quote_bytes_for_sig q)))).

Definition sample_payment : PaymentProof :=
  mkPaymentProof (mkProofOfPayment (signed_quote <$> [x0a; x0b; x0c; x0d; x0e])) [].

Definition sample_proof_body : bytes := replicate 40 x55.

#[local] Instance sample_single_codec : Codec rmp_serde PaymentProof :=
  table_codec [(sample_payment, sample_proof_body)].

Definition sample_world : world := {|
  now := 9000000000;
  sig_task_lost := false;
  rpc_verify_payment digest :=
    Ok ((fun d => if bool_decide (d.2 = [x0c]) then mkPaid 90 true else mkPaid 0 false) <$> digest);
  rpc_merkle_payment_info _ := Err "no such pool"%string
|}.

Definition sample_verifier : PaymentVerifier := verifier_new (mkVerifierConfig 100 [x0b]).

Lemma sample_accepted :
  (verify_payment sample_verifier sample_world sample_address
     (Some (PROOF_TAG_SINGLE_NODE :: sample_proof_body))).1 = Ok PaymentVerified.
Proof. vm_compute. reflexivity. Qed.

Lemma verify_payment_decides_witness :
  let proof := PROOF_TAG_SINGLE_NODE :: sample_proof_body in
  (verify_payment sample_verifier sample_world sample_address (Some proof)).1 = Ok PaymentVerified /\
  exists bs, Some proof = Some bs /\ 32 <= lenZ bs.
Proof.
  cbv zeta. pose proof sample_accepted as Hok.
  destruct (verify_payment sample_verifier sample_world sample_address
    (Some (PROOF_TAG_SINGLE_NODE :: sample_proof_body))) as [r v'] eqn:E. cbn in Hok.
  destruct (verify_payment_decides _ _ _ _ _ _ E) as (_ & [Hd _] & _).
  destruct (Hd Hok) as (_ & bs & Hb & Hs & _). split; [exact Hok|]. exists bs. split; [exact Hb | lia].
Defined.

Lemma only_paid_addresses_pass_witness :
  let q := (sample_world, sample_address, Some (PROOF_TAG_SINGLE_NODE :: sample_proof_body)) in
  let free := (sample_world, sample_address, None) in
  (verify_run sample_verifier [q; free]).1 !! 1%nat = Some (Ok CachedAsVerified) /\
  paid_for [x0b] [q; free] sample_address.
Proof.
  cbv zeta. set (q := (sample_world, sample_address, _)). set (free := (_, _, None)).
  assert ((verify_run sample_verifier [q; free]).1 !! 1%nat = Some (Ok CachedAsVerified)) as Hr
    by (vm_compute; reflexivity).
  split; [exact Hr|].
  exact (only_paid_addresses_pass (mkVerifierConfig 100 [x0b]) [q; free] 1 sample_world sample_address
    None _ eq_refl Hr eq_refl).
Defined.
