(* ===== verification/Handler.v ===== *)
(** * The node's protocol handler

    [ant-node/src/storage/handler.rs]: [AntProtocol] decodes a request, checks
    and serves it against the store, the payment verifier and the quote generator,
    and encodes the reply.  What the environment does during one request (clock,
    chain, failing LMDB calls and file writes) is an [env]. *)

From Stdlib Require Import ZArith Lia Strings.Byte.
From stdpp Require Import base list strings gmap.
From S2P Require Import Prelude Interfaces Cipher Reference Protocol Evm Metrics Storage PayCache.
From S2P Require Import Quote PayProof Verifier.

Local Open Scope Z_scope.

Record env := mkEnv {
  e_world : world;
  instant : Z;
  exists_fails : db_call -> bool;
  op_fails : db_call -> bool;
  store_write : write_outcome;
  payment_write : write_outcome
}.

Section Handler.
Context `{Blake3, Evm, Dsa, PeerIds}.
Context `{!Lru XorName unit, !Lru bytes OnChainPaymentInfo}.
Context `{!Codec rmp_serde PaymentProof, !Codec rmp_serde MerklePaymentProof}.
Context `{!Codec rmp_serde PersistedMetrics, !Codec rmp_serde PaymentQuote}.
Context `{!Codec rmp_serde MerklePaymentCandidateNode, !Codec postcard ChunkMessage}.

(** [metrics_file] is what the metrics tracker of the quote generator persists. *)
Record AntProtocol := mkProtocol {
  storage : LmdbStorage;
  payment_verifier : PaymentVerifier;
  quote_generator : QuoteGenerator;
  metrics_file : option bytes
}.

Definition with_storage (p : AntProtocol) (s : LmdbStorage) : AntProtocol :=
  mkProtocol s (payment_verifier p) (quote_generator p) (metrics_file p).
Definition with_verifier (p : AntProtocol) (v : PaymentVerifier) : AntProtocol :=
  mkProtocol (storage p) v (quote_generator p) (metrics_file p).
Definition with_metrics (p : AntProtocol) (m : QuotingMetricsTracker * option bytes) : AntProtocol :=
  mkProtocol (storage p) (payment_verifier p) (set_tracker (quote_generator p) m.1) m.2.

(** The generator's [record_store(DATA_TYPE_CHUNK)] and [record_payment()]. *)
Definition record_put (e : env) (p : AntProtocol) : AntProtocol :=
  let m := Metrics.record_store (store_write e) DATA_TYPE_CHUNK
             (metrics_tracker (quote_generator p)) (metrics_file p) in
  with_metrics p (Metrics.record_payment (payment_write e) m.1 m.2).

Definition handle_put (e : env) (p : AntProtocol) (request : ChunkPutRequest)
    : ChunkPutResponse * AntProtocol :=
  let address := put_address request in
  let content := put_content request in
  if MAX_CHUNK_BYTES <? lenZ content then
    (PutError (ChunkTooLarge (lenZ content) MAX_CHUNK_BYTES), p)
  else
    let computed := compute_address content in
    if negb (bool_decide (computed = address)) then (PutError (AddressMismatch address computed), p)
    else
      match exists_chunk (exists_fails e) (storage p) address with
      | Ok true => (PutAlreadyExists address, p)
      | Err _ => (PutError (Internal "Storage read failed: {e}"), p)
      | Ok false =>
        let '(payment_result, v) :=
          verify_payment (payment_verifier p) (e_world e) address (payment_proof request) in
        let p := with_verifier p v in
        match payment_result with
        | Ok status =>
          if can_store status then
            let '(stored, s) := put (op_fails e) (storage p) address content in
            let p := with_storage p s in
            match stored with
            | Ok _ => (PutSuccess address, record_put e p)
            | Err err => (PutError (StorageFailed (node_error_string err)), p)
            end
          else (PutPaymentRequired "Payment required for new chunk", p)
        | Err err => (PutError (PaymentFailed (node_error_string err)), p)
        end
      end.

Definition handle_get (e : env) (p : AntProtocol) (request : ChunkGetRequest)
    : ChunkGetResponse * AntProtocol :=
  let address := get_address request in
  let '(r, s) := get (op_fails e) (storage p) address in
  (match r with
   | Ok (Some content) => GetSuccess address content
   | Ok None => GetNotFound address
   | Err err => GetError (StorageFailed (node_error_string err))
   end, with_storage p s).

(** [data_size] is a [u64], which fits a [usize]. *)
Definition handle_quote (e : env) (p : AntProtocol) (request : ChunkQuoteRequest)
    : ChunkQuoteResponse :=
  let already_stored :=
    match exists_chunk (exists_fails e) (storage p) (quote_address request) with
    | Ok b => b
    | Err _ => false
    end in
  let data_size := Protocol.data_size request in
  if MAX_CHUNK_BYTES <? data_size then QuoteError (ChunkTooLarge data_size MAX_CHUNK_BYTES)
  else
    match create_quote (quote_generator p) (now (e_world e)) (instant e) (quote_address request)
            data_size (Protocol.data_type request) with
    | Ok quote =>
      match ser rmp_serde quote with
      | Some quote_bytes => QuoteSuccess quote_bytes already_stored
      | None => QuoteError (QuoteFailed "Failed to serialize quote: {e}")
      end
    | Err err => QuoteError (QuoteFailed (node_error_string err))
    end.

Definition handle_merkle_candidate_quote (e : env) (p : AntProtocol)
    (request : MerkleCandidateQuoteRequest) : MerkleCandidateQuoteResponse :=
  let data_size := mq_data_size request in
  if MAX_CHUNK_BYTES <? data_size then MerkleQuoteError (ChunkTooLarge data_size MAX_CHUNK_BYTES)
  else
    match create_merkle_candidate_quote (quote_generator p) (instant e) data_size
            (mq_data_type request) (Protocol.merkle_payment_timestamp request) with
    | Ok candidate_node =>
      match ser rmp_serde candidate_node with
      | Some bs => MerkleQuoteSuccess bs
      | None => MerkleQuoteError (QuoteFailed "Failed to serialize merkle candidate node: {e}")
      end
    | Err err => MerkleQuoteError (QuoteFailed (node_error_string err))
    end.

(** The reply to a message, [None] for a message that is itself a response. *)
Definition handle_body (e : env) (p : AntProtocol) (body : ChunkMessageBody)
    : option ChunkMessageBody * AntProtocol :=
  match body with
  | PutRequest req => let '(r, p') := handle_put e p req in (Some (PutResponse r), p')
  | GetRequest req => let '(r, p') := handle_get e p req in (Some (GetResponse r), p')
  | QuoteRequest req => (Some (QuoteResponse (handle_quote e p req)), p)
  | MerkleQuoteRequest req =>
      (Some (MerkleQuoteResponse (handle_merkle_candidate_quote e p req)), p)
  | PutResponse _ | GetResponse _ | QuoteResponse _ | MerkleQuoteResponse _ => (None, p)
  end.

Definition try_handle_request (e : env) (p : AntProtocol) (data : bytes)
    : result NodeError (option bytes) * AntProtocol :=
  match decode_message data with
  | Err _ => (Err (ProtocolFailure "Failed to decode message: {e}"), p)
  | Ok message =>
    let '(response, p') := handle_body e p (body message) in
    match response with
    | None => (Ok None, p')
    | Some response_body =>
        (map_err (fun _ => ProtocolFailure "Failed to encode response: {e}")
           (b ← encode_message (mkMessage (request_id message) response_body); Ok (Some b)), p')
    end
  end.

Definition protocol_storage_stats (fails : db_call -> bool) (p : AntProtocol) : StorageStats :=
  stats fails (storage p).
Definition payment_cache_stats (p : AntProtocol) : CacheStats :=
  verifier_cache_stats (payment_verifier p).
Definition protocol_exists (fails : db_call -> bool) (p : AntProtocol) (address : XorName)
    : result NodeError bool := exists_chunk fails (storage p) address.
Definition get_local (fails : db_call -> bool) (p : AntProtocol) (address : XorName)
    : result NodeError (option bytes) * AntProtocol :=
  let '(r, s) := get fails (storage p) address in (r, with_storage p s).

Fixpoint handle_run (p : AntProtocol) (reqs : list (env * bytes))
    : list (result NodeError (option bytes)) * AntProtocol :=
  match reqs with
  | [] => ([], p)
  | (e, data) :: reqs' =>
    let '(r, p') := try_handle_request e p data in
    let '(rs, p'') := handle_run p' reqs' in (r :: rs, p'')
  end.


(** ** Facts *)

Context `{!LruLaws XorName unit, !LruLaws bytes OnChainPaymentInfo}.

Definition is_response (b : ChunkMessageBody) : bool :=
  match b with
  | PutResponse _ | GetResponse _ | QuoteResponse _ | MerkleQuoteResponse _ => true
  | _ => false
  end.

Definition answers_kind (request response : ChunkMessageBody) : bool :=
  match request, response with
  | PutRequest _, PutResponse _ | GetRequest _, GetResponse _
  | QuoteRequest _, QuoteResponse _ | MerkleQuoteRequest _, MerkleQuoteResponse _ => true
  | _, _ => false
  end.

(** The acknowledgement of a put that the store holds its chunk. *)
Definition acknowledged (r : ChunkPutResponse) : option XorName :=
  match r with PutSuccess a | PutAlreadyExists a => Some a | _ => None end.

Lemma put_cases fails s a c r s' :
  content_addressed (db s) -> put fails s a c = (r, s') ->
  content_addressed (db s') /\ config s' = config s /\
  (db s' = db s \/
   (db s' = <[a := c]> (db s) /\ db s !! a = None /\ (is_ok r = true \/ fails Join = true))) /\
  (is_ok r = true -> is_Some (db s' !! a)).
Proof.
  intros Hc Hp. pose proof (put_refines _ _ _ _ _ _ Hc Hp) as (Hc' & Hcfg & Hcase).
  split; [exact Hc'|]. split; [exact Hcfg|]. cbn [spec] in Hcase.
  case_bool_decide as Ha; cbn [negb fst snd] in Hcase.
  2:{ destruct Hcase as [[He Hd] | (Hf & _ & Hd)]; (split; [left; tauto|]);
        [injection He as -> | cbn in Hf; destruct r]; discriminate. }
  case_bool_decide as Hs; cbn [fst snd] in Hcase.
  { assert (db s' = db s) as Hd by tauto. rewrite Hd. auto. }
  apply eq_None_not_Some in Hs. destruct (has_room _ _); cbn [fst snd] in Hcase.
  - destruct Hcase as [[He Hd] | (Hf & _ & [Hd | [HJ Hd]])].
    + injection He as ->. rewrite Hd. split; [right; cbn; auto|]. rewrite lookup_insert_eq. eauto.
    + split; [auto|]. cbn in Hf. destruct r; discriminate.
    + rewrite Hd. split; [right; auto|]. rewrite lookup_insert_eq. eauto.
  - assert (db s' = db s) as Hd by tauto. split; [auto|].
    destruct Hcase as [[He _] | (Hf & _)]; [injection He as -> | cbn in Hf; destruct r]; discriminate.
Qed.

Lemma put_within max fails s a c r s' :
  content_addressed (db s) -> put fails s a c = (r, s') -> max = max_chunks (config s) ->
  within_capacity max (db s) -> within_capacity max (db s').
Proof.
  intros Hc Hp -> Hm. pose proof (put_refines _ _ _ _ _ _ Hc Hp) as (_ & _ & Hcase).
  cbn [spec] in Hcase.
  assert (Hsame : forall m, db s' = m -> m = db s -> within_capacity (max_chunks (config s)) (db s'))
    by (intros m -> ->; exact Hm).
  case_bool_decide; cbn [negb fst snd] in Hcase; [|apply (Hsame (db s)); tauto].
  case_bool_decide; cbn [fst snd] in Hcase; [apply (Hsame (db s)); tauto|].
  destruct (has_room _ _) eqn:Er; cbn [fst snd] in Hcase; [|apply (Hsame (db s)); tauto].
  assert (db s' = db s \/ db s' = <[a := c]> (db s)) as [Hd | Hd] by tauto; rewrite Hd; [exact Hm|].
  apply within_capacity_insert; assumption.
Qed.

(** What serving a put may do: nothing; a verification only; or a verification
    and the store's [put]. *)
Lemma handle_put_cases e p req r p' :
  handle_put e p req = (r, p') ->
  let a := put_address req in let c := put_content req in
  (p' = p /\ (forall x, acknowledged r = Some x -> x = a /\ r = PutAlreadyExists a /\
     is_Some (db (storage p) !! a))) \/
  (lenZ c <= MAX_CHUNK_BYTES /\ compute_address c = a /\
   exists pr v, verify_payment (payment_verifier p) (e_world e) a (payment_proof req) = (pr, v) /\
     ((p' = with_verifier p v /\ acknowledged r = None) \/
      (is_ok pr = true /\
       exists sr s, put (op_fails e) (storage p) a c = (sr, s) /\
         payment_verifier p' = v /\ storage p' = s /\
         ((is_ok sr = true /\ r = PutSuccess a) \/
          (is_ok sr = false /\ acknowledged r = None /\ quote_generator p' = quote_generator p))))).
Proof.
  unfold handle_put. destruct (MAX_CHUNK_BYTES <? lenZ (put_content req)) eqn:El; b2p.
  { intros [= <- <-]. left. split; [reflexivity|]. discriminate. }
  case_bool_decide as Ha; cbn [negb].
  2:{ intros [= <- <-]. left. split; [reflexivity|]. discriminate. }
  unfold exists_chunk, call. destruct (exists_fails e ReadTxn); cbn.
  { intros [= <- <-]. left. split; [reflexivity|]. discriminate. }
  destruct (exists_fails e ReadGet); cbn.
  { intros [= <- <-]. left. split; [reflexivity|]. discriminate. }
  case_bool_decide as Hs.
  { intros [= <- <-]. left. split; [reflexivity|]. intros x [= <-]. auto. }
  destruct (verify_payment (payment_verifier p) (e_world e) (put_address req) (payment_proof req))
    as [pr v] eqn:Ev.
  intros Hr. right. split; [exact El|]. split; [exact Ha|]. exists pr, v. split; [reflexivity|].
  destruct pr as [status|err]; [|injection Hr as <- <-; left; auto].
  destruct (can_store status); [|injection Hr as <- <-; left; auto]. right. split; [reflexivity|].
  destruct (put (op_fails e) (storage p) (put_address req) (put_content req)) as [sr s] eqn:Ep.
  exists sr, s. split; [reflexivity|].
  destruct sr as [b|err]; injection Hr as <- <-; (split; [reflexivity|]); (split; [reflexivity|]); auto.
Qed.

Lemma get_same fails s a r s' :
  get fails s a = (r, s') -> config s' = config s /\ db s' = db s.
Proof.
  unfold get. destruct (get_read fails s a) as [v|e]; [|intros [= <- <-]; auto].
  intros Hg. apply get_end_same in Hg as (? & ? & _). auto.
Qed.


(** The parts of the next lemma that do not depend on the request. *)
Ltac serve :=
  split; [auto|]; split; [auto|]; split; [discriminate|];
  intros _; eexists; split; [reflexivity|]; split; [reflexivity|].

(** What serving one message does to the node. *)
Lemma handle_body_cases e p b ob p' :
  content_addressed (db (storage p)) -> handle_body e p b = (ob, p') ->
  content_addressed (db (storage p')) /\ config (storage p') = config (storage p) /\
  (is_response b = true -> ob = None /\ p' = p) /\
  (is_response b = false -> exists b', ob = Some b' /\ answers_kind b b' = true /\
     ((db (storage p') = db (storage p)) \/
      exists req, b = PutRequest req /\
        db (storage p') = <[put_address req := put_content req]> (db (storage p)) /\
        (b' = PutResponse (PutSuccess (put_address req)) \/ op_fails e Join = true)) /\
     ((forall a, b' <> PutResponse (PutSuccess a)) -> quote_generator p' = quote_generator p) /\
     (forall r x, b' = PutResponse r -> acknowledged r = Some x -> is_Some (db (storage p') !! x))).
Proof.
  intros Hc. destruct b as [req|r|req|r|req|r|req|r]; cbn [handle_body is_response].
  2,4,6,8: intros [= <- <-]; repeat split; auto; discriminate.
  - destruct (handle_put e p req) as [r p1] eqn:E. intros [= <- <-].
    apply handle_put_cases in E as [(-> & Hack) | (Hl & Ha & pr & v & Hv & Hcase)].
    { serve. split; [auto|]. split; [auto|]. intros r0 x [= <-] Hx. destruct (Hack x Hx) as (-> & _ & Hs). exact Hs. }
    destruct Hcase as [(-> & Hna) | (Hok & sr & s & Hp & Hpv & Hps & Hcase)].
    { serve. split; [auto|]. split; [auto|]. intros r0 x [= <-] Hx. congruence. }
    apply put_cases in Hp as (Hc' & Hcfg & Hd & Hin); [|exact Hc]. rewrite Hps.
    serve. destruct Hcase as [(Hsr & ->) | (Hsr & Hna & Hq)]; (split; [|split]).
    + destruct Hd as [Hd | (Hd & _ & _)]; [auto|]. right. eauto.
    + intros Hx. destruct (Hx _ eq_refl).
    + intros r0 x [= <-] [= <-]. auto.
    + destruct Hd as [Hd | (Hd & _ & [Hx|Hx])]; [auto | congruence |]. right. eauto.
    + auto.
    + intros r0 x [= <-] Hx. congruence.
  - unfold handle_get. destruct (get (op_fails e) (storage p) (get_address req)) as [r s] eqn:E.
    apply get_same in E as [Hcfg Hd]. intros [= <- <-]. cbn. rewrite Hd.
    serve. split; [auto|]. split; [auto | discriminate].
  - intros [= <- <-]. serve. split; [auto|]. split; [auto | discriminate].
  - intros [= <- <-]. serve. split; [auto|]. split; [auto | discriminate].
Qed.

Lemma try_handle_state e p data r p' :
  try_handle_request e p data = (r, p') ->
  p' = p \/ exists m, decode_message data = Ok m /\ p' = (handle_body e p (body m)).2.
Proof.
  unfold try_handle_request. destruct (decode_message data) as [m|err]; [|intros [= <- <-]; auto].
  destruct (handle_body e p (body m)) as [ob p1] eqn:E.
  destruct ob; intros [= <- <-]; right; exists m; (split; [reflexivity|]); rewrite E; reflexivity.
Qed.

Lemma try_handle_db e p data r p' :
  content_addressed (db (storage p)) -> try_handle_request e p data = (r, p') ->
  content_addressed (db (storage p')) /\
  (forall x, is_Some (db (storage p) !! x) -> is_Some (db (storage p') !! x)).
Proof.
  intros Hc Ht. apply try_handle_state in Ht as [-> | (m & _ & ->)]; [auto|].
  destruct (handle_body e p (body m)) as [ob p1] eqn:E.
  apply handle_body_cases in E as (Hc' & _ & Hresp & Hreq); [|exact Hc]. cbn [snd].
  split; [exact Hc'|]. intros x Hx. destruct (is_response (body m)).
  - destruct (Hresp eq_refl) as [_ ->]. exact Hx.
  - destruct (Hreq eq_refl) as (b' & _ & _ & [Hd | (req & _ & Hd & _)] & _); rewrite Hd; [exact Hx|].
    apply lookup_insert_is_Some'. auto.
Qed.

Lemma handle_run_db p reqs :
  content_addressed (db (storage p)) ->
  content_addressed (db (storage (handle_run p reqs).2)) /\
  (forall x, is_Some (db (storage p) !! x) -> is_Some (db (storage (handle_run p reqs).2) !! x)).
Proof.
  revert p. induction reqs as [|[e data] reqs IH]; intros p Hc; [auto|].
  cbn [handle_run]. destruct (try_handle_request e p data) as [r p1] eqn:E.
  apply try_handle_db in E as [Hc1 Hx1]; [|exact Hc]. destruct (IH p1 Hc1) as [Hc2 Hx2].
  destruct (handle_run p1 reqs). cbn in *. auto.
Qed.

(** A put acknowledged by the [i]-th reply of a run is in the store at its end. *)
Lemma handle_run_acked `{!CodecLaws postcard ChunkMessage} p reqs i id r x bs :
  content_addressed (db (storage p)) -> (handle_run p reqs).1 !! i = Some (Ok (Some bs)) ->
  encode_message (mkMessage id (PutResponse r)) = Ok bs -> acknowledged r = Some x ->
  is_Some (db (storage (handle_run p reqs).2) !! x).
Proof.
  revert p i. induction reqs as [|[e data] reqs IH]; intros p i Hc Hi Henc Hack; [discriminate|].
  cbn [handle_run] in *. destruct (try_handle_request e p data) as [r1 p1] eqn:E.
  pose proof E as Ht. apply try_handle_db in E as [Hc1 _]; [|exact Hc].
  pose proof (handle_run_db p1 reqs Hc1) as [_ Hmono]. specialize (IH p1).
  destruct (handle_run p1 reqs) as [rs p2]. cbn [fst snd] in *.
  destruct i as [|i]; [|exact (IH i Hc1 Hi Henc Hack)].
  injection Hi as ->. apply Hmono. unfold try_handle_request in Ht.
  destruct (decode_message data) as [m|]; [|discriminate].
  destruct (handle_body e p (body m)) as [ob p3] eqn:E.
  apply handle_body_cases in E as (_ & _ & Hresp & Hreq); [|exact Hc].
  destruct ob as [b'|]; [|discriminate]. injection Ht as Hb <-.
  destruct (is_response (body m)) eqn:Er; [destruct (Hresp eq_refl); discriminate|].
  destruct (Hreq eq_refl) as (b0 & [= <-] & _ & _ & _ & Hin). apply (Hin r x); [|exact Hack].
  unfold encode_message in Hb, Henc.
  destruct (ser postcard (mkMessage (request_id m) b')) as [bs'|] eqn:Es; [|discriminate].
  destruct (ser postcard (mkMessage id (PutResponse r))) as [bs''|] eqn:Es'; [|discriminate].
  cbn in Hb, Henc. injection Hb as ->. injection Henc as ->.
  apply ser_de in Es. apply ser_de in Es'. congruence.
Qed.

(** *** Payment *)

(** The call of the verifier that a request may cause. *)
Definition payment_request (q : env * bytes) : option (world * XorName * option bytes) :=
  match decode_message q.2 with
  | Ok (mkMessage _ (PutRequest req)) =>
      Some (e_world q.1, put_address req, payment_proof req)
  | _ => None
  end.

Definition put_of (reqs : list (env * bytes)) (a : XorName) (c : bytes) : Prop :=
  exists q id proof, q ∈ reqs /\
    decode_message q.2 = Ok (mkMessage id (PutRequest (mkPutRequest a c proof))).

(** [base] is what the store held at the start. *)
Record node_inv (base : gmap XorName bytes) (local : bytes) (max : Z) (reqs : list (env * bytes)) (p : AntProtocol) : Prop := {
  ni_content : content_addressed (db (storage p));
  ni_max : max_chunks (config (storage p)) = max;
  ni_capacity : within_capacity max base -> within_capacity max (db (storage p));
  ni_verifier : verifier_inv local (omap payment_request reqs) (payment_verifier p);
  ni_chunks : forall a c, db (storage p) !! a = Some c ->
    base !! a = Some c \/
    (lenZ c <= MAX_CHUNK_BYTES /\ put_of reqs a c /\ paid_for local (omap payment_request reqs) a)
}.

Lemma verifier_inv_app local reqs more v :
  verifier_inv local reqs v -> verifier_inv local (reqs ++ more) v.
Proof.
  intros [Hl Hc Hp]. split; [exact Hl | |].
  - intros x Hx. apply paid_for_app. auto.
  - intros h info Hx. apply Exists_app. left. auto.
Qed.

Lemma node_inv_app base local max reqs more p : node_inv base local max reqs p -> node_inv base local max (reqs ++ more) p.
Proof.
  intros [Hc Hm Hw Hv Hch]. split; auto; rewrite omap_app.
  - apply verifier_inv_app. exact Hv.
  - intros a c Ha. destruct (Hch a c Ha) as [Hb | (Hl & (q & id & pf & Hq & Hd) & Hp)]; [auto|]. right.
    split; [exact Hl|]. split; [|apply paid_for_app; exact Hp]. exists q, id, pf.
    split; [apply elem_of_app; auto | exact Hd].
Qed.

Lemma handle_put_inv base local max reqs e data id p req r p' :
  decode_message data = Ok (mkMessage id (PutRequest req)) ->
  node_inv base local max reqs p -> handle_put e p req = (r, p') ->
  node_inv base local max (reqs ++ [(e, data)]) p'.
Proof.
  intros Hdec Hi Hp. pose proof (node_inv_app _ _ _ _ [(e, data)] _ Hi) as Hi'.
  apply handle_put_cases in Hp as [(-> & _) | (Hl & Ha & pr & v & Hv & Hcase)]; [exact Hi'|].
  destruct Hi' as [Hc Hm Hw _ Hch].
  pose proof (verify_payment_inv _ _ _ _ _ _ _ _ (ni_verifier _ _ _ _ _ Hi) Hv) as [Hvi Hpaid].
  assert (omap payment_request (reqs ++ [(e, data)]) =
          omap payment_request reqs ++ [(e_world e, put_address req, payment_proof req)]) as Hom.
  { rewrite omap_app. cbn. unfold payment_request at 2. cbn [snd fst]. rewrite Hdec. reflexivity. }
  rewrite <- Hom in Hvi, Hpaid.
  destruct Hcase as [(-> & _) | (Hok & sr & s & Hput & Hpv & Hps & _)].
  { split; auto. }
  pose proof (fun Hb => put_within max _ _ _ _ _ _ Hc Hput (eq_sym Hm) (Hw Hb)) as Hw'.
  apply put_cases in Hput as (Hc' & Hcfg & Hd & _); [|exact Hc].
  split; rewrite ?Hps, ?Hpv; [exact Hc' | congruence | exact Hw' | exact Hvi |].
  intros a c. destruct Hd as [-> | (-> & _ & _)]; [apply Hch|].
  intros Hx. apply lookup_insert_Some in Hx as [[<- <-] | [_ Hx]]; [|apply Hch; exact Hx].
  right. split; [exact Hl|]. split; [|exact (Hpaid Hok)].
  exists (e, data), id, (payment_proof req). split; [apply elem_of_app; right; left|].
  cbn [snd]. rewrite Hdec. destruct req. reflexivity.
Qed.

Lemma try_handle_inv base local max reqs e data p :
  node_inv base local max reqs p ->
  node_inv base local max (reqs ++ [(e, data)]) (try_handle_request e p data).2.
Proof.
  intros Hi. destruct (try_handle_request e p data) as [r p'] eqn:E. cbn [snd].
  apply try_handle_state in E as [-> | ([id b] & Hdec & ->)]; [apply node_inv_app; exact Hi|].
  cbn [body]. destruct b as [req|r0|req|r0|req|r0|req|r0]; cbn [handle_body snd];
    try (apply node_inv_app; exact Hi).
  - destruct (handle_put e p req) as [r1 p1] eqn:E. exact (handle_put_inv _ _ _ _ _ _ _ _ _ _ _ Hdec Hi E).
  - unfold handle_get. destruct (get (op_fails e) (storage p) (get_address req)) as [r1 s] eqn:E.
    apply get_same in E as [Hcfg Hd]. apply (node_inv_app _ _ _ _ [(e, data)]) in Hi.
    destruct Hi as [Hc Hm Hw Hv Hch]. split; cbn; rewrite ?Hd, ?Hcfg; assumption.
Qed.

Lemma handle_run_inv base local max past reqs p :
  node_inv base local max past p -> node_inv base local max (past ++ reqs) (handle_run p reqs).2.
Proof.
  revert past p. induction reqs as [|[e data] reqs IH]; intros past p Hi.
  - rewrite app_nil_r. exact Hi.
  - cbn [handle_run]. pose proof (try_handle_inv _ _ _ _ e data _ Hi) as Hi'.
    destruct (try_handle_request e p data) as [r p1]. specialize (IH _ _ Hi').
    rewrite <- app_assoc in IH. cbn [snd app] in IH. destruct (handle_run p1 reqs). exact IH.
Qed.

Definition fresh_node (config : LmdbStorageConfig) (vconfig : PaymentVerifierConfig)
    (g : QuoteGenerator) (file : option bytes) : AntProtocol :=
  mkProtocol (mkStorage ∅ config StorageStats_default) (verifier_new vconfig) g file.

Lemma started_node_inv base config vconfig g file : content_addressed base ->
  node_inv base (local_rewards_address vconfig) (max_chunks config) []
    (mkProtocol (mkStorage base config StorageStats_default) (verifier_new vconfig) g file).
Proof. intros Hb. split; cbn; auto. apply verifier_inv_new. Qed.

Lemma fresh_node_inv config vconfig g file :
  node_inv ∅ (local_rewards_address vconfig) (max_chunks config) [] (fresh_node config vconfig g file).
Proof. apply started_node_inv, map_Forall_empty. Qed.

End Handler.

(** ** Properties *)

(** C15: No chunk enters a node unpaid.  After any sequence of incoming messages
    to a node that starts empty, in whatever worlds and with whatever failures,
    every stored chunk has its content's hash as address, is at most
    [MAX_CHUNK_SIZE] bytes, was the content of one of the put requests, and its
    address was paid for: some put request for it up to then carried a proof that
    was valid.  The store never holds more than [max_chunks] chunks. *)
Theorem only_paid_chunks_stored
    `{Blake3, Evm, Dsa, PeerIds, !Lru XorName unit, !Lru bytes OnChainPaymentInfo}
    `{!Codec rmp_serde PaymentProof, !Codec rmp_serde MerklePaymentProof}
    `{!Codec rmp_serde PersistedMetrics, !Codec rmp_serde PaymentQuote}
    `{!Codec rmp_serde MerklePaymentCandidateNode, !Codec postcard ChunkMessage}
    `{!LruLaws XorName unit, !LruLaws bytes OnChainPaymentInfo}
    (config : LmdbStorageConfig) (vconfig : PaymentVerifierConfig) (g : QuoteGenerator)
    (file : option bytes) (reqs : list (env * bytes)) (a : XorName) (c : bytes) :
  let p := (handle_run (fresh_node config vconfig g file) reqs).2 in
  within_capacity (max_chunks config) (db (storage p)) /\
  (db (storage p) !! a = Some c ->
   compute_address c = a /\ lenZ c <= MAX_CHUNK_BYTES /\ put_of reqs a c /\
   paid_for (local_rewards_address vconfig) (omap payment_request reqs) a).
Proof.
  destruct (handle_run_inv _ _ _ [] reqs _ (fresh_node_inv config vconfig g file)) as [Hc _ Hw _ Hch].
  split; [apply Hw; intros Hpos; rewrite map_size_empty; lia|]. intros Ha. split; [exact (Hc a c Ha)|].
  by destruct (Hch a c Ha) as [?%lookup_empty_Some|].
Qed.

(** C16: Acknowledged chunks are durable and served.  When a reply of the node
    acknowledges a put of an address (as stored or as already there), then after
    any further messages a get request for it, whose read does not fail, is
    answered with a content that hashes to the address. *)
Theorem acknowledged_chunks_are_served
    `{Blake3, Evm, Dsa, PeerIds, !Lru XorName unit, !Lru bytes OnChainPaymentInfo}
    `{!Codec rmp_serde PaymentProof, !Codec rmp_serde MerklePaymentProof}
    `{!Codec rmp_serde PersistedMetrics, !Codec rmp_serde PaymentQuote}
    `{!Codec rmp_serde MerklePaymentCandidateNode, !Codec postcard ChunkMessage}
    `{!LruLaws XorName unit, !LruLaws bytes OnChainPaymentInfo, !CodecLaws postcard ChunkMessage}
    (p : AntProtocol) (reqs : list (env * bytes)) (i : nat) (id id' : Z) (r : ChunkPutResponse)
    (a : XorName) (bs data : bytes) (e : env)
    (Hc : content_addressed (db (storage p)))
    (Hi : (handle_run p reqs).1 !! i = Some (Ok (Some bs)))
    (Hreply : encode_message (mkMessage id (PutResponse r)) = Ok bs) (Hack : acknowledged r = Some a)
    (Hget : decode_message data = Ok (mkMessage id' (GetRequest (mkGetRequest a))))
    (Hfails : forall call, op_fails e call = false) :
  exists c, compute_address c = a /\
    (handle_body e (handle_run p reqs).2 (GetRequest (mkGetRequest a))).1 =
      Some (GetResponse (GetSuccess a c)) /\
    (try_handle_request e (handle_run p reqs).2 data).1 =
      map_err (fun _ => ProtocolFailure "Failed to encode response: {e}")
        (Some <$> encode_message (mkMessage id' (GetResponse (GetSuccess a c)))).
Proof.
  destruct (handle_run_acked p reqs i id r a bs Hc Hi Hreply Hack) as [c Ha].
  destruct (handle_run_db p reqs Hc) as [Hc' _]. pose proof (Hc' a c Ha) as Hhash. cbn in Hhash.
  set (p' := (handle_run p reqs).2) in *.
  assert (handle_get e p' (mkGetRequest a) =
          (GetSuccess a c, with_storage p' (add_retrieved (storage p') (lenZ c)))) as Hg.
  { unfold handle_get, get, get_read, call, get_end. rewrite !Hfails. cbn [get_address mbind result_bind].
    rewrite Ha, (bool_decide_true _ Hhash), andb_false_r. reflexivity. }
  exists c. split; [exact Hhash|]. unfold try_handle_request. rewrite Hget. cbn [body handle_body].
  rewrite Hg. split; [reflexivity|].
  cbn. destruct (encode_message _); reflexivity.
Qed.

(** Every message is answered in kind.  Bytes that do not decode are an
    error, a response message gets no reply (so two nodes cannot bounce messages
    for ever), and both leave the node as it was; a request gets a reply of its
    own kind under the same request id.  The chunks change only by a put request
    adding exactly its content, which the reply reports, unless the task's
    result was lost; and the quoting metrics change only when it reports so. *)
Theorem requests_are_answered_in_kind
    `{Blake3, Evm, Dsa, PeerIds, !Lru XorName unit, !Lru bytes OnChainPaymentInfo}
    `{!Codec rmp_serde PaymentProof, !Codec rmp_serde MerklePaymentProof}
    `{!Codec rmp_serde PersistedMetrics, !Codec rmp_serde PaymentQuote}
    `{!Codec rmp_serde MerklePaymentCandidateNode, !Codec postcard ChunkMessage}
    (e : env) (p p' : AntProtocol) (data : bytes) (r : result NodeError (option bytes))
    (Hc : content_addressed (db (storage p))) (Hr : try_handle_request e p data = (r, p')) :
  (is_ok (decode_message data) = false -> is_ok r = false /\ p' = p) /\
  (forall m, decode_message data = Ok m -> is_response (body m) = true -> r = Ok None /\ p' = p) /\
  (forall m, decode_message data = Ok m -> is_response (body m) = false ->
     exists b', answers_kind (body m) b' = true /\
       r = map_err (fun _ => ProtocolFailure "Failed to encode response: {e}")
             (Some <$> encode_message (mkMessage (request_id m) b')) /\
       (db (storage p') = db (storage p) \/
        exists req, body m = PutRequest req /\
          db (storage p') = <[put_address req := put_content req]> (db (storage p)) /\
          (b' = PutResponse (PutSuccess (put_address req)) \/ op_fails e Join = true)) /\
       ((forall a, b' <> PutResponse (PutSuccess a)) -> quote_generator p' = quote_generator p)).
Proof.
  unfold try_handle_request in Hr. destruct (decode_message data) as [m|err].
  2:{ injection Hr as <- <-. repeat split; discriminate. }
  destruct (handle_body e p (body m)) as [ob p1] eqn:E.
  apply handle_body_cases in E as (_ & _ & Hresp & Hreq); [|exact Hc].
  split; [discriminate|]. split; intros m0 [= <-] Hm.
  - destruct (Hresp Hm) as [-> ->]. injection Hr as <- <-. auto.
  - destruct (Hreq Hm) as (b' & -> & Hk & Hd & Hq & _). injection Hr as <- <-.
    exists b'. split; [exact Hk|]. split; [destruct (encode_message _); reflexivity|]. auto.
Qed.

(** ** A concrete node *)

#[local] Existing Instance short_dsa.
#[local] Existing Instance short_peer_ids.
#[local] Existing Instance sample_single_codec.

Definition sample_put : ChunkMessage :=
  mkMessage 7 (PutRequest (mkPutRequest sample_address [x01; x02; x03]
    (Some (PROOF_TAG_SINGLE_NODE :: sample_proof_body)))).
Definition sample_get : ChunkMessage := mkMessage 8 (GetRequest (mkGetRequest sample_address)).
Definition sample_stored : ChunkMessage := mkMessage 7 (PutResponse (PutSuccess sample_address)).
Definition sample_served : ChunkMessage :=
  mkMessage 8 (GetResponse (GetSuccess sample_address [x01; x02; x03])).

Definition sample_messages : list (ChunkMessage * bytes) :=
  [(sample_put, [x01]); (sample_get, [x02]); (sample_stored, [x03]); (sample_served, [x04])].

#[local] Instance sample_postcard : Codec postcard ChunkMessage := table_codec sample_messages.
#[local] Instance sample_postcard_laws : CodecLaws postcard ChunkMessage.
Proof. apply table_codec_laws. repeat (apply NoDup_cons; split; [set_solver|]). apply NoDup_nil_2. Qed.
#[local] Instance sample_quote_codec : Codec rmp_serde PaymentQuote := table_codec [].
#[local] Instance sample_candidate_codec : Codec rmp_serde MerklePaymentCandidateNode := table_codec [].

Definition sample_env : env :=
  mkEnv sample_world 0 no_faults no_faults Written Written.

Definition sample_node : AntProtocol :=
  fresh_node (mkStorageConfig "" true 10 0) (mkVerifierConfig 100 [x0b])
    (generator_new [x0b] (tracker_new 1000 0 0)) None.

Definition sample_requests : list (env * bytes) := [(sample_env, [x01]); (sample_env, [x02])].

Lemma sample_replies :
  (handle_run sample_node sample_requests).1 = [Ok (Some [x03]); Ok (Some [x04])] /\
  db (storage (handle_run sample_node sample_requests).2) !! sample_address = Some [x01; x02; x03].
Proof. vm_compute. split; reflexivity. Qed.

Lemma only_paid_chunks_stored_witness :
  db (storage (handle_run sample_node sample_requests).2) !! sample_address = Some [x01; x02; x03] /\
  paid_for [x0b] (omap payment_request sample_requests) sample_address.
Proof.
  destruct sample_replies as [_ Hdb]. split; [exact Hdb|].
  destruct (only_paid_chunks_stored (mkStorageConfig "" true 10 0) (mkVerifierConfig 100 [x0b])
    (generator_new [x0b] (tracker_new 1000 0 0)) None sample_requests sample_address [x01; x02; x03])
    as [_ Hp].
  destruct (Hp Hdb) as (_ & _ & _ & Hpaid). exact Hpaid.
Defined.

Lemma acknowledged_chunks_are_served_witness :
  exists c, compute_address c = sample_address /\
    (handle_body sample_env (handle_run sample_node sample_requests).2
       (GetRequest (mkGetRequest sample_address))).1 = Some (GetResponse (GetSuccess sample_address c)).
Proof.
  destruct (acknowledged_chunks_are_served sample_node sample_requests 0 7 8 (PutSuccess sample_address)
    sample_address [x03] [x02] sample_env (map_Forall_empty _)
    (f_equal (fun l => l !! 0%nat) (proj1 sample_replies)) eq_refl eq_refl eq_refl
    (fun _ => eq_refl)) as (c & Hc & Hg & _).
  exists c. split; [exact Hc | exact Hg].
Defined.

Lemma requests_are_answered_in_kind_witness :
  exists p', try_handle_request sample_env sample_node [x01] = (Ok (Some [x03]), p') /\
    exists b', answers_kind (body sample_put) b' = true.
Proof.
  destruct (try_handle_request sample_env sample_node [x01]) as [r p'] eqn:E.
  assert (r = Ok (Some [x03])) as -> by (apply (f_equal fst) in E; vm_compute in E; symmetry; exact E).
  destruct (requests_are_answered_in_kind _ _ _ _ _ (map_Forall_empty _) E) as (_ & _ & Hreq).
  destruct (Hreq sample_put eq_refl eq_refl) as (b' & Hk & _).
  exists p'. split; [reflexivity|]. exists b'. exact Hk.
Defined.
