(* ===== verification/NodeSetup.v ===== *)
(** * From a configuration to a running node

    [NodeBuilder] of [ant-node/src/node.rs]: the identity of a node is found or
    made, the options of the peer-to-peer library, the upgrade monitor and the
    bootstrap cache are set up, and the store, the payment verifier and the quote
    generator become the protocol handler.  A node is started again and again on
    the same host: [run_lives] is its history. *)

From Stdlib Require Import ZArith Lia Strings.Ascii Strings.String Strings.Byte.
From stdpp Require Import base decidable list strings gmap.
From S2P Require Import Prelude Hex Interfaces Cipher Reference Protocol Evm Metrics Storage PayCache.
From S2P Require Import Quote PayProof Verifier Handler Release Files Host Wallet NodeConfig.

Local Open Scope Z_scope.

Definition NODE_STORAGE_LIMIT_BYTES : Z := 5 * 1024 * 1024 * 1024.

(** [saorsa_core::identity::NodeIdentity]: a public and a secret key, the bytes of
    its file, and the peer id. *)
Abbreviation identity := (bytes * bytes)%type.

Class Identities := {
  save_identity : identity -> bytes;
  load_identity : bytes -> option identity;
  peer_id : identity -> bytes
}.
Class IdentityLaws `{Identities} : Prop := { load_save i : load_identity (save_identity i) = Some i }.

(** ** Directories *)

Fixpoint strip (base p : path) : option path :=
  match base, p with
  | [], _ => Some p
  | b :: base, q :: p => if decide (b = q) then strip base p else None
  | _ :: _, [] => None
  end.

Definition child (base p : path) : option string := r ← strip base p; head r.

(** The names in a directory; the order the system lists them in is not known to
    matter. *)
Definition child_names (base : path) (h : host) : list string :=
  remove_dups (omap (child base) ((map_to_list (host_files h)).*1 ++ elements (dirs h))).

(** [read_dir]: [None] when there is nothing at the path. *)
Definition read_dir (base : path) : nio (option (list string)) := fun h =>
  let '(f, h) := host_fault h in
  match f with
  | Works =>
      if is_dir base h then (Ok (Some (child_names base h)), h)
      else if bool_decide (is_Some (host_files h !! base)) then (Err io_error, h)
      else (Ok None, h)
  | _ => (Err io_error, h)
  end.

Definition looked {A} (f : host -> A) : nio A := fun h => (Ok (f h), h).

(** ** Identity *)

Section Identity.
Context `{Identities} {stats : Stats} (proj_dirs : option (path * path)) (cwd : path).
Context (generated : option identity).

Definition key_path (dir : path) : path := dir ++ [NODE_IDENTITY_FILENAME].

Definition load_from_file (p : path) : nio identity :=
  content ← on_disk (StartupError "Failed to load node identity: {e}") (fs_read p);
  st_lift (ok_or (load_identity content) (StartupError "Failed to load node identity: {e}")).

Definition save_to_file (i : identity) (p : path) : nio unit :=
  on_disk (StartupError "Failed to save node identity: {e}") (fs_write p (save_identity i)).

Definition generate : nio identity := st_lift (ok_or generated (StartupError "Failed to generate node identity: {e}")).

Definition load_or_generate_identity (dir : path) : nio identity := fun h =>
  if seen (key_path dir) h then load_from_file (key_path dir) h
  else
    (identity ← generate;
     _ ← create_dir_all io_error dir;
     _ ← save_to_file identity (key_path dir);
     mret identity) h.

Definition scan_entry (base_dir : path) (name : string) : nio (option path) :=
  _ ← on_disk io_error fs_other;
  looked (fun h => if seen_dir (base_dir ++ [name]) h && seen (key_path (base_dir ++ [name])) h
                   then Some (base_dir ++ [name]) else None).

Definition scan_identity_dirs (base_dir : path) : nio (list path) :=
  entries ← read_dir base_dir;
  match entries with
  | None => mret []
  | Some names => dirs ← st_map (scan_entry base_dir) names; mret (omap id dirs)
  end.

(** The identity, and the configuration with its root directory. *)
Definition resolve_identity (config : NodeConfig) : nio (identity * NodeConfig) :=
  if bool_decide (n_root_dir config <> default_root_dir proj_dirs cwd) then
    identity ← load_or_generate_identity (n_root_dir config);
    mret (identity, config)
  else
    let nodes_dir := default_nodes_dir proj_dirs cwd in
    identity_dirs ← scan_identity_dirs nodes_dir;
    match identity_dirs with
    | [] =>
        identity ← generate;
        let peer_dir := nodes_dir ++ [hex_encode (peer_id identity)] in
        _ ← create_dir_all io_error peer_dir;
        _ ← save_to_file identity (key_path peer_dir);
        mret (identity, with_root_dir config peer_dir)
    | [dir] =>
        identity ← load_from_file (key_path dir);
        mret (identity, with_root_dir config dir)
    | _ => st_lift (Err (ConfigError "Multiple node identities found at {}: [{}]. Specify --root-dir to select one."))
    end.

End Identity.

(** ** The parts of a node *)

Record IPDiversityConfig := mkDiversity { ip_limit : option Z; subnet_limit : option Z }.

(** [MultiAddr::quic] of a socket address. *)
Inductive MultiAddr := Quic (a : SocketAddr).

(** [saorsa_core::NodeConfig], as far as it is set here. *)
Record CoreNodeConfig := mkCore {
  core_port : Z;
  core_ipv6 : bool;
  core_local : bool;
  core_message_size : Z;
  core_bootstrap_peers : list MultiAddr;
  allow_loopback : bool;
  diversity_config : option IPDiversityConfig;
  core_close_group_cache_dir : option path;
  node_identity : option identity
}.

(** The builder of the library (port, IPv6 when it is set, local, message size), and
    its two sets of limits. *)
Class SaorsaCore := {
  core_build : Z -> option bool -> bool -> Z -> option CoreNodeConfig;
  diversity_default : IPDiversityConfig;
  diversity_permissive : IPDiversityConfig
}.

(** What a start of a node meets: a fresh identity, the failures of the
    peer-to-peer library and of the database, the clock, whether the upgrade cache
    has a directory, and the bootstrap manager. *)
Record process := mkProcess {
  fresh_identity : option identity;
  p2p_new : CoreNodeConfig -> result string bytes;
  lmdb_fails : db_call -> bool;
  debug_logs : bool;
  started_at : Z;
  has_upgrade_cache : bool;
  manager_works : path -> Z -> bool
}.

Section Build.
Context `{Blake3, Evm, Dsa, PeerIds, Semver}.
Context `{!Lru XorName unit, !Lru bytes OnChainPaymentInfo}.
Context `{identities : Identities, core : SaorsaCore} {stats : Stats}.
Context `{!Codec rmp_serde PaymentProof, !Codec rmp_serde MerklePaymentProof}.
Context `{!Codec rmp_serde PersistedMetrics, !Codec rmp_serde PaymentQuote}.
Context `{!Codec rmp_serde MerklePaymentCandidateNode, !Codec postcard ChunkMessage}.
Context (proj_dirs : option (path * path)) (cwd : path) (pkg_version : string) (zero : Release.Version).

Definition set_core (c : CoreNodeConfig) (peers : list MultiAddr) (loopback : bool) (diversity : IPDiversityConfig)
    (cache_dir : option path) : CoreNodeConfig :=
  mkCore (core_port c) (core_ipv6 c) (core_local c) (core_message_size c) peers loopback (Some diversity) cache_dir
    (node_identity c).

Definition with_identity (c : CoreNodeConfig) (i : identity) : CoreNodeConfig :=
  mkCore (core_port c) (core_ipv6 c) (core_local c) (core_message_size c) (core_bootstrap_peers c) (allow_loopback c)
    (diversity_config c) (core_close_group_cache_dir c) (Some i).

Definition build_core_config (config : NodeConfig) : result NodeError CoreNodeConfig :=
  let local := bool_decide (network_mode config = Development) in
  core ← ok_or (core_build (n_port config) (Some (negb (ipv4_only config))) local (max_message_size config))
           (ConfigError "Failed to create core config: {e}");
  Ok (set_core core (Quic <$> bootstrap config)
    (match network_mode config with Testnet => true | _ => allow_loopback core end)
    (match network_mode config with
     | Production => diversity_default
     | Testnet => mkDiversity (max_per_ip (testnet_config config)) (max_per_subnet (testnet_config config))
     | Development => diversity_permissive
     end)
    (Some (default (n_root_dir config) (close_group_cache_dir config)))).

(** [build_ant_protocol] over what the store's directory holds; also the network
    whose chain answers the verifier. *)
Definition build_ant_protocol (proc : process) (stored : gmap XorName bytes) (config : NodeConfig) (identity : identity)
    : result NodeError (AntProtocol * EvmNetwork) :=
  let storage_config := mkStorageConfig (display (n_root_dir config)) (st_verify_on_read (storage_config config))
    (st_max_chunks (storage_config config)) (Z.min (db_size_gb (storage_config config) * 1073741824) usize_max) in
  storage ← map_err (fun _ => StartupError "Failed to create LMDB storage: {e}")
              (storage_new (lmdb_fails proc) (debug_logs proc) stored storage_config);
  rewards_address ←
    match p_rewards_address (payment config) with
    | Some addr => parse_rewards_address addr
    | None => Err (StartupError "No rewards address configured. Set --rewards-address or payment.rewards_address in config.")
    end;
  let payment_verifier := verifier_new (mkVerifierConfig (p_cache_capacity (payment config)) rewards_address) in
  let max_records := NODE_STORAGE_LIMIT_BYTES / MAX_CHUNK_BYTES in
  let metrics_tracker := tracker_new max_records 0 (started_at proc) in
  quote_generator ← wire_ml_dsa_signer (generator_new rewards_address metrics_tracker) identity;
  Ok (mkProtocol storage payment_verifier quote_generator None, evm_network_of (p_evm_network (payment config))).

(** The directory and size of the manager. *)
Definition build_bootstrap_manager (proc : process) (config : NodeConfig) : nio (option (path * Z)) :=
  let cache_dir := default (n_root_dir config ++ ["bootstrap_cache"%string]) (bc_cache_dir (bootstrap_cache config)) in
  created ← st_try (create_dir_all io_error cache_dir);
  mret (if is_ok created && manager_works proc cache_dir (max_contacts (bootstrap_cache config))
        then Some (cache_dir, max_contacts (bootstrap_cache config)) else None).

Record RunningNode := mkRunning {
  node_config : NodeConfig;
  p2p_config : CoreNodeConfig;
  upgrade_monitor : option UpgradeMonitor;
  bootstrap_manager : option (path * Z);
  ant_protocol : option (AntProtocol * EvmNetwork);
  upgrade_exit_code : Z
}.

(** The check at the top of [build]. *)
Definition check_production (config : NodeConfig) : result NodeError unit :=
  if bool_decide (network_mode config = Production) then
    match p_rewards_address (payment config) with
    | None => Err (ConfigError "CRITICAL: Rewards address is not configured. Set payment.rewards_address in config to your Arbitrum wallet address.")
    | Some addr =>
        if String.eqb addr "0xYOUR_ARBITRUM_ADDRESS_HERE" || String.eqb addr "" then
          Err (ConfigError "CRITICAL: Rewards address is not configured. Set payment.rewards_address in config to your Arbitrum wallet address.")
        else Ok tt
    end
  else Ok tt.

(** [lmdb] is what the databases hold, by root directory. *)
Definition build (proc : process) (lmdb : gmap path (gmap XorName bytes)) (config : NodeConfig)
    : nio (identity * RunningNode) :=
  _ ← st_lift (check_production config);
  '(identity, config) ← resolve_identity proj_dirs cwd (fresh_identity proc) config;
  _ ← create_dir_all io_error (n_root_dir config);
  core_config ← st_lift (build_core_config config);
  let core_config := with_identity core_config identity in
  node_peer_id ← st_lift (map_err (fun _ => StartupError "Failed to create P2P node: {e}") (p2p_new proc core_config));
  let monitor := build_upgrade_monitor pkg_version zero (upgrade_config config) node_peer_id (has_upgrade_cache proc) in
  manager ← (if bc_enabled (bootstrap_cache config) then build_bootstrap_manager proc config else mret None);
  protocol ← (if st_enabled (storage_config config) then
                p ← st_lift (build_ant_protocol proc (default ∅ (lmdb !! n_root_dir config)) config identity); mret (Some p)
              else mret None);
  mret (identity, mkRunning config core_config (Some monitor) manager protocol (-1)).

(** One life of a node: what others do to the host before it starts, its options,
    and the messages it serves. *)
Record life := mkLife {
  l_before : host -> host;
  l_process : process;
  l_config : NodeConfig;
  l_requests : list (env * bytes)
}.

(** The host and the databases after it. *)
Definition run_life (st : host * gmap path (gmap XorName bytes)) (l : life) : host * gmap path (gmap XorName bytes) :=
  let '(h, lmdb) := st in
  match build (l_process l) lmdb (l_config l) (l_before l h) with
  | (Ok (_, node), h') =>
      match ant_protocol node with
      | Some (p, _) => (h', <[n_root_dir (node_config node) := db (storage (handle_run p (l_requests l)).2)]> lmdb)
      | None => (h', lmdb)
      end
  | (Err _, h') => (h', lmdb)
  end.

Definition run_lives (h : host) (ls : list life) : host * gmap path (gmap XorName bytes) := foldl run_life (h, ∅) ls.

End Build.

(** ** Identities are kept *)

(** Nothing but a file is called [node_identity.key]. *)
Definition plain_keys (h : host) : Prop := forall dir, is_dir (key_path dir) h = false.
(** No call fails. *)
Definition calm (h : host) : Prop := faults (disk_of h) = [].
Definition same_files (h h' : host) : Prop := host_files h' = host_files h /\ dirs h' = dirs h.

(** A directory of [base] with a key. *)
Definition keyed (base : path) (h : host) (q : path) : Prop :=
  exists d, q = base ++ [d] /\ is_Some (host_files h !! key_path q).

Lemma strip_spec base p r : strip base p = Some r <-> p = base ++ r.
Proof.
  revert p. induction base as [|b base IH]; intros p; cbn [strip app].
  - split; [by intros [= ->] | by intros ->].
  - destruct p as [|q p]; [done|]. destruct (decide (b = q)) as [->|Hbq].
    + rewrite IH. split; [by intros -> | by intros [= ->]].
    + split; [done | intros [= ? _]; congruence].
Qed.

Lemma elem_of_child_names base h x r :
  is_Some (host_files h !! (base ++ x :: r)) -> x ∈ child_names base h.
Proof.
  intros [f Hf]. unfold child_names. apply elem_of_remove_dups, list_elem_of_omap. exists (base ++ x :: r). split.
  - apply elem_of_app. left. apply list_elem_of_fmap. exists (base ++ x :: r, f). split; [done|]. by apply elem_of_map_to_list.
  - unfold child. rewrite (proj2 (strip_spec base _ (x :: r)) eq_refl). done.
Qed.

Lemma is_dir_above p q h : is_Some (host_files h !! q) -> under p q -> q <> p -> is_dir p h = true.
Proof.
  intros Hq Hu Hne. destruct (is_dir p h) eqn:E; [done|]. apply is_dir_false in E as [_ Hn]. by destruct Hne, (Hn q).
Qed.

Lemma is_dir_same p h h' : same_files h h' -> is_dir p h' = is_dir p h.
Proof. intros [Hf Hd]. unfold is_dir. by rewrite Hf, Hd. Qed.

Lemma plain_key_exists h dir : plain_keys h -> path_exists (key_path dir) h = bool_decide (is_Some (host_files h !! key_path dir)).
Proof. intros Hp. unfold path_exists. by rewrite Hp. Qed.

Definition entry_at (base : path) (h : host) (name : string) : option path :=
  if bool_decide (is_Some (host_files h !! key_path (base ++ [name]))) then Some (base ++ [name]) else None.

Lemma key_under (dir : path) : under dir (key_path dir) /\ key_path dir <> dir.
Proof.
  unfold key_path. split; [by exists [NODE_IDENTITY_FILENAME]|]. intros Heq. apply (f_equal length) in Heq.
  rewrite length_app in Heq. cbn in Heq. lia.
Qed.

Section Scan.
Context {stats : Stats}.

Lemma scan_entry_spec base name h : plain_keys h ->
  hwp (scan_entry base name) h (fun r h' => same_files h h' /\ (calm h -> calm h' /\ is_ok r = true) /\
    (stats_work -> forall o, r = Ok o -> o = entry_at base h name)).
Proof.
  intros Hp. unfold scan_entry. apply hwp_bind. unfold hwp at 1, on_disk, fs_other, io_call.
  destruct (next_fault (disk_of h)) as [f d] eqn:Ef. pose proof (next_fault_files _ _ _ Ef) as Hfiles.
  assert (forall m, m = files d -> same_files h (mkHost (mkDisk m (faults d)) (dirs h))) as Hsame.
  { intros m ->. split; [exact Hfiles | done]. }
  assert (calm h -> f = Works /\ d = disk_of h) as Hcalm.
  { unfold calm, next_fault in *. destruct (faults (disk_of h)); [|discriminate]. by injection Ef as <- <-. }
  destruct f; cbn [map_err].
  - unfold looked, hwp, set_files. split; [by apply Hsame|]. split.
    + intros Hc. split; [|done]. unfold calm. cbn. destruct (Hcalm Hc) as [_ ->]. exact Hc.
    + intros Hst o [= <-]. pose proof (Hsame _ eq_refl) as [Hm Hd]. unfold entry_at.
      rewrite seen_dir_works, seen_works by exact Hst. rewrite <- (plain_key_exists h (base ++ [name]) Hp). unfold path_exists.
      rewrite (is_dir_same (base ++ [name]) h), (is_dir_same (key_path (base ++ [name])) h) by by apply Hsame.
      rewrite Hm, Hp. cbn [orb].
      case_bool_decide as Hk; [|by rewrite andb_false_r].
      destruct (key_under (base ++ [name])) as [Hu Hne]. by rewrite (is_dir_above _ _ h Hk Hu Hne).
  - destruct d. split; [by apply (Hsame files)|]. split; [|done]. intros Hc. by destruct (Hcalm Hc).
  - destruct d. split; [by apply (Hsame files)|]. split; [|done]. intros Hc. by destruct (Hcalm Hc).
Qed.

Lemma same_files_trans h h' h'' : same_files h h' -> same_files h' h'' -> same_files h h''.
Proof. intros [H1 H2] [H3 H4]. split; congruence. Qed.

Lemma plain_keys_same h h' : same_files h h' -> plain_keys h -> plain_keys h'.
Proof. intros Hs Hp dir. by rewrite (is_dir_same _ _ _ Hs). Qed.

Lemma scan_entries_spec base (names : list string) h : plain_keys h ->
  hwp (st_map (scan_entry base) names) h (fun r h' => same_files h h' /\ (calm h -> calm h' /\ is_ok r = true) /\
    (stats_work -> forall l, r = Ok l -> l = entry_at base h <$> names)).
Proof.
  revert h. induction names as [|name names IH]; intros h Hp; cbn [st_map].
  { apply hwp_ret. split; [done|]. split; [done|]. by intros _ l [= <-]. }
  apply hwp_bind. eapply hwp_mono; [by apply scan_entry_spec|]. intros [o|e] h1 (Hs & Hc & Ho).
  2:{ split; [done|]. split; [|done]. intros Hh. by destruct (Hc Hh). }
  apply hwp_bind. eapply hwp_mono; [apply IH; by eapply plain_keys_same|].
  intros [l|e] h2 (Hs2 & Hc2 & Hl).
  2:{ split; [by eapply same_files_trans|]. split; [|done]. intros Hh. by destruct (Hc2 (proj1 (Hc Hh))). }
  apply hwp_ret. split; [by eapply same_files_trans|]. split; [intros Hh; split; [by apply Hc2, Hc | done]|].
  intros Hst l' [= <-]. rewrite (Ho Hst o eq_refl), (Hl Hst l eq_refl). cbn. f_equal. apply list_fmap_ext. intros i x _.
  unfold entry_at. by rewrite (proj1 Hs).
Qed.

Lemma entries_filter base h (names : list string) :
  omap id (entry_at base h <$> names) =
  (fun d => base ++ [d]) <$> filter (fun d => is_Some (host_files h !! key_path (base ++ [d]))) names.
Proof.
  induction names as [|d names IH]; [done|]. cbn [fmap list_fmap omap list_omap]. unfold entry_at at 1.
  case_bool_decide as Hk; [rewrite filter_cons_True by done | rewrite filter_cons_False by done]; cbn; [f_equal|]; exact IH.
Qed.

Lemma scan_spec base h : plain_keys h ->
  hwp (scan_identity_dirs base) h (fun r h' => same_files h h' /\
    (calm h -> (exists q, keyed base h q) -> calm h' /\ is_ok r = true) /\
    (stats_work -> forall l, r = Ok l -> NoDup l /\ forall q, q ∈ l <-> keyed base h q)).
Proof.
  intros Hp. unfold scan_identity_dirs. apply hwp_bind. unfold hwp at 1, read_dir, host_fault.
  destruct (next_fault (disk_of h)) as [f d] eqn:Ef. pose proof (next_fault_files _ _ _ Ef) as Hfiles.
  set (h1 := mkHost d (dirs h)). assert (same_files h h1) as Hs1 by (split; [exact Hfiles | done]).
  assert (calm h -> f = Works /\ calm h1) as Hcalm.
  { unfold calm, next_fault in *. destruct (faults (disk_of h)) eqn:E; [|discriminate]. injection Ef as <- <-. done. }
  destruct f; [|split; [done|]; split; [|done]; intros Hc; by destruct (Hcalm Hc)..].
  assert (forall q, keyed base h q -> exists d, q = base ++ [d] /\ d ∈ child_names base h1 /\ is_dir base h1 = true) as Hkeyed.
  { intros q (x & -> & Hk). exists x. split; [done|].
    assert (key_path (base ++ [x]) = base ++ x :: [NODE_IDENTITY_FILENAME]) as Hkp by (unfold key_path; by rewrite <- app_assoc).
    split.
    - apply (elem_of_child_names base h1 x [NODE_IDENTITY_FILENAME]). rewrite (proj1 Hs1), <- Hkp. exact Hk.
    - rewrite (is_dir_same _ _ _ Hs1). eapply is_dir_above; [exact Hk | rewrite Hkp; by eexists|].
      rewrite Hkp. intros Heq. apply (f_equal length) in Heq. rewrite length_app in Heq. cbn in Heq. lia. }
  destruct (is_dir base h1) eqn:Edir.
  - apply hwp_bind. eapply hwp_mono; [apply scan_entries_spec; by eapply plain_keys_same|].
    intros [l|e] h2 (Hs2 & Hc2 & Hl).
    2:{ split; [by eapply same_files_trans|]. split; [|done]. intros Hh _. by destruct (Hc2 (proj2 (Hcalm Hh))). }
    apply hwp_ret. split; [by eapply same_files_trans|]. split; [intros Hh _; split; [by apply Hc2, Hcalm | done]|].
    intros Hst l' [= <-]. rewrite (Hl Hst l eq_refl). split.
    + rewrite entries_filter. apply NoDup_fmap_2; [intros x y Hxy; by apply app_inj_2 in Hxy as [_ [= ->]]|].
      apply NoDup_filter. unfold child_names. apply NoDup_remove_dups.
    + intros q. rewrite entries_filter, list_elem_of_fmap. setoid_rewrite list_elem_of_filter. rewrite (proj1 Hs1). split.
      * intros (x & -> & Hk & _). by exists x.
      * intros Hk. destruct (Hkeyed q Hk) as (x & -> & Hin & _). exists x. split; [done|]. split; [|done].
        by destruct Hk as (y & [= ->]%app_inv_head & Hk).
  - assert (forall q, ~ keyed base h q) as Hnone.
    { intros q Hq. destruct (Hkeyed q Hq) as (x & _ & _ & Ht). congruence. }
    destruct (bool_decide _).
    + split; [done|]. split; [|done]. intros _ [q Hq]. by destruct (Hnone q).
    + split; [done|]. split; [intros _ [q Hq]; by destruct (Hnone q)|].
      intros _ l [= <-]. split; [constructor|]. intros q. split; [by intros ?%not_elem_of_nil|]. intros Hq. by destruct (Hnone q).
Qed.

End Scan.

Section Resolve.
Context `{identities : Identities, !IdentityLaws} {stats : Stats} (proj_dirs : option (path * path)) (cwd : path).
Abbreviation nodes_dir := (default_nodes_dir proj_dirs cwd).

Definition identity_at (h : host) (dir : path) (i : identity) : Prop :=
  exists f, host_files h !! key_path dir = Some f /\ load_identity (data f) = Some i.

Lemma load_key_spec dir i h : identity_at h dir i ->
  hwp (load_from_file (key_path dir)) h (fun r h' => same_files h h' /\ (forall j, r = Ok j -> j = i) /\ (calm h -> r = Ok i)).
Proof.
  intros (f & Hf & Hi). unfold load_from_file, hwp, mbind, stres_bind. destruct h as [[m fs] ds]. unfold on_disk, fs_read, io_call, host_files in *.
  cbn in *. destruct fs as [|[] fs]; cbn; rewrite ?Hf; cbn; rewrite ?Hi; cbn.
  all: split; [done|]; split; [by intros j [= ->] | done].
Qed.

Lemma load_from_file_files p h : hwp (load_from_file p) h (fun r h' => same_files h h' /\
  forall i, r = Ok i -> exists f, host_files h !! p = Some f /\ load_identity (data f) = Some i).
Proof.
  apply hwp_bind, hwp_read; [done|]. intros h' f Hd Hm Hf. apply hwp_lift. split; [by split|].
  intros i. destruct (load_identity (data f)) as [j|] eqn:Ej; [|done]. intros [= <-]. eauto.
Qed.

(** A fresh identity is written. *)
Lemma save_new_spec dir i h :
  hwp (_ ← create_dir_all io_error dir; _ ← save_to_file i (key_path dir); mret i) h (fun r h' =>
    only (eq (key_path dir)) (host_files h) (host_files h') /\ forall j, r = Ok j -> j = i /\ identity_at h' dir i).
Proof.
  apply hwp_bind, hwp_create_dir_all. intros h1 r Hm _ _ _ Hr.
  destruct r as [[]|e]; [|split; [by rewrite Hm | done]].
  apply hwp_bind. unfold save_to_file. apply hwp_write; intros h2 _ H2.
  - split; [|done]. by rewrite <- Hm.
  - apply hwp_ret. rewrite H2, Hm. split; [by apply only_put|]. intros j [= <-]. split; [done|].
    eexists. rewrite H2. unfold put_data. rewrite lookup_insert_eq. split; [done|]. apply load_save.
Qed.

Lemma only_new_keeps (p : path) (m m' : gmap path file) : m !! p = None -> only (eq p) m m' -> forall q f, m !! q = Some f -> m' !! q = Some f.
Proof. intros Hn Ho q f Hq. rewrite Ho; [done|]. by intros ->; congruence. Qed.

(** The directory that the configuration leads to. *)
Definition leads_to (config : NodeConfig) (h : host) (root : path) : Prop :=
  if bool_decide (n_root_dir config <> default_root_dir proj_dirs cwd) then root = n_root_dir config
  else forall q, keyed nodes_dir h q <-> q = root.

Definition is_key (q : path) : Prop := exists dir, q = key_path dir.

(** Key files are written only, and over a file that is there only when looking for
    it fails. *)
Definition keeps_files (h h' : host) : Prop :=
  only is_key (host_files h) (host_files h') /\
  (stats_work -> forall q f, host_files h !! q = Some f -> host_files h' !! q = Some f).

Lemma keeps_same h h' : same_files h h' -> keeps_files h h'.
Proof. intros [Hm _]. split; by rewrite Hm. Qed.

Lemma keeps_new dir h h' : (stats_work -> host_files h !! key_path dir = None) ->
  only (eq (key_path dir)) (host_files h) (host_files h') -> keeps_files h h'.
Proof.
  intros Hn Ho. split; [eapply only_mono; [|exact Ho]; intros q <-; by exists dir|].
  intros Hst. eapply only_new_keeps; [by apply Hn | exact Ho].
Qed.

Lemma load_or_generate_spec gen dir h : plain_keys h ->
  hwp (load_or_generate_identity gen dir) h (fun r h' => keeps_files h h' /\ forall i, r = Ok i -> identity_at h' dir i).
Proof.
  intros Hp. unfold load_or_generate_identity, hwp. destruct (seen (key_path dir) h) eqn:Ek.
  - pose proof (load_from_file_files (key_path dir) h) as Hl. unfold hwp in Hl.
    destruct (load_from_file (key_path dir) h) as [r h']. destruct Hl as [Hs Hl]. split; [by apply keeps_same|].
    intros i Hi. destruct (Hl i Hi) as (f & Hf & Hfi). exists f. by rewrite (proj1 Hs).
  - assert (stats_work -> host_files h !! key_path dir = None) as Hk.
    { intros Hst. rewrite seen_works, (plain_key_exists h dir Hp) in Ek by exact Hst.
      apply eq_None_not_Some. by apply bool_decide_eq_false in Ek. }
    apply (hwp_bind (generate gen) _ h (fun r h' => keeps_files h h' /\ forall i, r = Ok i -> identity_at h' dir i)).
    apply hwp_lift. destruct gen as [i|]; [|split; [by apply keeps_same | done]]. eapply hwp_mono; [by apply save_new_spec|].
    intros r h' [Ho Hr]. split; [by eapply keeps_new|]. intros j Hj. by destruct (Hr j Hj) as [-> ?].
Qed.

(** What [resolve_identity] finds or makes. *)
Lemma resolve_spec gen config h : plain_keys h ->
  hwp (resolve_identity proj_dirs cwd gen config) h (fun r h' => keeps_files h h' /\
    forall i c, r = Ok (i, c) -> c = with_root_dir config (n_root_dir c) /\ identity_at h' (n_root_dir c) i /\
      (stats_work -> leads_to config h' (n_root_dir c))).
Proof.
  intros Hp. unfold resolve_identity, leads_to. destruct (bool_decide _) eqn:Eroot.
  - apply hwp_bind. eapply hwp_mono; [by apply load_or_generate_spec|]. intros [i|e] h' [Hk Hi]; [|done].
    apply hwp_ret. split; [exact Hk|]. intros j c [= <- <-]. split; [by destruct config|]. auto.
  - apply hwp_bind. eapply hwp_mono; [by apply scan_spec|]. intros [l|e] h1 (Hs & _ & Hl).
    2:{ split; [by apply keeps_same | done]. }
    assert (stats_work -> forall q, q ∈ l <-> keyed nodes_dir h q) as Hk by (intros Hst; by apply Hl). clear Hl. destruct l as [|dir [|dir' l]].
    + apply hwp_bind, hwp_lift. destruct gen as [i|]; [|split; [by apply keeps_same | done]]. cbn [ok_or].
      set (peer_dir := nodes_dir ++ _).
      assert (stats_work -> host_files h !! key_path peer_dir = None) as Hn.
      { intros Hst. apply eq_None_not_Some. intros Hsome. apply (not_elem_of_nil peer_dir), Hk; [done | by eexists]. }
      pose proof (save_new_spec peer_dir i h1) as Hsave. apply hwp_bind.
      assert (forall h', only (eq (key_path peer_dir)) (host_files h1) (host_files h') -> keeps_files h h') as Hkeep.
      { intros h' Ho. rewrite (proj1 Hs) in Ho. by eapply keeps_new. }
      unfold hwp, mbind, stres_bind in Hsave |- *. destruct (create_dir_all io_error peer_dir h1) as [[[]|e] h2]; cbn in Hsave |- *.
      2:{ destruct Hsave as [Ho _]. split; [by apply Hkeep | done]. }
      destruct (save_to_file i (key_path peer_dir) h2) as [[[]|e] h3]; cbn in Hsave |- *; destruct Hsave as [Ho Hi].
      2:{ split; [by apply Hkeep | done]. }
      split; [by apply Hkeep|]. intros j c [= <- <-]. split; [done|].
      cbn [n_root_dir with_root_dir]. destruct (Hi i eq_refl) as [_ Hat]. split; [exact Hat|]. intros Hst q. split.
      * intros (d & -> & Hd). destruct (decide (nodes_dir ++ [d] = peer_dir)) as [|Hne]; [done|]. exfalso.
        apply (not_elem_of_nil (nodes_dir ++ [d])), Hk; [done|]. exists d. split; [done|]. rewrite <- (proj1 Hs), <- Ho; [done|].
        intros Heq. by apply app_inv_tail in Heq.
      * intros ->. eexists. split; [done|]. destruct Hat as (f & Hf & _). by eexists.
    + apply hwp_bind. eapply hwp_mono; [apply load_from_file_files|]. intros [i|e] h2 [Hs2 Hi].
      2:{ split; [by eapply keeps_same, same_files_trans | done]. }
      destruct Hs2 as [Hm Hd2]. apply hwp_ret. split; [apply keeps_same; by eapply same_files_trans|]. intros j c [= <- <-]. split; [done|].
      cbn [n_root_dir with_root_dir]. destruct (Hi i eq_refl) as (f & Hf & Hfi). split; [exists f; by rewrite Hm|].
      intros Hst q. unfold keyed. rewrite Hm, (proj1 Hs). fold (keyed nodes_dir h q). rewrite <- (Hk Hst).
      apply list_elem_of_singleton.
    + apply hwp_lift. split; [by apply keeps_same | done].
Qed.

Lemma singleton_list {A} (l : list A) a : NoDup l -> (forall x, x ∈ l <-> x = a) -> l = [a].
Proof.
  intros Hnd Ha. destruct l as [|x [|y l]].
  - destruct (not_elem_of_nil a). by apply Ha.
  - f_equal. apply Ha. by left.
  - exfalso. assert (x = a) as -> by (apply Ha; by left). assert (y = a) as -> by (apply Ha; right; by left).
    apply NoDup_cons in Hnd as [Hx _]. apply Hx. by left.
Qed.

(** Once there, the same is found again. *)
Lemma resolve_again (Hst : stats_work) gen config h root i : plain_keys h -> identity_at h root i -> leads_to config h root ->
  hwp (resolve_identity proj_dirs cwd gen config) h (fun r h' => same_files h h' /\
    (forall x, r = Ok x -> x = (i, with_root_dir config root)) /\ (calm h -> r = Ok (i, with_root_dir config root))).
Proof.
  intros Hp Hi Hl. unfold resolve_identity, leads_to in *. destruct (bool_decide _) eqn:Eroot.
  - subst root. assert (with_root_dir config (n_root_dir config) = config) as -> by by destruct config.
    apply hwp_bind. unfold load_or_generate_identity, hwp. rewrite seen_works, (plain_key_exists h _ Hp) by exact Hst.
    rewrite bool_decide_true by (destruct Hi as (f & -> & _); done).
    pose proof (load_key_spec (n_root_dir config) i h Hi) as Hload. unfold hwp in Hload.
    destruct (load_from_file (key_path (n_root_dir config)) h) as [[j|e] h']; destruct Hload as (Hs & Hj & Hc).
    + split; [done|]. rewrite (Hj j eq_refl). split; [by intros x [= <-] | done].
    + split; [done|]. split; [done|]. intros Hh. by specialize (Hc Hh).
  - apply hwp_bind. eapply hwp_mono; [by apply scan_spec|]. intros [l|e] h1 (Hs & Hc & Hl1).
    2:{ split; [done|]. split; [done|]. intros Hh. destruct (Hc Hh) as [_ ?]; [|done]. exists root. by apply Hl. }
    destruct (Hl1 Hst l eq_refl) as [Hnd Hk]. assert (l = [root]) as ->.
    { apply singleton_list; [done|]. intros q. by rewrite Hk. }
    apply hwp_bind. eapply hwp_mono; [apply (load_key_spec root i); by unfold identity_at; rewrite (proj1 Hs)|].
    intros [j|e] h2 (Hs2 & Hj & Hc2).
    + apply hwp_ret. split; [by eapply same_files_trans|]. rewrite (Hj j eq_refl). split; [by intros x [= <-] | done].
    + split; [by eapply same_files_trans|]. split; [done|]. intros Hh. destruct (Hc Hh) as [Hh1 _]; [exists root; by apply Hl|].
      by specialize (Hc2 Hh1).
Qed.

End Resolve.

(** C18: A node keeps its identity.  Resolving an identity writes nothing but key
    files, whatever fails, and when it succeeds the identity is in the key file of
    the root directory.  As long as looking whether a path exists does not fail, it
    changes no file that is there, whatever else fails; and a later start with the
    same options, on a host where the
    key files are as they were, finds the same identity and the same root
    directory or reports an error, whatever new identity it could have made; when
    no call fails it does find them. *)
Theorem identity_survives_restarts `{identities : Identities, !IdentityLaws, stats : Stats}
    (proj_dirs : option (path * path)) (cwd : path) (gen : option identity) (config : NodeConfig) (h : host)
    (Hplain : plain_keys h) :
  let '(r, h1) := resolve_identity proj_dirs cwd gen config h in
  only is_key (host_files h) (host_files h1) /\
  (stats_work -> forall q f, host_files h !! q = Some f -> host_files h1 !! q = Some f) /\
  forall i c, r = Ok (i, c) ->
    identity_at h1 (n_root_dir c) i /\
    forall gen' h2, stats_work -> plain_keys h2 -> (forall dir, host_files h2 !! key_path dir = host_files h1 !! key_path dir) ->
      let r2 := (resolve_identity proj_dirs cwd gen' config h2).1 in
      (forall x, r2 = Ok x -> x = (i, c)) /\ (calm h2 -> r2 = Ok (i, c)).
Proof.
  pose proof (resolve_spec proj_dirs cwd gen config h Hplain) as Hr. unfold hwp in Hr.
  destruct (resolve_identity proj_dirs cwd gen config h) as [r h1]. destruct Hr as [[Ho Hk] Hr]. split; [exact Ho|]. split; [exact Hk|].
  intros i c Hic. destruct (Hr i c Hic) as (Hc & Hi & Hl). split; [exact Hi|].
  intros gen' h2 Hst Hp2 Hkeys. specialize (Hl Hst). rewrite Hc.
  assert (hwp (resolve_identity proj_dirs cwd gen' config) h2 (fun r h' => same_files h2 h' /\
    (forall x, r = Ok x -> x = (i, with_root_dir config (n_root_dir c))) /\
    (calm h2 -> r = Ok (i, with_root_dir config (n_root_dir c))))) as H2.
  { apply resolve_again; [done | done | by unfold identity_at; rewrite Hkeys |].
    unfold leads_to in *. destruct (bool_decide _); [exact Hl|]. intros q. rewrite <- Hl. unfold keyed.
    by setoid_rewrite Hkeys. }
  unfold hwp in H2. destruct (resolve_identity proj_dirs cwd gen' config h2). cbn. tauto.
Qed.

(** ** What is built *)

Section Built.
Context `{Blake3, Evm, Dsa, PeerIds, Semver}.
Context `{!Lru XorName unit, !Lru bytes OnChainPaymentInfo}.
Context `{identities : Identities, !IdentityLaws, core : SaorsaCore} {stats : Stats}.
Context (proj_dirs : option (path * path)) (cwd : path) (pkg_version : string) (zero : Release.Version).

(** A handler starts over the store of its root directory, with the verifier and
    the generator at the same address. *)
Lemma bind_ok {E A B} (r : result E A) (f : A -> result E B) b : (r ≫= f) = Ok b -> exists a, r = Ok a /\ f a = Ok b.
Proof. destruct r as [a|e]; [|discriminate]. by exists a. Qed.

Lemma build_ant_protocol_spec proc stored config identity p net :
  build_ant_protocol proc stored config identity = Ok (p, net) ->
  exists a addr g sconfig,
    p_rewards_address (payment config) = Some a /\ parse_rewards_address a = Ok addr /\
    wire_ml_dsa_signer (generator_new addr (tracker_new 1280 0 (started_at proc))) identity = Ok g /\
    max_chunks sconfig = st_max_chunks (storage_config config) /\
    p = mkProtocol (mkStorage stored sconfig StorageStats_default)
          (verifier_new (mkVerifierConfig (p_cache_capacity (payment config)) addr)) g None.
Proof.
  unfold build_ant_protocol. set (sconfig := mkStorageConfig _ _ _ _).
  destruct (storage_new _ _ _ _) as [st|e] eqn:Est; [|discriminate]. cbn [map_err mbind result_bind].
  destruct (p_rewards_address (payment config)) as [a|]; [|discriminate].
  destruct (parse_rewards_address a) as [addr|] eqn:Ea; [|discriminate]. cbn [mbind result_bind].
  change (NODE_STORAGE_LIMIT_BYTES / MAX_CHUNK_BYTES) with 1280.
  destruct (wire_ml_dsa_signer _ identity) as [g|] eqn:Eg; [|discriminate]. intros [= <- <-].
  exists a, addr, g, sconfig. repeat split; try done. f_equal.
  unfold storage_new in Est. do 6 (apply bind_ok in Est as ([] & _ & Est)).
  apply bind_ok in Est as ([] & _ & [= <-]). done.
Qed.

Lemma resolve_config gen config h :
  hwp (resolve_identity proj_dirs cwd gen config) h (fun r _ => forall i c, r = Ok (i, c) -> c = with_root_dir config (n_root_dir c)).
Proof.
  unfold resolve_identity. assert (forall {A} (m : nio A) h', hwp m h' (fun _ _ => True)) as Hany.
  { intros A m h'. unfold hwp. by destruct (m h'). }
  destruct (bool_decide _); apply hwp_bind; (eapply hwp_mono; [apply Hany|]); intros [x|e] h1 _; try done.
  - apply hwp_ret. intros j c [= <- <-]. by destruct config.
  - destruct x as [|dir [|dir' l]]; [| |by apply hwp_lift].
    + apply hwp_bind, hwp_lift. destruct gen as [i|]; [|done].
      apply hwp_bind; (eapply hwp_mono; [apply Hany|]); intros [[]|e] h2 _; [|done].
      apply hwp_bind; (eapply hwp_mono; [apply Hany|]); intros [[]|e] h3 _; [|done].
      apply hwp_ret. by intros j c [= <- <-].
    + apply hwp_bind; (eapply hwp_mono; [apply Hany|]); intros [i|e] h2 _; [|done].
      apply hwp_ret. by intros j c [= <- <-].
Qed.

(** The steps of [build] that succeeded, with what holds of the identity and the
    configuration it goes on with. *)
Lemma build_steps proc lmdb config h (P : identity -> NodeConfig -> host -> Prop)
    (HP : forall i c h1 h2, P i c h1 -> host_files h2 = host_files h1 -> P i c h2) :
  hwp (resolve_identity proj_dirs cwd (fresh_identity proc) config) h (fun r h' => forall i c, r = Ok (i, c) -> P i c h') ->
  hwp (build proj_dirs cwd pkg_version zero proc lmdb config) h (fun r h' => forall i node, r = Ok (i, node) ->
    let c := node_config node in
    check_production config = Ok tt /\ P i c h' /\ node_identity (p2p_config node) = Some i /\
    (if st_enabled (storage_config c) then
       exists p, ant_protocol node = Some p /\ build_ant_protocol proc (default ∅ (lmdb !! n_root_dir c)) c i = Ok p
     else ant_protocol node = None)).
Proof.
  intros Hres. unfold build. apply hwp_bind, hwp_lift. destruct (check_production config) as [[]|e]; [|done].
  apply hwp_bind. eapply hwp_mono; [exact Hres|]. intros [[i c]|e] h1 Hr; [|done]. specialize (Hr i c eq_refl).
  apply hwp_bind, hwp_create_dir_all. intros h2 r2 Hm2 _ _ _ _. destruct r2 as [[]|e]; [|done].
  apply hwp_bind, hwp_lift. destruct (build_core_config c) as [cc|e]; [|done].
  apply hwp_bind, hwp_lift. destruct (p2p_new proc _) as [peer|e]; [|done]. cbn [map_err].
  apply hwp_bind. eapply (hwp_mono _ _ (fun r h' => host_files h' = host_files h2)).
  { destruct (bc_enabled _); [|done]. unfold build_bootstrap_manager. apply hwp_bind. unfold hwp, st_try.
    pose proof (hwp_create_dir_all io_error (default (n_root_dir c ++ ["bootstrap_cache"%string]) (bc_cache_dir (bootstrap_cache c))) h2
      (fun r h' => host_files h' = host_files h2)) as Hd. unfold hwp in Hd.
    destruct (create_dir_all _ _ h2) as [r h3]. cbn. apply Hd. auto. }
  intros r3 h3 Hm3. destruct r3 as [manager|e]; [|done].
  assert (P i c h3) as HP3 by (eapply HP; [exact Hr | congruence]).
  apply hwp_bind. destruct (st_enabled (storage_config c)) eqn:Est.
  - apply hwp_bind, hwp_lift. destruct (build_ant_protocol _ _ c i) as [p|e] eqn:Ep; [|done].
    apply hwp_ret, hwp_ret. intros j node [= <- <-]. cbn. rewrite Est. eauto 10.
  - apply hwp_ret, hwp_ret. intros j node [= <- <-]. cbn. by rewrite Est.
Qed.

(** *** Lives *)

Context `{!Codec rmp_serde PaymentProof, !Codec rmp_serde MerklePaymentProof}.
Context `{!Codec rmp_serde PersistedMetrics, !Codec rmp_serde PaymentQuote}.
Context `{!Codec rmp_serde MerklePaymentCandidateNode, !Codec postcard ChunkMessage}.
Context `{!LruLaws XorName unit, !LruLaws bytes OnChainPaymentInfo}.
Abbreviation lmdbs := (gmap path (gmap XorName bytes)).

(** Some life stored the chunk, for a payment to the address it had. *)
Definition paid_in (ls : list life) (a : XorName) (c : bytes) : Prop :=
  exists l text addr, l ∈ ls /\ p_rewards_address (payment (l_config l)) = Some text /\ parse_rewards_address text = Ok addr /\
    lenZ c <= MAX_CHUNK_BYTES /\ put_of (l_requests l) a c /\ paid_for addr (omap payment_request (l_requests l)) a.

(** What a life does to the databases: nothing, or its messages to one of them. *)
Lemma run_life_cases (h : host) (lmdb : lmdbs) (l : life) :
  let lmdb' := (run_life proj_dirs cwd pkg_version zero (h, lmdb) l).2 in
  lmdb' = lmdb \/
  exists root p text addr sconfig g cap,
    lmdb' = <[root := db (storage (handle_run p (l_requests l)).2)]> lmdb /\
    p_rewards_address (payment (l_config l)) = Some text /\ parse_rewards_address text = Ok addr /\
    p = mkProtocol (mkStorage (default ∅ (lmdb !! root)) sconfig StorageStats_default)
          (verifier_new (mkVerifierConfig cap addr)) g None.
Proof.
  cbn zeta. unfold run_life.
  pose proof (build_steps (l_process l) lmdb (l_config l) (l_before l h)
    (fun _ c _ => payment c = payment (l_config l))) as Hb. unfold hwp in Hb.
  destruct (build _ _ _ _ _ _ _ _) as [[[i node]|e] h1]; [|by left].
  destruct (ant_protocol node) as [[p net]|] eqn:Ep; [|by left]. right.
  assert (hwp (resolve_identity proj_dirs cwd (fresh_identity (l_process l)) (l_config l)) (l_before l h)
    (fun r _ => forall i c, r = Ok (i, c) -> payment c = payment (l_config l))) as Hres.
  { eapply hwp_mono; [apply resolve_config|]. intros r h2 Hr j c Hjc. by rewrite (Hr j c Hjc). }
  destruct (Hb (fun _ _ _ _ Hq _ => Hq) Hres i node eq_refl) as (_ & Hpay & _ & Hp).
  destruct (st_enabled _); [|congruence]. destruct Hp as (p' & Hp' & Hbuilt). rewrite Ep in Hp'. injection Hp' as <-.
  apply build_ant_protocol_spec in Hbuilt as (text & addr & g & sc & Ht & Ha & _ & _ & ->).
  rewrite Hpay in Ht. do 7 eexists. split; [reflexivity|]. eauto.
Qed.

(** Everything in the databases hashes to its address and was paid for. *)
Definition lmdb_ok (ls : list life) (lmdb : lmdbs) : Prop :=
  forall root m, lmdb !! root = Some m -> content_addressed m /\ forall a c, m !! a = Some c -> paid_in ls a c.

Lemma lmdb_ok_default (ls : list life) (lmdb : lmdbs) (root : path) : lmdb_ok ls lmdb ->
  content_addressed (default ∅ (lmdb !! root)) /\ forall a c, default ∅ (lmdb !! root) !! a = Some c -> paid_in ls a c.
Proof.
  intros Hok. destruct (lmdb !! root) as [m|] eqn:E; [by apply (Hok root)|]. split; [apply map_Forall_empty | done].
Qed.

Lemma run_life_ok (ls : list life) (st : host * lmdbs) (l : life) : lmdb_ok ls st.2 -> lmdb_ok (ls ++ [l]) (run_life proj_dirs cwd pkg_version zero st l).2.
Proof.
  destruct st as [h lmdb]. cbn [snd]. intros Hok. assert (lmdb_ok (ls ++ [l]) lmdb) as Hok'.
  { intros root m Hm. destruct (Hok root m Hm) as [Hc Hp]. split; [exact Hc|]. intros a c Ha.
    destruct (Hp a c Ha) as (l' & text & addr & Hl & Hrest). exists l', text, addr. split; [|exact Hrest].
    apply elem_of_app. by left. }
  destruct (run_life_cases h lmdb l) as [->|(root & p & text & addr & sc & g & cap & -> & Ht & Ha & ->)]; [exact Hok'|].
  destruct (lmdb_ok_default _ _ root Hok') as [Hc Hp].
  pose proof (handle_run_inv _ _ _ [] (l_requests l) _
    (started_node_inv _ sc (mkVerifierConfig cap addr) g None Hc)) as [Hc' _ _ _ Hch].
  intros root' m' [[<- <-]|[_ Hm']]%lookup_insert_Some; [|by apply (Hok' root')].
  split; [exact Hc'|]. intros a c Hac. destruct (Hch a c Hac) as [Hb|(Hl & Hput & Hpaid)]; [by apply Hp|].
  exists l, text, addr. split; [apply elem_of_app; right; by left|]. auto.
Qed.

Lemma run_lives_ok (h : host) (ls : list life) : lmdb_ok ls (run_lives proj_dirs cwd pkg_version zero h ls).2.
Proof.
  unfold run_lives. assert (forall st done, lmdb_ok done st.2 ->
    lmdb_ok (done ++ ls) (foldl (run_life proj_dirs cwd pkg_version zero) st ls).2) as Hall.
  { induction ls as [|l ls IH]; intros st done Hst; cbn; [by rewrite app_nil_r|].
    replace (done ++ l :: ls) with ((done ++ [l]) ++ ls) by (by rewrite <- app_assoc). by apply IH, run_life_ok. }
  by apply (Hall (h, ∅) []).
Qed.

Lemma run_life_keeps (ls : list life) (st : host * lmdbs) (l : life) (root : path) (m : gmap XorName bytes) (a : XorName) : lmdb_ok ls st.2 -> st.2 !! root = Some m -> is_Some (m !! a) ->
  exists m', (run_life proj_dirs cwd pkg_version zero st l).2 !! root = Some m' /\ is_Some (m' !! a).
Proof.
  destruct st as [h lmdb]. cbn [snd]. intros Hok Hm Ha.
  destruct (run_life_cases h lmdb l) as [->|(root' & p & text & addr & sc & g & cap & -> & _ & _ & ->)]; [by exists m|].
  destruct (decide (root' = root)) as [->|Hne]; [|exists m; by rewrite lookup_insert_ne].
  eexists. rewrite lookup_insert_eq. split; [done|]. apply handle_run_db; cbn [storage db]; rewrite Hm; [by apply (Hok root) | exact Ha].
Qed.

Lemma run_lives_keeps (ls : list life) (st : host * lmdbs) (more : list life) (root : path) (m : gmap XorName bytes) (a : XorName) : lmdb_ok ls st.2 -> st.2 !! root = Some m -> is_Some (m !! a) ->
  exists m', (foldl (run_life proj_dirs cwd pkg_version zero) st more).2 !! root = Some m' /\ is_Some (m' !! a).
Proof.
  revert ls st m. induction more as [|l more IH]; intros ls st m Hok Hm Ha; cbn; [by exists m|].
  destruct (run_life_keeps ls st l root m a Hok Hm Ha) as (m1 & Hm1 & Ha1).
  apply (IH (ls ++ [l]) _ m1); [by apply run_life_ok | done | done].
Qed.

End Built.

(** ** Properties *)

(** C17: A node is paid at the address it checks.  When a node with storage enabled is
    built, in any world, its options name a valid address; its verifier accepts
    payments to that address, every quote it makes asks for payment to it, is
    signed by the identity that the peer-to-peer library was given and passes
    verification, and that identity is in the key file of its root directory.
    Without a valid address no such node is built. *)
Theorem built_node_is_paid_where_it_checks
    `{Blake3, Evm, Dsa, PeerIds, Semver, !Lru XorName unit, !Lru bytes OnChainPaymentInfo}
    `{identities : Identities, !IdentityLaws, core : SaorsaCore, !DsaLaws, !EvmLaws, stats : Stats}
    (proj_dirs : option (path * path)) (cwd : path) (pkg_version : string) (zero : Release.Version)
    (proc : process) (lmdb : gmap path (gmap XorName bytes)) (config : NodeConfig) (h h' : host)
    (i : identity) (node : RunningNode)
    (Hplain : plain_keys h) (Hkeys : dsa_keypair i.1 i.2) (Hstore : st_enabled (storage_config config) = true)
    (Hb : build proj_dirs cwd pkg_version zero proc lmdb config h = (Ok (i, node), h')) :
  exists text addr p net,
    p_rewards_address (payment config) = Some text /\ parse_rewards_address text = Ok addr /\
    ant_protocol node = Some (p, net) /\
    local_rewards_address (v_config (payment_verifier p)) = addr /\
    identity_at h' (n_root_dir (node_config node)) i /\ node_identity (p2p_config node) = Some i /\
    forall now instant size ty content q, create_quote (quote_generator p) now instant content size ty = Ok q ->
      rewards_address q = addr /\ q_pub_key q = i.1 /\ q_content q = content /\ verify_quote_signature q = true.
Proof.
  assert (hwp (resolve_identity proj_dirs cwd (fresh_identity proc) config) h
    (fun r h' => forall i c, r = Ok (i, c) ->
       identity_at h' (n_root_dir c) i /\ payment c = payment config /\ storage_config c = storage_config config)) as Hres.
  { eapply hwp_mono; [by apply resolve_spec|]. intros r h1 [_ Hr] j c Hjc. destruct (Hr j c Hjc) as (-> & Hi & _). auto. }
  apply (build_steps proj_dirs cwd pkg_version zero proc lmdb config h
    (fun i c h => identity_at h (n_root_dir c) i /\ payment c = payment config /\ storage_config c = storage_config config)) in Hres.
  2:{ unfold identity_at. intros j c h1 h2 Hj ->. exact Hj. }
  unfold hwp in Hres. rewrite Hb in Hres. destruct (Hres i node eq_refl) as (_ & (Hi & Hpay & Hst) & Hid & Hp).
  rewrite Hst, Hstore in Hp. destruct Hp as ([p net] & Hp & Hbuilt).
  apply build_ant_protocol_spec in Hbuilt as (text & addr & g & sc & Ht & Ha & Hw & _ & ->).
  rewrite Hpay in Ht. exists text, addr. do 2 eexists.
  split; [exact Ht|]. split; [exact Ha|]. split; [exact Hp|]. split; [done|]. split; [exact Hi|]. split; [exact Hid|].
  intros now instant size ty content q Hq. destruct i as [pk sk].
  destruct (wired_quote _ _ _ _ _ _ _ _ _ _ Hkeys Hw Hq) as (Hv & Hc & Hk & Hr & _). auto.
Qed.

(** C19: Chunks outlive a node's process.  In the history of a node on a host, with
    whatever happens to the other files and whatever fails, every chunk in one of
    its databases hashes to its address, and one of the lives stored it for a
    payment to the address it was started with; and whatever lives follow, the
    address stays in the database of that root directory. *)
Theorem chunks_survive_restarts
    `{Blake3, Evm, Dsa, PeerIds, Semver, !Lru XorName unit, !Lru bytes OnChainPaymentInfo}
    `{!Codec rmp_serde PaymentProof, !Codec rmp_serde MerklePaymentProof}
    `{!Codec rmp_serde PersistedMetrics, !Codec rmp_serde PaymentQuote}
    `{!Codec rmp_serde MerklePaymentCandidateNode, !Codec postcard ChunkMessage}
    `{!LruLaws XorName unit, !LruLaws bytes OnChainPaymentInfo}
    `{identities : Identities, !IdentityLaws, core : SaorsaCore, stats : Stats}
    (proj_dirs : option (path * path)) (cwd : path) (pkg_version : string) (zero : Release.Version)
    (h : host) (ls more : list life) (root : path) (m : gmap XorName bytes) (a : XorName) (c : bytes)
    (Hm : (run_lives proj_dirs cwd pkg_version zero h ls).2 !! root = Some m) (Ha : m !! a = Some c) :
  compute_address c = a /\ paid_in ls a c /\
  exists m', (run_lives proj_dirs cwd pkg_version zero h (ls ++ more)).2 !! root = Some m' /\
    exists c', m' !! a = Some c' /\ compute_address c' = a.
Proof.
  pose proof (run_lives_ok proj_dirs cwd pkg_version zero h ls) as Hok.
  destruct (Hok root m Hm) as [Hc Hp]. split; [by apply (Hc a c)|]. split; [by apply Hp|].
  unfold run_lives at 1. rewrite foldl_app.
  destruct (run_lives_keeps proj_dirs cwd pkg_version zero ls _ more root m a Hok Hm) as (m' & Hm' & [c' Hc']); [by eexists|].
  exists m'. split; [exact Hm'|]. exists c'. split; [exact Hc'|].
  pose proof (run_lives_ok proj_dirs cwd pkg_version zero h (ls ++ more)) as Hok'. unfold run_lives in Hok'.
  rewrite foldl_app in Hok'. by apply (proj1 (Hok' root m' Hm') a c').
Qed.

(** A node without an address of its own cannot be started at all when it stores
    chunks, in whatever mode. *)
Lemma no_address_no_node
    `{Blake3, Evm, Dsa, PeerIds, Semver, !Lru XorName unit, !Lru bytes OnChainPaymentInfo}
    `{identities : Identities, !IdentityLaws, core : SaorsaCore, stats : Stats}
    proj_dirs cwd pkg_version zero proc lmdb config h :
  p_rewards_address (payment config) = None -> st_enabled (storage_config config) = true ->
  is_ok (build proj_dirs cwd pkg_version zero proc lmdb config h).1 = false.
Proof.
  intros Hn Hst. pose proof (build_steps proj_dirs cwd pkg_version zero proc lmdb config h
    (fun i c _ => c = with_root_dir config (n_root_dir c)) (fun _ _ _ _ Hc _ => Hc) (resolve_config _ _ _ _ _)) as Hb.
  unfold hwp in Hb. destruct (build _ _ _ _ _ _ _ _) as [[[i node]|e] h']; [|done]. exfalso.
  destruct (Hb i node eq_refl) as (_ & Hc & _ & Hp). rewrite Hc in Hp. cbn [storage_config with_root_dir] in Hp.
  rewrite Hst in Hp. destruct Hp as ([p net] & _ & Hbuilt).
  apply build_ant_protocol_spec in Hbuilt as (text & _ & _ & _ & Ht & _). cbn in Ht. congruence.
Qed.

(** ** A node and its restart *)

Fixpoint load_pair (b : bytes) : option identity :=
  match b with
  | x00 :: sk => Some ([], sk)
  | x01 :: c :: rest => '(pk, sk) ← load_pair rest; Some (c :: pk, sk)
  | _ => None
  end.

#[local] Instance sample_identities : Identities := {|
  save_identity i := foldr (fun c b => x01 :: c :: b) (x00 :: i.2) i.1;
  load_identity := load_pair;
  peer_id := fst
|}.

#[local] Instance sample_identity_laws : IdentityLaws.
Proof.
  split. intros [pk sk]. change (load_pair (foldr (fun c b => x01 :: c :: b) (x00 :: sk) pk) = Some (pk, sk)).
  induction pk as [|c pk IH]; cbn; [done|]. by rewrite IH.
Qed.

#[local] Instance sample_core : SaorsaCore := {|
  core_build port ipv6 local size := Some (mkCore port (default true ipv6) local size [] false None None None);
  diversity_default := mkDiversity (Some 2) (Some 5);
  diversity_permissive := mkDiversity (Some usize_max) (Some usize_max)
|}.

#[local] Existing Instances number_semver sample_sockets sample_texts_toml sure_stats.

Definition no_dirs : option (path * path) := None.
Definition tmp : path := ["tmp"%string].
Definition default_config : NodeConfig := NodeConfig_default no_dirs tmp.
Definition node_b : identity := ([x0b], [x0b]).

Definition first_boot : host := (resolve_identity no_dirs tmp (Some node_b) default_config empty_host).2.
Definition later_host : host := set_host first_boot (put_data (host_files first_boot) ["tmp"; "log"]%string [x07]) (dirs first_boot).

Lemma dirs_plain (h : host) :
  forallb (fun q => negb (bool_decide (last q = Some NODE_IDENTITY_FILENAME))) (elements (dirs h)) = true ->
  forallb (fun q => negb (existsb (String.eqb NODE_IDENTITY_FILENAME) (removelast q))) (map_to_list (host_files h)).*1 = true ->
  plain_keys h.
Proof.
  rewrite !forallb_forall. intros Hd Hf dir. apply is_dir_false. split.
  - intros Hin. apply elem_of_elements, list_elem_of_In in Hin. specialize (Hd _ Hin).
    unfold key_path in Hd. by rewrite last_snoc, bool_decide_true in Hd.
  - intros q [f Hq] [k ->]. destruct k as [|x k]; [by rewrite app_nil_r|]. exfalso.
    assert (key_path dir ++ x :: k ∈ (map_to_list (host_files h)).*1) as Hin.
    { apply list_elem_of_fmap. exists (key_path dir ++ x :: k, f). split; [done|]. by apply elem_of_map_to_list. }
    apply list_elem_of_In in Hin. specialize (Hf _ Hin). apply negb_true_iff in Hf.
    rewrite removelast_app in Hf by done. unfold key_path in Hf. rewrite <- app_assoc, existsb_app in Hf.
    apply orb_false_iff in Hf as [_ Hf]. discriminate Hf.
Qed.

Lemma identity_survives_restarts_witness :
  (resolve_identity no_dirs tmp (Some node_b) default_config empty_host).1 =
    Ok (node_b, with_root_dir default_config ["tmp"; ".ant"; "nodes"; "0b"]%string) /\
  (resolve_identity no_dirs tmp (Some ([x0c], [x0c])) default_config later_host).1 =
    Ok (node_b, with_root_dir default_config ["tmp"; ".ant"; "nodes"; "0b"]%string).
Proof.
  pose proof (identity_survives_restarts no_dirs tmp (Some node_b) default_config empty_host
    (dirs_plain empty_host eq_refl eq_refl)) as Ht.
  assert ((resolve_identity no_dirs tmp (Some node_b) default_config empty_host).1 =
    Ok (node_b, with_root_dir default_config ["tmp"; ".ant"; "nodes"; "0b"]%string)) as Hr by (vm_compute; reflexivity).
  split; [exact Hr|].
  assert (first_boot = (resolve_identity no_dirs tmp (Some node_b) default_config empty_host).2) as Hb by reflexivity.
  destruct (resolve_identity no_dirs tmp (Some node_b) default_config empty_host) as [r h1]. cbn in Hr, Hb. subst h1.
  destruct Ht as (_ & _ & Ht). destruct (Ht _ _ Hr) as [_ Hagain].
  apply (Hagain (Some ([x0c], [x0c])) later_host).
  - apply sure_stats_work.
  - apply dirs_plain; vm_compute; reflexivity.
  - intros dir. unfold later_host, host_files. cbn [disk_of set_host files set_files]. apply put_data_ne.
    intros Heq. apply (f_equal last) in Heq. unfold key_path in Heq. rewrite last_snoc in Heq. discriminate.
  - vm_compute. reflexivity.
Defined.

(** When the key file of a node cannot be looked at, a new identity is written over
    the one that is there. *)
Lemma unseen_key_is_replaced :
  let other : identity := ([x0c], [x0c]) in
  let h1 := (load_or_generate_identity (Some node_b) tmp empty_host).2 in
  let '(r, h2) := load_or_generate_identity (stats := fun _ _ => false) (Some other) tmp h1 in
  identity_at h1 tmp node_b /\ r = Ok other /\ identity_at h2 tmp other.
Proof.
  unfold identity_at. vm_compute. split; [|split; [done|]]; (eexists; split; [reflexivity | reflexivity]).
Qed.

(** A node that is started with a file that names its address is told to put the
    address in that file. *)
Lemma file_address_does_not_start_a_node :
  exists c source h,
    into_config sample_dirs tmp (fun _ => None) sample_exe cli_with_file config_host = (Ok (c, source), h) /\
    p_rewards_address (payment sample_config) = Some sample_address_text /\
    check_production c =
      Err (ConfigError "CRITICAL: Rewards address is not configured. Set payment.rewards_address in config to your Arbitrum wallet address.").
Proof. do 3 eexists. split; [vm_compute; reflexivity|]. split; reflexivity. Qed.

Definition sample_process (i : identity) : process :=
  mkProcess (Some i) (fun _ => Ok [x07]) (fun _ => false) true 0 true (fun _ _ => true).

Definition big_identity : identity := (sample_key x11, sample_key x11).
Definition version_1 : @Release.Version number_semver := 1.
Definition built_sample : result NodeError (identity * RunningNode) * host :=
  build no_dirs tmp "1.0.0" version_1 (sample_process big_identity) ∅ sample_config empty_host.

Lemma sample_is_built : fst <$> built_sample.1 = Ok big_identity.
Proof. vm_compute. reflexivity. Qed.

Lemma built_node_is_paid_where_it_checks_witness :
  exists i node h' addr p net, built_sample = (Ok (i, node), h') /\
    parse_rewards_address sample_address_text = Ok addr /\ ant_protocol node = Some (p, net) /\
    local_rewards_address (v_config (payment_verifier p)) = addr.
Proof.
  pose proof sample_is_built as Hs. destruct built_sample as [[[i node]|e] h'] eqn:Eb; [|discriminate Hs].
  injection Hs as Hi. exists i, node, h'.
  destruct (built_node_is_paid_where_it_checks no_dirs tmp "1.0.0" version_1 (sample_process big_identity) ∅ sample_config
    empty_host h' i node) as (text & addr & p & net & Ht & Ha & Hp & Hl & _).
  - apply dirs_plain; reflexivity.
  - rewrite Hi. by split.
  - reflexivity.
  - exact Eb.
  - injection Ht as <-. by exists addr, p, net.
Defined.

(** Two lives: in the first a chunk is paid for and stored, the second serves it. *)
#[local] Existing Instance short_dsa.
#[local] Existing Instance short_peer_ids.

Definition address_b : bytes := replicate 20 x0b.
Definition quote_to (b : byte) : bytes * PaymentQuote :=
  let q := mkQuote sample_address 7000000000 (get_metrics (tracker_new 1280 0 0) 0 3 0) [b] (replicate 20 b) [] in
  (toy_hash [b], mkQuote sample_address 7000000000 (quoting_metrics q) [b] (replicate 20 b)
                   (default [] (dsa_sign [b] (quote_bytes_for_sig q)))).
Definition payment_to_b : PaymentProof := mkPaymentProof (mkProofOfPayment (quote_to <$> [x0a; x0b; x0c; x0d; x0e])) [].

#[local] Instance life_single_codec : Codec rmp_serde PaymentProof := table_codec [(payment_to_b, replicate 40 x55)].

Definition paid_world : world :=
  mkWorld 9000000000 false
    (fun digest => Ok ((fun d => if bool_decide (d.2 = replicate 20 x0c) then mkPaid 90 true else mkPaid 0 false) <$> digest))
    (fun _ => Err "no such pool"%string).
Definition paid_env : env := mkEnv paid_world 0 no_faults no_faults Written Written.
Definition paid_put : ChunkMessage :=
  mkMessage 7 (PutRequest (mkPutRequest sample_address [x01; x02; x03] (Some (PROOF_TAG_SINGLE_NODE :: replicate 40 x55)))).

#[local] Instance life_postcard : Codec postcard ChunkMessage :=
  table_codec [(paid_put, [x01]); (sample_get, [x02]); (sample_stored, [x03]); (sample_served, [x04])].
#[local] Instance life_quote_codec : Codec rmp_serde PaymentQuote := table_codec [].
#[local] Instance life_candidate_codec : Codec rmp_serde MerklePaymentCandidateNode := table_codec [].

Definition config_b : NodeConfig :=
  mkNodeConfig ["srv"; "ant"]%string 12000 false [] Development TestnetConfig_default UpgradeConfig_default
    (mkPayment 100 (Some ("0x" +:+ hex_encode address_b)) ArbitrumSepolia 9100)
    BootstrapCacheConfig_default StorageConfig_default None default_max_message_size "info".

Definition life_of (reqs : list (env * bytes)) : life := mkLife id (sample_process node_b) config_b reqs.

Definition first_life : list life := [life_of [(paid_env, [x01])]].
Definition lives_run (ls : list life) := run_lives no_dirs tmp "1.0.0" version_1 empty_host ls.

Lemma first_life_stores :
  (m ← (lives_run first_life).2 !! ["srv"; "ant"]%string; m !! sample_address) = Some [x01; x02; x03].
Proof. vm_compute. reflexivity. Qed.

Lemma chunks_survive_restarts_witness :
  paid_in first_life sample_address [x01; x02; x03] /\
  exists m', (lives_run (first_life ++ [life_of [(paid_env, [x02])]])).2 !! ["srv"; "ant"]%string = Some m' /\
    exists c', m' !! sample_address = Some c' /\ compute_address c' = sample_address.
Proof.
  pose proof first_life_stores as Hs. apply bind_Some in Hs as (m & Hm & Ha).
  destruct (chunks_survive_restarts no_dirs tmp "1.0.0" version_1 empty_host first_life [life_of [(paid_env, [x02])]]
    ["srv"; "ant"]%string m sample_address [x01; x02; x03] Hm Ha) as (_ & Hp & Hmore).
  split; [exact Hp | exact Hmore].
Defined.
