(* ===== verification/Devnet.v ===== *)
(** * A local network of nodes

    [ant-node/src/devnet.rs] and the start of [ant-node/src/bin/ant-devnet/main.rs]:
    nodes on consecutive ports of one machine, each with a fresh identity and the
    protocol handler of a real node.  The peer-to-peer library, the clock and the
    random port are arguments; any call of the file system may fail.  The tasks that
    route messages and watch the nodes leave the devnet's state alone. *)

From Stdlib Require Import ZArith Lia Strings.Ascii Strings.String Strings.Byte.
From stdpp Require Import base decidable list strings pretty gmap.
From S2P Require Import Prelude Hex Interfaces Cipher Reference Protocol Evm Metrics Storage PayCache.
From S2P Require Import Quote PayProof Verifier Handler Files Host Wallet NodeConfig NodeSetup.

Local Open Scope Z_scope.

(** ** Configuration; durations in milliseconds *)

Definition DEVNET_PORT_RANGE_MIN : Z := 20000.
Definition DEVNET_PORT_RANGE_MAX : Z := 60000.
Definition DEFAULT_SPAWN_DELAY_MS : Z := 200.
Definition DEFAULT_STABILIZATION_TIMEOUT_SECS : Z := 120.
Definition DEFAULT_NODE_STARTUP_TIMEOUT_SECS : Z := 30.
Definition MINIMAL_STABILIZATION_TIMEOUT_SECS : Z := 30.
Definition SMALL_STABILIZATION_TIMEOUT_SECS : Z := 60.
Definition NODE_READY_POLL_INTERVAL_MS : Z := 100.
Definition STABILIZATION_POLL_INTERVAL_SECS : Z := 1.
Definition STABILIZATION_MIN_CONNECTIONS_CAP : Z := 3.
Definition DEVNET_PAYMENT_CACHE_CAPACITY : Z := 1000.
Definition DEVNET_REWARDS_ADDRESS : bytes := replicate 20 x01.
Definition DEVNET_MAX_RECORDS : Z := 100000.
Definition DEVNET_INITIAL_RECORDS : Z := 1000.
Definition DEFAULT_NODE_COUNT : Z := 25.
Definition DEFAULT_BOOTSTRAP_COUNT : Z := 3.
Definition MINIMAL_NODE_COUNT : Z := 5.
Definition MINIMAL_BOOTSTRAP_COUNT : Z := 2.
Definition SMALL_NODE_COUNT : Z := 10.

Inductive DevnetError :=
| DConfig (msg : string) | DStartup (msg : string) | DStabilization (msg : string) | DIo (msg : string) | DCore (msg : string).

Definition dio_error : DevnetError := DIo "I/O error".

Record DevnetConfig := mkDevnetConfig {
  node_count : Z;
  base_port : Z;
  bootstrap_count : Z;
  devnet_dir : path;
  spawn_delay : Z;
  stabilization_timeout : Z;
  node_startup_timeout : Z;
  enable_node_logging : bool;
  cleanup_data_dir : bool;
  d_evm_network : option EvmNetwork
}.

(** [gen_range(lo..hi)], [random] reduced to the range; it panics when the range is
    empty. *)
Definition gen_range (lo hi random : Z) : option Z := if lo <? hi then Some (lo + random mod (hi - lo)) else None.

Definition with_base_port (c : DevnetConfig) (port : Z) : DevnetConfig :=
  mkDevnetConfig (node_count c) port (bootstrap_count c) (devnet_dir c) (spawn_delay c) (stabilization_timeout c)
    (node_startup_timeout c) (enable_node_logging c) (cleanup_data_dir c) (d_evm_network c).

Definition with_counts (c : DevnetConfig) (count bootstrap timeout : Z) : DevnetConfig :=
  mkDevnetConfig count (base_port c) bootstrap (devnet_dir c) (spawn_delay c) timeout
    (node_startup_timeout c) (enable_node_logging c) (cleanup_data_dir c) (d_evm_network c).

Section Defaults.
Context (proj_dirs : option (path * path)) (cwd : path) (random : Z).

(** The range of the default is not empty. *)
Definition DevnetConfig_default : DevnetConfig :=
  let max_base_port := sat_sub DEVNET_PORT_RANGE_MAX DEFAULT_NODE_COUNT in
  let port := default 0 (gen_range DEVNET_PORT_RANGE_MIN max_base_port random) in
  mkDevnetConfig DEFAULT_NODE_COUNT port DEFAULT_BOOTSTRAP_COUNT (default_root_dir proj_dirs cwd) DEFAULT_SPAWN_DELAY_MS
    (DEFAULT_STABILIZATION_TIMEOUT_SECS * 1000) (DEFAULT_NODE_STARTUP_TIMEOUT_SECS * 1000) false true None.

Definition minimal : DevnetConfig :=
  with_counts DevnetConfig_default MINIMAL_NODE_COUNT MINIMAL_BOOTSTRAP_COUNT (MINIMAL_STABILIZATION_TIMEOUT_SECS * 1000).
Definition small : DevnetConfig :=
  with_counts DevnetConfig_default SMALL_NODE_COUNT MINIMAL_BOOTSTRAP_COUNT (SMALL_STABILIZATION_TIMEOUT_SECS * 1000).

(** The options of [ant-devnet]. *)
Record DevnetCli := mkDevnetCli {
  dc_preset : option string;
  dc_nodes : option Z;
  dc_bootstrap_count : option Z;
  dc_base_port : option Z;
  dc_data_dir : option path;
  dc_no_cleanup : bool;
  dc_spawn_delay_ms : option Z;
  dc_stabilization_timeout_secs : option Z
}.

Definition devnet_config (cli : DevnetCli) : DevnetConfig :=
  let config :=
    match dc_preset cli with
    | Some preset => if String.eqb preset "minimal" then minimal else if String.eqb preset "small" then small else DevnetConfig_default
    | None => DevnetConfig_default
    end in
  mkDevnetConfig (default (node_count config) (dc_nodes cli)) (default (base_port config) (dc_base_port cli))
    (default (bootstrap_count config) (dc_bootstrap_count cli)) (default (devnet_dir config) (dc_data_dir cli))
    (default (spawn_delay config) (dc_spawn_delay_ms cli))
    (default (stabilization_timeout config) ((fun s => s * 1000) <$> dc_stabilization_timeout_secs cli))
    (node_startup_timeout config) (enable_node_logging config) (negb (dc_no_cleanup cli)) (d_evm_network config).

End Defaults.

(** ** State *)

Inductive NetworkState := Uninitialized | BootstrappingPhase | NodeSpawningPhase | Stabilizing | Ready | DShuttingDown | DStopped.
#[export] Instance NetworkState_eq_dec : EqDecision NetworkState.
Proof. solve_decision. Defined.

Inductive NodeState := Pending | Starting | Running | Connected | Stopped | Failed (msg : string).
#[export] Instance NodeState_eq_dec : EqDecision NodeState.
Proof. solve_decision. Defined.

Definition local_addr (port : Z) : MultiAddr := Quic (V4 [127; 0; 0; 1] port).

Section Devnet.
Context `{Blake3, Evm, Dsa, PeerIds}.
Context `{!Lru XorName unit, !Lru bytes OnChainPaymentInfo}.
Context `{identities : Identities, core : SaorsaCore}.

(** The peer-to-peer node is known by what it was told. *)
Record DevnetNode := mkNode {
  d_index : Z;
  d_label : string;
  d_peer_id : bytes;
  d_port : Z;
  d_data_dir : path;
  d_p2p_node : option CoreNodeConfig;
  d_protocol : option (AntProtocol * EvmNetwork);
  d_identity : option identity;
  is_bootstrap : bool;
  d_state : NodeState;
  d_bootstrap_addrs : list MultiAddr;
  protocol_task : bool
}.

Record Devnet := mkDevnet {
  dconfig : DevnetConfig;
  nodes : list DevnetNode;
  shutdown_token : bool;
  net_state : NetworkState;
  health_monitor : bool
}.

Definition set_state (d : Devnet) (s : NetworkState) : Devnet :=
  mkDevnet (dconfig d) (nodes d) (shutdown_token d) s (health_monitor d).

(** What a run meets: identities and libraries by node, the instants at which a
    loop looks at the clock, and the peers that nodes are connected to then. *)
Record surroundings := mkSurroundings {
  new_identity : Z -> option identity;
  net_new : Z -> CoreNodeConfig -> bool;
  net_start : Z -> bool;
  net_fails : Z -> db_call -> bool;
  net_debug : bool;
  net_time : Z;
  stored_in : path -> gmap XorName bytes;
  ready_clock : nat -> Z;
  stable_clock : nat -> Z;
  peer_count : nat -> Z -> Z
}.
Context (w : surroundings).

(** Computations on the host and the devnet. *)
Abbreviation dev := (stres (host * Devnet) DevnetError).

Definition on_host {A} (m : stres host DevnetError A) : dev A := fun st =>
  let '(r, h) := m st.1 in (r, (h, st.2)).
Definition modify (f : Devnet -> Devnet) : dev unit := fun st => (Ok tt, (st.1, f st.2)).
Definition get_devnet : dev Devnet := fun st => (Ok st.2, st).

(** ** [Devnet::new] *)

(** The checks of the configuration; [None] is a panic. *)
Definition check_config (random : Z) (config : DevnetConfig) : option (result DevnetError DevnetConfig) :=
  if node_count config <=? bootstrap_count config then
    Some (Err (DConfig "Bootstrap count must be less than node count"))
  else if bootstrap_count config =? 0 then Some (Err (DConfig "At least one bootstrap node is required"))
  else if 65535 <? node_count config then Some (Err (DConfig "Node count {node_count} exceeds u16::MAX"))
  else
    port ← (if base_port config =? 0 then
              gen_range DEVNET_PORT_RANGE_MIN (sat_sub DEVNET_PORT_RANGE_MAX (node_count config)) random
            else Some (base_port config));
    Some (if 65535 <? port + node_count config then
            Err (DConfig "Port range overflow: base_port {base_port} + node_count {node_count} exceeds u16::MAX")
          else if DEVNET_PORT_RANGE_MAX <? port + node_count config then
            Err (DConfig "Port range overflow: max port {max_port} exceeds DEVNET_PORT_RANGE_MAX {DEVNET_PORT_RANGE_MAX}")
          else Ok (with_base_port config port)).

Definition devnet_new (random : Z) (config : DevnetConfig) (h : host) : option (result DevnetError Devnet * host) :=
  checked ← check_config random config;
  Some ((config ← st_lift checked;
         _ ← create_dir_all dio_error (devnet_dir config);
         mret (mkDevnet config [] false Uninitialized false)) h).

(** ** Nodes *)

Definition create_ant_protocol (index : Z) (data_dir : path) (identity : identity) (config : DevnetConfig)
    : result DevnetError (AntProtocol * EvmNetwork) :=
  storage ← map_err (fun _ => DCore "Failed to create LMDB storage: {e}")
    (storage_new (net_fails w index) (net_debug w) (stored_in w data_dir) (mkStorageConfig (display data_dir) true 0 0));
  let payment_verifier := verifier_new (mkVerifierConfig DEVNET_PAYMENT_CACHE_CAPACITY DEVNET_REWARDS_ADDRESS) in
  let metrics_tracker := tracker_new DEVNET_MAX_RECORDS DEVNET_INITIAL_RECORDS (net_time w) in
  quote_generator ← map_err (fun _ => DStartup "Failed to wire ML-DSA-65 signer: {e}")
    (wire_ml_dsa_signer (generator_new DEVNET_REWARDS_ADDRESS metrics_tracker) identity);
  Ok (mkProtocol storage payment_verifier quote_generator None, default EvmArbitrumOne (d_evm_network config)).

Definition create_node (config : DevnetConfig) (index : Z) (is_bootstrap : bool) (bootstrap_addrs : list MultiAddr)
    : stres host DevnetError DevnetNode :=
  index_u16 ← st_lift (if 65535 <? index then Err (DConfig "Node index {index} exceeds u16::MAX") else Ok index);
  let port := base_port config + index_u16 in
  identity ← st_lift (ok_or (new_identity w index) (DCore "Failed to generate node identity: {e}"));
  let data_dir := devnet_dir config ++ [NODES_SUBDIR; hex_encode (peer_id identity)] in
  _ ← create_dir_all dio_error data_dir;
  _ ← on_disk (DCore "Failed to save node identity: {e}") (fs_write (key_path data_dir) (save_identity identity));
  ant_protocol ← st_lift (create_ant_protocol index data_dir identity config);
  mret (mkNode index ("devnet_node_" +:+ pretty index) (peer_id identity) port data_dir None (Some ant_protocol) (Some identity)
          is_bootstrap Pending bootstrap_addrs false).

Definition running (node : DevnetNode) (p2p : CoreNodeConfig) : DevnetNode :=
  mkNode (d_index node) (d_label node) (d_peer_id node) (d_port node) (d_data_dir node) (Some p2p) (d_protocol node)
    (d_identity node) (is_bootstrap node) Running (d_bootstrap_addrs node) (bool_decide (is_Some (d_protocol node))).

(** The node is put into the list once it runs. *)
Definition start_node (node : DevnetNode) : dev unit :=
  core_config ← on_host (st_lift (ok_or (core_build (d_port node) None true MAX_WIRE_MESSAGE_SIZE)
                                   (DCore "Failed to create core config: {e}")));
  content ← on_host (on_disk (DCore "Failed to load node identity: {e}") (fs_read (key_path (d_data_dir node))));
  identity ← on_host (st_lift (ok_or (load_identity content) (DCore "Failed to load node identity: {e}")));
  let core_config := set_core (with_identity core_config identity) (d_bootstrap_addrs node) (allow_loopback core_config)
    diversity_permissive (core_close_group_cache_dir core_config) in
  _ ← on_host (st_lift (if net_new w (d_index node) core_config then Ok tt else Err (DStartup "Failed to create node {index}: {e}")));
  _ ← on_host (st_lift (if net_start w (d_index node) then Ok tt else Err (DStartup "Failed to start node {index}: {e}")));
  modify (fun d => mkDevnet (dconfig d) (nodes d ++ [running node core_config]) (shutdown_token d) (net_state d) (health_monitor d)).

Definition add_node (bootstrap : bool) (addrs : list MultiAddr) (i : Z) : dev unit :=
  d ← get_devnet;
  node ← on_host (create_node (dconfig d) i bootstrap addrs);
  start_node node.

(** The indices [a..b]. *)
Definition range (a b : Z) : list Z := (fun k => a + Z.of_nat k) <$> seq 0 (Z.to_nat (b - a)).

Fixpoint for_each {A} (f : A -> dev unit) (l : list A) : dev unit :=
  match l with [] => mret tt | x :: l => _ ← f x; for_each f l end.

(** One node of [wait_for_nodes_ready]; [k] counts the looks at the clock. *)
Fixpoint wait_node (fuel k : nat) (deadline : Z) (i : nat) : dev nat :=
  match fuel with
  | O => mret k
  | S fuel =>
      if ready_clock w k <? deadline then
        d ← get_devnet;
        node ← on_host (st_lift (ok_or (nodes d !! i) (DConfig "Node index {i} out of bounds (len: {})")));
        match d_state node with
        | Running | Connected => mret (S k)
        | Failed _ => on_host (st_lift (Err (DStartup "Node {i} failed: {e}")))
        | _ => wait_node fuel (S k) deadline i
        end
      else mret (S k)
  end.

Fixpoint wait_nodes (fuel k : nat) (deadline : Z) (ids : list nat) : dev unit :=
  match ids with
  | [] => mret tt
  | i :: ids => k ← wait_node fuel k deadline i; wait_nodes fuel k deadline ids
  end.

(** A node sleeps [NODE_READY_POLL_INTERVAL_MS] between two looks. *)
Definition wait_for_nodes_ready (count : nat) : dev unit :=
  d ← get_devnet;
  let timeout := node_startup_timeout (dconfig d) in
  wait_nodes (S (Z.to_nat (timeout / NODE_READY_POLL_INTERVAL_MS))) 1 (ready_clock w 0 + timeout) (seq 0 count).

Definition start_bootstrap_nodes : dev unit :=
  d ← get_devnet;
  _ ← for_each (add_node true []) (range 0 (bootstrap_count (dconfig d)));
  wait_for_nodes_ready (Z.to_nat (bootstrap_count (dconfig d))).

Definition bootstrap_addrs (d : Devnet) : list MultiAddr :=
  (fun n => local_addr (d_port n)) <$> take (Z.to_nat (bootstrap_count (dconfig d))) (nodes d).

Definition start_regular_nodes : dev unit :=
  d ← get_devnet;
  addrs ← on_host (st_lift
    (if (Z.to_nat (bootstrap_count (dconfig d)) <=? length (nodes d))%nat then Ok (bootstrap_addrs d)
     else Err (DConfig "Bootstrap count {} exceeds nodes length {}")));
  for_each (add_node false addrs) (range (bootstrap_count (dconfig d)) (node_count (dconfig d))).

(** [DevnetNode::peer_count]: none without a peer-to-peer node. *)
Definition node_peers (k : nat) (n : DevnetNode) : Z :=
  match d_p2p_node n with Some _ => peer_count w k (d_index n) | None => 0 end.

Fixpoint stabilize (fuel k : nat) (deadline min_connections : Z) : dev unit :=
  match fuel with
  | O => on_host (st_lift (Err (DStabilization "Devnet failed to stabilize within timeout")))
  | S fuel =>
      if stable_clock w k <? deadline then
        d ← get_devnet;
        if forallb (fun n => negb (node_peers k n <? min_connections)) (nodes d) then mret tt
        else stabilize fuel (S k) deadline min_connections
      else on_host (st_lift (Err (DStabilization "Devnet failed to stabilize within timeout")))
  end.

(** A second passes between two rounds. *)
Definition stabilization_rounds (timeout : Z) : nat := S (S (Z.to_nat (timeout / (STABILIZATION_POLL_INTERVAL_SECS * 1000)))).

Definition min_connections (c : DevnetConfig) : Z := Z.min (bootstrap_count c) STABILIZATION_MIN_CONNECTIONS_CAP.

Definition wait_for_stabilization : dev unit :=
  d ← get_devnet;
  let timeout := stabilization_timeout (dconfig d) in
  stabilize (stabilization_rounds timeout) 1 (stable_clock w 0 + timeout) (min_connections (dconfig d)).

Definition start_health_monitor (d : Devnet) : Devnet :=
  mkDevnet (dconfig d) (nodes d) (shutdown_token d) (net_state d) true.

Definition start : dev unit :=
  _ ← modify (fun d => set_state d BootstrappingPhase);
  _ ← start_bootstrap_nodes;
  _ ← modify (fun d => set_state d NodeSpawningPhase);
  _ ← start_regular_nodes;
  _ ← modify (fun d => set_state d Stabilizing);
  _ ← wait_for_stabilization;
  _ ← modify start_health_monitor;
  modify (fun d => set_state d Ready).

(** A node that is stopped, whatever its library says. *)
Definition stop_devnet_node (n : DevnetNode) : DevnetNode :=
  mkNode (d_index n) (d_label n) (d_peer_id n) (d_port n) (d_data_dir n) None (d_protocol n) (d_identity n)
    (is_bootstrap n) Stopped (d_bootstrap_addrs n) false.

Definition shutdown : dev unit :=
  _ ← modify (fun d => mkDevnet (dconfig d) (stop_devnet_node <$> nodes d) true DShuttingDown false);
  d ← get_devnet;
  _ ← (if cleanup_data_dir (dconfig d) then
         _ ← on_host (st_try (remove_dir_all dio_error (devnet_dir (dconfig d)))); mret tt
       else mret tt);
  modify (fun d => set_state d DStopped).

Definition bootstrap_protocol (d : Devnet) : option (AntProtocol * EvmNetwork) := n ← head (nodes d); d_protocol n.
Definition bootstrap_p2p_node (d : Devnet) : option CoreNodeConfig := n ← head (nodes d); d_p2p_node n.
Definition bootstrap_node_identity (d : Devnet) : option identity := n ← head (nodes d); d_identity n.

End Devnet.

(** ** Facts *)

Section Facts.
Context `{Blake3, Evm, Dsa, PeerIds}.
Context `{!Lru XorName unit, !Lru bytes OnChainPaymentInfo}.
Context `{identities : Identities, !IdentityLaws, core : SaorsaCore}.
Context (w : surroundings).
Abbreviation dev := (stres (host * Devnet) DevnetError).

Definition dwp {A} (m : dev A) (st : host * Devnet) (Q : result DevnetError A -> host * Devnet -> Prop) : Prop :=
  let '(r, st') := m st in Q r st'.

Lemma dwp_bind {A B} (m : dev A) (f : A -> dev B) st Q :
  dwp m st (fun r st' => match r with Ok a => dwp (f a) st' Q | Err e => Q (Err e) st' end) -> dwp (m ≫= f) st Q.
Proof. unfold dwp, mbind, stres_bind. destruct (m st) as [[a|e] st']; auto. Qed.

Lemma dwp_mono {A} (m : dev A) st (Q Q' : result DevnetError A -> host * Devnet -> Prop) :
  dwp m st Q -> (forall r st', Q r st' -> Q' r st') -> dwp m st Q'.
Proof. unfold dwp. destruct (m st). auto. Qed.

Lemma dwp_host {A} (m : stres host DevnetError A) st Q :
  hwp m st.1 (fun r h => Q r (h, st.2)) -> dwp (on_host m) st Q.
Proof. unfold dwp, hwp, on_host. destruct (m st.1). auto. Qed.

Lemma wired_rewards g i g' : wire_ml_dsa_signer g i = Ok g' -> g_rewards_address g' = g_rewards_address g.
Proof.
  destruct i as [pk sk]. unfold wire_ml_dsa_signer. destruct (negb _); [discriminate|].
  destruct (probe_signer _) as [[]|]; [|discriminate]. by intros [= <-].
Qed.

(** A node as its configuration has it: the handler pays attention to the devnet's
    address, and the peer-to-peer node has the identity that was made for it. *)
Record node_made (c : DevnetConfig) (b : bool) (addrs : list MultiAddr) (i : Z) (n : DevnetNode) : Prop := {
  nm_index : d_index n = i;
  nm_port : d_port n = base_port c + i;
  nm_bootstrap : is_bootstrap n = b;
  nm_addrs : d_bootstrap_addrs n = addrs;
  nm_identity : exists id, new_identity w i = Some id /\ d_identity n = Some id /\ d_peer_id n = peer_id id /\
    d_data_dir n = devnet_dir c ++ [NODES_SUBDIR; hex_encode (peer_id id)];
  nm_protocol : exists p, d_protocol n = Some (p, default EvmArbitrumOne (d_evm_network c)) /\
    local_rewards_address (v_config (payment_verifier p)) = DEVNET_REWARDS_ADDRESS /\
    g_rewards_address (quote_generator p) = DEVNET_REWARDS_ADDRESS
}.

(** And running. *)
Definition node_runs (n : DevnetNode) : Prop :=
  d_state n = Running /\ protocol_task n = true /\
  exists p2p, d_p2p_node n = Some p2p /\ node_identity p2p = d_identity n /\ core_bootstrap_peers p2p = d_bootstrap_addrs n.

Lemma create_ant_protocol_spec i dir id c p net : create_ant_protocol w i dir id c = Ok (p, net) ->
  net = default EvmArbitrumOne (d_evm_network c) /\
  local_rewards_address (v_config (payment_verifier p)) = DEVNET_REWARDS_ADDRESS /\
  g_rewards_address (quote_generator p) = DEVNET_REWARDS_ADDRESS.
Proof.
  unfold create_ant_protocol. intros Hc. apply bind_ok in Hc as (st & _ & Hc). apply bind_ok in Hc as (g & Hg & [= <- <-]).
  cbn. destruct (wire_ml_dsa_signer _ id) as [g'|e] eqn:Eg; [|discriminate]. injection Hg as <-.
  by rewrite (wired_rewards _ _ _ Eg).
Qed.

Lemma create_node_spec c i b addrs h :
  hwp (create_node w c i b addrs) h (fun r h' => only (under (devnet_dir c)) (host_files h) (host_files h') /\
    forall n, r = Ok n -> node_made c b addrs i n /\
      exists id f, d_identity n = Some id /\ host_files h' !! key_path (d_data_dir n) = Some f /\ data f = save_identity id).
Proof.
  unfold create_node. apply hwp_bind, hwp_lift. destruct (65535 <? i); [done|].
  apply hwp_bind, hwp_lift. destruct (new_identity w i) as [id|] eqn:Eid; [|done]. cbn [ok_or].
  set (dir := devnet_dir c ++ _).
  assert (under (devnet_dir c) (key_path dir)) as Hu.
  { unfold key_path, dir. rewrite <- app_assoc. by eexists. }
  apply hwp_bind, hwp_create_dir_all. intros h1 r1 Hm1 _ _ _ _. destruct r1 as [[]|e]; [|split; [by rewrite Hm1 | done]].
  apply hwp_bind, hwp_write; intros h2 _ Hput.
  - split; [|done]. rewrite <- Hm1. eapply only_mono; [|exact Hput]. by intros q <-.
  - assert (only (under (devnet_dir c)) (host_files h) (host_files h2)) as Ho by (rewrite Hput, Hm1; by apply only_put).
    apply hwp_bind, hwp_lift. destruct (create_ant_protocol _ _ _ _ _) as [[p net]|e] eqn:Ep; [|done].
    apply create_ant_protocol_spec in Ep as (-> & Hl & Hg).
    apply hwp_ret. split; [exact Ho|]. intros n [= <-]. split.
    + split; cbn; eauto 10.
    + do 2 eexists. split; [done|]. cbn [d_data_dir]. fold dir. rewrite Hput. unfold put_data. by rewrite lookup_insert_eq.
Qed.

Lemma start_node_spec n id h d :
  d_identity n = Some id -> is_Some (d_protocol n) ->
  (exists f, host_files h !! key_path (d_data_dir n) = Some f /\ data f = save_identity id) ->
  dwp (start_node w n) (h, d) (fun r st => host_files st.1 = host_files h /\
    match r with
    | Ok _ => exists p2p, node_runs (running n p2p) /\
        st.2 = mkDevnet (dconfig d) (nodes d ++ [running n p2p]) (shutdown_token d) (net_state d) (health_monitor d)
    | Err _ => st.2 = d
    end).
Proof.
  intros Hid Hp (f & Hf & Hdata). unfold start_node.
  apply dwp_bind, dwp_host, hwp_lift. destruct (core_build _ _ _ _) as [cc|]; [|done]. cbn [ok_or].
  apply dwp_bind, dwp_host, hwp_read; [done|]. intros h1 g _ Hm1 Hg. cbn in Hg. rewrite Hf in Hg. injection Hg as <-.
  apply dwp_bind, dwp_host, hwp_lift. rewrite Hdata, load_save. cbn [ok_or].
  apply dwp_bind, dwp_host, hwp_lift. destruct (net_new _ _ _); [|done].
  apply dwp_bind, dwp_host, hwp_lift. destruct (net_start _ _); [|done].
  split; [done|]. eexists. split; [|reflexivity]. split; [done|]. split; [by apply bool_decide_eq_true|].
  eexists. split; [reflexivity|]. split; [cbn; by rewrite Hid | done].
Qed.

Lemma running_made c b addrs i n p2p : node_made c b addrs i n -> node_made c b addrs i (running n p2p).
Proof. by intros []. Qed.

Definition add_to (d : Devnet) (more : list DevnetNode) : Devnet :=
  mkDevnet (dconfig d) (nodes d ++ more) (shutdown_token d) (net_state d) (health_monitor d).

(** One node more, in a directory below the devnet's. *)
Lemma add_node_spec b addrs i h d :
  dwp (add_node w b addrs i) (h, d) (fun r st => only (under (devnet_dir (dconfig d))) (host_files h) (host_files st.1) /\
    match r with
    | Ok _ => exists n, st.2 = add_to d [n] /\ node_made (dconfig d) b addrs i n /\ node_runs n
    | Err _ => st.2 = d
    end).
Proof.
  unfold add_node. apply dwp_bind. cbn [get_devnet dwp]. apply dwp_bind, dwp_host.
  eapply hwp_mono; [apply create_node_spec|]. cbn [fst snd]. intros [n|e] h1 [Ho Hn]; [|by split].
  destruct (Hn n eq_refl) as [Hmade (id & f & Hid & Hf & Hdata)].
  eapply dwp_mono; [apply (start_node_spec n id); [exact Hid | destruct (nm_protocol _ _ _ _ _ Hmade) as (p & -> & _); done | eauto]|].
  intros r [h2 d2] [Hm Hr]. cbn [fst snd] in *. split; [by rewrite Hm|]. destruct r as [[]|e]; [|done].
  destruct Hr as (p2p & Hrun & ->). exists (running n p2p). split; [done|]. split; [by apply running_made | done].
Qed.

Lemma range_cons a b : a < b -> range a b = a :: range (a + 1) b.
Proof.
  intros Hab. unfold range. replace (Z.to_nat (b - a)) with (S (Z.to_nat (b - (a + 1)))) by lia. cbn [seq fmap list_fmap].
  f_equal; [lia|]. rewrite <- fmap_S_seq, <- list_fmap_compose. apply list_fmap_ext. intros j x _. cbn. lia.
Qed.

Lemma range_empty a b : b <= a -> range a b = [].
Proof. intros Hab. unfold range. by replace (Z.to_nat (b - a)) with O by lia. Qed.

(** The nodes of indices [a..b]. *)
Lemma add_range_spec b addrs (k : nat) a e h d : e = a + Z.of_nat k ->
  dwp (for_each (add_node w b addrs) (range a e)) (h, d) (fun r st =>
    only (under (devnet_dir (dconfig d))) (host_files h) (host_files st.1) /\
    exists more, st.2 = add_to d more /\
      (forall j n, more !! j = Some n -> node_made (dconfig d) b addrs (a + Z.of_nat j) n /\ node_runs n) /\
      (length more <= k)%nat /\ (is_ok r = true -> length more = k)).
Proof.
  revert a h d. induction k as [|k IH]; intros a h d He.
  - rewrite range_empty by lia. split; [done|]. exists []. unfold add_to. rewrite app_nil_r. by destruct d.
  - rewrite range_cons by lia. cbn [for_each]. apply dwp_bind. eapply dwp_mono; [apply add_node_spec|].
    intros [[]|err] [h1 d1] [Ho Hr]; cbn [fst snd] in *.
    2:{ subst d1. split; [exact Ho|]. exists []. unfold add_to. rewrite app_nil_r. destruct d. cbn. split_and!; [done..|lia|done]. }
    destruct Hr as (n & -> & Hmade & Hrun). eapply dwp_mono; [apply IH; lia|]. cbn [fst snd].
    intros r [h2 d2] (Ho2 & more & Hd2 & Hmore & Hle & Hlen). cbn [fst snd] in *. split; [by etrans|].
    exists (n :: more). split_and!.
    + rewrite Hd2. unfold add_to. cbn. by rewrite <- app_assoc.
    + intros [|j] m; cbn; [intros [= <-]; by rewrite Z.add_0_r|]. intros Hm. apply Hmore in Hm.
      by replace (a + Z.of_nat (S j)) with (a + 1 + Z.of_nat j) by lia.
    + cbn. lia.
    + intros Hr. cbn. by rewrite Hlen.
Qed.

(** What [remove_dir_all] does to the files. *)
Lemma remove_below dir h : let h' := (remove_dir_all dio_error dir h).2 in
  only (under dir) (host_files h) (host_files h') /\
  (calm h -> forall q, under dir q -> q <> dir -> host_files h' !! q = None).
Proof.
  split.
  - intros q Hq. pose proof (leaves_remove_dir_all q dio_error dir Hq h) as Hl. unfold hwp in Hl.
    by destruct (remove_dir_all dio_error dir h).
  - intros Hc q Hu Hne. unfold remove_dir_all, host_fault, next_fault. unfold calm in Hc. rewrite Hc.
    destruct (is_dir dir _) eqn:Ed; cbn.
    + unfold host_files. cbn. apply map_lookup_filter_None_2. right. intros f _ Hn. by apply Hn.
    + apply is_dir_false in Ed as [_ Hd]. apply eq_None_not_Some. intros Hq. by apply Hne, Hd.
Qed.

(** Waiting changes nothing. *)
Lemma wait_node_same fuel k deadline i st : dwp (wait_node w fuel k deadline i) st (fun _ st' => st' = st).
Proof.
  revert k. induction fuel as [|fuel IH]; intros k; cbn [wait_node]; [done|]. destruct (_ <? _); [|done].
  apply dwp_bind. cbn [get_devnet dwp]. apply dwp_bind, dwp_host, hwp_lift. destruct st as [h d]. cbn [fst snd].
  destruct (nodes d !! i) as [n|]; [|done]. cbn [ok_or]. destruct (d_state n); try apply IH; done.
Qed.

Lemma wait_nodes_same fuel k deadline ids st : dwp (wait_nodes w fuel k deadline ids) st (fun _ st' => st' = st).
Proof.
  revert k. induction ids as [|i ids IH]; intros k; cbn [wait_nodes]; [done|].
  apply dwp_bind. eapply dwp_mono; [apply wait_node_same|]. intros [k'|e] st' ->; [apply IH | done].
Qed.

(** A round before the deadline in which every node had enough peers. *)
Definition stabilized (c : DevnetConfig) (ns : list DevnetNode) : Prop :=
  exists k, stable_clock w k < stable_clock w 0 + stabilization_timeout c /\
    forall n, n ∈ ns -> min_connections c <= node_peers w k n.

Lemma stabilize_spec fuel k deadline min st :
  dwp (stabilize w fuel k deadline min) st (fun r st' => st' = st /\
    (r = Ok tt -> exists k, stable_clock w k < deadline /\ forall n, n ∈ nodes st.2 -> min <= node_peers w k n)).
Proof.
  revert k. induction fuel as [|fuel IH]; intros k; cbn [stabilize].
  { apply dwp_host, hwp_lift. by destruct st. }
  destruct (_ <? _) eqn:Ed; [|apply dwp_host, hwp_lift; by destruct st].
  apply dwp_bind. cbn [get_devnet dwp]. destruct (forallb _ _) eqn:Ef; [|apply IH].
  split; [done|]. intros _. exists k. split; [lia|]. intros n Hn. rewrite forallb_forall in Ef.
  apply list_elem_of_In, Ef in Hn. apply negb_true_iff in Hn. lia.
Qed.

(** The rounds of [wait_for_stabilization] are enough: more give the same. *)
Lemma stabilize_fuel fuel more k deadline min st : deadline <= stable_clock w (k + fuel) ->
  (forall k, stable_clock w k <= stable_clock w (S k)) ->
  stabilize w (fuel + more) k deadline min st = stabilize w fuel k deadline min st.
Proof.
  intros Hd Hup. revert k Hd. induction fuel as [|fuel IH]; intros k Hd; cbn [Nat.add stabilize].
  - rewrite Nat.add_0_r in Hd. destruct more as [|more]; [done|]. cbn [stabilize].
    by rewrite (proj2 (Z.ltb_ge _ _) Hd).
  - destruct (_ <? _); [|done]. unfold mbind, stres_bind. cbn [get_devnet]. destruct (forallb _ _); [done|].
    apply IH. by replace (S k + fuel)%nat with (k + S fuel)%nat by lia.
Qed.

Lemma stabilization_rounds_enough c more st :
  0 <= stabilization_timeout c -> (forall k, stable_clock w k + 1000 <= stable_clock w (S k)) ->
  let deadline := stable_clock w 0 + stabilization_timeout c in
  stabilize w (stabilization_rounds (stabilization_timeout c) + more) 1 deadline (min_connections c) st =
  stabilize w (stabilization_rounds (stabilization_timeout c)) 1 deadline (min_connections c) st.
Proof.
  cbn zeta. intros Ht Hup. apply stabilize_fuel; [|intros k; specialize (Hup k); lia].
  assert (forall n, stable_clock w 0 + 1000 * Z.of_nat n <= stable_clock w n) as Hn.
  { induction n as [|n IH]; [lia|]. specialize (Hup n). lia. }
  specialize (Hn (1 + stabilization_rounds (stabilization_timeout c))%nat).
  unfold stabilization_rounds, STABILIZATION_POLL_INTERVAL_SECS in *. change (1 * 1000) with 1000 in *.
  pose proof (Z.div_mod (stabilization_timeout c) 1000 ltac:(lia)).
  pose proof (Z.mod_pos_bound (stabilization_timeout c) 1000 ltac:(lia)).
  pose proof (Z.div_pos (stabilization_timeout c) 1000). lia.
Qed.

(** The [j]-th node of a configuration. *)
Definition is_early (c : DevnetConfig) (j : nat) : bool := Z.of_nat j <? bootstrap_count c.
Definition early_addrs (c : DevnetConfig) : list MultiAddr := (fun j => local_addr (base_port c + j)) <$> range 0 (bootstrap_count c).
Definition as_configured (c : DevnetConfig) (ns : list DevnetNode) : Prop :=
  forall j n, ns !! j = Some n ->
    node_made c (is_early c j) (if is_early c j then [] else early_addrs c) (Z.of_nat j) n /\ node_runs n.

Lemma early_ports c ns : 0 <= bootstrap_count c -> as_configured c ns -> (Z.to_nat (bootstrap_count c) <= length ns)%nat ->
  (fun n => local_addr (d_port n)) <$> take (Z.to_nat (bootstrap_count c)) ns = early_addrs c.
Proof.
  intros Hb Hns Hlen. unfold early_addrs, range. rewrite Z.sub_0_r, <- list_fmap_compose.
  apply list_eq. intros j. rewrite !list_lookup_fmap. destruct (decide (j < Z.to_nat (bootstrap_count c))%nat) as [Hj|Hj].
  - rewrite lookup_take_lt by done. destruct (lookup_lt_is_Some_2 ns j) as [n Hn]; [lia|].
    rewrite Hn, lookup_seq_lt by done. cbn. by destruct (Hns j n Hn) as [[_ -> _ _ _ _] _].
  - rewrite lookup_take_ge by lia. cbn. by rewrite (proj2 (lookup_ge_None (seq 0 _) j)) by (rewrite length_seq; lia).
Qed.

Lemma start_bootstrap_spec h d : nodes d = [] -> 0 <= bootstrap_count (dconfig d) ->
  dwp (start_bootstrap_nodes w) (h, d) (fun r st =>
    only (under (devnet_dir (dconfig d))) (host_files h) (host_files st.1) /\
    exists ns, st.2 = add_to d ns /\ as_configured (dconfig d) ns /\
      (is_ok r = true -> Z.of_nat (length ns) = bootstrap_count (dconfig d))).
Proof.
  intros Hnil Hb. unfold start_bootstrap_nodes. apply dwp_bind. cbn [get_devnet dwp fst snd]. apply dwp_bind.
  eapply dwp_mono; [apply (add_range_spec true [] (Z.to_nat (bootstrap_count (dconfig d))) 0); lia|].
  intros r [h1 d1] (Ho & ns & Hd1 & Hns & Hle & Hlen). cbn [fst snd] in *.
  assert (as_configured (dconfig d) ns) as Hconf.
  { intros j n Hj. apply lookup_lt_Some in Hj as Hlt. unfold is_early. rewrite (proj2 (Z.ltb_lt _ _)) by lia. by apply Hns. }
  destruct r as [[]|e]; [|split; [exact Ho|]; exists ns; by split_and!].
  unfold wait_for_nodes_ready. apply dwp_bind. cbn [get_devnet dwp fst snd].
  eapply dwp_mono; [apply wait_nodes_same|]. intros r st ->. split; [exact Ho|]. exists ns. split_and!; [done..|].
  intros _. rewrite Hlen by done. lia.
Qed.

Lemma start_regular_spec h d : as_configured (dconfig d) (nodes d) ->
  0 <= bootstrap_count (dconfig d) <= node_count (dconfig d) -> Z.of_nat (length (nodes d)) = bootstrap_count (dconfig d) ->
  dwp (start_regular_nodes w) (h, d) (fun r st =>
    only (under (devnet_dir (dconfig d))) (host_files h) (host_files st.1) /\
    exists ns, st.2 = add_to d ns /\ as_configured (dconfig d) (nodes d ++ ns) /\
      (is_ok r = true -> Z.of_nat (length (nodes d ++ ns)) = node_count (dconfig d))).
Proof.
  intros Hconf Hb Hlen. unfold start_regular_nodes. apply dwp_bind. cbn [get_devnet dwp fst snd].
  apply dwp_bind, dwp_host, hwp_lift. cbn [fst snd]. rewrite (proj2 (Nat.leb_le _ _)) by lia.
  unfold bootstrap_addrs. rewrite early_ports by (done || lia).
  eapply dwp_mono; [apply (add_range_spec false (early_addrs (dconfig d))
    (Z.to_nat (node_count (dconfig d) - bootstrap_count (dconfig d))) (bootstrap_count (dconfig d))); lia|].
  intros r [h1 d1] (Ho & ns & Hd1 & Hns & Hle & Hl). cbn [fst snd] in *. split; [exact Ho|]. exists ns. split; [done|]. split.
  - intros j n Hj. destruct (decide (j < length (nodes d))%nat) as [Hlt|Hge].
    + rewrite lookup_app_l in Hj by done. by apply Hconf.
    + rewrite lookup_app_r in Hj by lia. apply Hns in Hj. unfold is_early. rewrite (proj2 (Z.ltb_ge _ _)) by lia.
      by replace (Z.of_nat j) with (bootstrap_count (dconfig d) + Z.of_nat (j - length (nodes d))) by lia.
  - intros Hr. rewrite length_app, (Hl Hr). lia.
Qed.

Lemma start_spec h d : nodes d = [] -> 0 < bootstrap_count (dconfig d) < node_count (dconfig d) ->
  dwp (start w) (h, d) (fun r st =>
    only (under (devnet_dir (dconfig d))) (host_files h) (host_files st.1) /\
    dconfig st.2 = dconfig d /\ as_configured (dconfig d) (nodes st.2) /\
    match r with
    | Ok _ => net_state st.2 = Ready /\ Z.of_nat (length (nodes st.2)) = node_count (dconfig d) /\
        stabilized (dconfig d) (nodes st.2)
    | Err _ => net_state st.2 = BootstrappingPhase \/ net_state st.2 = NodeSpawningPhase \/ net_state st.2 = Stabilizing
    end).
Proof.
  intros Hnil Hcount. unfold start. apply dwp_bind. cbn [modify dwp fst snd]. apply dwp_bind.
  eapply dwp_mono; [apply start_bootstrap_spec; cbn; [done | lia]|].
  intros r1 [h1 d1] (Ho1 & ns1 & Hd1 & Hc1 & Hl1). cbn [fst snd set_state dconfig] in *. subst d1.
  destruct r1 as [[]|e]; [|cbn; rewrite Hnil; by split_and!; auto].
  apply dwp_bind. cbn [modify dwp fst snd]. apply dwp_bind.
  eapply dwp_mono; [apply start_regular_spec; cbn; rewrite ?Hnil; [exact Hc1 | lia | by apply Hl1]|].
  intros r2 [h2 d2] (Ho2 & ns2 & Hd2 & Hc2 & Hl2). cbn [fst snd set_state add_to dconfig nodes] in *. rewrite Hnil in *. cbn [app] in *. subst d2.
  assert (only (under (devnet_dir (dconfig d))) (host_files h) (host_files h2)) as Ho by by etrans.
  destruct r2 as [[]|e]; [|cbn; rewrite Hnil; by split_and!; auto].
  apply dwp_bind. cbn [modify dwp fst snd]. apply dwp_bind. unfold wait_for_stabilization. apply dwp_bind. cbn [get_devnet dwp fst snd].
  eapply dwp_mono; [apply stabilize_spec|]. intros r3 st [-> Hst].
  destruct r3 as [[]|e]; [|cbn; rewrite Hnil; by split_and!; auto].
  apply dwp_bind. cbn. rewrite Hnil. cbn in Hst. rewrite Hnil in Hst. split_and!; auto.
  by apply Hst.
Qed.

(** [shutdown] always ends, with every node stopped. *)
Lemma shutdown_spec h d :
  dwp shutdown (h, d) (fun r st => r = Ok tt /\ net_state st.2 = DStopped /\ nodes st.2 = stop_devnet_node <$> nodes d /\
    shutdown_token st.2 = true /\ health_monitor st.2 = false /\ dconfig st.2 = dconfig d /\
    only (under (devnet_dir (dconfig d))) (host_files h) (host_files st.1) /\
    (cleanup_data_dir (dconfig d) = false -> st.1 = h) /\
    (cleanup_data_dir (dconfig d) = true -> calm h ->
       forall q, under (devnet_dir (dconfig d)) q -> q <> devnet_dir (dconfig d) -> host_files st.1 !! q = None)).
Proof.
  unfold shutdown. apply dwp_bind. cbn [modify dwp fst snd]. apply dwp_bind. cbn [get_devnet dwp fst snd dconfig].
  apply dwp_bind. destruct (cleanup_data_dir (dconfig d)) eqn:Ec; [|by split_and!].
  apply dwp_bind, dwp_host. unfold hwp, st_try. cbn [fst].
  pose proof (remove_below (devnet_dir (dconfig d)) h) as [Hrm Hcalm].
  destruct (remove_dir_all dio_error (devnet_dir (dconfig d)) h) as [r h']. cbn in *. split_and!; try done.
Qed.

End Facts.

(** What [new] accepts: ports below the bound, and at least one node of either
    kind. *)
Lemma devnet_new_spec `{Blake3, Evm, Dsa, PeerIds, !Lru XorName unit, !Lru bytes OnChainPaymentInfo}
    random config h d h' : 0 <= bootstrap_count config -> 0 <= base_port config ->
  devnet_new random config h = Some (Ok d, h') ->
  nodes d = [] /\ net_state d = Uninitialized /\ 0 < bootstrap_count config < node_count config /\
  (exists port, dconfig d = with_base_port config port /\ 0 <= port /\ port + node_count config <= DEVNET_PORT_RANGE_MAX) /\
  host_files h' = host_files h.
Proof.
  intros Hb Hport. unfold devnet_new, check_config.
  destruct (node_count config <=? bootstrap_count config) eqn:E1; [discriminate|]. apply Z.leb_gt in E1.
  destruct (bootstrap_count config =? 0) eqn:E2; [discriminate|]. apply Z.eqb_neq in E2.
  destruct (65535 <? node_count config) eqn:E3; [discriminate|].
  destruct (if base_port config =? 0 then _ else _) as [port|] eqn:Ep; [|discriminate]. cbn [mbind option_bind].
  assert (0 <= port) as Hp0.
  { destruct (base_port config =? 0); [|by injection Ep as <-]. unfold gen_range, DEVNET_PORT_RANGE_MIN in Ep.
    destruct (20000 <? _) eqn:El; [|discriminate]. apply Z.ltb_lt in El. injection Ep as <-.
    pose proof (Z.mod_pos_bound random (sat_sub DEVNET_PORT_RANGE_MAX (node_count config) - 20000) ltac:(lia)). lia. }
  destruct (65535 <? port + node_count config) eqn:E4; [discriminate|].
  destruct (DEVNET_PORT_RANGE_MAX <? port + node_count config) eqn:E5; [discriminate|]. apply Z.ltb_ge in E5.
  intros [= Hnew]. pose proof (hwp_create_dir_all dio_error (devnet_dir config) h
    (fun r h1 => host_files h1 = host_files h)) as Hd. unfold hwp in Hd. cbn in Hnew. unfold mbind, stres_bind, st_lift in Hnew.
  cbn in Hnew. destruct (create_dir_all _ _ h) as [[[]|e] h1]; [|discriminate]. injection Hnew as <- <-.
  cbn. split_and!; try done; try lia; [|by apply Hd]. exists port. split_and!; auto.
Qed.

(** C20: A devnet that is ready is the one that was configured.  When [new] accepts a
    configuration, [start] ends ready or in an error, whatever libraries, files and
    databases fail.  Ready means that all the nodes run, each on its own port of
    the allowed range, with an identity of its own that its peer-to-peer node and
    its directory are named by, a handler that is paid at the devnet's address and
    the first nodes as its bootstrap peers, and that they had enough connections in
    one round before the deadline.  Then [shutdown] always stops every node, and
    returns [Ok] even if removing the data directory fails.  Files
    outside the data directory are left alone; with the clean-up, when no call
    fails, no file below it is left. *)
Theorem ready_devnet_is_as_configured
    `{Blake3, Evm, Dsa, PeerIds, !Lru XorName unit, !Lru bytes OnChainPaymentInfo}
    `{identities : Identities, !IdentityLaws, core : SaorsaCore}
    (w : surroundings) (random : Z) (config : DevnetConfig) (h h0 : host) (d0 : Devnet)
    (Hb : 0 <= bootstrap_count config) (Hport : 0 <= base_port config)
    (Hnew : devnet_new random config h = Some (Ok d0, h0)) :
  let c := dconfig d0 in
  let '(r, (h1, d1)) := start w (h0, d0) in
  let '(r2, (h2, d2)) := shutdown (h1, d1) in
  (r = Ok tt <-> net_state d1 = Ready) /\
  (r = Ok tt -> Z.of_nat (length (nodes d1)) = node_count config /\ stabilized w c (nodes d1)) /\
  (forall j n, nodes d1 !! j = Some n ->
     node_made w c (is_early c j) (if is_early c j then [] else early_addrs c) (Z.of_nat j) n /\ node_runs n /\
     0 <= base_port c <= d_port n /\ (r = Ok tt -> d_port n < DEVNET_PORT_RANGE_MAX)) /\
  r2 = Ok tt /\ net_state d2 = DStopped /\ nodes d2 = stop_devnet_node <$> nodes d1 /\
  only (under (devnet_dir config)) (host_files h) (host_files h2) /\
  (cleanup_data_dir config = true -> calm h1 ->
     forall q, under (devnet_dir config) q -> q <> devnet_dir config -> host_files h2 !! q = None).
Proof.
  destruct (devnet_new_spec random config h d0 h0 Hb Hport Hnew) as (Hnil & _ & Hcount & (port & Hc & Hp0 & Hmax) & Hfiles).
  cbn zeta. assert (bootstrap_count (dconfig d0) = bootstrap_count config /\ node_count (dconfig d0) = node_count config /\
    devnet_dir (dconfig d0) = devnet_dir config /\ cleanup_data_dir (dconfig d0) = cleanup_data_dir config /\
    base_port (dconfig d0) = port) as (Hbc & Hnc & Hdir & Hcl & Hbp) by by rewrite Hc.
  pose proof (start_spec w h0 d0 Hnil ltac:(lia)) as Hs. unfold dwp in Hs.
  destruct (start w (h0, d0)) as [r [h1 d1]]. cbn [fst snd] in Hs. destruct Hs as (Ho & Hc1 & Hconf & Hr).
  pose proof (shutdown_spec h1 d1) as Hsd. unfold dwp in Hsd.
  destruct (shutdown (h1, d1)) as [r2 [h2 d2]]. cbn [fst snd] in Hsd.
  destruct Hsd as (-> & Hst2 & Hn2 & _ & _ & _ & Ho2 & _ & Hgone).
  rewrite Hc1, Hdir in *. rewrite Hcl in Hgone. split_and!; try done.
  - destruct r as [[]|e]; [by destruct Hr as [-> _]|]. split; [done|]. intros Hready. rewrite Hready in Hr.
    by destruct Hr as [?|[?|?]].
  - intros ->. destruct Hr as (_ & Hlen & Hstab). by rewrite <- Hnc.
  - intros j n Hj. destruct (Hconf j n Hj) as [Hm Hrun]. split_and!; try done; try lia.
    + destruct Hm as [_ -> _ _ _ _]. lia.
    + intros ->. destruct Hr as (_ & Hlen & _). destruct Hm as [_ -> _ _ _ _]. apply lookup_lt_Some in Hj. lia.
  - rewrite <- Hfiles. by etrans.
Qed.

(** By default the data directory of a devnet is the one that the nodes of this
    machine, and their identities, live in: stopping the devnet removes them. *)
Lemma default_devnet_removes_the_nodes
    `{Blake3, Evm, Dsa, PeerIds, !Lru XorName unit, !Lru bytes OnChainPaymentInfo, Identities}
    proj_dirs cwd random (h : host) (d : Devnet) :
  dconfig d = devnet_config proj_dirs cwd random (mkDevnetCli None None None None None false None None) -> calm h ->
  forall peer, host_files (shutdown (h, d)).2.1 !! key_path (default_nodes_dir proj_dirs cwd ++ [peer]) = None.
Proof.
  intros Hd Hc peer. pose proof (shutdown_spec h d) as Hs. unfold dwp in Hs. destruct (shutdown (h, d)) as [r [h' d']].
  cbn [fst snd] in *. destruct Hs as (_ & _ & _ & _ & _ & _ & _ & _ & Hgone). rewrite Hd in Hgone. cbn in Hgone.
  unfold key_path, default_nodes_dir. apply Hgone; [done | done | |].
  - rewrite <- !app_assoc. by eexists.
  - intros Heq. apply (f_equal length) in Heq. rewrite !length_app in Heq. cbn in Heq. lia.
Qed.

(** A count that [new] means to accept, and no port in the range it draws from. *)
Lemma many_nodes_panic random h `{Blake3, Evm, Dsa, PeerIds, !Lru XorName unit, !Lru bytes OnChainPaymentInfo} dir :
  devnet_new random (mkDevnetConfig 40000 0 3 dir 200 120000 30000 false true None) h = None.
Proof. reflexivity. Qed.

(** ** Two nodes *)

#[local] Existing Instances short_dsa short_peer_ids sample_identities sample_identity_laws sample_core.

Definition two_nodes : DevnetConfig := mkDevnetConfig 2 20000 1 ["tmp"; "devnet"]%string 200 5000 3000 false true None.
Definition quiet : surroundings :=
  mkSurroundings (fun i => Some (if i =? 0 then ([x0b], [x0b]) else ([x0c], [x0c]))) (fun _ _ => true) (fun _ => true)
    (fun _ _ => false) false 0 (fun _ => ∅) (fun k => 100 * Z.of_nat k) (fun k => 1000 * Z.of_nat k)
    (fun k i => if (k =? 1)%nat then 0 else 1).

Definition made : option (result DevnetError Devnet * host) := devnet_new 0 two_nodes empty_host.

Lemma two_nodes_start : exists d0 h0, made = Some (Ok d0, h0) /\
  let '(r, (h1, d1)) := start quiet (h0, d0) in
  r = Ok tt /\ d_port <$> nodes d1 = [20000; 20001] /\ faults (disk_of h1) = [] /\
  host_files h1 !! ["tmp"; "devnet"; "nodes"; "0c"; "node_identity.key"]%string <> None.
Proof. do 2 eexists. split; [vm_compute; reflexivity|]. vm_compute. by split_and!. Qed.

Lemma ready_devnet_is_as_configured_witness :
  exists d0 h0, made = Some (Ok d0, h0) /\
    let '(r, (h1, d1)) := start quiet (h0, d0) in
    net_state d1 = Ready /\ Z.of_nat (length (nodes d1)) = 2 /\
    host_files (shutdown (h1, d1)).2.1 !! ["tmp"; "devnet"; "nodes"; "0c"; "node_identity.key"]%string = None.
Proof.
  destruct two_nodes_start as (d0 & h0 & Hnew & Hs). exists d0, h0. split; [exact Hnew|].
  pose proof (ready_devnet_is_as_configured quiet 0 two_nodes empty_host h0 d0 ltac:(cbn; lia) ltac:(cbn; lia) Hnew) as Ht.
  cbv zeta in Ht. destruct (start quiet (h0, d0)) as [r [h1 d1]]. destruct Hs as (-> & _ & Hf & _).
  destruct (shutdown (h1, d1)) as [r2 [h2 d2]]. cbn [fst snd].
  destruct Ht as (Hready & Hlen & _ & _ & _ & _ & _ & Hgone). split; [by apply Hready|]. split; [by apply Hlen|].
  apply Hgone; [reflexivity | exact Hf | by eexists | discriminate].
Defined.
