(* ===== verification/WasmClient.v ===== *)
(** * The browser download client

    [ant-wasm/src/client.rs] and the parsers of [ant-wasm/src/lib.rs]: a chunk is
    asked of one node over the tunnel and cached; a file is its data map's chunks,
    decrypted.  The transport is an argument: a state and its [send_request]. *)

From Stdlib Require Import ZArith Lia Strings.Byte.
From stdpp Require Import base list strings gmap.
From S2P Require Import Prelude Hex Interfaces ChunkMath Cipher DataMap Reference Encrypt Decrypt.
From S2P Require Import RoundTrip Protocol.

Local Open Scope Z_scope.

Definition CACHE_CAPACITY : Z := 1024.

(** An error message, or a panic: the second [borrow_mut] of a [RefCell] while
    the first is alive. *)
Inductive js_error := Message (msg : string) | Panicked.

Definition parse_hex_address (hex_str : string) : result string bytes :=
  bs ← ok_or (hex_decode hex_str) "invalid hex: {e}"%string;
  if negb (lenZ bs =? 32) then Err "expected 32 bytes, got {}"%string else Ok bs.

Definition parse_peer_id (bs : bytes) : result string bytes :=
  if negb (lenZ bs =? 32) then Err "expected 32 bytes, got {}"%string else Ok bs.

Section Client.
Context `{Config, Blake3, Aead, Brotli, !Codec bincode VersionedDataMap}.
Context `{!Codec postcard ChunkMessage, !Lru XorName bytes}.
Context {Net : Type} (send_request : Net -> bytes -> result string bytes * Net).

Record DownloadClient := mkClient {
  transport : Net;
  next_request_id : Z;
  chunk_cache : lru XorName bytes
}.

Definition client_new (transport : Net) : DownloadClient :=
  mkClient transport 1 (lru_new XorName bytes CACHE_CAPACITY).

(** The request over the network, when the cache has no answer. *)
Definition chunk_fetch (c : DownloadClient) (address : XorName)
    : result js_error (option DataChunk) * DownloadClient :=
  let id := next_request_id c in
  let c := mkClient (transport c) (wadd id 1) (chunk_cache c) in
  match encode_message (mkMessage id (GetRequest (mkGetRequest address))) with
  | Err _ => (Err (Message "failed to encode request: {e}"), c)
  | Ok message_bytes =>
    let '(r, net) := send_request (transport c) message_bytes in
    let c := mkClient net (next_request_id c) (chunk_cache c) in
    match r with
    | Err e => (Err (Message e), c)
    | Ok response_bytes =>
      match decode_message response_bytes with
      | Err _ => (Err (Message "decode error: {e}"), c)
      | Ok response =>
        match body response with
        | GetResponse (GetSuccess addr content) =>
            if negb (bool_decide (addr = address)) then
              (Err (Message "address mismatch: expected {}, got {}"), c)
            else if negb (bool_decide (compute_address content = addr)) then
              (Err (Message "content hash mismatch: expected {}, got {}"), c)
            else
              (Ok (Some (mkDataChunk addr content)),
               mkClient (transport c) (next_request_id c) (lru_put (chunk_cache c) address content))
        | GetResponse (GetNotFound _) => (Ok None, c)
        | GetResponse (GetError _) => (Err (Message "remote error: {e}"), c)
        | _ => (Err (Message "unexpected response type"), c)
        end
      end
    end
  end.

(** [chunk_get].  The borrow of the cache that the [if let] takes lives through
    its body, so the [pop] of a corrupted entry would panic. *)
Definition chunk_get (c : DownloadClient) (address : XorName)
    : result js_error (option DataChunk) * DownloadClient :=
  let '(cached, l) := lru_get (chunk_cache c) address in
  let c := mkClient (transport c) (next_request_id c) l in
  match cached with
  | Some cached =>
      if bool_decide (compute_address cached = address)
      then (Ok (Some (mkDataChunk address cached)), c)
      else (Err Panicked, c)
  | None => chunk_fetch c address
  end.

(** The loop over the chunks of the data map. *)
Fixpoint fetch_chunks (c : DownloadClient) (infos : list ChunkInfo) (acc : list EncryptedChunk)
    : result js_error (list EncryptedChunk) * DownloadClient :=
  match infos with
  | [] => (Ok acc, c)
  | info :: infos' =>
    let '(r, c) := chunk_get c (dst_hash info) in
    match r with
    | Err e => (Err e, c)
    | Ok None => (Err (Message "Missing chunk {}/{}: {}"), c)
    | Ok (Some chunk) => fetch_chunks c infos' (acc ++ [content chunk])
    end
  end.

Definition download_from_address (c : DownloadClient) (address : XorName)
    : result js_error bytes * DownloadClient :=
  let '(r, c) := chunk_get c address in
  match r with
  | Err e => (Err e, c)
  | Ok None => (Err (Message "DataMap not found at {}"), c)
  | Ok (Some datamap_chunk) =>
    match from_bytes (content datamap_chunk) with
    | None => (Err (Message "failed to deserialize DataMap: {e}"), c)
    | Some data_map =>
      let '(r, c) := fetch_chunks c (DataMap.infos data_map) [] in
      match r with
      | Err e => (Err e, c)
      | Ok encrypted_chunks =>
          (map_err (fun _ => Message "decryption failed: {e}") (decrypt data_map encrypted_chunks), c)
      end
    end
  end.

(** [WasmClient::fetch_chunk] and [WasmClient::download] on a connected client. *)
Definition fetch_chunk (c : DownloadClient) (address_hex : string)
    : result js_error bytes * DownloadClient :=
  match parse_hex_address address_hex with
  | Err _ => (Err (Message "Invalid address: {e}"), c)
  | Ok address =>
    let '(r, c) := chunk_get c address in
    match r with
    | Err Panicked => (Err Panicked, c)
    | Err (Message _) => (Err (Message "Fetch failed: {e}"), c)
    | Ok None => (Err (Message "Chunk not found"), c)
    | Ok (Some chunk) => (Ok (content chunk), c)
    end
  end.

Definition download (c : DownloadClient) (address_hex : string)
    : result js_error bytes * DownloadClient :=
  match parse_hex_address address_hex with
  | Err _ => (Err (Message "Invalid address: {e}"), c)
  | Ok address =>
    let '(r, c) := download_from_address c address in
    match r with
    | Err Panicked => (Err Panicked, c)
    | Err (Message _) => (Err (Message "Download failed: {e}"), c)
    | Ok data => (Ok data, c)
    end
  end.

(** ** What the cache holds *)

Context `{!LruLaws XorName bytes}.

Definition cache_ok (c : DownloadClient) : Prop :=
  forall a b, lru_peek (chunk_cache c) a = Some b -> compute_address b = a.

Lemma cache_ok_new net : cache_ok (client_new net).
Proof. intros a b. cbn. rewrite lru_new_empty. discriminate. Qed.

(** A result that may leave the client: a verified chunk, or nothing, or an
    error other than a panic. *)
Definition chunk_result_ok (address : XorName) (r : result js_error (option DataChunk)) : Prop :=
  match r with
  | Ok (Some chunk) =>
      Protocol.address chunk = address /\ compute_address (content chunk) = address
  | Ok None => True
  | Err e => e <> Panicked
  end.

Lemma chunk_fetch_ok c a r c' :
  cache_ok c -> chunk_fetch c a = (r, c') -> cache_ok c' /\ chunk_result_ok a r.
Proof.
  intros Hc. unfold chunk_fetch. destruct (encode_message _) as [m|e].
  2:{ intros [= <- <-]. split; [exact Hc | discriminate]. }
  cbn [transport next_request_id chunk_cache].
  destruct (send_request (transport c) m) as [[rb|e] net].
  2:{ intros [= <- <-]. split; [exact Hc | discriminate]. }
  destruct (decode_message rb) as [resp|e].
  2:{ intros [= <- <-]. split; [exact Hc | discriminate]. }
  destruct (body resp) as [|r0|?|[addr ct|?|?]|?|?|?|?];
    try (intros [= <- <-]; split; [exact Hc | first [discriminate | exact I]]; fail).
  case_bool_decide as Ha; cbn [negb].
  2:{ intros [= <- <-]. split; [exact Hc | discriminate]. }
  case_bool_decide as Hh; cbn [negb].
  2:{ intros [= <- <-]. split; [exact Hc | discriminate]. }
  intros [= <- <-]. subst addr. split; [|split; [reflexivity | exact Hh]].
  intros x b. cbn [chunk_cache]. destruct (decide (x = a)) as [->|Hne].
  - intros Hp. apply lru_put_value in Hp as ->. exact Hh.
  - intros Hp. apply lru_put_other in Hp; [|exact Hne]. exact (Hc x b Hp).
Qed.

Lemma chunk_get_ok c a r c' :
  cache_ok c -> chunk_get c a = (r, c') -> cache_ok c' /\ chunk_result_ok a r.
Proof.
  intros Hc. unfold chunk_get. pose proof (lru_get_value (chunk_cache c) a) as Hv.
  pose proof (lru_get_peek (chunk_cache c) a) as Hk.
  destruct (lru_get (chunk_cache c) a) as [[b|] l]; cbn in Hv, Hk.
  - assert (compute_address b = a) as Hb by (apply Hc; congruence).
    rewrite (bool_decide_true _ Hb). intros [= <- <-]. split.
    + intros x y. cbn. rewrite Hk. apply Hc.
    + split; [reflexivity | exact Hb].
  - apply chunk_fetch_ok. intros x y. cbn. rewrite Hk. apply Hc.
Qed.

Lemma fetch_chunks_ok infos c acc r c' :
  cache_ok c -> fetch_chunks c infos acc = (r, c') ->
  cache_ok c' /\ match r with
    | Ok cs => exists new, cs = acc ++ new /\
        Forall2 (fun info b => compute_address b = dst_hash info) infos new
    | Err e => e <> Panicked
    end.
Proof.
  revert c acc. induction infos as [|info infos IH]; intros c acc Hc; cbn [fetch_chunks].
  - intros [= <- <-]. split; [exact Hc|]. exists []. rewrite app_nil_r. auto.
  - destruct (chunk_get c (dst_hash info)) as [r1 c1] eqn:E.
    apply chunk_get_ok in E as [Hc1 Hr1]; [|exact Hc].
    destruct r1 as [[chunk|]|e].
    + intros Hf. apply IH in Hf as [Hc' Hr]; [|exact Hc1]. split; [exact Hc'|].
      destruct r as [cs|e]; [|exact Hr]. destruct Hr as (new & -> & Hnew).
      exists (content chunk :: new). rewrite <- app_assoc. split; [reflexivity|].
      constructor; [apply Hr1 | exact Hnew].
    + intros [= <- <-]. split; [exact Hc1 | discriminate].
    + intros [= <- <-]. split; [exact Hc1 | exact Hr1].
Qed.

Inductive client_op := OpFetch (address : XorName) | OpDownload (address : XorName).

Definition client_exec (c : DownloadClient) (o : client_op) : DownloadClient :=
  match o with
  | OpFetch a => (chunk_get c a).2
  | OpDownload a => (download_from_address c a).2
  end.

Lemma download_ok c a r c' :
  cache_ok c -> download_from_address c a = (r, c') ->
  cache_ok c' /\ match r with
    | Ok data => exists map_bytes data_map chunks, compute_address map_bytes = a /\
        from_bytes map_bytes = Some data_map /\
        Forall2 (fun info b => compute_address b = dst_hash info) (DataMap.infos data_map) chunks /\
        decrypt data_map chunks = Ok data
    | Err e => e <> Panicked
    end.
Proof.
  intros Hc. unfold download_from_address. destruct (chunk_get c a) as [r1 c1] eqn:E.
  apply chunk_get_ok in E as [Hc1 Hr1]; [|exact Hc].
  destruct r1 as [[chunk|]|e].
  2:{ intros [= <- <-]. split; [exact Hc1 | discriminate]. }
  2:{ intros [= <- <-]. split; [exact Hc1 | exact Hr1]. }
  destruct (from_bytes (content chunk)) as [dm|] eqn:Ed.
  2:{ intros [= <- <-]. split; [exact Hc1 | discriminate]. }
  destruct (fetch_chunks c1 (DataMap.infos dm) []) as [r2 c2] eqn:E.
  apply fetch_chunks_ok in E as [Hc2 Hr2]; [|exact Hc1].
  destruct r2 as [cs|e]; intros [= <- <-]; (split; [exact Hc2|]); [|exact Hr2].
  destruct Hr2 as (new & -> & Hnew). cbn [app].
  destruct (decrypt dm new) as [data|e] eqn:Edec; cbn; [|discriminate].
  exists (content chunk), dm, new. destruct Hr1 as [_ Hh]. auto.
Qed.


Lemma exec_cache_ok os c : cache_ok c -> cache_ok (fold_left client_exec os c).
Proof.
  revert c. induction os as [|o os IH]; intros c Hc; [exact Hc|]. apply IH. destruct o as [a|a]; cbn.
  - destruct (chunk_get c a) as [r c'] eqn:E. apply chunk_get_ok in E; tauto.
  - destruct (download_from_address c a) as [r c'] eqn:E. apply download_ok in E; tauto.
Qed.

(** ** A transport that serves *)

(** [published] chunks by address; [good n net] when the transport will serve [n]
    more requests. *)
Context (published : gmap XorName bytes) (good : nat -> Net -> Prop).

Definition get_message (id : Z) (a : XorName) : ChunkMessage :=
  mkMessage id (GetRequest (mkGetRequest a)).

Record serves : Prop := {
  serves_hash a b : published !! a = Some b -> compute_address b = a;
  serves_encodes id a :
    usize_ok id -> is_Some (published !! a) -> is_ok (encode_message (get_message id a)) = true;
  serves_less n net : good (S n) net -> good n net;
  serves_get n net id a b m :
    good (S n) net -> usize_ok id -> published !! a = Some b ->
    encode_message (get_message id a) = Ok m ->
    exists rb id', (send_request net m).1 = Ok rb /\
      decode_message rb = Ok (mkMessage id' (GetResponse (GetSuccess a b))) /\
      good n (send_request net m).2
}.

Definition cache_published (c : DownloadClient) : Prop :=
  usize_ok (next_request_id c) /\
  forall a b, lru_peek (chunk_cache c) a = Some b -> published !! a = Some b.

Lemma wadd_usize a b : usize_ok (wadd a b).
Proof. apply Z.mod_pos_bound. reflexivity. Qed.

Lemma chunk_get_serves (Hs : serves) n c a b :
  good (S n) (transport c) -> cache_published c -> published !! a = Some b ->
  exists c', chunk_get c a = (Ok (Some (mkDataChunk a b)), c') /\
    good n (transport c') /\ cache_published c'.
Proof.
  intros Hg [Hid Hc] Hp. pose proof (serves_hash Hs a b Hp) as Hh. unfold chunk_get.
  pose proof (lru_get_value (chunk_cache c) a) as Hv. pose proof (lru_get_peek (chunk_cache c) a) as Hk.
  destruct (lru_get (chunk_cache c) a) as [[b0|] l]; cbn in Hv, Hk.
  - assert (b0 = b) as -> by (apply (inj Some); rewrite <- Hp; symmetry; apply Hc; congruence).
    rewrite (bool_decide_true _ Hh). eexists. split; [reflexivity|].
    split; [exact (serves_less Hs _ _ Hg)|]. split; [exact Hid|].
    intros x y. cbn. rewrite Hk. apply Hc.
  - unfold chunk_fetch. cbn [next_request_id transport chunk_cache].
    pose proof (serves_encodes Hs (next_request_id c) a Hid (ex_intro _ b Hp)) as He. unfold get_message in He.
    destruct (encode_message _) as [m|] eqn:Em; [|discriminate].
    destruct (serves_get Hs n _ _ _ _ _ Hg Hid Hp Em) as (rb & id' & Hr & Hd & Hn).
    destruct (send_request (transport c) m) as [r net]. cbn in Hr, Hn. rewrite Hr, Hd. cbn [body].
    rewrite (bool_decide_true (a = a)), (bool_decide_true _ Hh) by reflexivity. cbn [negb].
    eexists. split; [reflexivity|]. split; [exact Hn|]. split; [apply wadd_usize|].
    intros x y. cbn [chunk_cache].
    destruct (decide (x = a)) as [->|Hne].
    + intros Hx. apply lru_put_value in Hx as ->. exact Hp.
    + intros Hx. apply lru_put_other in Hx; [|exact Hne]. rewrite Hk in Hx. exact (Hc x y Hx).
Qed.

Lemma fetch_chunks_serves (Hs : serves) infos cs c acc n :
  Forall2 (fun info b => dst_hash info = content_hash b) infos cs ->
  Forall (fun b => published !! content_hash b = Some b) cs ->
  good (length infos + n) (transport c) -> cache_published c ->
  exists c', fetch_chunks c infos acc = (Ok (acc ++ cs), c') /\ good n (transport c').
Proof.
  intros Hf. revert c acc. induction Hf as [|info b infos cs Hd Hf IH]; intros c acc Hp Hg Hc.
  - exists c. rewrite app_nil_r. auto.
  - apply Forall_cons in Hp as [Hb Hp]. cbn [fetch_chunks]. rewrite Hd.
    destruct (chunk_get_serves Hs _ c (content_hash b) b Hg Hc Hb) as (c1 & E & Hg1 & Hc1).
    rewrite E. cbn [content]. destruct (IH c1 (acc ++ [b]) Hp Hg1 Hc1) as (c' & E' & Hg').
    exists c'. rewrite E', <- app_assoc. auto.
Qed.

Lemma download_serves (Hs : serves) data dm cs b n net
    `{!Blake3Laws, !AeadLaws, !BrotliLaws, !CodecLaws bincode VersionedDataMap} :
  1 <= MAX_CHUNK_SIZE -> encrypt_chunks data 0 = Ok (dm, cs) -> collision_free cs ->
  to_bytes dm = Some b -> published !! compute_address b = Some b ->
  Forall (fun c => published !! content_hash c = Some c) cs ->
  good (S (length cs + n)) net ->
  exists c', download_from_address (client_new net) (compute_address b) = (Ok data, c') /\
    good n (transport c').
Proof.
  intros HM He Hcf Hb Hpm Hpc Hg. pose proof (encrypt_chunks_Ok HM _ _ _ _ He) as (_ & -> & _).
  pose proof (encrypt_chunks_length HM _ _ _ _ He) as (Hl & _ & _).
  pose proof (file_map_lookup_infos data cs Hl) as Hinfos.
  unfold download_from_address.
  destruct (chunk_get_serves Hs (length cs + n) (client_new net) (compute_address b) b Hg)
    as (c1 & E & Hg1 & Hc1); [|exact Hpm|].
  { split; [split; [discriminate | reflexivity]|]. intros x y. cbn. rewrite lru_new_empty. discriminate. }
  rewrite E. cbn [content]. rewrite (from_bytes_to_bytes _ _ Hb).
  rewrite <- (Forall2_length _ _ _ Hinfos) in Hg1.
  destruct (fetch_chunks_serves Hs _ cs c1 [] n Hinfos Hpc Hg1 Hc1) as (c2 & E2 & Hg2).
  rewrite E2. cbn [app]. rewrite (decrypt_root HM data cs cs He Hcf) by reflexivity.
  exists c2. auto.
Qed.

End Client.

(** C22: Whatever the transport answers, the browser client only hands out
    verified data.  After any sequence of fetches and downloads, a chunk it
    returns carries the address asked for, and that is its content's hash; a
    download it returns is the decryption of a data map whose bytes hash to the
    address, from chunks that each hash to the map's entry; and the panic that
    would meet a corrupted cache entry is never reached. *)
Theorem browser_hands_out_verified_data
    `{Config, Blake3, Aead, Brotli, !Codec bincode VersionedDataMap, !Codec postcard ChunkMessage}
    `{!Lru XorName bytes, !LruLaws XorName bytes} {Net : Type}
    (send_request : Net -> bytes -> result string bytes * Net) (net : Net) (os : list client_op)
    (a : XorName) :
  let c := fold_left (client_exec send_request) os (client_new net) in
  (forall chunk, (chunk_get send_request c a).1 = Ok (Some chunk) ->
     Protocol.address chunk = a /\ compute_address (content chunk) = a) /\
  (forall data, (download_from_address send_request c a).1 = Ok data ->
     exists map_bytes data_map chunks, compute_address map_bytes = a /\
       from_bytes map_bytes = Some data_map /\
       Forall2 (fun info b => compute_address b = dst_hash info) (DataMap.infos data_map) chunks /\
       decrypt data_map chunks = Ok data) /\
  (chunk_get send_request c a).1 <> Err Panicked /\
  (download_from_address send_request c a).1 <> Err Panicked.
Proof.
  cbv zeta. set (c := fold_left _ _ _).
  assert (cache_ok c) as Hc by exact (exec_cache_ok send_request os _ (cache_ok_new net)).
  destruct (chunk_get send_request c a) as [r1 c1] eqn:E1.
  destruct (download_from_address send_request c a) as [r2 c2] eqn:E2.
  destruct (chunk_get_ok send_request _ _ _ _ Hc E1) as [_ Hget].
  destruct (download_ok send_request _ _ _ _ Hc E2) as [_ Hdown].
  cbn [fst]. split; [|split; [|split]].
  - intros chunk ->. exact Hget.
  - intros data ->. exact Hdown.
  - intros ->. exact (Hget eq_refl).
  - intros ->. exact (Hdown eq_refl).
Qed.

(** ** A concrete codec for the messages a browser exchanges *)

(** A request is its tag, the id and the address; a reply that found the chunk
    adds the content. *)
Definition get_codec : Codec postcard ChunkMessage := {|
  ser m :=
    match body m with
    | GetRequest r =>
        if decide (usize_ok (request_id m) /\ lenZ (get_address r) = 32)
        then Some (x01 :: le_bytes 8 (request_id m) ++ get_address r) else None
    | GetResponse (GetSuccess a c) =>
        if decide (usize_ok (request_id m) /\ lenZ a = 32)
        then Some (x02 :: le_bytes 8 (request_id m) ++ a ++ c) else None
    | GetResponse (GetNotFound a) =>
        if decide (usize_ok (request_id m) /\ lenZ a = 32)
        then Some (x03 :: le_bytes 8 (request_id m) ++ a) else None
    | _ => None
    end;
  de b :=
    match b with
    | t :: r =>
        let id := from_le (take 8 r) in
        let r := drop 8 r in
        if bool_decide (t = x01) then Some (mkMessage id (GetRequest (mkGetRequest r)))
        else if bool_decide (t = x02) then
          Some (mkMessage id (GetResponse (GetSuccess (take 32 r) (drop 32 r))))
        else if bool_decide (t = x03) then Some (mkMessage id (GetResponse (GetNotFound r)))
        else None
    | [] => None
    end
|}.

Lemma get_codec_laws : @CodecLaws postcard ChunkMessage get_codec.
Proof.
  split. intros [id b] bs. cbn [ser get_codec body request_id].
  assert (forall rest, usize_ok id -> from_le (take 8 (le_bytes 8 id ++ rest)) = id /\
    drop 8 (le_bytes 8 id ++ rest) = rest) as Hid.
  { intros rest Hu. rewrite take_app_length', drop_app_length' by (rewrite length_le_bytes; reflexivity).
    split; [apply from_le_bytes; exact Hu | reflexivity]. }
  destruct b as [| |[a]|[a c|a|]| | | |]; try discriminate; cbn [get_address];
    case_decide as Hd; try discriminate; destruct Hd as [Hu Ha]; intros Hbs; apply (inj Some) in Hbs; subst bs.
  - destruct (Hid a Hu) as [H1 H2]. cbn -[le_bytes from_le take drop]. rewrite H1, H2. reflexivity.
  - destruct (Hid (a ++ c) Hu) as [H1 H2]. cbn -[le_bytes from_le take drop]. rewrite H1, H2.
    unfold lenZ in Ha. rewrite take_app_length', drop_app_length' by lia. reflexivity.
  - destruct (Hid a Hu) as [H1 H2]. cbn -[le_bytes from_le take drop]. rewrite H1, H2. reflexivity.
Qed.

#[local] Existing Instance get_codec.

(** A transport that answers every request with the same bytes. *)
Definition stubborn (net : bytes) (_ : bytes) : result string bytes * bytes := (Ok net, net).

(** It answers with the right chunk for one address, and is refused for another. *)
Lemma browser_hands_out_verified_data_witness :
  let c : Config := {| MAX_CHUNK_SIZE := 200 |} in
  let a := compute_address [x01] in
  let reply := default [] (ser postcard (mkMessage 1 (GetResponse (GetSuccess a [x01])))) in
  let client := fold_left (client_exec stubborn) [OpFetch a; OpDownload []] (client_new reply) in
  (chunk_get stubborn client a).1 = Ok (Some (mkDataChunk a [x01])) /\
  (chunk_get stubborn client (compute_address [x02])).1 = Err (Message "address mismatch: expected {}, got {}") /\
  compute_address [x01] = a.
Proof.
  set (c := {| MAX_CHUNK_SIZE := 200 |}). cbv zeta.
  set (a := compute_address [x01]).
  set (reply := default [] (ser postcard (mkMessage 1 (GetResponse (GetSuccess a [x01]))))).
  set (client := fold_left (client_exec stubborn) [OpFetch a; OpDownload []] (client_new reply)).
  assert ((chunk_get stubborn client a).1 = Ok (Some (mkDataChunk a [x01]))) as Hget
    by (vm_compute; reflexivity).
  destruct (browser_hands_out_verified_data stubborn reply [OpFetch a; OpDownload []] a)
    as [Hchunk _].
  split; [exact Hget|]. split; [vm_compute; reflexivity|].
  destruct (Hchunk _ Hget) as [_ Hh]. exact Hh.
Defined.

(** A transport to a node that holds these contents. *)
Definition serve_all `{Blake3} (net : list bytes) (m : bytes) : result string bytes * list bytes :=
  (match decode_message m with
   | Ok (mkMessage id (GetRequest r)) =>
     let reply :=
       match list_find (fun c => compute_address c = get_address r) net with
       | Some (_, c) => GetSuccess (get_address r) c
       | None => GetNotFound (get_address r)
       end in
     map_err (fun _ => "encode"%string) (encode_message (mkMessage id (GetResponse reply)))
   | _ => Err "unexpected request"%string
   end, net).

(** The browser client cannot download a file whose data map was shrunk: it
    fetches the chunks the shrunk map lists, which hold only the root map, and
    then decrypts without the file's own chunks.  With 180-byte chunks a 900-byte
    file encrypts and decrypts, but downloading it from a transport that serves
    every one of its chunks fails. *)
Theorem shrunk_files_cannot_be_downloaded :
  let c : Config := {| MAX_CHUNK_SIZE := 180 |} in
  exists dm cs map_bytes, encrypt (sample_file 900) = Some (Ok (dm, cs)) /\
    DataMap.is_child dm = true /\ to_bytes dm = Some map_bytes /\
    decrypt dm cs = Ok (sample_file 900) /\
    (download_from_address serve_all (client_new (map_bytes :: cs)) (compute_address map_bytes)).1 =
      Err (Message "decryption failed: {e}").
Proof.
  set (c := {| MAX_CHUNK_SIZE := 180 |}). cbv zeta.
  assert (Hc : match encrypt (sample_file 900) with
    | Some (Ok (dm, cs)) =>
      match to_bytes dm with
      | Some b =>
          DataMap.is_child dm = true /\ decrypt dm cs = Ok (sample_file 900) /\
          (download_from_address serve_all (client_new (b :: cs)) (compute_address b)).1 =
            Err (Message "decryption failed: {e}")
      | None => False
      end
    | _ => False
    end) by (vm_compute; repeat split; reflexivity).
  destruct (encrypt (sample_file 900)) as [[[dm cs]|]|]; try contradiction.
  destruct (to_bytes dm) as [b|] eqn:Eb; [|contradiction]. destruct Hc as (H1 & H2 & H3).
  exists dm, cs, b. auto.
Qed.
