(* ===== verification/NetFetch.v ===== *)
(** * Relaying a chunk from the network

    [ant-node/src/client/chunk_protocol.rs] and [try_network_fetch] of
    [ant-node/src/webtransport/server.rs]: when a node does not hold a chunk a
    browser asks for, it asks the closest peers over the peer-to-peer network.
    What that network does is an argument: the peers it finds, whether sending
    works, and the events that arrive before the deadline. *)

From Stdlib Require Import ZArith Lia Strings.Byte.
From stdpp Require Import base list strings gmap.
From S2P Require Import Prelude Interfaces Cipher Reference Protocol Evm Metrics Storage PayCache.
From S2P Require Import Quote PayProof Verifier Handler.

Local Open Scope Z_scope.

(** Events of the peer-to-peer node; [MessageEvent] without a source is an event
    of another kind here. *)
Inductive p2p_event :=
| MessageEvent (topic : string) (source : bytes) (data : bytes)
| OtherEvent
| Lagged (skipped : Z)
| Closed.

Definition CHUNK_PROTOCOL_ID : string := "autonomi/ant/chunk/v1".

Section Send.
Context `{!Codec postcard ChunkMessage}.

(** The event loop: the list ends where the deadline falls. *)
Fixpoint await_response {T E} (target_peer : bytes) (request_id : Z)
    (response_handler : ChunkMessageBody -> option (result E T)) (timeout_error : E)
    (events : list p2p_event) : result E T :=
  match events with
  | [] => Err timeout_error
  | MessageEvent topic source data :: events' =>
      if bool_decide (topic = CHUNK_PROTOCOL_ID) && bool_decide (source = target_peer) then
        match decode_message data with
        | Err _ => await_response target_peer request_id response_handler timeout_error events'
        | Ok response =>
          if negb (Protocol.request_id response =? request_id) then
            await_response target_peer request_id response_handler timeout_error events'
          else
            match response_handler (body response) with
            | Some r => r
            | None => await_response target_peer request_id response_handler timeout_error events'
            end
        end
      else await_response target_peer request_id response_handler timeout_error events'
  | OtherEvent :: events' | Lagged _ :: events' =>
      await_response target_peer request_id response_handler timeout_error events'
  | Closed :: _ => Err timeout_error
  end.

Definition send_and_await_chunk_response {T E} (target_peer : bytes) (request_id : Z)
    (sent : result string unit) (events : list p2p_event)
    (response_handler : ChunkMessageBody -> option (result E T)) (send_error : string -> E)
    (timeout_error : E) : result E T :=
  match sent with
  | Err e => Err (send_error e)
  | Ok _ => await_response target_peer request_id response_handler timeout_error events
  end.

End Send.

(** The network as one call sees it: the closest peers to an address, and for
    each peer and message whether it was sent and what then arrived. *)
Record p2p_net := mkNet {
  find_closest_nodes : XorName -> nat -> result string (list bytes);
  exchange_with : bytes -> bytes -> result string unit * list p2p_event
}.

Section Fetch.
Context `{Blake3, !Codec postcard ChunkMessage}.

Definition fetch_handler (b : ChunkMessageBody) : option (result string bytes) :=
  match b with
  | GetResponse (GetSuccess addr content) =>
      let computed := compute_address content in
      if bool_decide (computed = addr) then Some (Ok content) else None
  | GetResponse (GetNotFound _) => Some (Err "not found on peer"%string)
  | _ => None
  end.

Fixpoint try_peers (net : p2p_net) (get_request_id : Z) (get_bytes : bytes) (closest : list bytes)
    : option bytes :=
  match closest with
  | [] => None
  | peer :: closest' =>
    let '(sent, events) := exchange_with net peer get_bytes in
    match send_and_await_chunk_response peer get_request_id sent events fetch_handler
            (fun e => "send error: {e}"%string) "timeout"%string with
    | Ok content => Some content
    | Err _ => try_peers net get_request_id get_bytes closest'
    end
  end.

(** [random_id] is the drawn id of the message to the peers. *)
Definition try_network_fetch (random_id : Z) (local_response : bytes) (p2p_node : option p2p_net)
    : option bytes :=
  p2p ← p2p_node;
  resp_msg ← res_ok (decode_message local_response);
  match body resp_msg with
  | GetResponse (GetNotFound address) =>
      closest ← res_ok (find_closest_nodes p2p address CLOSE_GROUP_SIZE);
      if bool_decide (closest = []) then None
      else
        get_bytes ← res_ok (encode_message (mkMessage random_id (GetRequest (mkGetRequest address))));
        content ← try_peers p2p random_id get_bytes closest;
        res_ok (encode_message
                  (mkMessage (request_id resp_msg) (GetResponse (GetSuccess address content))))
  | _ => None
  end.

(** *** Facts *)

Lemma await_response_from {T E} peer id handler (timeout_error : E) events (v : T) :
  await_response peer id handler timeout_error events = Ok v ->
  exists data m, MessageEvent CHUNK_PROTOCOL_ID peer data ∈ events /\
    decode_message data = Ok m /\ request_id m = id /\ handler (body m) = Some (Ok v).
Proof.
  induction events as [|ev events IH]; cbn [await_response]; [discriminate|].
  assert (await_response peer id handler timeout_error events = Ok v ->
    exists data m, MessageEvent CHUNK_PROTOCOL_ID peer data ∈ ev :: events /\
    decode_message data = Ok m /\ request_id m = id /\ handler (body m) = Some (Ok v)) as IH'.
  { intros Hv. destruct (IH Hv) as (data & m & Hin & Hrest). exists data, m.
    split; [right; exact Hin | exact Hrest]. }
  destruct ev as [topic source data | | k |]; [|exact IH' | exact IH' | discriminate].
  case_bool_decide as Ht; [|exact IH']. case_bool_decide as Hs; [|exact IH']. cbn [andb].
  destruct (decode_message data) as [m|] eqn:Ed; [|exact IH'].
  destruct (request_id m =? id) eqn:Ei; [|exact IH']. cbn [negb].
  destruct (handler (body m)) as [r|] eqn:Eh; [|exact IH'].
  intros ->. b2p. exists data, m. subst. split; [left|]. auto.
Qed.

(** Where a fetched content comes from: one of the peers sent it, in answer to the
    request, under an address that is its hash. *)
Definition sent_by_peer (net : p2p_net) (id : Z) (get_bytes : bytes) (peer content : bytes) : Prop :=
  exists data addr, (exchange_with net peer get_bytes).1 = Ok tt /\
    MessageEvent CHUNK_PROTOCOL_ID peer data ∈ (exchange_with net peer get_bytes).2 /\
    decode_message data = Ok (mkMessage id (GetResponse (GetSuccess addr content))) /\
    compute_address content = addr.

Lemma try_peers_from net id get_bytes closest content :
  try_peers net id get_bytes closest = Some content ->
  exists peer, peer ∈ closest /\ sent_by_peer net id get_bytes peer content.
Proof.
  unfold sent_by_peer. induction closest as [|peer closest IH]; cbn [try_peers]; [discriminate|].
  destruct (exchange_with net peer get_bytes) as [sent events] eqn:Ex.
  unfold send_and_await_chunk_response.
  destruct sent as [[]|e].
  - destruct (await_response peer id fetch_handler "timeout"%string events) as [c|e] eqn:Ea.
    + intros [= <-]. apply await_response_from in Ea as (data & m & Hin & Hd & Hid & Hh).
      exists peer. split; [left|]. destruct m as [mid b]. cbn in Hid, Hh. subst mid.
      destruct b as [| | |[addr ct|?|?]| | | |]; try discriminate. cbn in Hh.
      case_bool_decide as Hc; [|discriminate]. injection Hh as ->.
      exists data, addr. rewrite Ex. auto.
    + intros Ht. destruct (IH Ht) as (p & Hp & Hs). exists p. split; [right; exact Hp | exact Hs].
  - intros Ht. destruct (IH Ht) as (p & Hp & Hs). exists p. split; [right; exact Hp | exact Hs].
Qed.

End Fetch.

(** C21: A relayed reply is only ever made for a local "not found", under the
    request id and address of it, and its content was sent by one of the closest
    peers in answer to the node's own request, under an address that is the hash
    of the content.  So when every peer answers only for the address it was asked
    about, what is relayed is the chunk that was asked for; the node itself does
    not compare the two addresses. *)
Theorem network_fetch_relays_peers_content `{Blake3, !Codec postcard ChunkMessage}
    (net : p2p_net) (random_id : Z) (local_response reply : bytes)
    (Hf : try_network_fetch random_id local_response (Some net) = Some reply) :
  exists id address content get_bytes peer closest,
    decode_message local_response = Ok (mkMessage id (GetResponse (GetNotFound address))) /\
    encode_message (mkMessage id (GetResponse (GetSuccess address content))) = Ok reply /\
    encode_message (mkMessage random_id (GetRequest (mkGetRequest address))) = Ok get_bytes /\
    find_closest_nodes net address CLOSE_GROUP_SIZE = Ok closest /\ peer ∈ closest /\
    sent_by_peer net random_id get_bytes peer content /\
    ((forall data addr c, MessageEvent CHUNK_PROTOCOL_ID peer data ∈ (exchange_with net peer get_bytes).2 ->
        decode_message data = Ok (mkMessage random_id (GetResponse (GetSuccess addr c))) ->
        addr = address) ->
     compute_address content = address).
Proof.
  unfold try_network_fetch in Hf. cbn [mbind option_bind] in Hf.
  destruct (decode_message local_response) as [[id b]|] eqn:Ed; [|discriminate]. cbn in Hf.
  destruct b as [| | |[|address|]| | | |]; try discriminate.
  destruct (find_closest_nodes net address CLOSE_GROUP_SIZE) as [closest|] eqn:Ec; [|discriminate].
  cbn in Hf. case_bool_decide as Hne; [discriminate|].
  destruct (encode_message (mkMessage random_id (GetRequest (mkGetRequest address)))) as [gb|] eqn:Eg;
    [|discriminate]. cbn in Hf.
  destruct (try_peers net random_id gb closest) as [content|] eqn:Et; [|discriminate]. cbn in Hf.
  destruct (encode_message (mkMessage id (GetResponse (GetSuccess address content)))) as [rb|] eqn:Er;
    [|discriminate]. injection Hf as ->.
  apply try_peers_from in Et as (peer & Hp & Hs).
  exists id, address, content, gb, peer, closest. repeat (split; [assumption || reflexivity|]).
  intros Honest. destruct Hs as (data & addr & _ & Hin & Hd & Hc).
  rewrite Hc. exact (Honest data addr content Hin Hd).
Qed.

(** The request a browser makes and the reply it gets, with the relay: the
    processing of [handle_encrypted_stream] between decryption and encryption. *)
Section Process.
Context `{Blake3, Evm, Dsa, PeerIds, !Lru XorName unit, !Lru bytes OnChainPaymentInfo}.
Context `{!Codec rmp_serde PaymentProof, !Codec rmp_serde MerklePaymentProof}.
Context `{!Codec rmp_serde PersistedMetrics, !Codec rmp_serde PaymentQuote}.
Context `{!Codec rmp_serde MerklePaymentCandidateNode, !Codec postcard ChunkMessage}.

Definition node_process (e : env) (random_id : Z) (p2p : option p2p_net) (p : AntProtocol)
    (plaintext : bytes) : option bytes * AntProtocol :=
  match try_handle_request e p plaintext with
  | (Ok (Some resp), p') => (Some (default resp (try_network_fetch random_id resp p2p)), p')
  | (_, p') => (None, p')
  end.
End Process.

(** ** Concrete peers *)

Definition miss : ChunkMessage := mkMessage 5 (GetResponse (GetNotFound sample_address)).
Definition ask : ChunkMessage := mkMessage 99 (GetRequest (mkGetRequest sample_address)).
Definition found : ChunkMessage :=
  mkMessage 99 (GetResponse (GetSuccess sample_address [x01; x02; x03])).
Definition relayed : ChunkMessage :=
  mkMessage 5 (GetResponse (GetSuccess sample_address [x01; x02; x03])).
(** An answer about another chunk. *)
Definition other : ChunkMessage := mkMessage 99 (GetResponse (GetSuccess (compute_address [x09]) [x09])).
Definition misrelayed : ChunkMessage := mkMessage 5 (GetResponse (GetSuccess sample_address [x09])).

#[local] Instance sample_fetch_codec : Codec postcard ChunkMessage :=
  table_codec [(miss, [x01]); (ask, [x02]); (found, [x03]); (relayed, [x04]); (other, [x05]);
               (misrelayed, [x06])].

(** One peer stays silent, the second sends noise and then [answer]. *)
Definition sample_net (answer : bytes) : p2p_net := {|
  find_closest_nodes _ _ := Ok [[x0a]; [x0b]];
  exchange_with peer _ :=
    if bool_decide (peer = [x0a]) then (Ok tt, [OtherEvent; Lagged 3])
    else (Ok tt, [MessageEvent CHUNK_PROTOCOL_ID [x0c] [x03]; MessageEvent CHUNK_PROTOCOL_ID [x0b] answer])
|}.

Lemma network_fetch_relays_peers_content_witness :
  try_network_fetch 99 [x01] (Some (sample_net [x03])) = Some [x04] /\
  exists gb peer content, sent_by_peer (sample_net [x03]) 99 gb peer content.
Proof.
  assert (try_network_fetch 99 [x01] (Some (sample_net [x03])) = Some [x04]) as Hf
    by (vm_compute; reflexivity).
  split; [exact Hf|].
  destruct (network_fetch_relays_peers_content _ _ _ _ Hf)
    as (id & address & content & gb & peer & closest & _ & _ & _ & _ & _ & Hs & _).
  exists gb, peer, content. exact Hs.
Defined.

(** The relay passes on another chunk than the one asked for when a peer answers
    with one. *)
Lemma network_fetch_relays_other_chunk :
  try_network_fetch 99 [x01] (Some (sample_net [x05])) = Some [x06] /\
  decode_message [x06] = Ok misrelayed /\ compute_address [x09] <> sample_address.
Proof. repeat split; vm_compute; (reflexivity || discriminate). Qed.
