(* ===== verification/EndToEnd.v ===== *)
(** * From a node's store to a browser's file

    The components together: a [DownloadClient] whose transport is the client end
    of a PQC session, the session's server end, the relay and the protocol handler
    of a node. *)

From Stdlib Require Import ZArith Lia Strings.Byte.
From stdpp Require Import base list strings gmap.
From S2P Require Import Prelude Interfaces ChunkMath Cipher DataMap Reference Encrypt Decrypt.
From S2P Require Import RoundTrip Protocol Tunnel Session Evm Metrics Storage PayCache Quote.
From S2P Require Import PayProof Verifier Handler NetFetch WasmClient.

Local Open Scope Z_scope.

Section EndToEnd.
Context `{Config, Blake3, Aead, Brotli, Kem, Dsa, Evm, PeerIds}.
Context `{!Codec bincode VersionedDataMap, !Codec postcard ChunkMessage, !Lru XorName bytes}.
Context `{!Lru XorName unit, !Lru bytes OnChainPaymentInfo}.
Context `{!Codec rmp_serde PaymentProof, !Codec rmp_serde MerklePaymentProof}.
Context `{!Codec rmp_serde PersistedMetrics, !Codec rmp_serde PaymentQuote}.
Context `{!Codec rmp_serde MerklePaymentCandidateNode}.

(** What the network, the node's environment and the peers do at each request. *)
Context (nets : nat -> network) (envs : nat -> env) (ids : nat -> Z) (p2p : option p2p_net).

(** Both ends of a session and the number of requests made. *)
Record tunnel := mkTunnel {
  client_end : WtTransport;
  server_end : server_session AntProtocol;
  made : nat
}.

Definition tunnel_send (n : tunnel) (m : bytes) : result string bytes * tunnel :=
  let '(r, t, s) := round (node_process (envs (made n)) (ids (made n)) p2p) (nets (made n))
                      (client_end n) (server_end n) m in
  (r, mkTunnel t s (S (made n))).

(** ** Assumptions *)

(** The messages of a download: postcard adds less than a megabyte to a chunk. *)
Definition browser_message (m : ChunkMessage) : Prop :=
  usize_ok (request_id m) /\
  match body m with
  | GetRequest r => lenZ (get_address r) = 32
  | GetResponse (GetSuccess a c) => lenZ a = 32 /\ lenZ c <= MAX_CHUNK_BYTES
  | _ => False
  end.

Definition codec_fits : Prop := forall m, browser_message m ->
  exists b, encode_message m = Ok b /\ lenZ b <= MAX_WIRE_MESSAGE_SIZE.

(** Streams reach a server with permits to spare, responses arrive in any pieces,
    and the reads of the store do not fail. *)
Definition favourable : Prop := forall k,
  (exists global cut, nets k = Delivers global cut /\ global < MAX_CONCURRENT_STREAMS /\
     forall b, concat (cut b) = b) /\
  forall call, op_fails (envs k) call = false.

(** A session that will serve [n] more requests from a node that holds the
    published chunks. *)
Definition tunnel_good (published : gmap XorName bytes) (n : nat) (net : tunnel) : Prop :=
  in_sync (client_end net) (server_end net) /\
  stream_seq (client_end net) + Z.of_nat n <= MAX_STREAM_SEQ /\
  streams_in_session (server_end net) < MAX_STREAMS_PER_SESSION /\
  published ⊆ db (storage (node (server_end net))).

Context `{!AeadLaws, !Blake3Laws, !CodecLaws postcard ChunkMessage}.

(** The node's answer to a browser's request for a chunk it holds. *)
Lemma node_answers e id p a b rid m :
  codec_fits -> (forall call, op_fails e call = false) -> db (storage p) !! a = Some b ->
  compute_address b = a -> lenZ b <= MAX_CHUNK_BYTES -> usize_ok id ->
  encode_message (get_message id a) = Ok m -> lenZ m <= MAX_WIRE_MESSAGE_SIZE ->
  exists rb p', node_process e rid p2p p m = (Some rb, p') /\ db (storage p') = db (storage p) /\
    decode_message rb = Ok (mkMessage id (GetResponse (GetSuccess a b))) /\
    lenZ rb <= MAX_WIRE_MESSAGE_SIZE.
Proof.
  intros Hfit Hf Ha Hh Hb Hid Hm Hl.
  assert (lenZ a = 32) as Hla by (rewrite <- Hh; unfold lenZ, compute_address; rewrite blake3_hash_length; reflexivity).
  assert (browser_message (mkMessage id (GetResponse (GetSuccess a b)))) as Hbm by (split; cbn; auto).
  destruct (Hfit _ Hbm) as (rb & He & Hrl).
  assert (decode_message rb = Ok (mkMessage id (GetResponse (GetSuccess a b)))) as Hdr
    by (apply decode_encode_message; assumption).
  assert (handle_get e p (mkGetRequest a) =
          (GetSuccess a b, with_storage p (add_retrieved (storage p) (lenZ b)))) as Hg.
  { unfold handle_get, get, get_read, call, get_end. rewrite !Hf. cbn [get_address mbind result_bind].
    rewrite Ha, (bool_decide_true _ Hh), andb_false_r. reflexivity. }
  exists rb, (with_storage p (add_retrieved (storage p) (lenZ b))).
  split; [|split; [reflexivity | split; assumption]].
  unfold node_process, try_handle_request. rewrite (decode_encode_message _ _ Hm Hl).
  cbn [get_message body handle_body request_id]. rewrite Hg. cbn [get_message] in *. rewrite He.
  cbn [mbind result_bind map_err]. unfold try_network_fetch. destruct p2p as [net|]; [|reflexivity].
  cbn [mbind option_bind]. rewrite Hdr. reflexivity.
Qed.

Lemma tunnel_serves published :
  codec_fits -> favourable -> encryption_total ->
  map_Forall (fun a b => compute_address b = a /\ lenZ b <= MAX_CHUNK_BYTES) published ->
  serves tunnel_send published (tunnel_good published).
Proof.
  intros Hfit Hfav Htot Hpub.
  assert (forall a b, published !! a = Some b -> lenZ a = 32) as Hlen.
  { intros a b Ha. destruct (Hpub a b Ha) as [<- _]. unfold lenZ, compute_address.
    rewrite blake3_hash_length. reflexivity. }
  constructor.
  - intros a b Ha. apply (Hpub a b Ha).
  - intros id a Hid [b Ha]. destruct (Hfit (get_message id a) (conj Hid (Hlen a b Ha))) as (m & -> & _).
    reflexivity.
  - intros n net (Hs & Hq & Hr). split; [exact Hs|]. split; [lia | exact Hr].
  - intros n [t s k] id a b m (Hs & Hq & Hst & Hsub) Hid Ha Hm. cbn [client_end server_end made] in *.
    destruct (Hfav k) as [(global & cut & Hnet & Hg & Hcut) Hf].
    destruct (Hfit (get_message id a) (conj Hid (Hlen a b Ha))) as (m' & Hm' & Hl).
    rewrite Hm in Hm'. injection Hm' as <-. destruct (Hpub a b Ha) as [Hh Hbl].
    pose proof (lookup_weaken _ _ _ _ Ha Hsub) as Hdb.
    destruct (node_answers (envs k) id (node s) a b (ids k) m Hfit Hf Hdb Hh Hbl Hid Hm Hl)
      as (rb & p' & Hproc & Hdbs & Hdec & Hrl).
    unfold tunnel_send. cbn [client_end server_end made]. rewrite Hnet.
    destruct (round_delivers (node_process (envs k) (ids k) p2p) t s global cut m)
      as (r & s' & Hround & Hs' & Hst' & Hout); try assumption.
    + lia.
    + unfold request_fits, MAX_WIRE_MESSAGE_SIZE in *. lia.
    + rewrite Hproc. intros resp node' [= <- <-].
      unfold response_fits, MAX_WIRE_MESSAGE_SIZE in *. lia.
    + rewrite Hround. unfold permitted in Hout.
      rewrite (proj2 (Z.ltb_lt _ _) Hg), (proj2 (Z.ltb_lt _ _) Hst) in Hout.
      cbn [andb] in Hout. rewrite Hproc in Hout. destruct Hout as [-> Hn].
      exists rb, id. split; [reflexivity|]. split; [exact Hdec|]. cbn [fst snd].
      split; [exact Hs'|]. cbn [client_end server_end set_seq stream_seq]. split; [lia|].
      split; [congruence|]. rewrite Hn, Hdbs. exact Hsub.
Qed.

End EndToEnd.

(** C23: A browser connected to a node that holds the data map and the encrypted
    chunks of a file downloads exactly that file: through its cache, the message
    codec, the encrypted session cut into arbitrary pieces, the node's handler and
    store, and self-decryption, for any file whose published map is its root map:
    the client publishes that map itself only for files of at most three chunks, and
    the browser cannot download larger ones ([shrunk_files_cannot_be_downloaded]).
    It needs a synchronised session with sequence numbers to spare, permits at the
    server and a store whose reads do not fail. *)
Theorem browser_downloads_file_from_node
    `{Config, Blake3, Aead, Brotli, Kem, Dsa, Evm, PeerIds}
    `{!Codec bincode VersionedDataMap, !Codec postcard ChunkMessage, !Lru XorName bytes}
    `{!Lru XorName unit, !Lru bytes OnChainPaymentInfo}
    `{!Codec rmp_serde PaymentProof, !Codec rmp_serde MerklePaymentProof}
    `{!Codec rmp_serde PersistedMetrics, !Codec rmp_serde PaymentQuote}
    `{!Codec rmp_serde MerklePaymentCandidateNode}
    `{!Blake3Laws, !AeadLaws, !BrotliLaws, !CodecLaws bincode VersionedDataMap}
    `{!CodecLaws postcard ChunkMessage, !LruLaws XorName bytes}
    (nets : nat -> network) (envs : nat -> env) (ids : nat -> Z) (p2p : option p2p_net)
    (t : WtTransport) (s : server_session AntProtocol)
    (data : bytes) (dm : DataMap) (cs : list EncryptedChunk) (map_bytes : bytes)
    (HM : 1 <= MAX_CHUNK_SIZE) (He : encrypt_chunks data 0 = Ok (dm, cs)) (Hcf : collision_free cs)
    (Hmap : to_bytes dm = Some map_bytes)
    (Hheld : Forall (fun c => db (storage (node s)) !! compute_address c = Some c /\
                              lenZ c <= MAX_CHUNK_BYTES) (map_bytes :: cs))
    (Hfit : codec_fits) (Hfav : favourable nets envs) (Htot : encryption_total)
    (Hsync : in_sync t s) (Hpermits : streams_in_session s < MAX_STREAMS_PER_SESSION)
    (Hseq : stream_seq t + 1 + lenZ cs <= MAX_STREAM_SEQ) :
  (download_from_address (tunnel_send nets envs ids p2p) (client_new (mkTunnel t s 0))
     (compute_address map_bytes)).1 = Ok data.
Proof.
  set (published := list_to_map ((fun c => (compute_address c, c)) <$> (map_bytes :: cs))
                    : gmap XorName bytes).
  assert (forall a c, published !! a = Some c -> compute_address c = a /\ c ∈ map_bytes :: cs) as Hin.
  { intros a c Ha. apply elem_of_list_to_map_2 in Ha. apply list_elem_of_fmap in Ha as (x & [= -> ->] & Hx).
    auto. }
  rewrite Forall_forall in Hheld.
  assert (published ⊆ db (storage (node s))) as Hsub.
  { apply map_subseteq_spec. intros a c Ha. destruct (Hin a c Ha) as [<- Hx]. apply Hheld, Hx. }
  assert (forall c, c ∈ map_bytes :: cs -> published !! compute_address c = Some c) as Hpub.
  { intros c Hx. destruct (published !! compute_address c) as [c'|] eqn:E.
    - rewrite <- (proj1 (Hheld c Hx)). symmetry. exact (lookup_weaken _ _ _ _ E Hsub).
    - exfalso. apply not_elem_of_list_to_map_2 in E. apply E. rewrite <- list_fmap_compose.
      apply list_elem_of_fmap. exists c. auto. }
  destruct (download_serves (tunnel_send nets envs ids p2p) published (tunnel_good published)
    (tunnel_serves nets envs ids p2p published Hfit Hfav Htot
       (fun a c Ha => conj (proj1 (Hin a c Ha)) (proj2 (Hheld c (proj2 (Hin a c Ha))))))
    data dm cs map_bytes 0 (mkTunnel t s 0) HM He Hcf Hmap) as (c' & -> & _); [| | |reflexivity].
  - apply Hpub. left.
  - apply Forall_forall. intros c Hx. apply Hpub. right. exact Hx.
  - split; [exact Hsync|]. cbn [client_end server_end]. split; [unfold lenZ in Hseq; lia | auto].
Qed.

(** ** A concrete download *)

#[local] Existing Instance get_codec.
#[local] Existing Instance get_codec_laws.
#[local] Instance no_proof_codec : Codec rmp_serde PaymentProof := table_codec [].
#[local] Instance no_merkle_codec : Codec rmp_serde MerklePaymentProof := table_codec [].
#[local] Instance no_quote_codec : Codec rmp_serde PaymentQuote := table_codec [].
#[local] Instance no_candidate_codec : Codec rmp_serde MerklePaymentCandidateNode := table_codec [].

Lemma get_codec_fits : codec_fits.
Proof.
  intros [id b] [Hid Hb]. unfold encode_message. cbn [ser get_codec body request_id] in *.
  unfold MAX_WIRE_MESSAGE_SIZE, MAX_CHUNK_BYTES in *.
  destruct b as [| |[a]|[a c|a|]| | | |]; try contradiction; cbn [get_address] in *.
  - rewrite decide_True by (split; assumption). eexists. split; [reflexivity|].
    change (x01 :: le_bytes 8 id ++ a) with ([x01] ++ le_bytes 8 id ++ a). rewrite !lenZ_app.
    unfold lenZ in *. rewrite length_le_bytes. cbn [length]. lia.
  - destruct Hb as [Ha Hc]. rewrite decide_True by (split; assumption). eexists. split; [reflexivity|].
    change (x02 :: le_bytes 8 id ++ a ++ c) with ([x02] ++ le_bytes 8 id ++ a ++ c). rewrite !lenZ_app.
    unfold lenZ in *. rewrite length_le_bytes. cbn [length]. lia.
Qed.

(** A node that holds these contents, and two ends of a session to it. *)
Definition node_holding (contents : list bytes) : AntProtocol :=
  mkProtocol
    (mkStorage (list_to_map ((fun c => (compute_address c, c)) <$> contents))
       (mkStorageConfig "" true 0 0) StorageStats_default)
    (verifier_new (mkVerifierConfig 10 [])) (generator_new [] (tracker_new 100 0 0)) None.

Definition sample_session (contents : list bytes) : WtTransport * server_session AntProtocol :=
  let c := from_shared_secret (replicate 32 x07) in
  (mkTransport c 1, {| server_cipher := c; server_seq := 1; session_open := true;
                       streams_in_session := 0; node := node_holding contents |}).

Definition quiet_env : env :=
  mkEnv (mkWorld 0 false (fun _ => Err "down"%string) (fun _ => Err "down"%string)) 0
    no_faults no_faults Written Written.

(** Every response arrives byte by byte. *)
Definition byte_by_byte : network := Delivers 3 (fun b => (fun x => [x]) <$> b).

Lemma concat_singletons (b : bytes) : concat ((fun x => [x]) <$> b) = b.
Proof. induction b as [|x b IH]; [reflexivity|]. cbn. f_equal. exact IH. Qed.

Lemma browser_downloads_file_from_node_witness :
  let c : Config := {| MAX_CHUNK_SIZE := 200 |} in
  exists dm cs map_bytes, encrypt_chunks (sample_file 500) 0 = Ok (dm, cs) /\
    to_bytes dm = Some map_bytes /\
    let '(t, s) := sample_session (map_bytes :: cs) in
    (download_from_address (tunnel_send (fun _ => byte_by_byte) (fun _ => quiet_env) (fun _ => 0) None)
       (client_new (mkTunnel t s 0)) (compute_address map_bytes)).1 = Ok (sample_file 500).
Proof.
  set (c := {| MAX_CHUNK_SIZE := 200 |}). cbv zeta.
  assert (Hc : match encrypt_chunks (sample_file 500) 0 with
    | Ok (dm, cs) =>
      match to_bytes dm with
      | Some b => bool_decide (collision_free cs) &&
          forallb (fun x => bool_decide (db (storage (node_holding (b :: cs))) !! compute_address x = Some x)
                     && (lenZ x <=? MAX_CHUNK_BYTES)) (b :: cs) && (lenZ cs <=? 3) = true
      | None => False
      end
    | Err _ => False
    end) by (vm_compute; reflexivity).
  destruct (encrypt_chunks (sample_file 500) 0) as [[dm cs]|] eqn:E; [|destruct Hc].
  destruct (to_bytes dm) as [b|] eqn:Eb; [|destruct Hc].
  apply andb_prop in Hc as [Hc Hlen]. apply andb_prop in Hc as [Hcf Hheld]. b2p.
  exists dm, cs, b. split; [reflexivity|]. split; [exact Eb|]. cbn [sample_session].
  apply (browser_downloads_file_from_node (fun _ => byte_by_byte) (fun _ => quiet_env) (fun _ => 0) None
    _ _ (sample_file 500) dm cs b).
  - vm_compute. discriminate.
  - exact E.
  - apply bool_decide_eq_true_1 in Hcf. exact Hcf.
  - exact Eb.
  - apply Forall_forall. intros x Hx. cbn [node].
    pose proof (proj1 (forallb_forall _ _) Hheld x (proj1 (list_elem_of_In _ _) Hx)) as Hy.
    apply andb_prop in Hy as [H1 H2]. apply bool_decide_eq_true_1 in H1. apply Z.leb_le in H2. auto.
  - exact get_codec_fits.
  - intros k. split; [|reflexivity]. exists 3, (fun b => (fun x => [x]) <$> b).
    split; [reflexivity|]. split; [reflexivity | apply concat_singletons].
  - intros k n m. eexists. reflexivity.
  - repeat split; discriminate.
  - reflexivity.
  - cbn [stream_seq]. unfold MAX_STREAM_SEQ, u32_max. lia.
Defined.
