(* ===== verification/NetClient.v ===== *)
(** * The native client: chunks

    [ant-client/ant-core/src/data]: the client's errors, its cache, the peers
    closest to an address, and storing and fetching one chunk at them.  What the
    peer-to-peer network does is a [network]; requests that run concurrently are
    a list of outcomes whose completion order is a schedule. *)

From Stdlib Require Import ZArith Lia Strings.Byte.
From stdpp Require Import base list strings gmap.
From S2P Require Import Prelude Interfaces Cipher Reference Protocol NetFetch.

Local Open Scope Z_scope.

Module DataError.
Inductive t :=
| Network (msg : string)
| Storage (msg : string)
| Payment (msg : string)
| Protocol (msg : string)
| InvalidData (msg : string)
| Serialization (msg : string)
| Crypto (msg : string)
| Io (msg : string)
| Config (msg : string)
| Timeout (msg : string)
| InsufficientPeers (msg : string)
| SignatureVerification (msg : string)
| Encryption (msg : string)
| AlreadyStored
| InsufficientDiskSpace (msg : string).
End DataError.

(** A peer the network finds, with the addresses it is known at. *)
Record peer := mkPeer { peer_id : bytes; addresses : list string }.

#[export] Instance peer_eq_dec : EqDecision peer.
Proof. solve_decision. Defined.

(** What the P2P node answers: the closest nodes to an address, the connected
    peers, and for a message to a peer whether it was sent and which events then
    arrive before the deadline. *)
Record network := mkNetwork {
  local_peer_id : bytes;
  find_closest_nodes : XorName -> nat -> result string (list peer);
  connected_peers : list bytes;
  exchange : peer -> bytes -> result string unit * list p2p_event
}.

Record ClientConfig := mkClientConfig {
  timeout_secs : Z;
  close_group_size : nat;
  chunk_concurrency : nat
}.

Definition CLIENT_TIMEOUT_SECS : Z := 10.
Definition FALLBACK_THREAD_COUNT : Z := 4.

(** [available_parallelism] may fail. *)
Definition default_chunk_concurrency (available_parallelism : option Z) : nat :=
  let threads := default FALLBACK_THREAD_COUNT available_parallelism in
  Z.to_nat (Z.max (threads / 2) 1).

Definition ClientConfig_default (available_parallelism : option Z) : ClientConfig :=
  mkClientConfig CLIENT_TIMEOUT_SECS CLOSE_GROUP_SIZE
    (default_chunk_concurrency available_parallelism).

Definition find_closest_peers (net : network) (target : XorName) (count : nat)
    : result DataError.t (list peer) :=
  closest_nodes ← map_err (fun _ => DataError.Network "DHT closest-nodes lookup failed: {e}")
    (find_closest_nodes net target (count + 1)%nat);
  Ok (take count (filter (fun n => peer_id n <> local_peer_id net) closest_nodes)).

Definition close_group_peers (config : ClientConfig) (net : network) (target : XorName)
    : result DataError.t (list peer) :=
  peers ← find_closest_peers net target (close_group_size config);
  if bool_decide (peers = []) then
    Err (DataError.InsufficientPeers "DHT returned no peers for target address")
  else Ok peers.

(** The chunk cache. *)
Definition DEFAULT_CACHE_CAPACITY : Z := 1024.

Section NetClient.
Context `{Blake3, !Codec postcard ChunkMessage, !Lru XorName bytes}.

Definition cache_create (capacity : Z) : lru XorName bytes :=
  let effective := if capacity =? 0 then DEFAULT_CACHE_CAPACITY else capacity in
  lru_new XorName bytes effective.

(** The parts of a [Client] that its chunk operations change. *)
Record Client := mkClient {
  config : ClientConfig;
  chunk_cache : lru XorName bytes;
  next_request_id : Z
}.

Definition client_new (config : ClientConfig) : Client :=
  mkClient config (cache_create DEFAULT_CACHE_CAPACITY) 1.

(** ** Storing *)

Definition put_handler (b : ChunkMessageBody) : option (result DataError.t XorName) :=
  match b with
  | PutResponse (PutSuccess addr) => Some (Ok addr)
  | PutResponse (PutAlreadyExists addr) => Some (Ok addr)
  | PutResponse (PutPaymentRequired _) =>
      Some (Err (DataError.Payment "Payment required: {message}"))
  | PutResponse (PutError _) =>
      Some (Err (DataError.Protocol "Remote PUT error for {addr_hex}: {e}"))
  | _ => None
  end.

(** [id] is what the counter of the client gave to this request. *)
Definition chunk_put_with_proof (net : network) (id : Z) (content proof : bytes) (target : peer)
    : result DataError.t XorName :=
  let address := compute_address content in
  let request := ChunkPutRequest.with_payment address content proof in
  message_bytes ← map_err (fun _ => DataError.Protocol "Failed to encode PUT request: {e}")
    (encode_message (mkMessage id (PutRequest request)));
  let '(sent, events) := exchange net target message_bytes in
  send_and_await_chunk_response (peer_id target) id sent events put_handler
    (fun _ => DataError.Network "Failed to send PUT to peer: {e}")
    (DataError.Timeout "Timeout waiting for store response after {timeout_secs}s").

(** [FuturesUnordered::next]: some future in flight completes, the one at index
    [i] modulo their number. *)
Definition next_completed {A} (i : nat) (in_flight : list A) : option (A * list A) :=
  let i := (i mod length in_flight)%nat in
  a ← in_flight !! i;
  Some (a, delete i in_flight).

(** The loop of [chunk_put_to_close_group].  [spawn] starts the [k]-th put;
    [asked] are the peers started so far, [fallback] the ones left, [sched] says
    which future completes in each round, of which there are at most as many as
    peers. *)
Fixpoint put_rounds (fuel : nat) (spawn : nat -> peer -> result DataError.t XorName)
    (address : XorName) (sched : nat -> nat) (in_flight : list (result DataError.t XorName))
    (asked fallback : list peer) (success_count : nat)
    : option (result DataError.t XorName * list peer) :=
  match next_completed (sched 0%nat) in_flight with
  | None =>
      Some (Err (DataError.InsufficientPeers
        "Stored on {success_count} peers, need {CLOSE_GROUP_MAJORITY}. Failures: [{}]"), asked)
  | Some (r, in_flight) =>
    match fuel with
    | O => None
    | S fuel =>
      let sched := fun n => sched (S n) in
      match r with
      | Ok _ =>
          let success_count := S success_count in
          if bool_decide (CLOSE_GROUP_MAJORITY <= success_count)%nat then Some (Ok address, asked)
          else put_rounds fuel spawn address sched in_flight asked fallback success_count
      | Err _ =>
        match fallback with
        | fb :: fallback =>
            put_rounds fuel spawn address sched (in_flight ++ [spawn (length asked) fb])
              (asked ++ [fb]) fallback success_count
        | [] => put_rounds fuel spawn address sched in_flight asked [] success_count
        end
      end
    end
  end.

Definition chunk_put_to_close_group (net : network) (ids : nat -> Z) (sched : nat -> nat)
    (content proof : bytes) (peers : list peer)
    : option (result DataError.t XorName * list peer) :=
  let address := compute_address content in
  let spawn := fun k p => chunk_put_with_proof net (ids k) content proof p in
  let initial_count := Nat.min (length peers) CLOSE_GROUP_MAJORITY in
  let initial_peers := take initial_count peers in
  let fallback_peers := drop initial_count peers in
  put_rounds (length peers) spawn address sched (imap spawn initial_peers) initial_peers
    fallback_peers 0.

(** ** Fetching *)

Definition get_handler (address : XorName) (b : ChunkMessageBody)
    : option (result DataError.t (option DataChunk)) :=
  match b with
  | GetResponse (GetSuccess addr content) =>
      if negb (bool_decide (addr = address)) then
        Some (Err (DataError.InvalidData "Mismatched chunk address: expected {addr_hex}, got {}"))
      else
        let computed := compute_address content in
        if negb (bool_decide (computed = addr)) then
          Some (Err (DataError.InvalidData "Invalid chunk content: expected hash {addr_hex}, got {}"))
        else Some (Ok (Some (mkDataChunk addr content)))
  | GetResponse (GetNotFound _) => Some (Ok None)
  | GetResponse (GetError _) =>
      Some (Err (DataError.Protocol "Remote GET error for {addr_hex}: {e}"))
  | _ => None
  end.

Definition chunk_get_from_peer (net : network) (id : Z) (address : XorName) (p : peer)
    : result DataError.t (option DataChunk) :=
  message_bytes ← map_err (fun _ => DataError.Protocol "Failed to encode GET request: {e}")
    (encode_message (mkMessage id (GetRequest (mkGetRequest address))));
  let '(sent, events) := exchange net p message_bytes in
  send_and_await_chunk_response (peer_id p) id sent events (get_handler address)
    (fun _ => DataError.Network "Failed to send GET to peer {peer}: {e}")
    (DataError.Timeout "Timeout waiting for chunk {addr_hex} from {peer} after {timeout_secs}s").

Fixpoint get_from_peers (c : Client) (net : network) (address : XorName) (peers : list peer)
    : result DataError.t (option DataChunk) * Client :=
  match peers with
  | [] => (Ok None, c)
  | p :: peers' =>
    let id := next_request_id c in
    let c := mkClient (config c) (chunk_cache c) (wadd id 1) in
    match chunk_get_from_peer net id address p with
    | Ok (Some chunk) =>
        (Ok (Some chunk),
         mkClient (config c) (lru_put (chunk_cache c) (Protocol.address chunk) (content chunk))
           (next_request_id c))
    | Ok None => get_from_peers c net address peers'
    | Err (DataError.Timeout _) | Err (DataError.Network _) => get_from_peers c net address peers'
    | Err e => (Err e, c)
    end
  end.

Definition chunk_get (c : Client) (net : network) (address : XorName)
    : result DataError.t (option DataChunk) * Client :=
  let '(cached, l) := lru_get (chunk_cache c) address in
  let c := mkClient (config c) l (next_request_id c) in
  let from_network (c : Client) :=
    match close_group_peers (config c) net address with
    | Err e => (Err e, c)
    | Ok peers => get_from_peers c net address peers
    end in
  match cached with
  | Some cached =>
      let computed := compute_address cached in
      if bool_decide (computed = address) then (Ok (Some (mkDataChunk address cached)), c)
      else from_network (mkClient (config c) (lru_pop (chunk_cache c) address) (next_request_id c))
  | None => from_network c
  end.

Definition chunk_exists (c : Client) (net : network) (address : XorName)
    : result DataError.t bool * Client :=
  let '(r, c) := chunk_get c net address in
  ((fun o : option DataChunk => bool_decide (is_Some o)) <$> r, c).

End NetClient.

(** ** Majorities *)

(** How many of the peers' answers are acceptances. *)
Definition accepted {E A} (rs : list (result E A)) : nat :=
  length (filter (fun r => is_ok r = true) rs).

Lemma accepted_app {E A} (l1 l2 : list (result E A)) :
  accepted (l1 ++ l2) = (accepted l1 + accepted l2)%nat.
Proof. unfold accepted. by rewrite filter_app, length_app. Qed.

Lemma accepted_le {E A} (l : list (result E A)) : (accepted l <= length l)%nat.
Proof. apply length_filter. Qed.

Lemma accepted_ok {E A} a (l : list (result E A)) : accepted (Ok a :: l) = S (accepted l).
Proof. reflexivity. Qed.

Lemma accepted_err {E A} e (l : list (result E A)) : accepted (Err e :: l) = accepted l.
Proof. reflexivity. Qed.

Lemma accepted_snoc_ok {E A} a (l : list (result E A)) : accepted (l ++ [Ok a]) = S (accepted l).
Proof. rewrite accepted_app, accepted_ok. apply Nat.add_1_r. Qed.

Lemma accepted_snoc_err {E A} e (l : list (result E A)) : accepted (l ++ [Err e]) = accepted l.
Proof. rewrite accepted_app, accepted_err. apply Nat.add_0_r. Qed.

#[export] Instance accepted_perm {E A} : Proper ((≡ₚ) ==> eq) (@accepted E A).
Proof. intros l1 l2 Hl. unfold accepted. by rewrite Hl. Qed.

Lemma next_completed_spec {A} i (l : list A) :
  (l = [] /\ next_completed i l = None) \/
  (exists a l', next_completed i l = Some (a, l') /\ l ≡ₚ a :: l').
Proof.
  destruct l as [|x l]; [auto|]. right. unfold next_completed.
  set (j := (i mod length (x :: l))%nat).
  assert (is_Some ((x :: l) !! j)) as [a Ha].
  { apply lookup_lt_is_Some. apply Nat.mod_upper_bound. discriminate. }
  exists a, (delete j (x :: l)). rewrite Ha. split; [reflexivity|]. by apply delete_Permutation.
Qed.

Lemma imap_take {A B} (f : nat -> A -> B) k l : imap f (take k l) = take k (imap f l).
Proof.
  apply list_eq. intros i. rewrite list_lookup_imap. destruct (decide (i < k)%nat).
  - by rewrite !lookup_take_lt, list_lookup_imap.
  - by rewrite !lookup_take_ge by lia.
Qed.

(** What the loop of puts comes to: it stops at the first prefix of the peers
    with a majority of acceptances, or with all of them asked. *)
Definition put_outcome {E A P} (rs : list (result E A)) (peers : list P) (good bad r : result E A)
    (n : nat) : Prop :=
  (n <= length peers)%nat /\
  ((r = good /\ accepted (take n rs) = CLOSE_GROUP_MAJORITY /\
    forall m, (m < n)%nat -> (accepted (take m rs) < CLOSE_GROUP_MAJORITY)%nat) \/
   (r = bad /\ n = length peers /\ (accepted rs < CLOSE_GROUP_MAJORITY)%nat)).

Section Rounds.
Context (spawn : nat -> peer -> result DataError.t XorName) (address : XorName) (peers : list peer).

Local Definition answers := imap spawn peers.

(** The first [n] peers have been asked and those of [done] have answered: one
    put is started beyond three for each failure, while there are peers left. *)
Record rounds_inv (in_flight done : list (result DataError.t XorName)) (n : nat) : Prop := {
  ri_answers : done ++ in_flight ≡ₚ take n answers;
  ri_count : n = Nat.min (length peers) (CLOSE_GROUP_MAJORITY + (length done - accepted done))%nat;
  ri_low : (accepted done < CLOSE_GROUP_MAJORITY)%nat;
  ri_least : forall m, (m < n)%nat -> (accepted (take m answers) < CLOSE_GROUP_MAJORITY)%nat
}.

Lemma length_answers : length answers = length peers.
Proof. apply length_imap. Qed.

Lemma take_answers_S n p : peers !! n = Some p -> take (S n) answers = take n answers ++ [spawn n p].
Proof. intros Hp. apply take_S_r. unfold answers. by rewrite list_lookup_imap, Hp. Qed.

Lemma rounds_inv_length in_flight done n :
  rounds_inv in_flight done n -> (n <= length peers)%nat /\ (length done + length in_flight = n)%nat.
Proof.
  intros [Hp Hc _ _]. apply Permutation_length in Hp.
  rewrite length_app, length_take, length_answers in Hp. lia.
Qed.

Lemma rounds_inv_ok in_flight in_flight' done n a :
  rounds_inv in_flight done n -> in_flight ≡ₚ Ok a :: in_flight' ->
  (S (accepted done) < CLOSE_GROUP_MAJORITY)%nat -> rounds_inv in_flight' (done ++ [Ok a]) n.
Proof.
  intros [Hp Hc Hl Hm] Hf Hs. split; rewrite ?accepted_snoc_ok, ?length_app; [| |exact Hs|exact Hm].
  - rewrite <- Hp, Hf. solve_Permutation.
  - rewrite Hc. cbn [length]. lia.
Qed.

Lemma rounds_inv_err in_flight in_flight' done n e fb :
  rounds_inv in_flight done n -> in_flight ≡ₚ Err e :: in_flight' -> peers !! n = Some fb ->
  rounds_inv (in_flight' ++ [spawn n fb]) (done ++ [Err e]) (S n).
Proof.
  intros Hi Hf Hn. pose proof (rounds_inv_length _ _ _ Hi) as [_ Hlen].
  destruct Hi as [Hp Hc Hl Hm]. pose proof (lookup_lt_Some _ _ _ Hn) as Hlt.
  pose proof (accepted_le done) as Hle. apply Permutation_length in Hf as Hflen. cbn in Hflen.
  split; rewrite ?accepted_snoc_err, ?length_app; [| |exact Hl|].
  - rewrite (take_answers_S _ _ Hn), <- Hp, Hf. solve_Permutation.
  - cbn [length]. lia.
  - intros m Hlm. destruct (decide (m = n)) as [->|]; [|apply Hm; lia].
    rewrite <- Hp, Hf, accepted_app, accepted_err.
    pose proof (accepted_le in_flight'). lia.
Qed.

Lemma rounds_inv_err_last in_flight in_flight' done e :
  rounds_inv in_flight done (length peers) -> in_flight ≡ₚ Err e :: in_flight' ->
  rounds_inv in_flight' (done ++ [Err e]) (length peers).
Proof.
  intros [Hp Hc Hl Hm] Hf.
  split; rewrite ?accepted_snoc_err, ?length_app; [| |exact Hl|exact Hm].
  - rewrite <- Hp, Hf. solve_Permutation.
  - pose proof (accepted_le done). cbn [length]. lia.
Qed.

(** The round that reaches the majority leaves nothing in flight. *)
Lemma rounds_inv_majority in_flight in_flight' done n a :
  rounds_inv in_flight done n -> in_flight ≡ₚ Ok a :: in_flight' ->
  (CLOSE_GROUP_MAJORITY <= S (accepted done))%nat ->
  accepted (take n answers) = CLOSE_GROUP_MAJORITY.
Proof.
  intros Hi Hf Hs. pose proof (rounds_inv_length _ _ _ Hi) as [_ Hlen].
  destruct Hi as [Hp Hc Hl Hm]. apply Permutation_length in Hf as Hflen. cbn [length] in Hflen.
  pose proof (accepted_le done). assert (in_flight' = []) as -> by (apply nil_length_inv; lia).
  rewrite <- Hp, Hf, accepted_snoc_ok. lia.
Qed.

Definition insufficient : result DataError.t XorName :=
  Err (DataError.InsufficientPeers
    "Stored on {success_count} peers, need {CLOSE_GROUP_MAJORITY}. Failures: [{}]").

Lemma put_rounds_outcome fuel sched in_flight done n :
  rounds_inv in_flight done n -> (length in_flight + (length peers - n) <= fuel)%nat ->
  exists r n', put_rounds fuel spawn address sched in_flight (take n peers) (drop n peers)
      (accepted done) = Some (r, take n' peers) /\
    put_outcome answers peers (Ok address) insufficient r n'.
Proof.
  revert sched in_flight done n. induction fuel as [|fuel IH]; intros sched in_flight done n Hi Hfuel;
    pose proof (rounds_inv_length _ _ _ Hi) as [Hn Hlen]; cbn [put_rounds];
    destruct (next_completed_spec (sched 0%nat) in_flight) as [(-> & ->) | (a & l' & -> & Hf)].
  1, 3: exists insufficient, n; split; [reflexivity|]; destruct Hi as [Hp Hc Hl Hm];
    pose proof (accepted_le done); cbn [length] in Hlen; assert (n = length peers) as -> by lia;
    rewrite app_nil_r in Hp; split; [lia|]; right; split; [reflexivity|]; split; [reflexivity|];
    rewrite <- (take_ge answers (length peers)), <- Hp by (rewrite length_answers; lia); exact Hl.
  all: apply Permutation_length in Hf as Hflen; cbn [length] in Hflen.
  { lia. }
  destruct a as [a|e].
  - case_bool_decide as Hmaj.
    + exists (Ok address), n. split; [reflexivity|]. split; [exact Hn|]. left. split; [reflexivity|].
      split; [exact (rounds_inv_majority _ _ _ _ _ Hi Hf Hmaj) | exact (ri_least _ _ _ Hi)].
    + rewrite <- (accepted_snoc_ok a). apply IH; [|lia].
      apply (rounds_inv_ok _ _ _ _ _ Hi Hf). lia.
  - rewrite <- (accepted_snoc_err e). destruct (drop n peers) as [|fb rest] eqn:Hd.
    + assert (n = length peers) as ->.
      { apply (f_equal length) in Hd. rewrite length_drop in Hd. cbn in Hd. lia. }
      rewrite <- Hd. apply IH; [exact (rounds_inv_err_last _ _ _ _ Hi Hf) | lia].
    + assert (peers !! n = Some fb) as Hfb.
      { rewrite <- (Nat.add_0_r n), <- lookup_drop, Hd. reflexivity. }
      pose proof (lookup_lt_Some _ _ _ Hfb) as Hlt.
      rewrite length_take_le by exact Hn. rewrite <- (take_S_r _ _ _ Hfb).
      assert (rest = drop (S n) peers) as ->.
      { rewrite <- Nat.add_1_r, <- drop_drop, Hd. reflexivity. }
      apply IH; [exact (rounds_inv_err _ _ _ _ _ _ Hi Hf Hfb)|]. rewrite length_app. cbn [length]. lia.
Qed.

End Rounds.

Lemma put_to_close_group_outcome `{Blake3, !Codec postcard ChunkMessage} net ids order content proof
    peers :
  exists r n,
    chunk_put_to_close_group net ids order content proof peers = Some (r, take n peers) /\
    put_outcome (imap (fun k p => chunk_put_with_proof net (ids k) content proof p) peers) peers
      (Ok (compute_address content)) insufficient r n.
Proof.
  unfold chunk_put_to_close_group.
  set (spawn := fun k p => chunk_put_with_proof net (ids k) content proof p).
  set (k := Nat.min (length peers) CLOSE_GROUP_MAJORITY).
  pose proof (Nat.le_min_l (length peers) CLOSE_GROUP_MAJORITY : k <= _)%nat.
  pose proof (Nat.le_min_r (length peers) CLOSE_GROUP_MAJORITY : k <= _)%nat.
  rewrite imap_take. change (imap spawn peers) with (answers spawn peers).
  apply (put_rounds_outcome spawn _ peers _ _ _ []).
  - split; cbn [accepted length filter app]; [reflexivity | reflexivity | |].
    + cbn. lia.
    + intros m Hm. pose proof (accepted_le (take m (answers spawn peers))) as Hle.
      rewrite length_take in Hle. lia.
  - rewrite length_take, length_answers. lia.
Qed.

(** C24: [chunk_put_to_close_group] always ends, and in whatever order the puts
    complete its result and the peers it asks are the same: it asks the peers of
    the first prefix of its list in which [CLOSE_GROUP_MAJORITY] accept the
    chunk, all of which have answered when it returns the address, or every peer
    when no prefix has a majority, which is an error. *)
Theorem put_stops_at_majority `{Blake3, !Codec postcard ChunkMessage}
    (net : network) (ids : nat -> Z) (order : nat -> nat) (content proof : bytes)
    (peers : list peer) :
  let answers := imap (fun k p => chunk_put_with_proof net (ids k) content proof p) peers in
  exists n, (n <= length peers)%nat /\
    (chunk_put_to_close_group net ids order content proof peers =
       Some (Ok (compute_address content), take n peers) /\
     accepted (take n answers) = CLOSE_GROUP_MAJORITY /\
     (forall m, (m < n)%nat -> (accepted (take m answers) < CLOSE_GROUP_MAJORITY)%nat) \/
     chunk_put_to_close_group net ids order content proof peers = Some (insufficient, peers) /\
     n = length peers /\ (accepted answers < CLOSE_GROUP_MAJORITY)%nat).
Proof.
  intros rs. destruct (put_to_close_group_outcome net ids order content proof peers)
    as (r & n & -> & Hn & Hcase). fold rs in Hcase. exists n. split; [exact Hn|].
  destruct Hcase as [(-> & Ha & Hm) | (-> & -> & Ha)]; [left; auto|].
  right. rewrite take_ge by reflexivity. auto.
Qed.

(** ** Fetching: the first decisive answer *)

Section Get.
Context `{Blake3, !Codec postcard ChunkMessage, !Lru XorName bytes}.

(** What each peer would answer, asked in turn. *)
Fixpoint get_answers (net : network) (id : Z) (address : XorName) (peers : list peer)
    : list (result DataError.t (option DataChunk)) :=
  match peers with
  | [] => []
  | p :: peers' => chunk_get_from_peer net id address p :: get_answers net (wadd id 1) address peers'
  end.

(** An answer after which the next peer is asked. *)
Definition passes (r : result DataError.t (option DataChunk)) : bool :=
  match r with
  | Ok None | Err (DataError.Timeout _) | Err (DataError.Network _) => true
  | _ => false
  end.

Definition first_decisive (rs : list (result DataError.t (option DataChunk)))
    : result DataError.t (option DataChunk) :=
  default (Ok None) (List.find (fun r => negb (passes r)) rs).

Definition chunk_ok (address : XorName) (chunk : DataChunk) : Prop :=
  Protocol.address chunk = address /\ compute_address (content chunk) = address.

(** Every cached content is under its hash. *)
Definition cache_verified (c : Client) : Prop :=
  1 <= lru_cap (chunk_cache c) /\
  forall a content, lru_peek (chunk_cache c) a = Some content -> compute_address content = a.

Lemma await_response_cases {T E} peer id (f : ChunkMessageBody -> option (result E T)) (te : E) evs :
  await_response peer id f te evs = Err te \/
  exists b r, f b = Some r /\ await_response peer id f te evs = r.
Proof.
  induction evs as [|[topic source data | | k |] evs IH]; cbn; auto.
  destruct (bool_decide _ && bool_decide _); [|exact IH].
  destruct (decode_message data) as [m|]; [|exact IH].
  destruct (negb _); [exact IH|]. destruct (f (body m)) eqn:Hf; [eauto | exact IH].
Qed.

Lemma get_handler_chunk address b chunk :
  get_handler address b = Some (Ok (Some chunk)) -> chunk_ok address chunk.
Proof.
  destruct b as [| | |[a c|a|e]| | | |]; cbn; try discriminate.
  case_bool_decide as Ha; cbn; [|discriminate]. case_bool_decide as Hc; cbn; [|discriminate].
  intros [= <-]. split; cbn; congruence.
Qed.

Lemma chunk_get_from_peer_ok net id address p chunk :
  chunk_get_from_peer net id address p = Ok (Some chunk) -> chunk_ok address chunk.
Proof.
  unfold chunk_get_from_peer. destruct (encode_message _) as [m|]; cbn; [|discriminate].
  destruct (exchange net p m) as [[[]|] evs]; cbn; [|discriminate].
  destruct (await_response_cases (peer_id p) id (get_handler address)
    (DataError.Timeout "Timeout waiting for chunk {addr_hex} from {peer} after {timeout_secs}s") evs)
    as [-> | (b & r & Hb & ->)]; [discriminate|]. intros ->. exact (get_handler_chunk _ _ _ Hb).
Qed.

Context `{!LruLaws XorName bytes}.

Lemma cache_verified_put c l id a content :
  cache_verified c -> compute_address content = a ->
  cache_verified (mkClient l (lru_put (chunk_cache c) a content) id).
Proof.
  intros [Hcap Hv] Hc. split; cbn; [rewrite lru_put_cap; exact Hcap|]. intros a' content' Hp.
  destruct (decide (a' = a)) as [->|Hne].
  - apply lru_put_value in Hp as ->. exact Hc.
  - apply lru_put_other in Hp; auto.
Qed.

Lemma get_from_peers_spec net address peers (c : Client) :
  cache_verified c ->
  let '(r, c') := get_from_peers c net address peers in
  r = first_decisive (get_answers net (next_request_id c) address peers) /\
  cache_verified c' /\
  (forall chunk, r = Ok (Some chunk) ->
     chunk_ok address chunk /\ lru_peek (chunk_cache c') address = Some (content chunk)).
Proof.
  revert c. induction peers as [|p peers IH]; intros c Hv; cbn [get_from_peers get_answers].
  { split; [reflexivity|]. split; [exact Hv | discriminate]. }
  unfold first_decisive. cbn [List.find].
  set (c1 := mkClient (config c) (chunk_cache c) (wadd (next_request_id c) 1)).
  assert (cache_verified c1) as Hv1 by exact Hv. specialize (IH c1 Hv1).
  destruct (chunk_get_from_peer net (next_request_id c) address p) as [[chunk|]|e] eqn:Hr;
    cbn [passes negb].
  - apply chunk_get_from_peer_ok in Hr as [Ha Hc].
    split; [reflexivity|]. rewrite Ha. split; [exact (cache_verified_put c1 _ _ _ _ Hv1 Hc)|].
    intros ? [= <-]. cbn. split; [split; assumption|]. apply lru_put_same, Hv.
  - exact IH.
  - destruct e; try exact IH; (split; [reflexivity|]; split; [exact Hv1 | discriminate]).
Qed.

End Get.

(** C25: [chunk_get] of the native client answers from the cache, or else with
    the first decisive answer of the closest peers in their order: a chunk with
    the right address and hash, or an error.  Peers that do not have the chunk,
    or cannot be reached, are passed over, but one peer that answers with a wrong
    chunk or an error of its own ends the fetch, whatever the peers after it hold.
    What is returned is the chunk asked for, is cached, and the cache stays
    verified. *)
Theorem chunk_get_first_decisive_answer
    `{Blake3, !Codec postcard ChunkMessage, !Lru XorName bytes, !LruLaws XorName bytes}
    (c : Client) (net : network) (address : XorName) (Hc : cache_verified c) :
  let '(r, c') := chunk_get c net address in
  r = match lru_peek (chunk_cache c) address with
      | Some cached => Ok (Some (mkDataChunk address cached))
      | None =>
          peers ← close_group_peers (config c) net address;
          first_decisive (get_answers net (next_request_id c) address peers)
      end /\
  cache_verified c' /\
  (forall chunk, r = Ok (Some chunk) ->
     chunk_ok address chunk /\ lru_peek (chunk_cache c') address = Some (content chunk)).
Proof.
  destruct Hc as [Hcap Hv]. unfold chunk_get.
  pose proof (lru_get_value (chunk_cache c) address) as Hval.
  pose proof (lru_get_peek (chunk_cache c) address) as Hpeek.
  pose proof (lru_get_cap (chunk_cache c) address) as Hk.
  destruct (lru_get (chunk_cache c) address) as [cached l]. cbn [fst snd] in Hval, Hpeek, Hk.
  set (c1 := mkClient (config c) l (next_request_id c)).
  assert (cache_verified c1) as Hv1.
  { split; cbn; [lia|]. intros a x Hx. rewrite Hpeek in Hx. auto. }
  rewrite <- Hval. destruct cached as [cached|].
  - symmetry in Hval. rewrite (bool_decide_true _ (Hv _ _ Hval)). split; [reflexivity|].
    split; [exact Hv1|]. intros chunk [= <-]. split; [split; [reflexivity | exact (Hv _ _ Hval)]|].
    cbn. rewrite Hpeek. exact Hval.
  - change (config c1) with (config c). destruct (close_group_peers (config c) net address) as [peers|e]; cbn.
    + exact (get_from_peers_spec net address peers c1 Hv1).
    + split; [reflexivity|]. split; [exact Hv1 | discriminate].
Qed.

(** The messages of the example below on the wire. *)
#[local] Instance sample_get_codec : Codec postcard ChunkMessage :=
  let a := compute_address [x09] in
  table_codec (flat_map (fun id =>
    imap (fun k b => (mkMessage (Z.of_nat id) b, [byte_of_Z (Z.of_nat k); byte_of_Z (Z.of_nat id)]))
      [GetRequest (mkGetRequest a); GetResponse (GetNotFound a); GetResponse (GetSuccess a [x00]);
       GetResponse (GetSuccess a [x09])]) (seq 0 5)).

(** Nodes of which the first does not have the chunk, the second cannot be
    reached, the third tells a lie and the fourth holds it. *)
Definition answer_to (a : XorName) (p : peer) (m : bytes)
    : result string unit * list p2p_event :=
  let id := match decode_message m with Ok m => request_id m | Err _ => 0 end in
  let reply b := (Ok tt, [MessageEvent CHUNK_PROTOCOL_ID (peer_id p)
                            (default [] (res_ok (encode_message (mkMessage id (GetResponse b)))))]) in
  match peer_id p with
  | [x01] => reply (GetNotFound a)
  | [x02] => (Err "unreachable"%string, [])
  | [x03] => reply (GetSuccess a [x00])
  | _ => reply (GetSuccess a [x09])
  end.

Definition sample_peers (ids : list byte) : list peer := (fun b => mkPeer [b] []) <$> ids.

Definition sample_network (a : XorName) (ids : list byte) : network :=
  mkNetwork [x00] (fun _ count => Ok (take count (sample_peers ids))) [] (answer_to a).

Lemma chunk_get_first_decisive_answer_witness :
  let c := client_new (ClientConfig_default None) in
  let a := compute_address [x09] in
  (chunk_get c (sample_network a [x01; x02; x04; x03]) a).1 = Ok (Some (mkDataChunk a [x09])) /\
  (chunk_get c (sample_network a [x01; x02; x03; x04]) a).1 =
    Err (DataError.InvalidData "Invalid chunk content: expected hash {addr_hex}, got {}") /\
  cache_verified (chunk_get c (sample_network a [x01; x02; x04; x03]) a).2.
Proof.
  intros c a. split; [vm_compute; reflexivity|]. split; [vm_compute; reflexivity|].
  pose proof (chunk_get_first_decisive_answer c (sample_network a [x01; x02; x04; x03]) a) as Hg.
  destruct (chunk_get c _ a) as [r c']. apply Hg. split; [vm_compute; discriminate | discriminate].
Defined.
