(* ===== verification/NetPayment.v ===== *)
(** * The native client: quotes and payments

    [quote.rs] and [payment.rs] of [ant-client/ant-core/src/data/client], and
    [chunk_put] of [chunk.rs]: a new chunk is quoted by the five closest peers,
    the median one is paid, and the chunk is stored with the proof of payment. *)

From Stdlib Require Import ZArith Lia Strings.Byte.
From stdpp Require Import base list strings gmap.
From S2P Require Import Prelude Interfaces Cipher Reference Protocol Evm Quote PayProof SingleNode.
From S2P Require Import NetFetch NetClient.

Local Open Scope Z_scope.

(** The order in which futures that are all in flight complete. *)
Fixpoint completions {A} (fuel : nat) (sched : nat -> nat) (in_flight : list A) : list A :=
  match fuel with
  | O => []
  | S fuel =>
    match next_completed (sched 0%nat) in_flight with
    | None => []
    | Some (a, in_flight) => a :: completions fuel (fun n => sched (S n)) in_flight
    end
  end.

Lemma completions_perm {A} fuel sched (l : list A) :
  (length l <= fuel)%nat -> completions fuel sched l ≡ₚ l.
Proof.
  revert sched l. induction fuel as [|fuel IH]; intros sched l Hl; cbn [completions].
  { destruct l; [reflexivity | cbn in Hl; lia]. }
  destruct (next_completed_spec (sched 0%nat) l) as [(-> & ->) | (a & l' & -> & Hp)]; [reflexivity|].
  apply Permutation_length in Hp as Hlen. cbn in Hlen. rewrite Hp, IH by lia. reflexivity.
Qed.

(** A wallet: the network it pays on and its [pay_for_quotes], with the hashes of the
    transactions; a failure comes with those of the ones made before it. *)
Record Wallet {EvmNetwork : Type} := mkWallet {
  wallet_network : EvmNetwork;
  pay_for_quotes : list (bytes * bytes * Z) -> result (string * gmap bytes bytes) (gmap bytes bytes)
}.
Arguments Wallet EvmNetwork : clear implicits.

Section Payment.
Context `{Blake3, Evm, !Codec postcard ChunkMessage}.
Context `{!Codec rmp_serde PaymentQuote, !Codec rmp_serde PaymentProof}.

(** The local price estimate is only shown to the user here, so it is an argument;
    [Pricing] has the formula. *)
Context (calculate_price : QuotingMetrics -> Z).

(** ** Quotes *)

Definition store_quote : Type := peer * PaymentQuote * Z.

Definition quote_handler (b : ChunkMessageBody) : option (result DataError.t (PaymentQuote * Z)) :=
  match b with
  | QuoteResponse (QuoteSuccess quote already_stored) =>
      if already_stored then Some (Err DataError.AlreadyStored)
      else
        match de rmp_serde quote with
        | Some payment_quote =>
            let price := calculate_price (quoting_metrics payment_quote) in
            Some (Ok (payment_quote, price))
        | None =>
            Some (Err (DataError.Serialization "Failed to deserialize quote from {peer_id_clone}: {e}"))
        end
  | QuoteResponse (QuoteError _) =>
      Some (Err (DataError.Protocol "Quote error from {peer_id_clone}: {e}"))
  | _ => None
  end.

(** The future of one quote request; none when the request does not encode. *)
Definition request_quote (net : network) (id : Z) (address : XorName) (data_size data_type : Z)
    (p : peer) : option (peer * result DataError.t (PaymentQuote * Z)) :=
  let message := mkMessage id (QuoteRequest (mkQuoteRequest address data_size data_type)) in
  match encode_message message with
  | Err _ => None
  | Ok message_bytes =>
      let '(sent, events) := exchange net p message_bytes in
      Some (p, send_and_await_chunk_response (peer_id p) id sent events quote_handler
                 (fun _ => DataError.Network "Failed to send quote request to {peer_id_clone}: {e}")
                 (DataError.Timeout "Timeout waiting for quote from {peer_id_clone}"))
  end.

(** The loop over the completed requests. *)
Fixpoint collect_quotes (completed : list (peer * result DataError.t (PaymentQuote * Z)))
    (quotes : list store_quote) (already_stored_count : nat) : result DataError.t (list store_quote) :=
  match completed with
  | [] =>
      if bool_decide (CLOSE_GROUP_SIZE <= length quotes)%nat then Ok quotes
      else Err (DataError.InsufficientPeers
             "Got {} quotes, need {CLOSE_GROUP_SIZE}. Failures: [{}]")
  | (p, r) :: completed' =>
    match r with
    | Ok (quote, price) => collect_quotes completed' (quotes ++ [(p, quote, price)]) already_stored_count
    | Err DataError.AlreadyStored =>
        let already_stored_count := S already_stored_count in
        if bool_decide (CLOSE_GROUP_MAJORITY <= already_stored_count)%nat
        then Err DataError.AlreadyStored
        else collect_quotes completed' quotes already_stored_count
    | Err _ => collect_quotes completed' quotes already_stored_count
    end
  end.

(** [ids k] is the id drawn for the [k]-th peer, [sched] the completion order. *)
Definition get_store_quotes (config : ClientConfig) (net : network) (ids : nat -> Z)
    (sched : nat -> nat) (address : XorName) (data_size data_type : Z)
    : result DataError.t (list store_quote) :=
  remote_peers ← close_group_peers config net address;
  let remote_peers := take CLOSE_GROUP_SIZE remote_peers in
  if bool_decide (length remote_peers < CLOSE_GROUP_SIZE)%nat then
    Err (DataError.InsufficientPeers "Found {} peers, need {CLOSE_GROUP_SIZE}")
  else
    let quote_futures :=
      omap id (imap (fun k p => request_quote net (ids k) address data_size data_type p) remote_peers) in
    collect_quotes (completions (length quote_futures) sched quote_futures) [] 0.

(** ** Paying *)

(** The two ends of the client that pay, with the contract's market prices. *)
Context {EvmNetwork : Type}.
Context (get_market_price : EvmNetwork -> list QuotingMetrics -> result string (list Z)).

Record Payer := mkPayer {
  wallet : option (Wallet EvmNetwork);
  evm_network : option EvmNetwork
}.

Definition with_wallet (w : Wallet EvmNetwork) : Payer :=
  mkPayer (Some w) (Some (wallet_network w)).

Definition with_evm_network (c : Payer) (n : EvmNetwork) : Payer := mkPayer (wallet c) (Some n).

Definition require_wallet (c : Payer) : result DataError.t (Wallet EvmNetwork) :=
  ok_or (wallet c) (DataError.Payment "Wallet not configured - call with_wallet() first").

Definition require_evm_network (c : Payer) : result DataError.t EvmNetwork :=
  match evm_network c with
  | Some net => Ok net
  | None =>
    match wallet c with
    | Some w => Ok (wallet_network w)
    | None => Err (DataError.Payment
        "EVM network not configured - call with_evm_network() or with_wallet() first")
    end
  end.

(** Quotes with the contract's prices: steps 2 to 4 of [pay_for_storage], which
    [prepare_chunk_payment] repeats. *)
Definition price_quotes (c : Payer) (quotes_with_peers : list store_quote)
    : result DataError.t (list (bytes * PaymentQuote) * SingleNodePayment) :=
  let metrics_batch := (fun q : store_quote => quoting_metrics q.1.2) <$> quotes_with_peers in
  net ← require_evm_network c;
  contract_prices ← map_err
    (fun _ => DataError.Payment "Failed to get market prices from contract: {e}")
    (get_market_price net metrics_batch);
  if negb (bool_decide (length contract_prices = length quotes_with_peers)) then
    Err (DataError.Payment "Contract returned {} prices for {} quotes")
  else
    let peer_quotes := (fun q : store_quote => (peer_id q.1.1, q.1.2)) <$> quotes_with_peers in
    let quotes_for_payment :=
      zip_with (fun (q : store_quote) price => (q.1.2, price)) quotes_with_peers contract_prices in
    payment ← map_err (fun _ => DataError.Payment "Failed to create payment: {e}")
      (from_quotes quotes_for_payment);
    Ok (peer_quotes, payment).

Definition pay_for_storage (c : Payer) (config : ClientConfig) (net : network) (ids : nat -> Z)
    (sched : nat -> nat) (address : XorName) (data_size data_type : Z)
    : result DataError.t (bytes * list peer) :=
  w ← require_wallet c;
  quotes_with_peers ← get_store_quotes config net ids sched address data_size data_type;
  let quoted_peers := (fun q : store_quote => q.1.1) <$> quotes_with_peers in
  '(peer_quotes, payment) ← price_quotes c quotes_with_peers;
  tx_hashes ← map_err (fun _ => DataError.Payment "On-chain payment failed: {e}")
    (pay payment (pay_for_quotes w));
  let proof := mkPaymentProof (mkProofOfPayment peer_quotes) tx_hashes in
  proof_bytes ← ok_or (serialize_single_node_proof proof)
    (DataError.Serialization "Failed to serialize payment proof: {e}");
  Ok (proof_bytes, quoted_peers).

Definition CHUNK_DATA_TYPE : Z := 0.

(** The result of [chunk_put] and the peers that were sent the chunk. *)
Definition chunk_put (c : Payer) (config : ClientConfig) (net : network)
    (quote_ids put_ids : nat -> Z) (quote_sched put_sched : nat -> nat) (content : bytes)
    : option (result DataError.t XorName * list peer) :=
  let address := compute_address content in
  match pay_for_storage c config net quote_ids quote_sched address (lenZ content) CHUNK_DATA_TYPE with
  | Ok (proof, peers) => chunk_put_to_close_group net put_ids put_sched content proof peers
  | Err DataError.AlreadyStored => Some (Ok address, [])
  | Err e => Some (Err e, [])
  end.

End Payment.

(** ** The quotes do not depend on the completion order *)

Abbreviation quote_answer := (peer * result DataError.t (PaymentQuote * Z))%type (only parsing).

Definition says_stored (a : quote_answer) : bool :=
  match a.2 with Err DataError.AlreadyStored => true | _ => false end.

Definition stored_count (l : list quote_answer) : nat := length (filter (fun a => says_stored a = true) l).

Definition quoted (l : list quote_answer) : list store_quote :=
  omap (fun '(p, r) => match r with Ok (q, price) => Some (p, q, price) | Err _ => None end) l.

Definition insufficient_quotes : result DataError.t (list store_quote) :=
  Err (DataError.InsufficientPeers "Got {} quotes, need {CLOSE_GROUP_SIZE}. Failures: [{}]").

#[export] Instance stored_count_perm : Proper ((≡ₚ) ==> eq) stored_count.
Proof. intros l1 l2 Hl. unfold stored_count. by rewrite Hl. Qed.

#[export] Instance quoted_perm : Proper ((≡ₚ) ==> (≡ₚ)) quoted.
Proof. intros l1 l2 Hl. unfold quoted. by rewrite Hl. Qed.

Lemma stored_count_cons (a : quote_answer) l :
  stored_count (a :: l) = ((if says_stored a then 1 else 0) + stored_count l)%nat.
Proof.
  unfold stored_count. destruct (says_stored a) eqn:E.
  - rewrite filter_cons_True by exact E. reflexivity.
  - rewrite filter_cons_False by congruence. reflexivity.
Qed.

Lemma quoted_ok p q price (l : list quote_answer) :
  quoted ((p, Ok (q, price)) :: l) = (p, q, price) :: quoted l.
Proof. reflexivity. Qed.

Lemma quoted_err p e (l : list quote_answer) : quoted ((p, Err e) :: l) = quoted l.
Proof. reflexivity. Qed.

Lemma stored_quoted (l : list quote_answer) : (stored_count l + length (quoted l) <= length l)%nat.
Proof.
  induction l as [|[p [[q price]|e]] l IH]; [reflexivity | |]; rewrite stored_count_cons; cbn [length].
  - rewrite quoted_ok. cbn [length says_stored snd]. lia.
  - rewrite quoted_err. destruct (says_stored _); lia.
Qed.

Lemma collect_quotes_spec (l : list quote_answer) quotes already :
  (already < CLOSE_GROUP_MAJORITY)%nat ->
  collect_quotes l quotes already =
    if bool_decide (CLOSE_GROUP_MAJORITY <= already + stored_count l)%nat then Err DataError.AlreadyStored
    else if bool_decide (CLOSE_GROUP_SIZE <= length (quotes ++ quoted l))%nat then Ok (quotes ++ quoted l)
    else insufficient_quotes.
Proof.
  revert quotes already. induction l as [|[p r] l IH]; intros quotes already Ha; cbn [collect_quotes].
  { change (stored_count []) with 0%nat. change (quoted []) with (@nil store_quote).
    rewrite app_nil_r, (bool_decide_false (_ <= already + _)%nat) by lia. reflexivity. }
  rewrite stored_count_cons. destruct r as [[q price]|e].
  - rewrite IH, quoted_ok, <- app_assoc by exact Ha. reflexivity.
  - rewrite quoted_err. destruct e; try (apply IH; exact Ha). cbn [says_stored snd].
    case_bool_decide as Hs.
    + rewrite bool_decide_true by lia. reflexivity.
    + rewrite IH, <- Nat.add_succ_comm by lia. reflexivity.
Qed.

Lemma length_omap {A B} (f : A -> option B) l : (length (omap f l) <= length l)%nat.
Proof. induction l as [|a l IH]; cbn; [lia|]. destruct (f a); cbn; lia. Qed.

(** The quotes come from the answers in the order in which they complete. *)
Lemma get_store_quotes_spec
    `{!Codec postcard ChunkMessage, !Codec rmp_serde PaymentQuote}
    price config net ids sched address size type peers :
  close_group_peers config net address = Ok peers -> (CLOSE_GROUP_SIZE <= length peers)%nat ->
  let answers := omap id (imap (fun k p => request_quote price net (ids k) address size type p)
                            (take CLOSE_GROUP_SIZE peers)) in
  exists quotes, quotes ≡ₚ quoted answers /\
    (stored_count answers + length quotes <= CLOSE_GROUP_SIZE)%nat /\
    get_store_quotes price config net ids sched address size type =
      if bool_decide (CLOSE_GROUP_MAJORITY <= stored_count answers)%nat then Err DataError.AlreadyStored
      else if bool_decide (CLOSE_GROUP_SIZE <= length quotes)%nat then Ok quotes
      else insufficient_quotes.
Proof.
  intros Hpeers Hfive answers. unfold get_store_quotes. rewrite Hpeers. cbn [mbind result_bind].
  rewrite length_take, (bool_decide_false (_ < _)%nat) by lia.
  fold answers. set (done := completions (length answers) sched answers).
  assert (done ≡ₚ answers) as Hd by (apply completions_perm; reflexivity).
  assert (length answers <= CLOSE_GROUP_SIZE)%nat as Hlen.
  { unfold answers. etransitivity; [apply length_omap|]. rewrite length_imap, length_take. lia. }
  pose proof (stored_quoted answers) as Hsum. apply quoted_perm in Hd as Hq.
  apply Permutation_length in Hq as Hlq. exists (quoted done). split; [exact Hq|]. split; [lia|].
  rewrite collect_quotes_spec by (cbn; lia). cbn [app Nat.add]. by rewrite (stored_count_perm _ _ Hd).
Qed.

(** C26: The quotes a client collects do not depend on the order in which the
    peers answer.  Three peers that hold the chunk already make it
    [AlreadyStored]; five quotes are returned, each with its peer; and anything
    less is an error, so that one or two peers that hold the chunk keep the
    client from both paying for it and taking it as stored. *)
Theorem store_quotes_decided
    `{!Codec postcard ChunkMessage, !Codec rmp_serde PaymentQuote}
    (price : QuotingMetrics -> Z) (config : ClientConfig) (net : network) (ids : nat -> Z)
    (sched : nat -> nat) (address : XorName) (size type : Z) (peers : list peer)
    (Hpeers : close_group_peers config net address = Ok peers)
    (Hfive : (CLOSE_GROUP_SIZE <= length peers)%nat) :
  let answers := omap id (imap (fun k p => request_quote price net (ids k) address size type p)
                            (take CLOSE_GROUP_SIZE peers)) in
  let r := get_store_quotes price config net ids sched address size type in
  ((CLOSE_GROUP_MAJORITY <= stored_count answers)%nat -> r = Err DataError.AlreadyStored) /\
  (length (quoted answers) = CLOSE_GROUP_SIZE -> exists quotes, r = Ok quotes /\ quotes ≡ₚ quoted answers) /\
  ((stored_count answers < CLOSE_GROUP_MAJORITY)%nat -> (length (quoted answers) < CLOSE_GROUP_SIZE)%nat ->
   r = insufficient_quotes) /\
  ((1 <= stored_count answers < CLOSE_GROUP_MAJORITY)%nat -> r = insufficient_quotes).
Proof.
  intros answers r.
  destruct (get_store_quotes_spec price config net ids sched address size type peers Hpeers Hfive)
    as (quotes & Hp & Hsum & Hr).
  fold answers r in Hp, Hsum, Hr. rewrite Hr. apply Permutation_length in Hp as Hl.
  assert (forall n m : nat, (n < m)%nat -> bool_decide (m <= n)%nat = false) as Hlt
    by (intros; apply bool_decide_false; lia).
  change CLOSE_GROUP_MAJORITY with 3%nat in *. change CLOSE_GROUP_SIZE with 5%nat in *.
  split; [|split; [|split]]; intros Hc.
  - rewrite bool_decide_true by exact Hc. reflexivity.
  - rewrite Hlt, bool_decide_true by lia. eauto.
  - intros Hn. rewrite !Hlt by lia. reflexivity.
  - rewrite !Hlt by lia. reflexivity.
Qed.

#[local] Instance sample_quote_codec : Codec rmp_serde PaymentQuote :=
  table_codec [(sample_quote x0a, [x0a])].

(** Peers of which those with an id of at most [n] hold the chunk. *)
Definition quoting_network (n : Z) : network :=
  mkNetwork [x00] (fun _ count => Ok (take count (sample_peers [x01; x02; x03; x04; x05]))) []
    (fun p m =>
       let id := match decode_message m with Ok m => request_id m | Err _ => 0 end in
       let stored := match peer_id p with b :: _ => byte_to_Z b <=? n | [] => false end in
       (Ok tt, [MessageEvent CHUNK_PROTOCOL_ID (peer_id p)
          (default [] (res_ok (encode_message
             (mkMessage id (QuoteResponse (QuoteSuccess [x0a] stored))))))])).

Lemma store_quotes_decided_witness :
  let config := ClientConfig_default None in
  let quotes n := get_store_quotes (fun _ => 7) config (quoting_network n) Z.of_nat (fun k => 3 * k)%nat
                    [x01] 100 0 in
  quotes 3 = Err DataError.AlreadyStored /\ quotes 1 = insufficient_quotes /\
  exists qs, quotes 0 = Ok qs /\ length qs = 5%nat.
Proof.
  cbv zeta. set (peers := sample_peers [x01; x02; x03; x04; x05]).
  pose proof (fun n => store_quotes_decided (fun _ => 7) (ClientConfig_default None) (quoting_network n)
    Z.of_nat (fun k => 3 * k)%nat [x01] 100 0 peers) as Hq.
  destruct (Hq 3 eq_refl (le_n 5)) as (H3 & _). destruct (Hq 1 eq_refl (le_n 5)) as (_ & _ & _ & H1).
  destruct (Hq 0 eq_refl (le_n 5)) as (_ & H5 & _).
  split; [apply H3; vm_compute; lia|]. split; [apply H1; vm_compute; lia|].
  destruct H5 as (qs & Hqs & Hp); [vm_compute; reflexivity|]. exists qs. split; [exact Hqs|].
  rewrite Hp. vm_compute. reflexivity.
Defined.
