(* ===== verification/NetBatch.v ===== *)
(** * The native client: batches of chunks

    [batch.rs] of [ant-client/ant-core/src/data/client]: chunks are uploaded in
    waves of 64, each paid in one transaction; the puts of a wave overlap with
    the quotes of the next.  [data_upload] of [data.rs] uploads a file this way.
    A log records what the wallet was asked to pay, the proofs of payment that were
    built of its answers, and what was sent to the peers. *)

From Stdlib Require Import ZArith Lia Strings.Byte.
From stdpp Require Import base list strings gmap.
From S2P Require Import Prelude Interfaces Cipher Reference Protocol Evm Quote PayProof SingleNode.
From S2P Require Import NetFetch NetClient NetPayment.

Local Open Scope Z_scope.

Definition PAYMENT_WAVE_SIZE : nat := 64.

(** [buffer_unordered(n)]: at most [n] futures in flight, one more started for
    each that completes; the results in completion order. *)
Fixpoint buffer_rounds {A} (fuel : nat) (sched : nat -> nat) (in_flight waiting : list A) : list A :=
  match fuel with
  | O => []
  | S fuel =>
    match next_completed (sched 0%nat) in_flight with
    | None => []
    | Some (a, in_flight) =>
        a :: buffer_rounds fuel (fun n => sched (S n)) (in_flight ++ take 1 waiting) (drop 1 waiting)
    end
  end.

Definition buffer_unordered {A} (n : nat) (sched : nat -> nat) (l : list A) : list A :=
  buffer_rounds (length l) sched (take n l) (drop n l).

(** [slice::chunks]. *)
Fixpoint chunks_of {A} (fuel n : nat) (l : list A) : list (list A) :=
  match fuel, l with
  | S fuel, _ :: _ => take n l :: chunks_of fuel n (drop n l)
  | _, _ => []
  end.

Lemma buffer_rounds_perm {A} fuel sched (in_flight waiting : list A) :
  (length in_flight + length waiting <= fuel)%nat -> (in_flight = [] -> waiting = []) ->
  buffer_rounds fuel sched in_flight waiting ≡ₚ in_flight ++ waiting.
Proof.
  revert sched in_flight waiting. induction fuel as [|fuel IH]; intros sched l w Hl He; cbn [buffer_rounds].
  { destruct l, w; cbn in Hl; try lia. reflexivity. }
  destruct (next_completed_spec (sched 0%nat) l) as [(-> & ->) | (a & l' & -> & Hp)].
  { rewrite (He eq_refl). reflexivity. }
  apply Permutation_length in Hp as Hlen. cbn [length] in Hlen.
  rewrite Hp. cbn [app]. apply perm_skip. rewrite IH.
  - rewrite <- app_assoc, take_drop. reflexivity.
  - rewrite length_app, length_take, length_drop. lia.
  - intros Hn. apply app_eq_nil in Hn as [_ Hn]. destruct w; [reflexivity | discriminate].
Qed.

Lemma buffer_unordered_perm {A} n sched (l : list A) : (1 <= n)%nat -> buffer_unordered n sched l ≡ₚ l.
Proof.
  intros Hn. unfold buffer_unordered. rewrite buffer_rounds_perm; [by rewrite take_drop | |].
  - rewrite length_take, length_drop. lia.
  - destruct n; [lia|]. destruct l; [reflexivity | discriminate].
Qed.

Lemma chunks_of_concat {A} fuel n (l : list A) :
  (1 <= n)%nat -> (length l <= fuel)%nat -> concat (chunks_of fuel n l) = l.
Proof.
  intros Hn. revert l. induction fuel as [|fuel IH]; intros [|a l] Hl; cbn [chunks_of]; try reflexivity.
  { cbn in Hl. lia. }
  cbn [concat]. rewrite IH; [apply take_drop|]. rewrite length_drop. cbn [length] in *. lia.
Qed.

Record PreparedChunk := mkPrepared {
  p_content : bytes;
  p_address : XorName;
  p_quoted_peers : list peer;
  p_payment : SingleNodePayment;
  p_peer_quotes : list (bytes * PaymentQuote)
}.

Record PaidChunk := mkPaidChunk {
  pd_content : bytes;
  pd_address : XorName;
  pd_quoted_peers : list peer;
  proof_bytes : bytes
}.

Record PaymentIntent := mkIntent {
  payments : list (bytes * bytes * Z);
  intent_total : Z
}.

(** All non-zero entries and their total, which wraps around at 256 bits. *)
Definition from_prepared_chunks (prepared : list PreparedChunk) : PaymentIntent :=
  fold_left (fun acc info =>
      if amount info =? 0 then acc
      else mkIntent (payments acc ++ [(i_quote_hash info, i_rewards_address info, amount info)])
             ((intent_total acc + amount info) mod amount_modulus))
    (prepared ≫= (fun chunk => quotes (p_payment chunk))) (mkIntent [] 0).

(** A call of the wallet: the addresses of the chunks it is to pay for, and the
    transactions it made, also when it fails. *)
Record wallet_call := mkCall { asked_for : list XorName; transactions : gmap bytes bytes }.

(** What is paid and sent: [put_to_peers] are the addresses whose puts were run. *)
Record upload_log := mkLog { paid : list PaidChunk; put_to_peers : list XorName; wallet_calls : list wallet_call }.

Section Batch.
Context `{Blake3, Evm, !Codec postcard ChunkMessage}.
Context `{!Codec rmp_serde PaymentQuote, !Codec rmp_serde PaymentProof}.
Context (calculate_price : QuotingMetrics -> Z).
Context {EvmNetwork : Type}.
Context (get_market_price : EvmNetwork -> list QuotingMetrics -> result string (list Z)).

Definition paid_chunk (tx_hash_map : gmap bytes bytes) (chunk : PreparedChunk)
    : result DataError.t PaidChunk :=
  tx_hashes ← try_fold (fun tx_hashes info =>
      if amount info =? 0 then Ok tx_hashes
      else
        tx_hash ← ok_or (tx_hash_map !! i_quote_hash info) (DataError.Payment
          "Missing tx hash for quote {} - external signer did not return a receipt for this payment");
        Ok (tx_hashes ++ [tx_hash])) [] (quotes (p_payment chunk));
  let proof := mkPaymentProof (mkProofOfPayment (p_peer_quotes chunk)) tx_hashes in
  proof_bytes ← ok_or (serialize_single_node_proof proof)
    (DataError.Serialization "Failed to serialize payment proof: {e}");
  Ok (mkPaidChunk (p_content chunk) (p_address chunk) (p_quoted_peers chunk) proof_bytes).

Definition build_paid_chunks (prepared : list PreparedChunk) (tx_hash_map : gmap bytes bytes)
    : result DataError.t (list PaidChunk) := try_map (paid_chunk tx_hash_map) prepared.

Definition finalize_batch_payment (prepared : list PreparedChunk) (tx_hash_map : gmap bytes bytes)
    : result DataError.t (list PaidChunk) := build_paid_chunks prepared tx_hash_map.

(** What the environment gives to the requests of one address: the ids drawn and
    the order in which they complete. *)
Record runs := mkRuns { run_ids : XorName -> nat -> Z; run_order : XorName -> nat -> nat }.

Context (c : Payer (EvmNetwork := EvmNetwork)) (config : ClientConfig) (net : network).
Context (quoting putting : runs).

Definition prepare_chunk_payment (content : bytes) : result DataError.t (option PreparedChunk) :=
  let address := compute_address content in
  match get_store_quotes calculate_price config net (run_ids quoting address) (run_order quoting address)
          address (lenZ content) DATA_TYPE_CHUNK with
  | Err DataError.AlreadyStored => Ok None
  | Err e => Err e
  | Ok quotes_with_peers =>
      let quoted_peers := (fun q : store_quote => q.1.1) <$> quotes_with_peers in
      '(peer_quotes, payment) ← price_quotes get_market_price c quotes_with_peers;
      Ok (Some (mkPrepared content address quoted_peers payment peer_quotes))
  end.

(** With the calls of the wallet; the transactions of one that fails are dropped. *)
Definition batch_pay (prepared : list PreparedChunk) : result DataError.t (list PaidChunk) * list wallet_call :=
  if bool_decide (prepared = []) then (Ok [], [])
  else
    match require_wallet c with
    | Err e => (Err e, [])
    | Ok w =>
        let all_payments := prepared ≫= (fun chunk =>
          (fun info => (i_quote_hash info, i_rewards_address info, amount info)) <$> quotes (p_payment chunk)) in
        match pay_for_quotes w all_payments with
        | Ok tx_hash_map => (build_paid_chunks prepared tx_hash_map, [mkCall (p_address <$> prepared) tx_hash_map])
        | Err (_, made) => (Err (DataError.Payment "Batch payment failed: {err}"), [mkCall (p_address <$> prepared) made])
        end
    end.

(** The second component of a wave's result are the addresses already stored. *)
Definition prepare_wave (order : nat -> nat) (chunks : list bytes)
    : result DataError.t (list PreparedChunk * list XorName) :=
  let results := buffer_unordered (chunk_concurrency config) order
    ((fun content => (compute_address content, prepare_chunk_payment content)) <$> chunks) in
  try_fold (fun '(prepared, already_stored) '(address, r) =>
      chunk ← r;
      match chunk with
      | Some chunk => Ok (prepared ++ [chunk], already_stored)
      | None => Ok (prepared, already_stored ++ [address])
      end) ([], []) results.

(** The put of one chunk; the loop of puts always ends ([put_stops_at_majority]),
    so the last case is not reached. *)
Definition put_paid (chunk : PaidChunk) : result DataError.t XorName :=
  let address := compute_address (pd_content chunk) in
  match chunk_put_to_close_group net (run_ids putting address) (run_order putting address)
          (pd_content chunk) (proof_bytes chunk) (pd_quoted_peers chunk) with
  | Some (r, _) => r
  | None => insufficient
  end.

Definition store_paid_chunks (order : nat -> nat) (paid_chunks : list PaidChunk)
    : result DataError.t (list XorName) :=
  try_map id (buffer_unordered (chunk_concurrency config) order (put_paid <$> paid_chunks)).

(** The loop over the waves.  [orders k] are the completion orders of the quotes
    and of the puts in round [k]. *)
Fixpoint upload_waves (orders : nat -> (nat -> nat) * (nat -> nat)) (waves : list (list bytes))
    (pending_store : option (list PaidChunk)) (all_addresses : list XorName) (log : upload_log)
    : result DataError.t (list XorName) * upload_log :=
  let '(prepare_order, store_order) := orders 0%nat in
  let store_result := store_paid_chunks store_order <$> pending_store in
  let log := match pending_store with
             | Some chunks => mkLog (paid log) (put_to_peers log ++ (pd_address <$> chunks)) (wallet_calls log)
             | None => log
             end in
  let after_store := match store_result with
                     | Some stored => (fun s => all_addresses ++ s) <$> stored
                     | None => Ok all_addresses
                     end in
  match waves with
  | [] => (after_store, log)
  | wave_chunks :: waves' =>
    let prepare_result := prepare_wave prepare_order wave_chunks in
    match after_store with
    | Err e => (Err e, log)
    | Ok all_addresses =>
      match prepare_result with
      | Err e => (Err e, log)
      | Ok (prepared_chunks, already_stored) =>
        let all_addresses := all_addresses ++ already_stored in
        if bool_decide (prepared_chunks = []) then
          upload_waves (fun k => orders (S k)) waves' None all_addresses log
        else
          match batch_pay prepared_chunks with
          | (Err e, calls) => (Err e, mkLog (paid log) (put_to_peers log) (wallet_calls log ++ calls))
          | (Ok paid_chunks, calls) =>
              upload_waves (fun k => orders (S k)) waves' (Some paid_chunks) all_addresses
                (mkLog (paid log ++ paid_chunks) (put_to_peers log) (wallet_calls log ++ calls))
          end
      end
    end
  end.

(** The chunks with an address not seen before, and the addresses of the others. *)
Fixpoint dedup_chunks (chunks : list bytes) (seen : gset XorName) : list bytes * list XorName :=
  match chunks with
  | [] => ([], [])
  | chunk :: chunks' =>
    let address := compute_address chunk in
    let '(unique, again) := dedup_chunks chunks' ({[address]} ∪ seen) in
    if bool_decide (address ∈ seen) then (unique, address :: again) else (chunk :: unique, again)
  end.

Definition batch_upload_chunks (orders : nat -> (nat -> nat) * (nat -> nat)) (chunks : list bytes)
    : result DataError.t (list XorName) * upload_log :=
  if bool_decide (chunks = []) then (Ok [], mkLog [] [] [])
  else
    let '(unique_chunks, all_addresses) := dedup_chunks chunks ∅ in
    let waves := chunks_of (length unique_chunks) PAYMENT_WAVE_SIZE unique_chunks in
    upload_waves orders waves None all_addresses (mkLog [] [] []).

(** ** What a batch does *)

Lemma dedup_chunks_spec chunks seen unique again :
  dedup_chunks chunks seen = (unique, again) ->
  (compute_address <$> unique) ++ again ≡ₚ compute_address <$> chunks /\
  NoDup (compute_address <$> unique) /\
  (forall a, a ∈ (compute_address <$> unique) -> a ∉ seen) /\
  (forall a, a ∈ again -> a ∈ seen \/ a ∈ (compute_address <$> unique)) /\
  (forall u, u ∈ unique -> u ∈ chunks).
Proof.
  revert seen unique again. induction chunks as [|x chunks IH]; intros seen unique again; cbn [dedup_chunks].
  { intros [= <- <-]. split; [reflexivity|]. split; [apply NoDup_nil_2|]. set_solver. }
  destruct (dedup_chunks chunks _) as [u g] eqn:E. apply IH in E as (Hp & Hn & Hs & Hg & Hu).
  case_bool_decide as Hx; intros [= <- <-].
  - split; [|split; [exact Hn|]; split; [set_solver|]; split; [|set_solver]].
    + rewrite fmap_cons, <- Hp. solve_Permutation.
    + intros a [->|Ha]%elem_of_cons; [auto|]. apply Hg in Ha. set_solver.
  - split; [|split; [|split; [|split]]].
    + rewrite !fmap_cons, <- Hp. reflexivity.
    + rewrite fmap_cons. apply NoDup_cons. split; [|exact Hn]. intros Hin. apply Hs in Hin. set_solver.
    + intros a. rewrite fmap_cons, elem_of_cons. intros [->|Ha]; [exact Hx|]. apply Hs in Ha. set_solver.
    + intros a Ha. rewrite fmap_cons, elem_of_cons. apply Hg in Ha. set_solver.
    + set_solver.
Qed.

(** The paid chunk of a chunk: same content, under its hash. *)
Definition pays_for (chunk : bytes) (pc : PaidChunk) : Prop :=
  pd_content pc = chunk /\ pd_address pc = compute_address chunk.

Lemma prepare_chunk_content chunk pc :
  prepare_chunk_payment chunk = Ok (Some pc) ->
  p_content pc = chunk /\ p_address pc = compute_address chunk.
Proof.
  unfold prepare_chunk_payment. destruct (get_store_quotes _ _ _ _ _ _ _ _) as [qs|e].
  - destruct (price_quotes _ _ _) as [[pq payment]|]; cbn; [|discriminate]. intros [= <-]. auto.
  - destruct e; discriminate.
Qed.

Lemma prepare_wave_spec order chunks prepared already :
  (1 <= chunk_concurrency config)%nat -> prepare_wave order chunks = Ok (prepared, already) ->
  exists stored new, chunks ≡ₚ stored ++ new /\ already = compute_address <$> stored /\
    Forall (fun u => prepare_chunk_payment u = Ok None) stored /\
    Forall2 (fun u pc => prepare_chunk_payment u = Ok (Some pc)) new prepared.
Proof.
  intros Hc. unfold prepare_wave. set (f := fun content => (compute_address content, prepare_chunk_payment content)).
  pose proof (buffer_unordered_perm _ order (f <$> chunks) Hc) as Hp.
  destruct (Permutation_map_inv f chunks Hp) as (chunks' & Heq & Hp'). rewrite Heq. clear Hp Heq.
  assert (forall l prep0 al0, try_fold (fun '(prepared, already_stored) '(address, r) =>
      chunk ← r;
      match chunk with
      | Some chunk => Ok (prepared ++ [chunk], already_stored)
      | None => Ok (prepared, already_stored ++ [address])
      end) (prep0, al0) (f <$> l) = (Ok (prepared, already) : result DataError.t _) ->
    exists stored new prep1, l ≡ₚ stored ++ new /\ prepared = prep0 ++ prep1 /\
      already = al0 ++ (compute_address <$> stored) /\
      Forall (fun u => prepare_chunk_payment u = Ok None) stored /\
      Forall2 (fun u pc => prepare_chunk_payment u = Ok (Some pc)) new prep1) as Hfold.
  { induction l as [|x l IH]; intros prep0 al0; cbn.
    - intros [= <- <-]. exists [], [], []. rewrite !app_nil_r. repeat split; constructor.
    - destruct (prepare_chunk_payment x) as [[pc|]|e] eqn:Ex; cbn; [| |discriminate];
        intros Hf; apply IH in Hf as (stored & new & prep1 & Hl & -> & -> & Hs & Hn).
      + exists stored, (x :: new), (pc :: prep1). rewrite Hl, <- app_assoc.
        split; [solve_Permutation|]. split; [reflexivity|]. split; [reflexivity|].
        split; [exact Hs|]. constructor; assumption.
      + exists (x :: stored), new, prep1. rewrite Hl, <- app_assoc. split; [reflexivity|].
        split; [reflexivity|]. split; [reflexivity|]. split; [constructor; assumption | exact Hn]. }
  intros Hok. apply Hfold in Hok as (stored & new & prep1 & Hl & -> & -> & Hs & Hn).
  exists stored, new. rewrite Hp', Hl. auto.
Qed.

Lemma paid_chunk_content m pc pd :
  paid_chunk m pc = Ok pd -> pd_content pd = p_content pc /\ pd_address pd = p_address pc.
Proof.
  unfold paid_chunk. destruct (try_fold _ _ _) as [txs|]; cbn; [|discriminate].
  destruct (serialize_single_node_proof _); cbn; [|discriminate]. intros [= <-]. auto.
Qed.

Lemma prepared_addresses new prepared :
  Forall2 (fun u pc => prepare_chunk_payment u = Ok (Some pc)) new prepared -> p_address <$> prepared = compute_address <$> new.
Proof.
  induction 1 as [|u pc new prepared Hu _ IH]; [reflexivity|]. rewrite !fmap_cons, IH.
  by rewrite (proj2 (prepare_chunk_content _ _ Hu)).
Qed.

(** The addresses that the wallet was asked to pay for. *)
Definition asked (calls : list wallet_call) : list XorName := calls ≫= asked_for.

(** The last call was for these addresses, if there are any. *)
Definition last_call (calls : list wallet_call) (lost : list XorName) : Prop :=
  lost = [] \/ asked_for <$> last calls = Some lost.

Lemma batch_pay_calls new prepared r calls :
  Forall2 (fun u pc => prepare_chunk_payment u = Ok (Some pc)) new prepared ->
  batch_pay prepared = (r, calls) ->
  asked calls = compute_address <$> new /\ last_call calls (compute_address <$> new) \/ calls = [] /\ is_ok r = false.
Proof.
  intros Hn. rewrite <- (prepared_addresses _ _ Hn). unfold batch_pay, asked. case_bool_decide as E.
  { intros [= <- <-]. subst. left. split; [done | by left]. }
  destruct (require_wallet c) as [w|]; [|intros [= <- <-]; by right].
  destruct (pay_for_quotes _ _) as [m|[e m]]; intros [= <- <-]; left; cbn; rewrite app_nil_r;
    (split; [done | by right]).
Qed.

Lemma batch_pay_spec new prepared pds calls :
  Forall2 (fun u pc => prepare_chunk_payment u = Ok (Some pc)) new prepared ->
  batch_pay prepared = (Ok pds, calls) -> Forall2 pays_for new pds.
Proof.
  intros Hn. unfold batch_pay. case_bool_decide as E.
  { intros [= <- _]. subst. inversion Hn. constructor. }
  destruct (require_wallet c) as [w|]; [|discriminate].
  destruct (pay_for_quotes _ _) as [m|[e m]]; [|discriminate].
  intros [= Hb _]. apply try_map_Ok_Forall2 in Hb. clear E. revert pds Hb.
  induction Hn as [|u pc new prepared Hu _ IH]; intros pds Hb; inversion Hb as [|? pd ? ? Hpd Hb']; subst;
    constructor; auto.
  apply paid_chunk_content in Hpd as [Hcn Had]. unfold pays_for. rewrite Hcn, Had. exact (prepare_chunk_content _ _ Hu).
Qed.

Lemma put_paid_address pc a : put_paid pc = Ok a -> a = compute_address (pd_content pc).
Proof.
  unfold put_paid. destruct (put_to_close_group_outcome net (run_ids putting (compute_address (pd_content pc)))
    (run_order putting (compute_address (pd_content pc))) (pd_content pc) (proof_bytes pc)
    (pd_quoted_peers pc)) as (r & n & -> & _ & [(-> & _) | (-> & _)]); [congruence | discriminate].
Qed.

Lemma store_paid_spec order pds s :
  (1 <= chunk_concurrency config)%nat -> store_paid_chunks order pds = Ok s ->
  Forall (fun pc => pd_address pc = compute_address (pd_content pc)) pds ->
  s ≡ₚ pd_address <$> pds /\ Forall (fun pc => put_paid pc = Ok (pd_address pc)) pds.
Proof.
  intros Hc Hs Hw. unfold store_paid_chunks in Hs.
  pose proof (buffer_unordered_perm _ order (put_paid <$> pds) Hc) as Hp.
  destruct (Permutation_map_inv put_paid pds Hp) as (pds' & Heq & Hp'). rewrite Heq in Hs.
  rewrite Hp' in Hw |- *. clear -Hs Hw. apply try_map_Ok_Forall2 in Hs.
  assert (Forall (fun pc => put_paid pc = Ok (pd_address pc)) pds' /\ s = pd_address <$> pds') as [Hf ->].
  { revert s Hs. induction Hw as [|pc pds Ha _ IH]; intros s Hs; inversion Hs as [|? a ? s' Hpc Hs']; subst.
    - split; constructor.
    - cbn in Hpc. pose proof (put_paid_address _ _ Hpc) as ->. rewrite <- Ha in Hpc |- *.
      destruct (IH _ Hs') as [Hf ->]. split; [constructor; assumption | reflexivity]. }
  auto.
Qed.

(** The outcome of a batch for one chunk: the network had it, or it was paid and
    a majority stored it. *)
Definition chunk_done (log : upload_log) (u : bytes) : Prop :=
  prepare_chunk_payment u = Ok None \/
  exists pc, pc ∈ paid log /\ pays_for u pc /\ put_paid pc = Ok (compute_address u).

Lemma pays_for_wf news pds :
  Forall2 pays_for news pds -> Forall (fun pc => pd_address pc = compute_address (pd_content pc)) pds.
Proof.
  induction 1 as [|u pc news pds [Hcn Ha] _ IH]; constructor; [rewrite Hcn; exact Ha | exact IH].
Qed.

Lemma pays_for_addresses news pds :
  Forall2 pays_for news pds -> pd_address <$> pds = compute_address <$> news.
Proof. induction 1 as [|u pc news pds [_ Ha] _ IH]; [reflexivity|]. rewrite !fmap_cons, Ha, IH. reflexivity. Qed.

(** The puts of the wave before. *)
Lemma after_store_spec order pending all all' news :
  (1 <= chunk_concurrency config)%nat ->
  match store_paid_chunks order <$> pending with
  | Some stored => (fun s => all ++ s) <$> stored
  | None => Ok all
  end = Ok all' ->
  Forall2 pays_for news (default [] pending) ->
  all' ≡ₚ all ++ (pd_address <$> default [] pending) /\
  Forall (fun pc => put_paid pc = Ok (pd_address pc)) (default [] pending).
Proof.
  intros Hc Hs Hn. destruct pending as [pds|]; cbn in *.
  - destruct (store_paid_chunks order pds) as [s|] eqn:E; [|discriminate]. injection Hs as <-.
    apply store_paid_spec in E as [-> Hf]; [auto | exact Hc | exact (pays_for_wf _ _ Hn)].
  - injection Hs as <-. rewrite app_nil_r. auto.
Qed.

(** What holds when the loop returns, of the chunks still to come. *)
Definition waves_done (pending : option (list PaidChunk)) (all : list XorName) (rest : list bytes)
    (log log' : upload_log) (r : result DataError.t (list XorName)) : Prop :=
  exists added sent lost calls, paid log' = paid log ++ added /\
    put_to_peers log' = pd_address <$> paid log' /\
    Forall2 pays_for sent added /\ sent ++ lost ⊆+ rest /\
    wallet_calls log' = wallet_calls log ++ calls /\ asked calls = compute_address <$> (sent ++ lost) /\
    last_call calls (compute_address <$> lost) /\
    (forall addrs, r = Ok addrs -> lost = [] /\
       addrs ≡ₚ all ++ (pd_address <$> default [] pending) ++ (compute_address <$> rest) /\
       Forall (fun pc => put_paid pc = Ok (pd_address pc)) (default [] pending) /\
       Forall (chunk_done log') rest).

Lemma waves_done_err pending all rest log log' e :
  paid log' = paid log -> put_to_peers log' = pd_address <$> paid log -> wallet_calls log' = wallet_calls log ->
  waves_done pending all rest log log' (Err e).
Proof.
  intros Hp Hl Hc. exists [], [], [], []. rewrite Hp, Hc, !app_nil_r.
  split; [done|]. split; [done|]. split; [constructor|]. split; [apply submseteq_nil_l|].
  split; [done|]. split; [done|]. split; [by left | discriminate].
Qed.

(** A payment that fails. *)
Lemma waves_done_unpaid pending all wave rest log log' stored new calls e :
  wave ≡ₚ stored ++ new -> paid log' = paid log -> put_to_peers log' = pd_address <$> paid log ->
  wallet_calls log' = wallet_calls log ++ calls ->
  asked calls = compute_address <$> new /\ last_call calls (compute_address <$> new) \/ calls = [] ->
  waves_done pending all (wave ++ rest) log log' (Err e).
Proof.
  intros Hw Hp Hl Hc [[Ha Hlast]| ->]; [|apply waves_done_err; try done; by rewrite Hc, app_nil_r].
  exists [], [], new, calls. rewrite Hp, Hc, app_nil_r.
  split; [done|]. split; [done|]. split; [constructor|]. split; [|by split_and!].
  rewrite Hw, <- app_assoc. cbn. apply submseteq_inserts_l, submseteq_inserts_r. reflexivity.
Qed.

(** One wave: what was already stored and what is new and was paid. *)
Lemma waves_done_wave pending all all' wave stored new rest log1 log' pds calls r :
  wave ≡ₚ stored ++ new -> all' ≡ₚ all ++ (pd_address <$> default [] pending) ->
  Forall (fun pc => put_paid pc = Ok (pd_address pc)) (default [] pending) ->
  Forall (fun u => prepare_chunk_payment u = Ok None) stored -> Forall2 pays_for new pds ->
  asked calls = compute_address <$> new ->
  waves_done (Some pds) (all' ++ (compute_address <$> stored)) rest
    (mkLog (paid log1 ++ pds) (put_to_peers log1) (wallet_calls log1 ++ calls)) log' r ->
  waves_done pending all (wave ++ rest) log1 log' r.
Proof.
  intros Hw Hall Hput Hst Hnew Hasked (added & sent & lost & calls' & Hpaid & Hl & Hs & Hsub & Hcalls & Ha' & Hlast & Hok).
  cbn [paid wallet_calls] in Hpaid, Hcalls.
  exists (pds ++ added), (new ++ sent), lost, (calls ++ calls'). rewrite Hpaid, <- app_assoc in *.
  split; [reflexivity|]. split; [exact Hl|]. split; [apply Forall2_app; assumption|]. split.
  { rewrite Hw, <- !app_assoc. apply submseteq_inserts_l, submseteq_app; [reflexivity | exact Hsub]. }
  split; [exact Hcalls|]. split.
  { unfold asked in *. rewrite bind_app, Hasked, Ha', !fmap_app. try rewrite <- app_assoc. reflexivity. }
  split.
  { destruct Hlast as [Hlast|Hlast]; [by left | right]. destruct calls' as [|s calls']; [discriminate|].
    rewrite last_app. by destruct (last (s :: calls')). }
  intros addrs Ha. destruct (Hok addrs Ha) as (-> & Hperm & Hf & Hd). split; [reflexivity|].
  change (default [] (Some pds)) with pds in Hperm, Hf. split; [|split].
  - rewrite Hperm, Hall, fmap_app, Hw, fmap_app, (pays_for_addresses _ _ Hnew). solve_Permutation.
  - exact Hput.
  - apply Forall_app. split; [|exact Hd]. rewrite Hw. apply Forall_app. split.
    + eapply Forall_impl; [exact Hst|]. intros u Hu. left. exact Hu.
    + apply Forall_forall. intros u Hu. apply list_elem_of_lookup_1 in Hu as [k Hk].
      destruct (Forall2_lookup_l _ _ _ _ _ Hnew Hk) as (pc & Hpc & Hpays). right. exists pc.
      apply list_elem_of_lookup_2 in Hpc. split; [rewrite Hpaid; set_solver|]. split; [exact Hpays|].
      destruct Hpays as [_ <-]. exact (proj1 (Forall_forall _ _) Hf pc Hpc).
Qed.

Lemma upload_waves_spec orders waves pending all log r log' news :
  (1 <= chunk_concurrency config)%nat ->
  upload_waves orders waves pending all log = (r, log') ->
  pd_address <$> paid log = put_to_peers log ++ (pd_address <$> default [] pending) ->
  Forall2 pays_for news (default [] pending) ->
  waves_done pending all (concat waves) log log' r.
Proof.
  intros Hc. revert orders pending all log news.
  induction waves as [|wave waves IH]; intros orders pending all log news; cbn [upload_waves];
    destruct (orders 0%nat) as [prepare_order store_order]; intros Hr Hlog Hnews;
    set (log1 := match pending with Some chunks => _ | None => log end) in Hr;
    assert (paid log1 = paid log /\ put_to_peers log1 = pd_address <$> paid log /\ wallet_calls log1 = wallet_calls log)
      as (Hp1 & Hl1 & Hc1) by (destruct pending; cbn in *; rewrite ?app_nil_r in Hlog; auto);
    match type of Hr with context [match ?a with Some stored => _ | None => Ok all end] =>
      destruct (match a with Some stored => (fun s => all ++ s) <$> stored | None => Ok all end)
        as [all'|e] eqn:Ea end;
    try (injection Hr as <- <-; apply waves_done_err; assumption);
    pose proof (after_store_spec store_order pending all all' news Hc Ea Hnews) as [Hall Hput].
  - injection Hr as <- <-. exists [], [], [], []. rewrite Hp1, Hc1, !app_nil_r.
    split; [reflexivity|]. split; [exact Hl1|]. split; [constructor|]. split; [reflexivity|].
    split; [reflexivity|]. split; [reflexivity|]. split; [by left|].
    intros addrs [= <-]. cbn [concat fmap list_fmap]. rewrite ?app_nil_r. auto.
  - cbn [concat]. destruct (prepare_wave prepare_order wave) as [[prepared already]|e] eqn:Ew.
    2:{ injection Hr as <- <-. apply waves_done_err; assumption. }
    apply (prepare_wave_spec _ _ _ _ Hc) in Ew as (stored & new & Hw & -> & Hst & Hnew).
    assert (forall pds calls, Forall2 pays_for new pds -> asked calls = compute_address <$> new ->
      waves_done (Some pds) (all' ++ (compute_address <$> stored)) (concat waves)
        (mkLog (paid log1 ++ pds) (put_to_peers log1) (wallet_calls log1 ++ calls)) log' r ->
      waves_done pending all (wave ++ concat waves) log log' r) as Hwave.
    { intros pds calls Hpds Hcalls Hd.
      destruct (waves_done_wave pending all all' wave stored new (concat waves) log1 log' pds calls r
        Hw Hall Hput Hst Hpds Hcalls Hd) as (a & b & x & y & Hx & Hy). exists a, b, x, y. rewrite <- Hp1, <- Hc1. auto. }
    case_bool_decide as Hnil.
    + subst prepared. apply Forall2_nil_inv_r in Hnew as ->.
      assert (pd_address <$> paid log1 = put_to_peers log1 ++ (pd_address <$> [])) as Hl2
        by (rewrite Hp1, Hl1; symmetry; apply app_nil_r).
      apply (Hwave [] [] (Forall2_nil_2 _ _ _) eq_refl).
      replace (mkLog (paid log1 ++ []) (put_to_peers log1) (wallet_calls log1 ++ [])) with log1
        by (destruct log1; cbn; by rewrite !app_nil_r).
      exact (IH _ None _ log1 [] Hr Hl2 (Forall2_nil_2 _ _ _)).
    + destruct (batch_pay prepared) as [[pds|e] calls] eqn:Eb; pose proof (batch_pay_calls _ _ _ _ Hnew Eb) as Hcalls.
      2:{ injection Hr as <- <-. eapply waves_done_unpaid; [exact Hw | exact Hp1 | exact Hl1 | cbn; by rewrite Hc1 | tauto]. }
      destruct Hcalls as [[Hcalls _]|[_ ?]]; [|discriminate].
      pose proof (batch_pay_spec _ _ _ _ Hnew Eb) as Hpds.
      assert (pd_address <$> (paid log1 ++ pds) = put_to_peers log1 ++ (pd_address <$> pds)) as Hl2
        by (rewrite fmap_app, Hp1, Hl1; reflexivity).
      apply (Hwave pds calls Hpds Hcalls).
      apply IH with (news := new) in Hr; [exact Hr | exact Hl2 | exact Hpds].
Qed.

(** The account of an upload of chunks with these addresses: no address is paid for in
    two calls of the wallet or twice in one; what was paid for has its proof, and was
    sent to its peers, but for the last call when the upload fails. *)
Definition account_ok (log : upload_log) (addresses : list XorName) (ok : bool) : Prop :=
  put_to_peers log = pd_address <$> paid log /\
  NoDup (asked (wallet_calls log)) /\ asked (wallet_calls log) ⊆ addresses /\
  exists lost, asked (wallet_calls log) = (pd_address <$> paid log) ++ lost /\
    last_call (wallet_calls log) lost /\ (ok = true -> lost = []).

Lemma account_paid log addresses ok : account_ok log addresses ok ->
  NoDup (pd_address <$> paid log) /\ pd_address <$> paid log ⊆ addresses.
Proof.
  intros (_ & Hn & Hs & lost & Ha & _). rewrite Ha in Hn, Hs. apply NoDup_app in Hn as [Hn _].
  split; [exact Hn|]. intros x Hx. apply Hs, elem_of_app. by left.
Qed.

Lemma account_nil addresses ok : account_ok (mkLog [] [] []) addresses ok.
Proof. split; [done|]. split; [constructor|]. split; [easy|]. exists []. split_and!; try done. by left. Qed.

(** What [batch_upload_chunks] does, for the chunks given. *)
Lemma batch_upload_spec orders chunks r log :
  (1 <= chunk_concurrency config)%nat -> batch_upload_chunks orders chunks = (r, log) ->
  account_ok log (compute_address <$> chunks) (is_ok r) /\
  exists sent, Forall2 pays_for sent (paid log) /\ sent ⊆ chunks /\
    (forall addrs, r = Ok addrs -> addrs ≡ₚ compute_address <$> chunks /\
       forall chunk, chunk ∈ chunks -> exists u, u ∈ chunks /\
         compute_address u = compute_address chunk /\ chunk_done log u).
Proof.
  intros Hconc. unfold batch_upload_chunks. case_bool_decide as E.
  { intros [= <- <-]. subst. split; [apply account_nil|]. exists []. split; [constructor|].
    split; [done|]. intros addrs [= <-].
    split; [reflexivity|]. intros chunk Hin. by apply not_elem_of_nil in Hin. }
  destruct (dedup_chunks chunks ∅) as [unique again] eqn:Ed.
  apply dedup_chunks_spec in Ed as (Hp & Hnd & _ & Hagain & Hsub). intros Eu.
  apply upload_waves_spec with (news := []) in Eu; [|exact Hconc | reflexivity | constructor].
  rewrite chunks_of_concat in Eu by (unfold PAYMENT_WAVE_SIZE; lia).
  destruct Eu as (added & sent & lost & calls & Hpaid & Hlog & Hs & Hsent & Hcalls & Hasked & Hlast & Hok).
  cbn [paid wallet_calls app] in Hpaid, Hcalls. subst added calls. split; [|exists sent; split; [exact Hs|split]].
  - split; [exact Hlog|]. rewrite Hasked. split; [|split].
    + apply (fmap_submseteq compute_address), submseteq_Permutation in Hsent as [k Hk].
      rewrite Hk in Hnd. apply NoDup_app in Hnd. tauto.
    + intros x (u & -> & Hu)%list_elem_of_fmap. apply list_elem_of_fmap_2, Hsub. exact (elem_of_submseteq _ _ _ Hu Hsent).
    + exists (compute_address <$> lost). rewrite fmap_app, (pays_for_addresses _ _ Hs). split; [done|]. split; [exact Hlast|].
      destruct r as [addrs|e]; [|discriminate]. intros _. by destruct (Hok addrs eq_refl) as [-> _].
  - intros u Hu. apply Hsub. eapply elem_of_submseteq; [|exact Hsent]. apply elem_of_app. by left.
  - intros addrs Ha. destruct (Hok addrs Ha) as (_ & Hperm & _ & Hdone). split.
    { rewrite Hperm, <- Hp. cbn. apply Permutation_app_comm. }
    intros chunk Hin. assert (compute_address chunk ∈ compute_address <$> unique) as Hu.
    { apply (list_elem_of_fmap_2 compute_address) in Hin. rewrite <- Hp in Hin. set_solver. }
    apply list_elem_of_fmap in Hu as (u & Hu & Hin'). exists u. split; [auto|]. split; [auto|].
    exact (proj1 (Forall_forall _ _) Hdone u Hin').
Qed.

End Batch.

(** C28: [batch_upload_chunks] never repeats a payment.  In whatever
    order quotes and puts complete and however it ends, the wallet is asked to pay
    for chunks among the given ones, for no address twice, and every chunk that a
    proof of payment is built for was sent to its quoted peers.  These are all the
    chunks that the wallet was asked to pay for, in that order, but for those of
    the last call, and those only when the upload fails: what that call has paid
    is lost.  When it succeeds it returns the
    addresses of the given chunks, repetitions included, and each chunk was
    already stored or is paid for and stored by a majority of its quoted peers. *)
Theorem batch_pays_once_and_stores
    `{Blake3, Evm, !Codec postcard ChunkMessage}
    `{!Codec rmp_serde PaymentQuote, !Codec rmp_serde PaymentProof}
    (price : QuotingMetrics -> Z) {EvmNetwork : Type}
    (market : EvmNetwork -> list QuotingMetrics -> result string (list Z))
    (c : Payer) (config : ClientConfig) (net : network) (quoting putting : runs)
    (orders : nat -> (nat -> nat) * (nat -> nat)) (chunks : list bytes)
    (Hconc : (1 <= chunk_concurrency config)%nat) :
  let '(r, log) := batch_upload_chunks price market c config net quoting putting orders chunks in
  account_ok log (compute_address <$> chunks) (is_ok r) /\
  NoDup (pd_address <$> paid log) /\
  (forall pc, pc ∈ paid log -> pd_content pc ∈ chunks /\ pd_address pc = compute_address (pd_content pc)) /\
  (forall addrs, r = Ok addrs -> addrs ≡ₚ compute_address <$> chunks /\
     forall chunk, chunk ∈ chunks -> exists u, u ∈ chunks /\
       compute_address u = compute_address chunk /\
       (prepare_chunk_payment price market c config net quoting u = Ok None \/
        exists pc, pc ∈ paid log /\ pays_for u pc /\
          put_paid net putting pc = Ok (compute_address chunk))).
Proof.
  destruct (batch_upload_chunks _ _ _ _ _ _ _ _ _) as [r log] eqn:E.
  apply batch_upload_spec in E as (Hacc & sent & Hs & Hsub & Hok); [|exact Hconc].
  split; [exact Hacc|]. split; [by eapply account_paid|]. split.
  - intros pc [k Hk]%list_elem_of_lookup_1. destruct (Forall2_lookup_r _ _ _ _ _ Hs Hk) as (u & Hu & Hc & Ha).
    rewrite Hc. split; [|rewrite Ha; reflexivity]. apply Hsub. exact (list_elem_of_lookup_2 _ _ _ Hu).
  - intros addrs Ha. destruct (Hok addrs Ha) as [Hperm Hdone]. split; [exact Hperm|].
    intros chunk Hin. destruct (Hdone chunk Hin) as (u & Hu & Hua & Hd). exists u. rewrite <- Hua. auto.
Qed.

(** ** A concrete batch *)

#[local] Instance batch_quote_codec : Codec rmp_serde PaymentQuote :=
  table_codec [(sample_quote x0a, [x0a])].

#[local] Instance batch_proof_codec : Codec rmp_serde PaymentProof :=
  table_codec [(mkPaymentProof (mkProofOfPayment ((fun b => ([b], sample_quote x0a)) <$>
                  [x01; x02; x03; x04; x05])) [[xff]], [x55])].

(** Quotes and puts on the wire: a tag, the id, and what the reply of these peers
    needs. *)
#[local] Instance sample_wire : Codec postcard ChunkMessage := {|
  ser m :=
    let tagged t b := Some (t :: le_bytes 8 (request_id m) ++ b) in
    match body m with
    | QuoteRequest r => tagged x01 (le_bytes 8 (Protocol.data_size r) ++ le_bytes 8 (Protocol.data_type r) ++ quote_address r)
    | QuoteResponse (QuoteSuccess q stored) => tagged x02 ((if stored then x01 else x00) :: q)
    | PutRequest r => tagged x03 (put_address r ++ put_content r)
    | PutResponse (PutSuccess a) => tagged x04 a
    | _ => None
    end;
  de b :=
    match b with
    | t :: r =>
        let id := from_le (take 8 r) in
        let r := drop 8 r in
        let field k := from_le (take 8 (drop k r)) in
        mkMessage id <$>
          (if bool_decide (t = x01) then Some (QuoteRequest (mkQuoteRequest (drop 16 r) (field 0%nat) (field 8%nat)))
           else if bool_decide (t = x02) then
             match r with s :: q => Some (QuoteResponse (QuoteSuccess q (bool_decide (s = x01)))) | [] => None end
           else if bool_decide (t = x03) then Some (PutRequest (mkPutRequest (take 32 r) (drop 32 r) None))
           else if bool_decide (t = x04) then Some (PutResponse (PutSuccess r))
           else None)
    | [] => None
    end
|}.

(** Five peers that quote every chunk and store every chunk that is put; the
    chunk [x02] they hold already. *)
Definition storing_network : network :=
  mkNetwork [x00] (fun _ count => Ok (take count (sample_peers [x01; x02; x03; x04; x05]))) []
    (fun p m =>
       let reply :=
         m ← res_ok (decode_message m);
         b ← match body m with
             | QuoteRequest q =>
                 Some (QuoteResponse (QuoteSuccess [x0a]
                   (bool_decide (quote_address q = compute_address [x02]))))
             | PutRequest q => Some (PutResponse (PutSuccess (put_address q)))
             | _ => None
             end;
         res_ok (encode_message (mkMessage (request_id m) b)) in
       match reply with
       | Some reply => (Ok tt, [MessageEvent CHUNK_PROTOCOL_ID (peer_id p) reply])
       | None => (Err "no answer"%string, [])
       end).

Definition batch_wallet : Wallet unit :=
  mkWallet _ tt (fun infos => Ok (list_to_map ((fun i => (i.1.1, [xff])) <$> infos))).

(** A wallet that makes the transactions and fails then. *)
Definition failing_wallet : Wallet unit :=
  mkWallet _ tt (fun infos => Err ("timeout"%string, list_to_map ((fun i => (i.1.1, [xff])) <$> infos))).

Definition batch_runs : runs := mkRuns (fun _ => Z.of_nat) (fun _ _ => 0%nat).

Lemma batch_pays_once_and_stores_witness :
  let batch := batch_upload_chunks (fun _ => 7) (fun _ ms => Ok ((fun _ => 10) <$> ms))
    (with_wallet batch_wallet) (ClientConfig_default (Some 4)) storing_network batch_runs batch_runs
    (fun _ => (fun k => k, fun k => k)) [[x01]; [x02]; [x03]; [x01]] in
  exists addrs, batch.1 = Ok addrs /\ length addrs = 4%nat /\ length (paid batch.2) = 2%nat /\
    NoDup (pd_address <$> paid batch.2).
Proof.
  pose proof (batch_pays_once_and_stores (fun _ => 7) (fun _ ms => Ok ((fun _ => 10) <$> ms))
    (with_wallet batch_wallet) (ClientConfig_default (Some 4)) storing_network batch_runs batch_runs
    (fun _ => (fun k => k, fun k => k)) [[x01]; [x02]; [x03]; [x01]]) as Hb.
  cbv zeta. set (batch := batch_upload_chunks _ _ _ _ _ _ _ _ _) in *.
  assert (match batch with (Ok a, log) => length (paid log) = 2%nat | _ => False end) as Hr
    by (vm_compute; reflexivity).
  destruct batch as [[addrs|e] log]; [|destruct Hr].
  destruct Hb as (_ & Hn & _ & Hok); [vm_compute; lia|].
  exists addrs. split; [reflexivity|]. split; [|split; [exact Hr | exact Hn]].
  destruct (Hok addrs eq_refl) as [Hp _]. rewrite Hp. reflexivity.
Defined.

(** A payment whose call fails after its transactions is lost: no proof is built of
    it and nothing is sent to the peers. *)
Lemma failed_payment_is_lost :
  let '(r, log) := batch_upload_chunks (fun _ => 7) (fun _ ms => Ok ((fun _ => 10) <$> ms))
    (with_wallet failing_wallet) (ClientConfig_default (Some 4)) storing_network batch_runs batch_runs
    (fun _ => (fun k => k, fun k => k)) [[x01]; [x03]] in
  is_ok r = false /\ paid log = [] /\ put_to_peers log = [] /\
  asked (wallet_calls log) = [compute_address [x01]; compute_address [x03]] /\
  existsb (fun call => negb (bool_decide (transactions call = ∅))) (wallet_calls log) = true.
Proof. vm_compute. by split_and!. Qed.
