(* ===== verification/NetMerkle.v ===== *)
(** * The native client: merkle batch payments

    [merkle.rs] of [ant-client/ant-core/src/data/client]: one transaction pays for
    many chunks.  A merkle tree is built over their addresses, sixteen candidate
    nodes quote for each of its midpoints, the contract picks a winner pool, and
    every chunk gets a proof.  Trees and their proofs are [evmlib]'s. *)

From Stdlib Require Import ZArith Lia Strings.Byte.
From stdpp Require Import base list strings gmap.
From S2P Require Import Prelude Interfaces Cipher Reference Protocol Evm Quote PayProof SingleNode.
From S2P Require Import Storage PayCache Verifier.
From S2P Require Import NetFetch NetClient NetPayment NetBatch.

Local Open Scope Z_scope.

Definition DEFAULT_MERKLE_THRESHOLD : nat := 64.

(** [CANDIDATES_PER_POOL] of [evmlib], as the comments of [merkle.rs] give it. *)
Definition CANDIDATES_PER_POOL : nat := 16.

Module PaymentMode.
Inductive t := Auto | Merkle | Single.
End PaymentMode.

#[export] Instance PaymentMode_eq_dec : EqDecision PaymentMode.t.
Proof. solve_decision. Defined.

Record MerkleBatchPaymentResult := mkBatchResult {
  proofs : gmap XorName bytes;
  chunk_count : nat
}.

Definition should_use_merkle (chunk_count : nat) (mode : PaymentMode.t) : bool :=
  match mode with
  | PaymentMode.Auto => bool_decide (DEFAULT_MERKLE_THRESHOLD <= chunk_count)%nat
  | PaymentMode.Merkle => bool_decide (2 <= chunk_count)%nat
  | PaymentMode.Single => false
  end.

(** [evmlib]'s merkle trees: the largest one, building one, its depth, the
    midpoints that choose the candidates, with their addresses, the hash of a pool
    and what is submitted of it, and the proof that an address is the leaf at an
    index. *)
Class MerkleTrees := {
  MAX_LEAVES : nat;
  merkle_tree : Type;
  pool_commitment : Type;
  from_xornames : list XorName -> result string merkle_tree;
  tree_depth : merkle_tree -> Z;
  reward_candidates : merkle_tree -> Z -> result string (list bytes);
  midpoint_address : bytes -> XorName;
  pool_hash : MerklePaymentCandidatePool -> bytes;
  to_commitment : MerklePaymentCandidatePool -> pool_commitment;
  generate_address_proof : merkle_tree -> nat -> XorName -> result string bytes
}.

(** Proofs of a tree verify against every midpoint it chose for the same
    timestamp; a proof's winner pool is hashed as a pool; a tree has at least two
    leaves. *)
Class MerkleTreesLaws `{Evm, !MerkleTrees} : Prop := {
  two_leaves : (2 <= MAX_LEAVES)%nat;
  too_few_leaves x : is_ok (from_xornames [x]) = false;
  winner_pool_hash_spec p : winner_pool_hash p = pool_hash (winner_pool p);
  address_proofs_verify xs t ts mids mp i x dp :
    from_xornames xs = Ok t -> reward_candidates t ts = Ok mids -> mp ∈ mids ->
    xs !! i = Some x -> generate_address_proof t i x = Ok dp ->
    verify_merkle_proof x dp mp (tree_depth t) (midpoint_root mp) ts = Ok tt
}.

Section Merkle.
Context `{Blake3, Evm, Dsa, !MerkleTrees, !Codec postcard ChunkMessage}.
Context `{!Codec rmp_serde MerklePaymentCandidateNode, !Codec rmp_serde MerklePaymentProof}.

(** What the environment gives to one payment: the clock in seconds since 1970
    (an error before), the completion order of the pools, the request ids and
    completion orders of each pool, and what submitting the transaction gives:
    the hash of the winner pool, the amount and the gas. *)
Record payment_env := mkPaymentEnv {
  now_secs : result string Z;
  pool_order : nat -> nat;
  candidate_ids : nat -> nat -> Z;
  candidate_order : nat -> nat -> nat;
  pay_for_merkle_tree : Z -> list pool_commitment -> Z -> result string (bytes * Z * Z)
}.

(** ** Candidates *)

Definition candidate_handler (b : ChunkMessageBody) : option (result DataError.t MerklePaymentCandidateNode) :=
  match b with
  | MerkleQuoteResponse (MerkleQuoteSuccess candidate_node) =>
      match de rmp_serde candidate_node with
      | Some node => Some (Ok node)
      | None => Some (Err (DataError.Serialization
          "Failed to deserialize candidate node from {peer_id_clone}: {e}"))
      end
  | MerkleQuoteResponse (MerkleQuoteError _) =>
      Some (Err (DataError.Protocol "Merkle quote error from {peer_id_clone}: {e}"))
  | _ => None
  end.

Definition request_candidate (net : network) (id : Z) (address : XorName) (data_type data_size ts : Z) (p : peer)
    : option (peer * result DataError.t MerklePaymentCandidateNode) :=
  match encode_message (mkMessage id (MerkleQuoteRequest (mkMerkleQuoteRequest address data_type data_size ts))) with
  | Err _ => None
  | Ok message_bytes =>
      let '(sent, events) := exchange net p message_bytes in
      Some (p, send_and_await_chunk_response (peer_id p) id sent events candidate_handler
                 (fun _ => DataError.Network "Failed to send merkle candidate request to {peer_id_clone}: {e}")
                 (DataError.Timeout "Timeout waiting for merkle candidate from {peer_id_clone}"))
  end.

Definition not_enough_candidates : DataError.t :=
  DataError.InsufficientPeers "Got {} merkle candidates, need {CANDIDATES_PER_POOL}. Failures: [{}]".

Definition finish_candidates (candidates : list MerklePaymentCandidateNode)
    : result DataError.t (list MerklePaymentCandidateNode) :=
  if bool_decide (length candidates < CANDIDATES_PER_POOL)%nat then Err not_enough_candidates
  else Ok (take CANDIDATES_PER_POOL candidates).

(** The loop over the completed requests. *)
Fixpoint collect_validated_candidates (ts expected_data_type : Z)
    (completed : list (peer * result DataError.t MerklePaymentCandidateNode))
    (candidates : list MerklePaymentCandidateNode) : result DataError.t (list MerklePaymentCandidateNode) :=
  match completed with
  | [] => finish_candidates candidates
  | (_, r) :: completed' =>
    let continue := collect_validated_candidates ts expected_data_type completed' in
    match r with
    | Err _ => continue candidates
    | Ok candidate =>
        if negb (verify_merkle_candidate_signature candidate) then continue candidates
        else if negb (merkle_payment_timestamp candidate =? ts) then continue candidates
        else if negb (data_type (c_quoting_metrics candidate) =? expected_data_type) then continue candidates
        else
          let candidates := candidates ++ [candidate] in
          if bool_decide (CANDIDATES_PER_POOL <= length candidates)%nat then finish_candidates candidates
          else continue candidates
    end
  end.

(** Connected peers that the search did not find, when it found too few. *)
Definition supplement (connected : list bytes) (remote_peers : list peer) : list peer :=
  fold_left (fun peers p =>
    if existsb (fun q => bool_decide (peer_id q = p)) peers then peers else peers ++ [mkPeer p []])
    connected remote_peers.

Definition candidate_peers (net : network) (address : XorName) : result DataError.t (list peer) :=
  remote_peers ← find_closest_peers net address (CANDIDATES_PER_POOL * 2);
  let remote_peers :=
    if bool_decide (length remote_peers < CANDIDATES_PER_POOL)%nat
    then supplement (connected_peers net) remote_peers else remote_peers in
  if bool_decide (length remote_peers < CANDIDATES_PER_POOL)%nat then
    Err (DataError.InsufficientPeers "Found {} peers, need {CANDIDATES_PER_POOL} for merkle candidate pool. Use --no-merkle or a larger network.")
  else Ok remote_peers.

Definition get_merkle_candidate_pool (net : network) (ids : nat -> Z) (order : nat -> nat)
    (address : XorName) (data_type data_size ts : Z) : result DataError.t (list MerklePaymentCandidateNode) :=
  remote_peers ← candidate_peers net address;
  let candidate_futures :=
    omap id (imap (fun k p => request_candidate net (ids k) address data_type data_size ts p) remote_peers) in
  collect_validated_candidates ts data_type (completions (length candidate_futures) order candidate_futures) [].

Definition build_candidate_pools (net : network) (env : payment_env) (midpoint_proofs : list bytes)
    (data_type data_size ts : Z) : result DataError.t (list MerklePaymentCandidatePool) :=
  let pool_futures := imap (fun k mp =>
    candidate_nodes ← get_merkle_candidate_pool net (candidate_ids env k) (candidate_order env k)
      (midpoint_address mp) data_type data_size ts;
    Ok (mkPool mp candidate_nodes)) midpoint_proofs in
  try_map id (completions (length pool_futures) (pool_order env) pool_futures).

(** ** Paying *)

Context {EvmNetwork : Type} (c : Payer (EvmNetwork := EvmNetwork)) (net : network).

(** The proofs of the chunks from the [i]-th on. *)
Fixpoint chunk_proofs (tree : merkle_tree) (winner : MerklePaymentCandidatePool) (i : nat)
    (addresses : list XorName) (acc : gmap XorName bytes) : result DataError.t (gmap XorName bytes) :=
  match addresses with
  | [] => Ok acc
  | address :: addresses' =>
    address_proof ← map_err (fun _ => DataError.Payment "Failed to generate address proof for chunk {i}: {e}")
      (generate_address_proof tree i address);
    tagged_bytes ← ok_or (serialize_merkle_proof (mkMerkleProof address address_proof winner))
      (DataError.Serialization "Failed to serialize merkle proof: {e}");
    chunk_proofs tree winner (S i) addresses' (<[address := tagged_bytes]> acc)
  end.

(** One transaction: its depth, the pools offered, its timestamp and the hash of
    the winner pool. *)
Record merkle_payment := mkMerklePayment {
  paid_depth : Z;
  offered : list MerklePaymentCandidatePool;
  paid_at : Z;
  winner_hash : bytes
}.

(** The result and the transaction, if one succeeded. *)
Definition pay_for_merkle_single_batch (env : payment_env) (addresses : list XorName) (data_type data_size : Z)
    : result DataError.t MerkleBatchPaymentResult * option merkle_payment :=
  let before :=
    _ ← require_wallet c;
    tree ← map_err (fun _ => DataError.Payment "Failed to build merkle tree: {e}") (from_xornames addresses);
    ts ← map_err (fun _ => DataError.Payment "System time error: {e}") (now_secs env);
    midpoint_proofs ← map_err (fun _ => DataError.Payment "Failed to generate reward candidates: {e}")
      (reward_candidates tree ts);
    candidate_pools ← build_candidate_pools net env midpoint_proofs data_type data_size ts;
    '(winner, _, _) ← map_err (fun _ => DataError.Payment "Merkle batch payment failed: {e}")
      (pay_for_merkle_tree env (tree_depth tree) (to_commitment <$> candidate_pools) ts);
    Ok (tree, mkMerklePayment (tree_depth tree) candidate_pools ts winner) in
  match before with
  | Err e => (Err e, None)
  | Ok (tree, payment) =>
    (winner_pool ← ok_or (List.find (fun pool => bool_decide (pool_hash pool = winner_hash payment)) (offered payment))
       (DataError.Payment "Winner pool {} not found in candidate pools");
     proofs ← chunk_proofs tree winner_pool 0 addresses ∅;
     Ok (mkBatchResult proofs (length addresses)), Some payment)
  end.

(** The loop over the sub-batches. *)
Fixpoint multi_batch (envs : nat -> payment_env) (batches : list (list XorName)) (data_type data_size : Z)
    (all_proofs : gmap XorName bytes) : result DataError.t (gmap XorName bytes) * list merkle_payment :=
  match batches with
  | [] => (Ok all_proofs, [])
  | batch :: batches' =>
    let '(r, payment) := pay_for_merkle_single_batch (envs 0%nat) batch data_type data_size in
    match r with
    | Err e => (Err e, option_list payment)
    | Ok sub_result =>
      let '(r, payments) := multi_batch (fun k => envs (S k)) batches' data_type data_size
                              (proofs sub_result ∪ all_proofs) in
      (r, option_list payment ++ payments)
    end
  end.

Definition pay_for_merkle_multi_batch (envs : nat -> payment_env) (addresses : list XorName) (data_type data_size : Z)
    : result DataError.t MerkleBatchPaymentResult * list merkle_payment :=
  let '(r, payments) := multi_batch envs (chunks_of (length addresses) MAX_LEAVES addresses) data_type data_size ∅ in
  ((fun all_proofs => mkBatchResult all_proofs (length addresses)) <$> r, payments).

Definition pay_for_merkle_batch (envs : nat -> payment_env) (addresses : list XorName) (data_type data_size : Z)
    : result DataError.t MerkleBatchPaymentResult * list merkle_payment :=
  if bool_decide (length addresses < 2)%nat then
    (Err (DataError.Payment "Merkle batch payment requires at least 2 chunks"), [])
  else if bool_decide (MAX_LEAVES < length addresses)%nat then
    pay_for_merkle_multi_batch envs addresses data_type data_size
  else
    let '(r, payment) := pay_for_merkle_single_batch (envs 0%nat) addresses data_type data_size in
    (r, option_list payment).

(** ** Storing *)

Context (config : ClientConfig) (putting : runs).

(** The put of one chunk with its proof; as in [put_paid] the loop of puts ends. *)
Definition put_with_proof (proofs : gmap XorName bytes) (content : bytes) (addr : XorName)
    : result DataError.t XorName :=
  proof ← ok_or (proofs !! addr) (DataError.Payment "Missing merkle proof for chunk {}");
  peers ← close_group_peers config net addr;
  match chunk_put_to_close_group net (run_ids putting addr) (run_order putting addr) content proof peers with
  | Some (r, _) => r
  | None => insufficient
  end.

Definition merkle_upload_chunks (order : nat -> nat) (chunk_contents : list bytes) (addresses : list XorName)
    (batch_result : MerkleBatchPaymentResult) : result DataError.t nat :=
  length <$> try_map id (buffer_unordered (chunk_concurrency config) order
    (zip_with (put_with_proof (proofs batch_result)) chunk_contents addresses)).

End Merkle.

(** ** Candidate pools *)

Section Candidates.
Context `{Evm, Dsa}.

(** What a candidate of a pool must satisfy. *)
Definition valid_candidate (ts expected_data_type : Z) (candidate : MerklePaymentCandidateNode) : bool :=
  verify_merkle_candidate_signature candidate && (merkle_payment_timestamp candidate =? ts)
  && (data_type (c_quoting_metrics candidate) =? expected_data_type).

Definition valid_answers (ts ty : Z) (completed : list (peer * result DataError.t MerklePaymentCandidateNode))
    : list MerklePaymentCandidateNode :=
  omap (fun a => match a.2 with
                 | Ok candidate => if valid_candidate ts ty candidate then Some candidate else None
                 | Err _ => None
                 end) completed.

(** The first sixteen valid answers, or an error when there are fewer. *)
Lemma collect_validated_candidates_spec ts ty completed candidates :
  (length candidates < CANDIDATES_PER_POOL)%nat ->
  collect_validated_candidates ts ty completed candidates =
    finish_candidates (candidates ++ valid_answers ts ty completed).
Proof.
  revert candidates. induction completed as [|[p r] completed IH]; intros candidates Hc;
    cbn [collect_validated_candidates valid_answers omap list_omap snd].
  { by rewrite app_nil_r. }
  fold (valid_answers ts ty completed). destruct r as [candidate|e]; [|by apply IH].
  unfold valid_candidate. destruct (verify_merkle_candidate_signature candidate); [|by apply IH].
  destruct (_ =? ts); [|by apply IH]. destruct (_ =? ty); [|by apply IH]. cbn [negb andb].
  case_bool_decide as Hb.
  - rewrite length_app in Hb. cbn in Hb. assert (length candidates = 15)%nat as H15 by (unfold CANDIDATES_PER_POOL in *; lia).
    unfold finish_candidates. rewrite !length_app. cbn [length]. unfold CANDIDATES_PER_POOL.
    rewrite !bool_decide_false by lia. f_equal.
    rewrite (cons_middle candidate candidates (valid_answers ts ty completed)), (app_assoc candidates).
    symmetry. apply take_app_le. rewrite length_app. cbn. lia.
  - rewrite length_app in Hb. cbn in Hb. rewrite IH by (rewrite length_app; cbn; lia).
    by rewrite <- app_assoc.
Qed.

Lemma valid_answers_valid ts ty completed :
  Forall (fun candidate => valid_candidate ts ty candidate = true) (valid_answers ts ty completed).
Proof.
  unfold valid_answers. induction completed as [|[p [candidate|e]] completed IH]; cbn; [constructor | | exact IH].
  destruct (valid_candidate ts ty candidate) eqn:E; [constructor; assumption | exact IH].
Qed.

#[export] Instance valid_answers_perm ts ty : Proper ((≡ₚ) ==> (≡ₚ)) (valid_answers ts ty).
Proof. intros l1 l2 Hl. unfold valid_answers. by rewrite Hl. Qed.

(** A pool of a payment: sixteen valid candidates for one of its midpoints. *)
Record pool_ok (ts ty : Z) (mids : list bytes) (pool : MerklePaymentCandidatePool) : Prop := {
  po_midpoint : midpoint_proof pool ∈ mids;
  po_length : length (candidate_nodes pool) = CANDIDATES_PER_POOL;
  po_valid : Forall (fun candidate => valid_candidate ts ty candidate = true) (candidate_nodes pool)
}.

End Candidates.

Section PoolSpecs.
Context `{Blake3, Evm, Dsa, !MerkleTrees, !Codec postcard ChunkMessage}.
Context `{!Codec rmp_serde MerklePaymentCandidateNode, !Codec rmp_serde MerklePaymentProof}.
Context {EvmNetwork : Type} (c : Payer (EvmNetwork := EvmNetwork)) (net : network).

(** The answers about one pool: which sixteen are taken depends on the completion
    order, whether there are enough does not. *)
Lemma get_merkle_candidate_pool_spec ids order address ty size ts peers :
  candidate_peers net address = Ok peers ->
  let answers := omap id (imap (fun k p => request_candidate net (ids k) address ty size ts p) peers) in
  (is_ok (get_merkle_candidate_pool net ids order address ty size ts) = true <->
     (CANDIDATES_PER_POOL <= length (valid_answers ts ty answers))%nat) /\
  forall nodes, get_merkle_candidate_pool net ids order address ty size ts = Ok nodes ->
    length nodes = CANDIDATES_PER_POOL /\
    Forall (fun candidate => valid_candidate ts ty candidate = true) nodes.
Proof.
  intros Hp answers. unfold get_merkle_candidate_pool. rewrite Hp. cbn [mbind result_bind].
  fold answers. pose proof (completions_perm (length answers) order answers ltac:(reflexivity)) as Hperm.
  apply (valid_answers_perm ts ty) in Hperm. apply Permutation_length in Hperm.
  set (done := completions (length answers) order answers) in *.
  rewrite collect_validated_candidates_spec by (cbn; unfold CANDIDATES_PER_POOL; lia). cbn [app].
  unfold finish_candidates. rewrite Hperm. case_bool_decide as Hb.
  - split; [split; [discriminate | intros; lia] | discriminate].
  - split; [split; [intros; lia | reflexivity]|]. intros nodes [= <-]. rewrite length_take.
    split; [unfold CANDIDATES_PER_POOL in *; lia|]. apply Forall_take, valid_answers_valid.
Qed.

Lemma get_merkle_candidate_pool_ok ids order address ty size ts nodes :
  get_merkle_candidate_pool net ids order address ty size ts = Ok nodes ->
  length nodes = CANDIDATES_PER_POOL /\ Forall (fun candidate => valid_candidate ts ty candidate = true) nodes.
Proof.
  intros Hn. destruct (candidate_peers net address) as [peers|e] eqn:Ep.
  - exact (proj2 (get_merkle_candidate_pool_spec ids order address ty size ts peers Ep) nodes Hn).
  - unfold get_merkle_candidate_pool in Hn. rewrite Ep in Hn. discriminate.
Qed.

Lemma build_candidate_pools_ok env mids ty size ts pools :
  build_candidate_pools net env mids ty size ts = Ok pools ->
  Forall (pool_ok ts ty mids) pools /\ midpoint_proof <$> pools ≡ₚ mids.
Proof.
  unfold build_candidate_pools. set (futures := imap _ mids).
  pose proof (completions_perm (length futures) (pool_order env) futures ltac:(reflexivity)) as Hp.
  set (done := completions _ _ _) in *. intros Hd. apply try_map_Ok_Forall2 in Hd. cbn [id] in Hd.
  assert (Forall2 (fun r mp => forall pool, r = Ok pool -> midpoint_proof pool = mp /\
    length (candidate_nodes pool) = CANDIDATES_PER_POOL /\
    Forall (fun candidate => valid_candidate ts ty candidate = true) (candidate_nodes pool)) futures mids) as Hf.
  { unfold futures. clear. apply Forall2_same_length_lookup_2; [by rewrite length_imap|].
    intros k r mp Hr Hm pool ->. rewrite list_lookup_imap, Hm in Hr. cbn in Hr. injection Hr as Hr.
    destruct (get_merkle_candidate_pool _ _ _ _ _ _ _) as [nodes|e] eqn:E; cbn in Hr; [|discriminate].
    injection Hr as <-. split; [reflexivity|]. exact (get_merkle_candidate_pool_ok _ _ _ _ _ _ _ E). }
  destruct (Permutation_Forall2 (symmetry Hp) Hf) as (mids' & Hm & Hf').
  assert (midpoint_proof <$> pools = mids' /\ Forall (fun pool => length (candidate_nodes pool) = CANDIDATES_PER_POOL /\
    Forall (fun candidate => valid_candidate ts ty candidate = true) (candidate_nodes pool)) pools) as [Heq Hall].
  { clear -Hd Hf'. revert mids' Hf'. induction Hd as [|r pool done pools Hr _ IH]; intros mids' Hf';
      inversion Hf' as [|? mp ? ? Hmp Hrest]; subst; [split; [reflexivity | constructor]|].
    destruct (Hmp pool eq_refl) as (<- & Hl & Hv). destruct (IH _ Hrest) as [<- Hall].
    split; [reflexivity | constructor; auto]. }
  split.
  - apply Forall_forall. intros pool Hpool. rewrite Forall_forall in Hall. destruct (Hall pool Hpool) as [Hl Hv].
    split; [|exact Hl|exact Hv]. rewrite Hm, <- Heq. apply list_elem_of_fmap. eauto.
  - rewrite Heq. by symmetry.
Qed.

End PoolSpecs.

(** ** Payments and their proofs *)

Section Proofs.
Context `{Blake3, Evm, Dsa, trees : !MerkleTrees, !MerkleTreesLaws, !Codec postcard ChunkMessage}.
Context `{!Codec rmp_serde MerklePaymentCandidateNode, !Codec rmp_serde MerklePaymentProof}.
Context `{!CodecLaws rmp_serde MerklePaymentProof}.
Context {EvmNetwork : Type} (c : Payer (EvmNetwork := EvmNetwork)) (net : network).

(** A transaction offered pools of sixteen valid candidates. *)
Definition payment_ok (ty : Z) (payment : merkle_payment) : Prop :=
  Forall (fun pool => length (candidate_nodes pool) = CANDIDATES_PER_POOL /\
    Forall (fun candidate => valid_candidate (paid_at payment) ty candidate = true) (candidate_nodes pool))
    (offered payment).

(** [bs] is a proof that a transaction paid for the chunk at [x]. *)
Definition proves (payment : merkle_payment) (x : XorName) (bs : bytes) : Prop :=
  exists p, deserialize_merkle_proof bs = Ok p /\ mp_address p = x /\
    winner_pool p ∈ offered payment /\ winner_pool_hash p = winner_hash payment /\
    verify_merkle_proof x (data_proof p) (midpoint_proof (winner_pool p)) (paid_depth payment)
      (midpoint_root (midpoint_proof (winner_pool p))) (paid_at payment) = Ok tt.

Lemma merkle_proof_read_back p bs : serialize_merkle_proof p = Some bs -> deserialize_merkle_proof bs = Ok p.
Proof.
  unfold serialize_merkle_proof, deserialize_merkle_proof. destruct (ser rmp_serde p) as [b|] eqn:E; [|discriminate].
  intros [= <-]. cbn. by rewrite (ser_de _ _ E).
Qed.

Lemma chunk_proofs_spec tree winner i addrs acc m :
  chunk_proofs tree winner i addrs acc = Ok m ->
  (forall x, x ∉ addrs -> m !! x = acc !! x) /\
  (forall x, x ∈ addrs -> exists j dp bs, addrs !! j = Some x /\
     generate_address_proof tree (i + j) x = Ok dp /\
     serialize_merkle_proof (mkMerkleProof x dp winner) = Some bs /\ m !! x = Some bs).
Proof.
  revert i acc. induction addrs as [|a addrs IH]; intros i acc; cbn [chunk_proofs].
  { intros [= <-]. split; [reflexivity | set_solver]. }
  destruct (generate_address_proof tree i a) as [dp|] eqn:Eg; cbn; [|discriminate].
  destruct (serialize_merkle_proof _) as [bs|] eqn:Es; cbn; [|discriminate].
  intros Hm. apply IH in Hm as [Ho Hi]. split.
  - intros x [Hne Hx]%not_elem_of_cons. rewrite Ho by exact Hx. by rewrite lookup_insert_ne.
  - intros x Hx. destruct (decide (x ∈ addrs)) as [Hin|Hout].
    + destruct (Hi x Hin) as (j & dp' & bs' & Hj & Hg & Hr). exists (S j), dp', bs'.
      rewrite Nat.add_succ_r. auto.
    + apply elem_of_cons in Hx as [->|?]; [|contradiction]. exists 0%nat, dp, bs.
      rewrite Nat.add_0_r, Ho by exact Hout. rewrite lookup_insert_eq. auto.
Qed.

Lemma find_elem {A} (f : A -> bool) l a : List.find f l = Some a -> a ∈ l /\ f a = true.
Proof. intros Hf. apply find_some in Hf as [Hi Ht]. split; [by apply list_elem_of_In | exact Ht]. Qed.

Lemma single_batch_spec env addrs ty size res o :
  pay_for_merkle_single_batch c net env addrs ty size = (Ok res, o) ->
  exists payment, o = Some payment /\ chunk_count res = length addrs /\ payment_ok ty payment /\
    (forall x, x ∉ addrs -> proofs res !! x = None) /\
    (forall x, x ∈ addrs -> exists bs, proofs res !! x = Some bs /\ proves payment x bs).
Proof.
  unfold pay_for_merkle_single_batch. destruct (require_wallet c); cbn; [|discriminate].
  destruct (from_xornames addrs) as [tree|] eqn:Et; cbn; [|discriminate].
  destruct (now_secs env) as [ts|]; cbn; [|discriminate].
  destruct (reward_candidates tree ts) as [mids|] eqn:Em; cbn; [|discriminate].
  destruct (build_candidate_pools net env mids ty size ts) as [pools|] eqn:Ep; cbn; [|discriminate].
  destruct (pay_for_merkle_tree env _ _ ts) as [[[w amt] gas]|]; cbn; [|discriminate].
  destruct (List.find _ pools) as [pool|] eqn:Ef; cbn; [|discriminate].
  destruct (chunk_proofs tree pool 0 addrs ∅) as [m|] eqn:Ec; cbn; [|discriminate].
  intros [= <- <-]. apply build_candidate_pools_ok in Ep as [Hok _].
  apply find_elem in Ef as [Hin Hh]. apply bool_decide_eq_true in Hh.
  apply chunk_proofs_spec in Ec as [Hout Hproofs].
  eexists. split; [reflexivity|]. split; [reflexivity|]. rewrite Forall_forall in Hok. split; [|split].
  - apply Forall_forall. intros pool' Hp'. destruct (Hok pool' Hp') as [_ Hl Hv]. auto.
  - intros x Hx. cbn. by rewrite Hout, lookup_empty.
  - intros x Hx. destruct (Hproofs x Hx) as (j & dp & bs & Hj & Hg & Hs & Hl). exists bs. split; [exact Hl|].
    eexists. split; [exact (merkle_proof_read_back _ _ Hs)|]. split; [reflexivity|]. split; [exact Hin|].
    split; [by rewrite winner_pool_hash_spec|]. cbn.
    exact (address_proofs_verify _ _ _ _ _ _ _ _ Et Em (po_midpoint _ _ _ _ (Hok pool Hin)) Hj Hg).
Qed.

Lemma multi_batch_spec envs batches ty size acc m payments :
  multi_batch c net envs batches ty size acc = (Ok m, payments) ->
  length payments = length batches /\ Forall (payment_ok ty) payments /\
  (forall x, x ∉ concat batches -> m !! x = acc !! x) /\
  (forall x, x ∈ concat batches -> exists payment bs, payment ∈ payments /\ m !! x = Some bs /\ proves payment x bs).
Proof.
  revert envs acc m payments. induction batches as [|batch batches IH]; intros envs acc m payments; cbn [multi_batch concat].
  { intros [= <- <-]. split; [reflexivity|]. split; [constructor|]. split; [reflexivity | set_solver]. }
  destruct (pay_for_merkle_single_batch c net (envs 0%nat) batch ty size) as [[res|e] o] eqn:Es; [|discriminate].
  destruct (multi_batch c net _ batches ty size _) as [r payments'] eqn:Em. intros [= -> <-].
  apply single_batch_spec in Es as (payment & -> & _ & Hpay & Hno & Hyes).
  apply IH in Em as (Hlen & Hall & Hout & Hin). change (option_list (Some payment)) with [payment]. cbn [app length].
  split; [by rewrite Hlen|]. split; [by constructor|]. split.
  - intros x Hx. rewrite not_elem_of_app in Hx. destruct Hx as [Hx1 Hx2]. rewrite Hout by exact Hx2.
    by rewrite lookup_union_r by (apply Hno; exact Hx1).
  - intros x Hx. destruct (decide (x ∈ concat batches)) as [Hi|Ho].
    + destruct (Hin x Hi) as (payment' & bs & Hp & Hr). exists payment', bs. split; [by constructor | exact Hr].
    + apply elem_of_app in Hx as [Hx|?]; [|contradiction]. destruct (Hyes x Hx) as (bs & Hb & Hp).
      exists payment, bs. split; [constructor|]. split; [|exact Hp]. rewrite Hout by exact Ho.
      by apply lookup_union_Some_l.
Qed.

(** Batches are cut into slices of at most [MAX_LEAVES]; the last may have a single
    address. *)
Lemma multi_batch_app envs b1 b2 ty size acc :
  multi_batch c net envs (b1 ++ b2) ty size acc =
    let '(r, payments) := multi_batch c net envs b1 ty size acc in
    match r with
    | Err e => (Err e, payments)
    | Ok m => let '(r, payments') := multi_batch c net (fun k => envs (length b1 + k)%nat) b2 ty size m in
              (r, payments ++ payments')
    end.
Proof.
  revert envs acc. induction b1 as [|b b1 IH]; intros envs acc; cbn [multi_batch app length Nat.add].
  { by destruct (multi_batch c net _ b2 ty size acc). }
  destruct (pay_for_merkle_single_batch _ _ _ _ _ _) as [[res|e] o]; [|reflexivity].
  rewrite IH. destruct (multi_batch c net _ b1 _ _ _) as [[m|e] p1]; [|reflexivity]. cbn [Nat.add].
  destruct (multi_batch c net _ b2 _ _ m) as [r p2]. by rewrite app_assoc.
Qed.

Lemma single_address_fails env x ty size :
  exists e, pay_for_merkle_single_batch c net env [x] ty size = (Err e, None).
Proof.
  unfold pay_for_merkle_single_batch. destruct (require_wallet c); cbn; [|eauto].
  pose proof (too_few_leaves x) as Hx. destruct (from_xornames [x]); [discriminate | cbn; eauto].
Qed.

End Proofs.

(** ** Slices *)

Lemma chunks_of_length {A} fuel n (l : list A) :
  (1 <= n)%nat -> (length (chunks_of fuel n l) * n < length l + n)%nat.
Proof.
  intros Hn. revert l. induction fuel as [|fuel IH]; intros [|a l]; cbn [chunks_of length]; try lia.
  specialize (IH (drop n (a :: l))). rewrite length_drop in IH. cbn [length] in *.
  destruct (decide (n <= S (length l))%nat); [lia|].
  assert (S (length l) - n = 0)%nat as Hz by lia. rewrite Hz in IH.
  destruct (length (chunks_of fuel n (drop n (a :: l)))); [lia | cbn in IH; lia].
Qed.

(** One element more than whole slices is a slice of its own. *)
Lemma chunks_of_snoc {A} fuel n k (l : list A) x :
  (1 <= n)%nat -> length l = (k * n)%nat -> (length l < fuel)%nat ->
  chunks_of fuel n (l ++ [x]) = chunks_of fuel n l ++ [[x]].
Proof.
  intros Hn. revert k l. induction fuel as [|fuel IH]; intros k l Hl Hf; [lia|].
  destruct k as [|k].
  { apply length_zero_iff_nil in Hl as ->. cbn [app chunks_of]. destruct n as [|n]; [lia|]. cbn [take drop].
    rewrite take_nil, drop_nil. by destruct fuel. }
  assert (n <= length l)%nat as Hle by lia. destruct l as [|a l]; [cbn in Hl; lia|].
  cbn [app chunks_of]. change (a :: l ++ [x]) with ((a :: l) ++ [x]).
  rewrite take_app_le, drop_app_le by exact Hle. f_equal. apply (IH k).
  - rewrite length_drop. lia.
  - rewrite length_drop. cbn [length] in *. lia.
Qed.

Lemma chunks_of_fuel {A} fuel n (l : list A) :
  (1 <= n)%nat -> (length l <= fuel)%nat -> chunks_of fuel n l = chunks_of (length l) n l.
Proof.
  intros Hn. revert fuel. induction l as [l IH] using (induction_ltof1 _ (@length A)); unfold ltof in IH.
  intros fuel Hf. destruct l as [|a l]; [by destruct fuel|].
  destruct fuel as [|fuel]; [cbn in Hf; lia|]. cbn [chunks_of length] in *. f_equal.
  assert (length (drop n (a :: l)) <= length l)%nat as Hd by (rewrite length_drop; cbn; lia).
  rewrite (IH (drop n (a :: l))) by (cbn [length] in *; lia). symmetry. apply IH; cbn [length]; lia.
Qed.

(** ** Nodes accept the proofs *)

Section Accepted.
Context `{Blake3, Evm, Dsa, PeerIds, trees : !MerkleTrees, !MerkleTreesLaws, !Codec postcard ChunkMessage}.
Context `{!Codec rmp_serde MerklePaymentCandidateNode, !Codec rmp_serde MerklePaymentProof, !Codec rmp_serde PaymentProof}.
Context `{!CodecLaws rmp_serde MerklePaymentProof}.
Context `{!Lru XorName unit, !Lru bytes OnChainPaymentInfo, !LruLaws XorName unit, !LruLaws bytes OnChainPaymentInfo}.

(** What a node knows or hears from the chain about the winner pool is what was
    submitted, with as many paid nodes as the tree is deep, all of them candidates
    of the pool at their index. *)
Definition confirms (v : PaymentVerifier) (w : world) (payment : merkle_payment) : Prop :=
  exists info, used_payment v w (winner_hash payment) info /\
    depth info = paid_depth payment /\ on_chain_timestamp info = paid_at payment /\
    lenZ (paid_node_addresses info) = paid_depth payment /\
    forall pool, pool ∈ offered payment -> pool_hash pool = winner_hash payment ->
      Forall (fun '(addr, idx) => exists node,
        candidate_nodes pool !! Z.to_nat idx = Some node /\ reward_address node = addr) (paid_node_addresses info).

Lemma proof_accepted v w ty payment x bs :
  payment_ok ty payment -> proves payment x bs -> size_ok bs -> confirms v w payment ->
  is_ok (verify_payment v w x (Some bs)).1 = true.
Proof.
  intros Hpay (p & Hd & Ha & Hin & Hh & Hv) Hsize (info & Hu & Hdep & Hts & Hlen & Hnodes).
  destruct (verify_payment v w x (Some bs)) as [r v'] eqn:E.
  apply verify_payment_spec in E as (_ & _ & _ & Hc & Hn & _).
  destruct (holds (cache v) x) eqn:Eh; [by rewrite (Hc eq_refl)|].
  destruct (Hn eq_refl) as [Hiff _]. cbn. rewrite (proj2 Hiff); [reflexivity|].
  exists bs. split; [reflexivity|]. split; [exact Hsize|]. right. exists p, info. split; [exact Hd|].
  rewrite Hh. split; [exact Hu|].
  unfold payment_ok in Hpay. rewrite Forall_forall in Hpay. destruct (Hpay _ Hin) as [_ Hcand]. split.
  - exact Ha.
  - eapply Forall_impl; [exact Hcand|]. intros cand. unfold valid_candidate. rewrite !andb_true_iff, Hts, !Z.eqb_eq. tauto.
  - by rewrite Ha, Hdep, Hts, Hv.
  - by rewrite Hlen, Hdep.
  - apply Hnodes; [exact Hin|]. by rewrite <- winner_pool_hash_spec.
Qed.

End Accepted.

(** C33: A merkle batch payment, whatever the network answers and in whatever order.
    When it succeeds, each transaction covers at most MAX_LEAVES chunks and offered
    pools of sixteen candidates with valid signatures, and every chunk has a proof
    that a node accepts whenever the chain confirms the transaction.  Fewer than two
    chunks are refused before anything is paid.  But one chunk more than whole
    slices always fails, and the transactions for the whole slices, made before
    that, are lost with their proofs. *)
Theorem merkle_batch_pays_for_every_chunk
    `{Blake3, Evm, Dsa, PeerIds, trees : !MerkleTrees, !MerkleTreesLaws, !Codec postcard ChunkMessage}
    `{!Codec rmp_serde MerklePaymentCandidateNode, !Codec rmp_serde MerklePaymentProof, !Codec rmp_serde PaymentProof}
    `{!CodecLaws rmp_serde MerklePaymentProof}
    `{!Lru XorName unit, !Lru bytes OnChainPaymentInfo, !LruLaws XorName unit, !LruLaws bytes OnChainPaymentInfo}
    {EvmNetwork : Type} (c : Payer (EvmNetwork := EvmNetwork)) (net : network) (envs : nat -> payment_env)
    (addrs : list XorName) (ty size : Z) :
  (forall res payments, pay_for_merkle_batch c net envs addrs ty size = (Ok res, payments) ->
     chunk_count res = length addrs /\ (length payments * MAX_LEAVES < length addrs + MAX_LEAVES)%nat /\
     Forall (payment_ok ty) payments /\
     forall x, x ∈ addrs -> exists payment bs, payment ∈ payments /\ proofs res !! x = Some bs /\
       proves payment x bs /\
       forall v w, size_ok bs -> confirms v w payment -> is_ok (verify_payment v w x (Some bs)).1 = true) /\
  ((length addrs < 2)%nat -> exists e, pay_for_merkle_batch c net envs addrs ty size = (Err e, [])) /\
  (forall slices x k, addrs = slices ++ [x] -> length slices = (S k * MAX_LEAVES)%nat ->
     exists e payments, pay_for_merkle_batch c net envs addrs ty size = (Err e, payments) /\
       forall m ps, multi_batch c net envs (chunks_of (length slices) MAX_LEAVES slices) ty size ∅ = (Ok m, ps) ->
         payments = ps /\ payments <> []).
Proof.
  pose proof two_leaves as Htwo. split; [|split].
  - intros res payments Hb.
    assert (chunk_count res = length addrs /\ (length payments * MAX_LEAVES < length addrs + MAX_LEAVES)%nat /\
      Forall (payment_ok ty) payments /\ forall x, x ∈ addrs -> exists payment bs, payment ∈ payments /\
        proofs res !! x = Some bs /\ proves payment x bs) as (Hcount & Hlen & Hok & Hall).
    { revert Hb. unfold pay_for_merkle_batch. case_bool_decide as Hlt; [discriminate|]. case_bool_decide as Hmax.
      - unfold pay_for_merkle_multi_batch. destruct (multi_batch _ _ _ _ _ _ _) as [[m|e] ps] eqn:Em; cbn; [|discriminate].
        intros [= <- <-]. apply multi_batch_spec in Em as (Hl & Hok & _ & Hall).
        rewrite chunks_of_concat in Hall by lia. split; [reflexivity|]. split; [|auto].
        rewrite Hl. apply chunks_of_length. lia.
      - destruct (pay_for_merkle_single_batch _ _ _ _ _ _) as [r o] eqn:Es. intros [= -> <-].
        apply single_batch_spec in Es as (payment & -> & Hc & Hp & _ & Hall). change (option_list (Some payment)) with [payment].
        split; [exact Hc|]. split; [cbn [length]; lia|]. split; [by repeat constructor|].
        intros x Hx. destruct (Hall x Hx) as (bs & Hb & Hpr). exists payment, bs. split; [constructor | auto]. }
    split; [exact Hcount|]. split; [exact Hlen|]. split; [exact Hok|]. intros x Hx.
    destruct (Hall x Hx) as (payment & bs & Hp & Hb' & Hpr). exists payment, bs. split; [exact Hp|]. split; [exact Hb'|].
    split; [exact Hpr|]. intros v w Hs Hc. rewrite Forall_forall in Hok.
    exact (proof_accepted v w ty payment x bs (Hok _ Hp) Hpr Hs Hc).
  - intros Hlt. unfold pay_for_merkle_batch. rewrite bool_decide_true by exact Hlt. eauto.
  - intros slices x k -> Hl. unfold pay_for_merkle_batch. rewrite length_app. cbn [length].
    assert (MAX_LEAVES <= length slices)%nat as Hge by (rewrite Hl; apply Nat.le_add_r).
    rewrite (bool_decide_false (_ < 2)%nat) by lia. rewrite (bool_decide_true (MAX_LEAVES < _)%nat) by lia.
    unfold pay_for_merkle_multi_batch.
    rewrite length_app. cbn [length].
    rewrite (chunks_of_snoc _ MAX_LEAVES (S k) slices x ltac:(lia) Hl) by lia.
    rewrite (chunks_of_fuel (length slices + 1)) by lia. rewrite multi_batch_app.
    destruct (multi_batch c net envs _ ty size ∅) as [[m|e] ps] eqn:Em; [|exists e, ps; split; [reflexivity | discriminate]].
    cbn [multi_batch]. destruct (single_address_fails c net (envs (length (chunks_of (length slices) MAX_LEAVES slices) + 0)%nat) x ty size) as [e ->].
    cbn. exists e, (ps ++ []). split; [reflexivity|]. rewrite app_nil_r. intros m' ps' [= _ <-].
    split; [reflexivity|]. apply multi_batch_spec in Em as (Hps & _). intros ->. cbn in Hps.
    destruct slices; cbn in Hl, Hps; [nia | discriminate].
Qed.

(** ** A payment for two chunks *)

#[local] Instance toy_trees : MerkleTrees := {|
  MAX_LEAVES := 4;
  merkle_tree := list XorName;
  pool_commitment := bytes;
  from_xornames xs := if bool_decide (length xs < 2)%nat then Err "too few leaves"%string else Ok xs;
  tree_depth _ := 1;
  reward_candidates _ _ := Ok [[x01]];
  midpoint_address mp := mp;
  pool_hash pool := toy_hash (midpoint_proof pool);
  to_commitment pool := midpoint_proof pool;
  generate_address_proof _ _ x := Ok x
|}.

#[local] Instance toy_trees_laws : MerkleTreesLaws.
Proof.
  split.
  - cbn. lia.
  - reflexivity.
  - reflexivity.
  - intros xs t ts mids mp i x dp _ _ _ _ [= <-]. cbn. by rewrite bool_decide_true.
Qed.

Definition sixteen : list byte := [x01; x02; x03; x04; x05; x06; x07; x08; x09; x0a; x0b; x0c; x0d; x0e; x0f; x10].

#[local] Existing Instance short_dsa.

Definition signed_candidate (b : byte) : MerklePaymentCandidateNode :=
  let pk := [b] in
  mkCandidate pk zero_quoting_metrics [b] 7
    (default [] (dsa_sign pk (candidate_bytes_to_sign zero_quoting_metrics [b] 7))).

Definition sample_pool (order : list byte) : MerklePaymentCandidatePool := mkPool [x01] (signed_candidate <$> order).

#[local] Instance sample_candidates : Codec rmp_serde MerklePaymentCandidateNode :=
  table_codec ((fun b => (signed_candidate b, [b])) <$> sixteen).

#[local] Instance sample_proofs : Codec rmp_serde MerklePaymentProof :=
  table_codec ((fun b => (mkMerkleProof [b] [b] (sample_pool sixteen), replicate 40 b)) <$> [x0a; x0b]).

#[local] Instance sample_proofs_laws : CodecLaws rmp_serde MerklePaymentProof.
Proof. apply table_codec_laws. apply NoDup_cons. split; [|apply NoDup_singleton]. cbn. set_solver. Qed.

(** Sixteen peers that answer with a signed candidate each. *)
Definition candidate_network : network :=
  mkNetwork [x00] (fun _ count => Ok (take count (sample_peers sixteen))) []
    (fun p m =>
       let id := match decode_message m with Ok m => request_id m | Err _ => 0 end in
       (Ok tt, [MessageEvent CHUNK_PROTOCOL_ID (peer_id p)
          (default [] (res_ok (encode_message (mkMessage id (MerkleQuoteResponse (MerkleQuoteSuccess (peer_id p)))))))])).

Definition sample_env : payment_env :=
  mkPaymentEnv (Ok 7) (fun k => k) (fun k n => Z.of_nat n) (fun _ _ => 0%nat)
    (fun _ pools _ => Ok (toy_hash [x01], 9, 1)).

Definition sample_payer : Payer (EvmNetwork := unit) :=
  with_wallet (mkWallet _ tt (fun _ => Err ("unused"%string, ∅))).

Definition merkle_world : world := {|
  now := 7000000000;
  sig_task_lost := false;
  rpc_verify_payment _ := Err "unused"%string;
  rpc_merkle_payment_info h :=
    if bool_decide (h = toy_hash [x01]) then Ok (mkMerkleInfo 1 7 [([x03], 2)]) else Err "no such pool"%string
|}.

Lemma merkle_batch_pays_for_every_chunk_witness :
  exists res payment bs, pay_for_merkle_batch sample_payer candidate_network (fun _ => sample_env) [[x0a]; [x0b]] 0 100
      = (Ok res, [payment]) /\ proofs res !! [x0b] = Some bs /\
    is_ok (verify_payment (verifier_new (mkVerifierConfig 100 [x0b])) merkle_world [x0b] (Some bs)).1 = true.
Proof.
  destruct (merkle_batch_pays_for_every_chunk sample_payer candidate_network (fun _ => sample_env) [[x0a]; [x0b]] 0 100)
    as (Hok & _).
  set (payment := mkMerklePayment 1 [sample_pool sixteen] 7 (toy_hash [x01])).
  set (res := mkBatchResult (<[ [x0b] := PROOF_TAG_MERKLE :: replicate 40 x0b ]>
    (<[ [x0a] := PROOF_TAG_MERKLE :: replicate 40 x0a ]> ∅)) 2).
  assert (pay_for_merkle_batch sample_payer candidate_network (fun _ => sample_env) [[x0a]; [x0b]] 0 100
    = (Ok res, [payment])) as E by (vm_compute; reflexivity).
  assert (proofs res !! [x0b] = Some (PROOF_TAG_MERKLE :: replicate 40 x0b)) as Hb by apply lookup_insert_eq.
  destruct (Hok res _ E) as (_ & _ & _ & Hall).
  destruct (Hall [x0b] ltac:(right; left)) as (payment' & bs & Hp & Hb' & _ & Hacc).
  apply list_elem_of_singleton in Hp as ->. exists res, payment, bs. split; [exact E|]. split; [exact Hb'|]. rewrite Hb in Hb'. apply (inj Some) in Hb' as <-.
  apply Hacc; [vm_compute; split; discriminate|].
  exists (mkOnChain 1 7 [([x03], 2)]). split; [right; split; [reflexivity|]; eexists; split; reflexivity|].
  split; [reflexivity|]. split; [reflexivity|]. split; [reflexivity|].
  intros pool Hpool _. apply list_elem_of_singleton in Hpool as ->. constructor; [|constructor].
  exists (signed_candidate x03). split; reflexivity.
Defined.
