(* ===== verification/NetData.v ===== *)
(** * The native client: data

    [data.rs] of [ant-client/ant-core/src/data/client]: data is self-encrypted, its
    chunks are paid for and stored, and fetched and decrypted again.  A download runs several [chunk_get]s at once
    over one cache and one request counter, so here [chunk_get] is the sequence of
    its atomic steps, and a schedule interleaves them. *)

From Stdlib Require Import ZArith Lia Strings.Byte.
From stdpp Require Import base list strings gmap.
From S2P Require Import Prelude Interfaces ChunkMath Cipher DataMap Reference Encrypt Decrypt RoundTrip.
From S2P Require Import Protocol Evm Quote PayProof SingleNode.
From S2P Require Import NetFetch NetClient NetPayment NetBatch NetMerkle.

Local Open Scope Z_scope.

Record DataUploadResult := mkUploadResult {
  data_map : DataMap;
  chunks_stored : nat;
  payment_mode_used : PaymentMode.t
}.

Record PreparedUpload := mkPreparedUpload {
  pu_data_map : DataMap;
  prepared_chunks : list PreparedChunk;
  payment_intent : PaymentIntent
}.

Section Data.
Context `{Config, Blake3, Aead, Brotli, !Codec bincode VersionedDataMap}.
Context `{Evm, Dsa, !MerkleTrees, !Codec postcard ChunkMessage, !Lru XorName bytes}.
Context `{!Codec rmp_serde PaymentQuote, !Codec rmp_serde PaymentProof, !Codec rmp_serde DataMap}.
Context `{!Codec rmp_serde MerklePaymentCandidateNode, !Codec rmp_serde MerklePaymentProof}.

(** ** Uploading *)

Section Upload.
Context (calculate_price : QuotingMetrics -> Z) {EvmNetwork : Type}.
Context (get_market_price : EvmNetwork -> list QuotingMetrics -> result string (list Z)).
Context (c : Payer (EvmNetwork := EvmNetwork)) (config : ClientConfig) (net : network).
Context (quoting putting : runs).

Abbreviation batch_upload :=
  (batch_upload_chunks calculate_price get_market_price c config net quoting putting).

(** The effects of an upload: the log of per-chunk payments and the merkle
    transactions. *)
Definition upload_effects : Type := upload_log * list merkle_payment.

(** [encrypt] of self_encryption, with its error; it always has fuel enough
    ([encrypt_terminates]). *)
Definition encrypt_data (content : bytes) : option (result DataError.t (DataMap * list bytes)) :=
  map_err (fun _ => DataError.Encryption "Failed to encrypt data: {e}") <$> encrypt content.

Definition upload_single (orders : nat -> (nat -> nat) * (nat -> nat)) (data_map : DataMap) (chunks : list bytes)
    : result DataError.t DataUploadResult * upload_log :=
  let '(r, log) := batch_upload orders chunks in
  ((fun addresses : list XorName => mkUploadResult data_map (length addresses) PaymentMode.Single) <$> r, log).

Definition data_upload (orders : nat -> (nat -> nat) * (nat -> nat)) (content : bytes)
    : option (result DataError.t DataUploadResult * upload_log) :=
  r ← encrypt_data content;
  Some match r with
       | Err e => (Err e, mkLog [] [] [])
       | Ok (data_map, chunk_contents) => upload_single orders data_map chunk_contents
       end.

(** The average size of the chunks, for the quotes; sums of sizes of chunks in
    memory do not overflow. *)
Definition average_size (chunks : list bytes) : Z :=
  foldr Z.add 0 (lenZ <$> chunks) / Z.max (lenZ chunks) 1.

Definition data_upload_with_mode (orders : nat -> (nat -> nat) * (nat -> nat)) (envs : nat -> payment_env)
    (put_order : nat -> nat) (content : bytes) (mode : PaymentMode.t)
    : option (result DataError.t DataUploadResult * upload_effects) :=
  r ← encrypt_data content;
  Some match r with
       | Err e => (Err e, (mkLog [] [] [], []))
       | Ok (data_map, chunk_contents) =>
         if should_use_merkle (length chunk_contents) mode then
           let addresses := compute_address <$> chunk_contents in
           match pay_for_merkle_batch c net envs addresses DATA_TYPE_CHUNK (average_size chunk_contents) with
           | (Ok batch_result, payments) =>
               ((fun chunks_stored => mkUploadResult data_map chunks_stored PaymentMode.Merkle) <$>
                  merkle_upload_chunks net config putting put_order chunk_contents addresses batch_result,
                (mkLog [] [] [], payments))
           | (Err e, payments) =>
               match e, mode with
               | DataError.InsufficientPeers _, PaymentMode.Auto =>
                   let '(r, log) := upload_single orders data_map chunk_contents in (r, (log, payments))
               | _, _ => (Err e, (mkLog [] [] [], payments))
               end
           end
         else let '(r, log) := upload_single orders data_map chunk_contents in (r, (log, []))
       end.

Definition data_prepare_upload (content : bytes) : option (result DataError.t PreparedUpload) :=
  r ← encrypt_data content;
  Some ('(data_map, chunk_contents) ← r;
        prepared ← try_fold (fun prepared content =>
            chunk ← prepare_chunk_payment calculate_price get_market_price c config net quoting content;
            Ok (match chunk with Some chunk => prepared ++ [chunk] | None => prepared end)) [] chunk_contents;
        Ok (mkPreparedUpload data_map prepared (from_prepared_chunks prepared))).

(** Storing a data map as a chunk: the result and the peers sent to. *)
Definition data_map_store (quote_ids put_ids : nat -> Z) (quote_sched put_sched : nat -> nat) (data_map : DataMap)
    : option (result DataError.t XorName * list peer) :=
  match ser rmp_serde data_map with
  | None => Some (Err (DataError.Serialization "Failed to serialize DataMap: {e}"), [])
  | Some serialized =>
      chunk_put calculate_price get_market_price c config net quote_ids put_ids quote_sched put_sched serialized
  end.

End Upload.

(** ** Downloading *)

Definition data_map_fetch (c : Client) (net : network) (address : XorName) : result DataError.t DataMap * Client :=
  let '(r, c) := chunk_get c net address in
  (chunk ← (r ≫= fun o => ok_or o (DataError.InvalidData "DataMap chunk not found at {}"));
   ok_or (de rmp_serde (content chunk)) (DataError.Serialization "Failed to deserialize DataMap: {e}"), c).

(** Where a [chunk_get] stands: before the lookup in the cache; with the peers
    still to ask; waiting for the answer of one to the request with an id; done. *)
Inductive getting :=
| Looking
| Peers (peers : list peer)
| Waiting (id : Z) (p : peer) (peers : list peer)
| Got (r : result DataError.t (option DataChunk)).

(** One step of a [chunk_get] between two points where others may run. *)
Definition get_step (net : network) (address : XorName) (c : Client) (g : getting) : getting * Client :=
  match g with
  | Looking =>
      let '(cached, l) := lru_get (chunk_cache c) address in
      let c := mkClient (config c) l (next_request_id c) in
      let from_network (c : Client) :=
        match close_group_peers (config c) net address with
        | Err e => (Got (Err e), c)
        | Ok peers => (Peers peers, c)
        end in
      match cached with
      | Some cached =>
          if bool_decide (compute_address cached = address) then (Got (Ok (Some (mkDataChunk address cached))), c)
          else from_network (mkClient (config c) (lru_pop (chunk_cache c) address) (next_request_id c))
      | None => from_network c
      end
  | Peers [] => (Got (Ok None), c)
  | Peers (p :: peers) =>
      (Waiting (next_request_id c) p peers, mkClient (config c) (chunk_cache c) (wadd (next_request_id c) 1))
  | Waiting id p peers =>
    match chunk_get_from_peer net id address p with
    | Ok (Some chunk) =>
        (Got (Ok (Some chunk)),
         mkClient (config c) (lru_put (chunk_cache c) (Protocol.address chunk) (content chunk)) (next_request_id c))
    | Ok None => (Peers peers, c)
    | Err (DataError.Timeout _) | Err (DataError.Network _) => (Peers peers, c)
    | Err e => (Got (Err e), c)
    end
  | Got r => (Got r, c)
  end.

Definition pending (f : XorName * getting) : bool := match f.2 with Got _ => false | _ => true end.

(** The schedule lets the [i]-th of the futures that are not done make a step. *)
Fixpoint step_nth (net : network) (i : nat) (c : Client) (futures : list (XorName * getting))
    : list (XorName * getting) * Client :=
  match futures with
  | [] => ([], c)
  | (a, g) :: futures' =>
    if pending (a, g) then
      match i with
      | O => let '(g, c) := get_step net a c g in ((a, g) :: futures', c)
      | S i => let '(futures', c) := step_nth net i c futures' in ((a, g) :: futures', c)
      end
    else let '(futures', c) := step_nth net i c futures' in ((a, g) :: futures', c)
  end.

(** [buffered(n)] and [try_collect]: the results are taken in order, and a new
    future starts for each that is taken. *)
Fixpoint buffered_gets (fuel : nat) (net : network) (sched : nat -> nat) (c : Client)
    (futures : list (XorName * getting)) (waiting : list XorName) (chunks : list bytes)
    : option (result DataError.t (list bytes) * Client) :=
  match fuel with
  | O => None
  | S fuel =>
    match futures with
    | [] => Some (Ok chunks, c)
    | (_, Got r) :: futures' =>
      match r with
      | Err e => Some (Err e, c)
      | Ok None => Some (Err (DataError.InvalidData "Missing chunk {} required for data reconstruction"), c)
      | Ok (Some chunk) =>
          buffered_gets fuel net sched c (futures' ++ ((fun a => (a, Looking)) <$> take 1 waiting))
            (drop 1 waiting) (chunks ++ [content chunk])
      end
    | _ =>
      let i := (sched 0%nat mod length (List.filter pending futures))%nat in
      let '(futures, c) := step_nth net i c futures in
      buffered_gets fuel net (fun k => sched (S k)) c futures waiting chunks
    end
  end.

(** A [chunk_get] makes at most this many steps. *)
Definition get_steps (config : ClientConfig) : nat := 2 * close_group_size config + 2.

Definition data_download (c : Client) (net : network) (sched : nat -> nat) (data_map : DataMap)
    : option (result DataError.t bytes * Client) :=
  let addresses := dst_hash <$> DataMap.infos data_map in
  let n := chunk_concurrency (config c) in
  '(r, c) ← buffered_gets (S (length addresses * S (get_steps (config c)))) net sched c
    ((fun a => (a, Looking)) <$> take n addresses) (drop n addresses) [];
  Some (encrypted_chunks ← r;
        map_err (fun _ => DataError.Encryption "Failed to decrypt data: {e}") (decrypt data_map encrypted_chunks), c).

End Data.

(** ** What the interleaved fetches come to *)

Section Gets.
Context `{Blake3, !Codec postcard ChunkMessage, !Lru XorName bytes}.
Context (cfg : ClientConfig) (net : network).

(** The steps a [chunk_get] has left. *)
Definition cost (g : getting) : nat :=
  match g with
  | Looking => get_steps cfg
  | Peers peers => 2 * length peers + 1
  | Waiting _ _ peers => 2 * length peers + 2
  | Got _ => 0
  end.

Lemma close_group_peers_length a peers :
  close_group_peers cfg net a = Ok peers -> (length peers <= close_group_size cfg)%nat.
Proof.
  unfold close_group_peers, find_closest_peers. destruct (find_closest_nodes net a _); cbn; [|discriminate].
  case_bool_decide; [discriminate|]. intros [= <-]. rewrite length_take. lia.
Qed.

Lemma get_step_cost a c g : config c = cfg -> pending (a, g) = true ->
  (cost (get_step net a c g).1 < cost g)%nat /\ config (get_step net a c g).2 = cfg.
Proof.
  intros Hc Hp. destruct g as [|[|p peers]|id p peers|r]; cbn [get_step]; [| | | |discriminate].
  - assert (forall c', config c' = cfg ->
      let r := match close_group_peers (config c') net a with Err e => (Got (Err e), c') | Ok peers => (Peers peers, c') end in
      (cost r.1 < cost Looking)%nat /\ config r.2 = cfg) as Hnet.
    { intros c' Hc'. rewrite Hc'. destruct (close_group_peers cfg net a) as [peers|e] eqn:E; cbn; unfold get_steps.
      - apply close_group_peers_length in E. split; [lia | exact Hc'].
      - split; [lia | exact Hc']. }
    destruct (lru_get (chunk_cache c) a) as [[cached|] l]; [case_bool_decide|]; try (apply Hnet; exact Hc).
    cbn. unfold get_steps. split; [lia | exact Hc].
  - cbn. split; [lia | exact Hc].
  - cbn. split; [lia | exact Hc].
  - destruct (chunk_get_from_peer net id a p) as [[chunk|]|e]; cbn; [split; [lia | exact Hc].. |].
    destruct e; cbn; split; solve [lia | exact Hc].
Qed.

(** An invariant [I] of the client and what is known of a fetch, which every step
    keeps. *)
Context (I : Client -> Prop) (Q : XorName -> getting -> Prop).
Context (I_config : forall c, I c -> config c = cfg).
Context (Q_step : forall a c g, I c -> Q a g -> pending (a, g) = true ->
  I (get_step net a c g).2 /\ Q a (get_step net a c g).1).

Abbreviation all_Q := (Forall (fun f : XorName * getting => Q f.1 f.2)).

Definition total_cost (futures : list (XorName * getting)) : nat :=
  list_sum ((fun f : XorName * getting => S (cost f.2)) <$> futures).

Lemma total_cost_cons a g futures : total_cost ((a, g) :: futures) = (S (cost g) + total_cost futures)%nat.
Proof. reflexivity. Qed.

Lemma total_cost_app fs fs' : total_cost (fs ++ fs') = (total_cost fs + total_cost fs')%nat.
Proof. unfold total_cost. by rewrite fmap_app, list_sum_app. Qed.

Lemma step_nth_spec i c futures : I c -> all_Q futures -> (i < length (List.filter pending futures))%nat ->
  let '(futures', c') := step_nth net i c futures in
  I c' /\ all_Q futures' /\ fst <$> futures' = fst <$> futures /\ (total_cost futures' < total_cost futures)%nat.
Proof.
  intros Hc Hq. revert i. induction Hq as [|[a g] futures Hg Hq IH]; intros i; cbn [List.filter step_nth length].
  { lia. }
  assert (forall i, (i < length (List.filter pending futures))%nat ->
    let '(futures', c') := (let '(futures', c) := step_nth net i c futures in ((a, g) :: futures', c)) in
    I c' /\ all_Q futures' /\ fst <$> futures' = a :: (fst <$> futures) /\
    (total_cost futures' < total_cost ((a, g) :: futures))%nat) as Hrest.
  { intros k Hk. specialize (IH k Hk). destruct (step_nth net k c futures) as [futures' c'].
    destruct IH as (Hc' & Hq' & Hf & Ht). split; [exact Hc'|]. split; [by constructor|]. rewrite fmap_cons, Hf.
    split; [reflexivity|]. rewrite !total_cost_cons. lia. }
  destruct (pending (a, g)) eqn:Ep; [|apply Hrest]. destruct i as [|i]; [|cbn [length]; intros Hi; apply Hrest; lia].
  intros _. destruct (get_step_cost a c g (I_config c Hc) Ep) as [Hcost _].
  destruct (Q_step a c g Hc Hg Ep) as [Hc' Hg']. destruct (get_step net a c g) as [g' c'].
  split; [exact Hc'|]. split; [by constructor|]. split; [reflexivity|]. rewrite !total_cost_cons. cbn [fst] in Hcost. lia.
Qed.

(** Whatever the schedule, the fetches end, and give the chunks in order or the
    first failure. *)
Lemma buffered_gets_spec fuel sched c futures waiting chunks :
  (1 <= length futures \/ waiting = [])%nat -> I c -> all_Q futures -> (forall a, a ∈ waiting -> Q a Looking) ->
  (total_cost futures + length waiting * S (get_steps cfg) < fuel)%nat ->
  exists r c', buffered_gets fuel net sched c futures waiting chunks = Some (r, c') /\ I c' /\
    match r with
    | Ok chunks' => exists new, chunks' = chunks ++ new /\
        Forall2 (fun a b => exists chunk, Q a (Got (Ok (Some chunk))) /\ b = content chunk)
          ((fst <$> futures) ++ waiting) new
    | Err _ => exists a r', Q a (Got r') /\ forall chunk, r' <> Ok (Some chunk)
    end.
Proof.
  revert sched c futures waiting chunks. induction fuel as [|fuel IH]; [lia|].
  intros sched c futures waiting chunks Hne Hc Hq Hw Hfuel. cbn [buffered_gets].
  destruct futures as [|[a g] futures].
  { destruct Hne as [Hne| ->]; [cbn in Hne; lia|]. exists (Ok chunks), c. split; [reflexivity|]. split; [exact Hc|].
    exists []. rewrite app_nil_r. split; [reflexivity | constructor]. }
  assert (pending (a, g) = true ->
    exists r c', (let i := (sched 0%nat mod length (List.filter pending ((a, g) :: futures)))%nat in
       let '(futures, c) := step_nth net i c ((a, g) :: futures) in
       buffered_gets fuel net (fun k => sched (S k)) c futures waiting chunks) = Some (r, c') /\ I c' /\
    match r with
    | Ok chunks' => exists new, chunks' = chunks ++ new /\
        Forall2 (fun a b => exists chunk, Q a (Got (Ok (Some chunk))) /\ b = content chunk)
          ((fst <$> (a, g) :: futures) ++ waiting) new
    | Err _ => exists a r', Q a (Got r') /\ forall chunk, r' <> Ok (Some chunk)
    end) as Hstep.
  { intros Hp. cbv zeta. set (fs := (a, g) :: futures) in *. set (i := (sched 0%nat mod _)%nat).
    assert (i < length (List.filter pending fs))%nat as Hi.
    { apply Nat.mod_upper_bound. unfold fs. cbn [List.filter]. rewrite Hp. discriminate. }
    pose proof (step_nth_spec i c fs Hc Hq Hi) as Hs. destruct (step_nth net i c fs) as [fs' c'].
    destruct Hs as (Hc' & Hq' & Hf & Ht). rewrite <- Hf. apply IH; [|exact Hc'|exact Hq'|exact Hw|lia].
    left. rewrite <- (length_fmap fst fs'), Hf. unfold fs. cbn. lia. }
  destruct g as [| | |r]; try (apply Hstep; reflexivity). clear Hstep.
  inversion Hq as [|? ? Hg Hq']; subst. cbn in Hg.
  assert (forall r', r = r' -> (forall chunk, r' <> Ok (Some chunk)) -> exists a' r', Q a' (Got r') /\ forall chunk, r' <> Ok (Some chunk)) as Hbad.
  { intros r' <- Hr. exists a, r. auto. }
  destruct r as [[chunk|]|e]; [|eexists _, c; split; [reflexivity|]; split; [exact Hc|]; eapply Hbad; [reflexivity | discriminate]..].
  destruct (IH sched c (futures ++ ((fun a => (a, Looking)) <$> take 1 waiting)) (drop 1 waiting)
    (chunks ++ [content chunk])) as (r & c' & Hr & Hc' & Hres).
  - destruct waiting; [auto|]. left. rewrite length_app. cbn. lia.
  - exact Hc.
  - apply Forall_app. split; [exact Hq'|]. destruct waiting; constructor; [apply Hw; left | constructor].
  - intros x Hx. apply Hw. destruct waiting; [exact Hx | right; exact Hx].
  - rewrite total_cost_app. rewrite total_cost_cons in Hfuel. destruct waiting as [|x waiting].
    + change (total_cost _) with 0%nat at 2. cbn [drop length cost] in *. lia.
    + change (total_cost ((fun a => (a, Looking)) <$> take 1 (x :: waiting))) with (S (get_steps cfg) + 0)%nat.
      change (drop 1 (x :: waiting)) with waiting. cbn [length cost] in *. lia.
  - exists r, c'. split; [exact Hr|]. split; [exact Hc'|]. destruct r as [chunks'|e]; [|exact Hres].
    destruct Hres as (new & -> & Hnew). exists (content chunk :: new). rewrite <- app_assoc. split; [reflexivity|].
    cbn. constructor; [exists chunk; auto|].
    revert Hnew. rewrite fmap_app, <- app_assoc. destruct waiting; cbn; rewrite ?app_nil_r; auto.
Qed.

End Gets.

(** ** Integrity and availability *)

Section Served.
Context `{Blake3, !Codec postcard ChunkMessage, !Lru XorName bytes, !LruLaws XorName bytes}.
Context (cfg : ClientConfig) (net : network).

(** What is known of any fetch: a chunk it has got hashes to the address. *)
Definition verified_get (a : XorName) (g : getting) : Prop :=
  match g with Got (Ok (Some chunk)) => compute_address (content chunk) = a | _ => True end.

Lemma verified_step a c g : config c = cfg -> verified_get a g -> pending (a, g) = true ->
  config (get_step net a c g).2 = cfg /\ verified_get a (get_step net a c g).1.
Proof.
  intros Hc Hg Hp. destruct (get_step_cost cfg net a c g Hc Hp) as [_ Hcfg]. split; [exact Hcfg|].
  destruct g as [|[|p peers]|id p peers|r]; cbn [get_step]; [| exact I | exact I | |exact Hg].
  - destruct (lru_get (chunk_cache c) a) as [[cached|] l].
    + case_bool_decide as Hh; [exact Hh|]. by destruct (close_group_peers _ net a).
    + by destruct (close_group_peers _ net a).
  - destruct (chunk_get_from_peer net id a p) as [[chunk|]|e] eqn:E; [|exact I|].
    + apply chunk_get_from_peer_ok in E as [_ Hh]. exact Hh.
    + by destruct e.
Qed.

(** Peers of which one that is asked in turn holds the chunk, and those before it
    only do not know it or do not answer. *)
Definition unhelpful (a : XorName) (p : peer) : Prop := forall id,
  match chunk_get_from_peer net id a p with
  | Ok None | Err (DataError.Timeout _) | Err (DataError.Network _) => True
  | _ => False
  end.
Definition holds_chunk (a : XorName) (b : bytes) (p : peer) : Prop := forall id,
  chunk_get_from_peer net id a p = Ok (Some (mkDataChunk a b)).

Fixpoint served_by (a : XorName) (b : bytes) (peers : list peer) : Prop :=
  match peers with
  | [] => False
  | p :: peers => holds_chunk a b p \/ (unhelpful a p /\ served_by a b peers)
  end.

Definition served (a : XorName) (b : bytes) : Prop :=
  compute_address b = a /\ exists peers, close_group_peers cfg net a = Ok peers /\ served_by a b peers.

(** The chunks that are served; the cache holds no others under their addresses. *)
Context (published : gmap XorName bytes) (Hserved : map_Forall served published).

Definition honest_client (c : Client) : Prop :=
  config c = cfg /\
  forall a b, is_Some (published !! a) -> lru_peek (chunk_cache c) a = Some b -> published !! a = Some b.

Definition served_get (a : XorName) (g : getting) : Prop :=
  exists b, published !! a = Some b /\
  match g with
  | Looking => True
  | Peers peers => served_by a b peers
  | Waiting _ p peers => holds_chunk a b p \/ (unhelpful a p /\ served_by a b peers)
  | Got r => r = Ok (Some (mkDataChunk a b))
  end.

Lemma honest_same_cache c l id : honest_client c ->
  (forall a, lru_peek l a = lru_peek (chunk_cache c) a) -> honest_client (mkClient (config c) l id).
Proof. intros [Hc Hl] Heq. split; [exact Hc|]. intros a b Ha. cbn. rewrite Heq. by apply Hl. Qed.

Lemma served_step a c g : honest_client c -> served_get a g -> pending (a, g) = true ->
  honest_client (get_step net a c g).2 /\ served_get a (get_step net a c g).1.
Proof.
  intros Hc (b & Hb & Hg) Hp. destruct (Hserved a b Hb) as (Hh & peers0 & Hpeers & Hby).
  destruct g as [|[|p peers]|id p peers|r]; cbn [get_step]; [| destruct Hg | | |discriminate].
  - pose proof (lru_get_value (chunk_cache c) a) as Hv. pose proof (lru_get_peek (chunk_cache c) a) as Hk.
    destruct (lru_get (chunk_cache c) a) as [cached l]. cbn in Hv, Hk.
    pose proof (honest_same_cache c l (next_request_id c) Hc Hk) as Hc'.
    assert (forall c', honest_client c' ->
      honest_client (match close_group_peers (config c') net a with Err e => (Got (Err e), c') | Ok peers => (Peers peers, c') end).2 /\
      served_get a (match close_group_peers (config c') net a with Err e => (Got (Err e), c') | Ok peers => (Peers peers, c') end).1) as Hnet.
    { intros c' Hhon. rewrite (proj1 Hhon), Hpeers. split; [exact Hhon|]. exists b. by split. }
    destruct cached as [cached|]; [|by apply Hnet]. symmetry in Hv. apply (proj2 Hc) in Hv; [|by exists b].
    assert (cached = b) as -> by congruence. rewrite bool_decide_true by exact Hh.
    split; [exact Hc'|]. exists b. by split.
  - split; [by apply honest_same_cache|]. exists b. by split.
  - destruct Hg as [Hholds | [Hun Hrest]].
    + rewrite (Hholds id). split; [|exists b; by split]. split; [exact (proj1 Hc)|]. intros x b' Hx. cbn.
      destruct (decide (x = a)) as [->|Hne].
      * intros Hb'. apply lru_put_value in Hb' as ->. exact Hb.
      * intros Hb'. apply lru_put_other in Hb'; [|exact Hne]. by apply (proj2 Hc).
    + specialize (Hun id). destruct (chunk_get_from_peer net id a p) as [[chunk|]|e]; [destruct Hun| |].
      * split; [exact Hc|]. exists b. by split.
      * destruct e; try destruct Hun; (split; [exact Hc|]; exists b; by split).
Qed.

End Served.

Section Download.
Context `{Config, Blake3, Aead, Brotli, !Codec bincode VersionedDataMap}.
Context `{!Codec postcard ChunkMessage, !Lru XorName bytes, !LruLaws XorName bytes}.

Lemma total_cost_looking cfg (addresses : list XorName) :
  total_cost cfg ((fun a => (a, Looking)) <$> addresses) = (length addresses * S (get_steps cfg))%nat.
Proof. induction addresses as [|a l IH]; [reflexivity|]. rewrite fmap_cons, total_cost_cons, IH. reflexivity. Qed.

Lemma fst_looking (addresses : list XorName) : fst <$> ((fun a => (a, Looking)) <$> addresses) = addresses.
Proof. induction addresses as [|a l IH]; [reflexivity|]. rewrite !fmap_cons, IH. reflexivity. Qed.

(** A download from any state, under any schedule. *)
Lemma download_spec (I : Client -> Prop) (Q : XorName -> getting -> Prop) c net sched dm :
  (1 <= chunk_concurrency (config c))%nat -> (forall c', I c' -> config c' = config c) ->
  (forall a c' g, I c' -> Q a g -> pending (a, g) = true -> I (get_step net a c' g).2 /\ Q a (get_step net a c' g).1) ->
  I c -> (forall info, info ∈ DataMap.infos dm -> Q (dst_hash info) Looking) ->
  exists r c', data_download c net sched dm = Some (r, c') /\
    ((exists chunks, r = map_err (fun _ => DataError.Encryption "Failed to decrypt data: {e}") (decrypt dm chunks) /\
        Forall2 (fun info b => exists chunk, Q (dst_hash info) (Got (Ok (Some chunk))) /\ b = content chunk)
          (DataMap.infos dm) chunks) \/
     (is_ok r = false /\ exists a r', Q a (Got r') /\ forall chunk, r' <> Ok (Some chunk))).
Proof.
  intros Hn Hcfg Hstep Hc Hq. unfold data_download. set (addresses := dst_hash <$> DataMap.infos dm).
  assert (forall a, a ∈ addresses -> Q a Looking) as Hlook.
  { intros a (info & -> & Hi)%list_elem_of_fmap. by apply Hq. }
  set (n := chunk_concurrency (config c)) in *.
  destruct (buffered_gets_spec (config c) net I Q Hcfg Hstep (S (length addresses * S (get_steps (config c)))) sched c
    ((fun a => (a, Looking)) <$> take n addresses) (drop n addresses) []) as (r & c' & -> & _ & Hr).
  - destruct addresses as [|x l]; [right; by rewrite drop_nil|]. left. destruct n; [lia|]. cbn. lia.
  - exact Hc.
  - apply Forall_forall. intros f (a & -> & Ha)%list_elem_of_fmap. apply Hlook.
    rewrite <- (take_drop n addresses). apply elem_of_app. by left.
  - intros a Ha. apply Hlook. rewrite <- (take_drop n addresses). apply elem_of_app. by right.
  - rewrite total_cost_looking, <- Nat.mul_add_distr_r, length_take, length_drop.
    replace (Nat.min n (length addresses) + (length addresses - n))%nat with (length addresses) by lia. lia.
  - cbn [mbind option_bind]. eexists _, c'. split; [reflexivity|]. destruct r as [chunks|e]; [left|right; auto].
    destruct Hr as (new & -> & Hf). rewrite fst_looking, take_drop in Hf. exists new.
    split; [reflexivity|]. by apply Forall2_fmap_l in Hf.
Qed.

End Download.

(** ** One fetch alone *)

Section Alone.
Context `{Blake3, !Codec postcard ChunkMessage, !Lru XorName bytes, !LruLaws XorName bytes}.
Context (net : network) (a : XorName).

Fixpoint run_get (n : nat) (c : Client) (g : getting) : getting * Client :=
  match n with
  | O => (g, c)
  | S n => let '(g, c) := get_step net a c g in run_get n c g
  end.

Lemma run_got n c r : run_get n c (Got r) = (Got r, c).
Proof. by induction n. Qed.

Lemma run_peers peers c :
  run_get (2 * length peers + 1) c (Peers peers) = let '(r, c) := get_from_peers c net a peers in (Got r, c).
Proof.
  revert c. induction peers as [|p peers IH]; intros c; [reflexivity|].
  replace (2 * length (p :: peers) + 1)%nat with (S (S (2 * length peers + 1))) by (cbn [length]; lia).
  cbn [run_get get_step get_from_peers]. destruct (chunk_get_from_peer net _ a p) as [[chunk|]|e].
  - apply run_got.
  - apply IH.
  - destruct e; first [apply IH | apply run_got].
Qed.

(** [chunk_get] is what its steps come to when nothing else runs. *)
Lemma chunk_get_run c :
  exists n, run_get n c Looking = let '(r, c') := chunk_get c net a in (Got r, c').
Proof.
  assert (forall c, exists n, (let '(g, c) := match close_group_peers (config c) net a with
      Err e => (Got (Err e), c) | Ok peers => (Peers peers, c) end in run_get n c g) =
    let '(r, c') := match close_group_peers (config c) net a with
      Err e => (Err e, c) | Ok peers => get_from_peers c net a peers end in (Got r, c')) as Hnet.
  { intros c'. destruct (close_group_peers (config c') net a) as [peers|e]; [eexists; apply run_peers | by exists 0%nat]. }
  unfold chunk_get. destruct (lru_get (chunk_cache c) a) as [[cached|] l] eqn:E.
  - destruct (decide (compute_address cached = a)) as [Hh|Hh].
    + exists 1%nat. cbn. rewrite E, !bool_decide_true by exact Hh. reflexivity.
    + destruct (Hnet (mkClient (config c) (lru_pop l a) (next_request_id c))) as [n Hn]. exists (S n).
      cbn [run_get get_step]. rewrite E, !bool_decide_false by exact Hh. exact Hn.
  - destruct (Hnet (mkClient (config c) l (next_request_id c))) as [n Hn]. exists (S n).
    cbn [run_get get_step]. rewrite E. exact Hn.
Qed.

Lemma run_served cfg published (Hserved : map_Forall (served cfg net) published) n c g :
  honest_client cfg published c -> served_get net published a g ->
  honest_client cfg published (run_get n c g).2 /\ served_get net published a (run_get n c g).1.
Proof.
  revert c g. induction n as [|n IH]; intros c g Hc Hg; [split; assumption|]. cbn [run_get].
  destruct (pending (a, g)) eqn:Ep.
  - destruct (served_step cfg net published Hserved a c g Hc Hg Ep) as [Hc' Hg'].
    destruct (get_step net a c g) as [g' c']. by apply IH.
  - destruct g; try discriminate. cbn [get_step]. by apply IH.
Qed.

Lemma chunk_get_served cfg published b (Hserved : map_Forall (served cfg net) published) c :
  honest_client cfg published c -> published !! a = Some b ->
  (chunk_get c net a).1 = Ok (Some (mkDataChunk a b)).
Proof.
  intros Hc Hb. destruct (chunk_get_run c) as [n Hn].
  destruct (run_served cfg published Hserved n c Looking Hc) as [_ Hg]; [by exists b|].
  rewrite Hn in Hg. destruct (chunk_get c net a) as [r c']. destruct Hg as (b' & Hb' & Hr).
  cbn in Hr. rewrite Hb in Hb'. apply (inj Some) in Hb' as <-. exact Hr.
Qed.

End Alone.

(** The chunks of a list under their addresses. *)
Definition published_chunks `{Blake3} (cs : list bytes) : gmap XorName bytes :=
  list_to_map ((fun b => (compute_address b, b)) <$> cs).

Section Round.
Context `{Config, Blake3, Aead, Brotli, !Codec bincode VersionedDataMap}.
Context `{!Blake3Laws, !AeadLaws, !BrotliLaws, !CodecLaws bincode VersionedDataMap}.

Lemma published_in (cs : list bytes) a b :
  published_chunks cs !! a = Some b -> b ∈ cs /\ compute_address b = a.
Proof.
  intros Hb%elem_of_list_to_map_2. apply list_elem_of_fmap in Hb as (x & [= -> ->] & Hx). auto.
Qed.

Lemma published_lookup (cs : list bytes) b :
  collision_free cs -> b ∈ cs -> published_chunks cs !! compute_address b = Some b.
Proof.
  intros Hcf Hb. destruct (published_chunks cs !! compute_address b) as [b'|] eqn:E.
  - apply published_in in E as [Hb' Ha]. by rewrite (Hcf b' b Hb' Hb Ha).
  - exfalso. apply not_elem_of_list_to_map_2 in E. apply E. rewrite <- list_fmap_compose.
    apply list_elem_of_fmap. by exists b.
Qed.

(** A file of at most three chunks is encrypted without shrinking. *)
Lemma encrypt_unshrunk data dm cs :
  1 <= MAX_CHUNK_SIZE -> get_num_chunks (lenZ data) <= 3 -> encrypt data = Some (Ok (dm, cs)) ->
  encrypt_chunks data 0 = Ok (file_map data cs, cs) /\ dm = file_map data cs.
Proof.
  intros HM Hn. unfold encrypt. remember (encrypt_fuel (lenZ data)) as fuel eqn:Ef.
  destruct fuel as [|[|fuel]]; [discriminate| |]; rewrite encrypt_with_child_level_S;
    destruct (encrypt_chunks data 0) as [[dm0 cs0]|e] eqn:E0; try discriminate;
    pose proof (encrypt_chunks_Ok HM _ _ _ _ E0) as (Hd & -> & _);
    pose proof (encrypt_chunks_length HM _ _ _ _ E0) as (_ & Hlen & _).
  rewrite shrink_small by lia. intros [= <- <-]. auto.
Qed.

(** What a download of a small file's map gives, from the hashes of the chunks. *)
Lemma small_map_decrypts data cs chunks :
  1 <= MAX_CHUNK_SIZE -> encrypt_chunks data 0 = Ok (file_map data cs, cs) -> collision_free (chunks ++ cs) ->
  Forall2 (fun info b => compute_address b = dst_hash info) (DataMap.infos (file_map data cs)) chunks ->
  decrypt (file_map data cs) chunks = Ok data.
Proof.
  intros HM E Hcf Hf. pose proof (encrypt_chunks_length HM _ _ _ _ E) as (Hl & _).
  pose proof (file_map_lookup_infos data cs Hl) as Hcs.
  assert (chunks = cs) as ->.
  { apply list_eq_same_length with (length cs); [done | | ].
    - rewrite <- (Forall2_length _ _ _ Hf). exact (Forall2_length _ _ _ Hcs).
    - intros i b b' _ Hb Hb'. destruct (Forall2_lookup_r _ _ _ _ _ Hf Hb) as (info & Hi & Hh).
      pose proof (Forall2_lookup_lr _ _ _ _ _ _ Hcs Hi Hb') as Hh'. cbn in Hh'. apply Hcf.
      + apply elem_of_app. left. by eapply list_elem_of_lookup_2.
      + apply elem_of_app. right. by eapply list_elem_of_lookup_2.
      + exact (eq_trans Hh Hh'). }
  apply (decrypt_root HM _ _ _ E); [|done]. eapply collision_free_subset; [|exact Hcf]. set_solver.
Qed.

(** ** Downloads of small files *)

Context `{!Codec postcard ChunkMessage, !Lru XorName bytes, !LruLaws XorName bytes}.
Context (data : bytes) (cs : list bytes) (HM : 1 <= MAX_CHUNK_SIZE).
Context (E : encrypt_chunks data 0 = Ok (file_map data cs, cs)).
Context (cl : Client) (net : network) (sched : nat -> nat) (Hn : (1 <= chunk_concurrency (config cl))%nat).

Lemma download_integrity :
  exists r cl', data_download cl net sched (file_map data cs) = Some (r, cl') /\
    forall d, r = Ok d -> exists chunks,
      Forall2 (fun info b => compute_address b = dst_hash info) (DataMap.infos (file_map data cs)) chunks /\
      (collision_free (chunks ++ cs) -> d = data).
Proof.
  destruct (download_spec (fun c' => config c' = config cl) verified_get cl net sched (file_map data cs) Hn)
    as (r & cl' & Hd & Hr); [auto | intros; by apply (verified_step (config cl)) | reflexivity | done |].
  exists r, cl'. split; [exact Hd|]. intros d ->. destruct Hr as [(chunks & Hdec & Hf) | [[=] _]].
  exists chunks. assert (Forall2 (fun info b => compute_address b = dst_hash info) (DataMap.infos (file_map data cs)) chunks) as Hh.
  { eapply Forall2_impl; [exact Hf|]. intros info b (chunk & Hv & ->). exact Hv. }
  split; [exact Hh|]. intros Hcf. rewrite (small_map_decrypts data cs chunks HM E Hcf Hh) in Hdec. by injection Hdec.
Qed.

Lemma served_published :
  Forall (fun u => served (config cl) net (compute_address u) u) cs ->
  map_Forall (served (config cl) net) (published_chunks cs).
Proof. intros Hs a b [Hb <-]%published_in. by apply (proj1 (Forall_forall _ _) Hs). Qed.

Lemma download_available :
  collision_free cs -> Forall (fun u => served (config cl) net (compute_address u) u) cs ->
  honest_client (config cl) (published_chunks cs) cl ->
  exists cl', data_download cl net sched (file_map data cs) = Some (Ok data, cl').
Proof.
  intros Hcf Hserved Hhonest. apply served_published in Hserved as Hs.
  pose proof (encrypt_chunks_length HM _ _ _ _ E) as (Hl & _).
  pose proof (file_map_lookup_infos data cs Hl) as Hinfos.
  destruct (download_spec (honest_client (config cl) (published_chunks cs)) (served_get net (published_chunks cs))
    cl net sched (file_map data cs) Hn) as (r & cl' & Hd & Hr); [by intros c' [Hc' _] | | exact Hhonest | |].
  - intros a c' g. exact (served_step (config cl) net (published_chunks cs) Hs a c' g).
  - intros info [i Hi]%list_elem_of_lookup_1. destruct (Forall2_lookup_l _ _ _ _ _ Hinfos Hi) as (b & Hb & Hh).
    apply list_elem_of_lookup_2 in Hb. exists b. split; [|exact I]. rewrite Hh. by apply published_lookup.
  - exists cl'. rewrite Hd. destruct Hr as [(chunks & -> & Hf) | (_ & a & r' & (b & _ & Hb) & Hne)]; [|destruct (Hne _ Hb)].
    assert (Forall2 (fun info b => b ∈ cs /\ compute_address b = dst_hash info) (DataMap.infos (file_map data cs)) chunks) as Hh.
    { eapply Forall2_impl; [exact Hf|]. intros info b (chunk & (b' & Hb' & [= ->]) & ->).
      by apply published_in in Hb'. }
    rewrite (small_map_decrypts data cs chunks HM E); [reflexivity | |].
    + eapply collision_free_subset; [|exact Hcf]. intros x [Hx|Hx]%elem_of_app; [|exact Hx].
      apply list_elem_of_lookup_1 in Hx as [i Hi]. by destruct (Forall2_lookup_r _ _ _ _ _ Hh Hi) as (? & _ & Hin & _).
    + eapply Forall2_impl; [exact Hh|]. by intros info b [_ ?].
Qed.

End Round.

(** A data map that is kept on the network comes back. *)
Lemma data_map_fetch_served
    `{Blake3, !Codec postcard ChunkMessage, !Lru XorName bytes, !LruLaws XorName bytes}
    `{!Codec rmp_serde DataMap, !CodecLaws rmp_serde DataMap} cl net dm b :
  ser rmp_serde dm = Some b -> served (config cl) net (compute_address b) b ->
  honest_client (config cl) (published_chunks [b]) cl -> (data_map_fetch cl net (compute_address b)).1 = Ok dm.
Proof.
  intros Hb Hserved Hhonest. unfold data_map_fetch.
  assert (published_chunks [b] !! compute_address b = Some b) as Hp by apply lookup_insert_eq.
  assert (map_Forall (served (config cl) net) (published_chunks [b])) as Hs.
  { intros a x Hx. apply published_in in Hx as [->%list_elem_of_singleton <-]. exact Hserved. }
  pose proof (chunk_get_served net (compute_address b) (config cl) (published_chunks [b]) b Hs cl Hhonest Hp) as Hg.
  destruct (chunk_get cl net (compute_address b)) as [r cl']. cbn in Hg |- *. rewrite Hg. cbn.
  by rewrite (ser_de _ _ Hb).
Qed.

(** Storing a data map ends; when it succeeds, a chunk with the map is already on the
    network by the account of its quotes, or was taken by a majority of the peers that
    quoted it. *)
Section StoreMap.
Context `{Blake3, Evm, !Codec postcard ChunkMessage, !Codec rmp_serde PaymentQuote, !Codec rmp_serde PaymentProof}.
Context `{!Codec rmp_serde DataMap} (price : QuotingMetrics -> Z) {EvmNetwork : Type}.
Context (market : EvmNetwork -> list QuotingMetrics -> result string (list Z)).
Context (c : Payer (EvmNetwork := EvmNetwork)) (cfg : ClientConfig) (net : network).
Context (quote_ids put_ids : nat -> Z) (quote_sched put_sched : nat -> nat).

Definition map_stored (b : bytes) (sent : list peer) : Prop :=
  let a := compute_address b in
  match pay_for_storage price market c cfg net quote_ids quote_sched a (lenZ b) CHUNK_DATA_TYPE with
  | Ok (proof, peers) => exists n, sent = take n peers /\
      put_outcome (imap (fun k p => chunk_put_with_proof net (put_ids k) b proof p) peers) peers (Ok a) insufficient (Ok a) n
  | Err e => e = DataError.AlreadyStored /\ sent = []
  end.

Lemma data_map_store_ok dm :
  exists r sent, data_map_store price market c cfg net quote_ids put_ids quote_sched put_sched dm = Some (r, sent) /\
    forall a, r = Ok a -> exists b, ser rmp_serde dm = Some b /\ a = compute_address b /\ map_stored b sent.
Proof.
  unfold data_map_store. destruct (ser rmp_serde dm) as [b|]; [|by do 2 eexists].
  unfold chunk_put, map_stored. destruct (pay_for_storage _ _ _ _ _ _ _ _ _ _) as [[proof peers]|e] eqn:Ep.
  - destruct (put_to_close_group_outcome net put_ids put_sched b proof peers) as (r & n & -> & Ho).
    exists r, (take n peers). split; [done|]. intros a ->. exists b. split; [done|].
    assert (a = compute_address b) as -> by (destruct Ho as (_ & [([= ->] & _)|([=] & _)]); done).
    split; [done|]. rewrite Ep. by exists n.
  - destruct e; do 2 eexists; (split; [reflexivity|]); try discriminate. intros a [= <-]. exists b. by rewrite Ep.
Qed.

End StoreMap.

(** C36: Data that was uploaded can be downloaded.  When [data_upload] succeeds for
    data of at most three chunks, it has stored each of its chunks, or found it
    stored, and returns a data map with which a download, from any state of the
    client and under any interleaving of its fetches, ends, and returns the data
    and nothing else unless chunks collide; it does return the data when the close
    group of each chunk serves it.  Storing the data map on the network always ends;
    when [data_map_store] succeeds it returns the address of a chunk that holds the
    map, which the network had, by the account of its quotes, or a majority of the
    peers that quoted it took; and where the close group of that address serves the
    chunk, [data_map_fetch] returns the map. *)
Theorem uploaded_data_is_downloaded
    `{Config, Blake3, Aead, Brotli, !Codec bincode VersionedDataMap}
    `{!Blake3Laws, !AeadLaws, !BrotliLaws, !CodecLaws bincode VersionedDataMap}
    `{Evm, Dsa, !MerkleTrees, !Codec postcard ChunkMessage, !Lru XorName bytes, !LruLaws XorName bytes}
    `{!Codec rmp_serde PaymentQuote, !Codec rmp_serde PaymentProof, !Codec rmp_serde DataMap, !CodecLaws rmp_serde DataMap}
    (price : QuotingMetrics -> Z) {EvmNetwork : Type}
    (market : EvmNetwork -> list QuotingMetrics -> result string (list Z))
    (c : Payer (EvmNetwork := EvmNetwork)) (cfg : ClientConfig) (net : network) (quoting putting : runs)
    (orders : nat -> (nat -> nat) * (nat -> nat)) (data : bytes) (res : DataUploadResult) (log : upload_log)
    (HM : 1 <= MAX_CHUNK_SIZE) (Hsmall : get_num_chunks (lenZ data) <= 3)
    (Hconc : (1 <= chunk_concurrency cfg)%nat)
    (Hup : data_upload price market c cfg net quoting putting orders data = Some (Ok res, log)) :
  exists cs, encrypt data = Some (Ok (data_map res, cs)) /\ chunks_stored res = length cs /\
    (forall u, u ∈ cs -> exists u', u' ∈ cs /\ compute_address u' = compute_address u /\
       chunk_done price market c cfg net quoting putting log u') /\
    (forall cl net' sched, (1 <= chunk_concurrency (config cl))%nat ->
       exists r cl', data_download cl net' sched (data_map res) = Some (r, cl') /\
         (forall d, r = Ok d -> exists chunks,
            Forall2 (fun info b => compute_address b = dst_hash info) (DataMap.infos (data_map res)) chunks /\
            (collision_free (chunks ++ cs) -> d = data)) /\
         (collision_free cs -> Forall (fun u => served (config cl) net' (compute_address u) u) cs ->
            honest_client (config cl) (published_chunks cs) cl -> r = Ok data)) /\
    (forall quote_ids put_ids quote_sched put_sched,
       exists r sent, data_map_store price market c cfg net quote_ids put_ids quote_sched put_sched (data_map res) = Some (r, sent) /\
         forall a, r = Ok a -> exists b,
           ser rmp_serde (data_map res) = Some b /\ a = compute_address b /\
           map_stored price market c cfg net quote_ids put_ids quote_sched b sent /\
           forall cl net', served (config cl) net' a b -> honest_client (config cl) (published_chunks [b]) cl ->
             (data_map_fetch cl net' a).1 = Ok (data_map res)).
Proof.
  revert Hup. unfold data_upload, encrypt_data. destruct (encrypt data) as [[[dm cs]|e]|] eqn:E; cbn; [|discriminate..].
  unfold upload_single. destruct (batch_upload_chunks _ _ _ _ _ _ _ _ _) as [[addrs|e] log'] eqn:Eb; cbn; [|discriminate].
  intros [= <- <-]. cbn [data_map chunks_stored].
  apply batch_upload_spec in Eb as (_ & _ & _ & _ & Hok); [|exact Hconc].
  destruct (Hok addrs eq_refl) as [Hperm Hdone].
  destruct (encrypt_unshrunk data dm cs HM Hsmall E) as [E0 ->].
  exists cs. split; [reflexivity|]. split; [by rewrite Hperm, length_fmap|]. split; [exact Hdone|]. split.
  - intros cl net' sched Hn. destruct (download_integrity data cs HM E0 cl net' sched Hn) as (r & cl' & Hd & Hint).
    exists r, cl'. split; [exact Hd|]. split; [exact Hint|]. intros Hcf Hserved Hhonest.
    destruct (download_available data cs HM E0 cl net' sched Hn Hcf Hserved Hhonest) as [cl'' Hd']. congruence.
  - intros qi pi qs ps. destruct (data_map_store_ok price market c cfg net qi pi qs ps (file_map data cs)) as (r & sent & Hst & Hr).
    exists r, sent. split; [exact Hst|]. intros a Ha. destruct (Hr a Ha) as (b & Hb & -> & Hm). exists b.
    split; [done|]. split; [done|]. split; [exact Hm|]. intros cl net' Hserved Hhonest. by apply data_map_fetch_served.
Qed.

(** ** Three chunks *)

#[local] Existing Instance sample_wire.
#[local] Existing Instance batch_quote_codec.
#[local] Existing Instance batch_proof_codec.
#[local] Existing Instance toy_trees.
#[local] Existing Instance sample_candidates.
#[local] Existing Instance sample_proofs.

#[local] Instance sample_map_codec : Codec rmp_serde DataMap := {|
  ser := to_bytes;
  de := from_bytes
|}.

#[local] Instance sample_map_codec_laws : CodecLaws rmp_serde DataMap.
Proof. split. intros dm b Hb. exact (from_bytes_to_bytes _ _ Hb). Qed.

Lemma uploaded_data_is_downloaded_witness :
  let c : Config := {| MAX_CHUNK_SIZE := 180 |} in
  exists res log cs,
    data_upload (fun _ => 7) (fun _ ms => Ok ((fun _ => 10) <$> ms)) (with_wallet batch_wallet)
      (ClientConfig_default (Some 4)) storing_network batch_runs batch_runs (fun _ => (fun k => k, fun k => k))
      (sample_file 300) = Some (Ok res, log) /\
    encrypt (sample_file 300) = Some (Ok (data_map res, cs)) /\ length cs = 3%nat /\ length (paid log) = 3%nat /\
    exists r cl', data_download (client_new (ClientConfig_default (Some 4))) storing_network (fun k => k) (data_map res)
      = Some (r, cl') /\
      forall d, r = Ok d -> exists chunks, (collision_free (chunks ++ cs) -> d = sample_file 300).
Proof.
  set (c := {| MAX_CHUNK_SIZE := 180 |}). cbv zeta.
  set (up := data_upload _ _ _ _ _ _ _ _ _).
  assert (match up with Some (Ok res, log) => chunks_stored res = 3%nat /\ length (paid log) = 3%nat | _ => False end) as Hr
    by (vm_compute; split; reflexivity).
  destruct up as [[[res|e] log]|] eqn:Eup; try destruct Hr. exists res, log.
  destruct (uploaded_data_is_downloaded (fun _ => 7) (fun _ ms => Ok ((fun _ => 10) <$> ms)) (with_wallet batch_wallet)
    (ClientConfig_default (Some 4)) storing_network batch_runs batch_runs (fun _ => (fun k => k, fun k => k))
    (sample_file 300) res log) as (cs & He & Hl & _ & Hdown & _).
  - vm_compute. discriminate.
  - vm_compute. discriminate.
  - vm_compute. lia.
  - exact Eup.
  - exists cs. split; [reflexivity|]. split; [exact He|]. split; [by rewrite <- Hl|]. split; [assumption|].
    destruct (Hdown (client_new (ClientConfig_default (Some 4))) storing_network (fun k => k)) as (r & cl' & Hd & Hint & _).
    { vm_compute. lia. }
    exists r, cl'. split; [exact Hd|]. intros d Hr'. destruct (Hint d Hr') as (chunks & _ & Hc). exists chunks. exact Hc.
Defined.

(** Larger data cannot be downloaded: its data map is shrunk and lists the chunks of
    the root map only, so its own chunks are not fetched.  Here the client even has
    all of them in its cache. *)
Lemma shrunk_data_cannot_be_downloaded :
  let c : Config := {| MAX_CHUNK_SIZE := 180 |} in
  exists dm cs, encrypt (sample_file 900) = Some (Ok (dm, cs)) /\ decrypt dm cs = Ok (sample_file 900) /\
    let cl := mkClient (ClientConfig_default (Some 4))
      (foldr (fun b l => lru_put l (compute_address b) b) (cache_create 0) cs) 1 in
    fst <$> data_download cl storing_network (fun k => k) dm =
      Some (Err (DataError.Encryption "Failed to decrypt data: {e}")).
Proof.
  set (c := {| MAX_CHUNK_SIZE := 180 |}). cbv zeta.
  assert (match encrypt (sample_file 900) with
    | Some (Ok (dm, cs)) => decrypt dm cs = Ok (sample_file 900) /\
        fst <$> data_download (mkClient (ClientConfig_default (Some 4))
          (foldr (fun b l => lru_put l (compute_address b) b) (cache_create 0) cs) 1) storing_network (fun k => k) dm =
        Some (Err (DataError.Encryption "Failed to decrypt data: {e}"))
    | _ => False
    end) as Hc by (vm_compute; split; reflexivity).
  destruct (encrypt (sample_file 900)) as [[[dm cs]|e]|]; try contradiction. exists dm, cs. tauto.
Qed.
