(* ===== verification/NetFile.v ===== *)
(** * The native client: files

    [file.rs] of [ant-client/ant-core/src/data/client]: a file is encrypted as a
    stream, its chunks are spilled to a temporary directory and uploaded from
    there wave by wave; a download decrypts as a stream into a temporary file that
    is renamed at the end.  The disk is that of [Files], whose calls may all fail,
    that which removes the spill, too. *)

From Stdlib Require Import ZArith Lia Strings.Byte Strings.String.
From stdpp Require Import base decidable list strings gmap.
From S2P Require Import Prelude Hex Interfaces ChunkMath Cipher DataMap Reference Encrypt Decrypt RoundTrip Ranges.
From S2P Require Import StreamDec StreamEnc Storage Files.
From S2P Require Import Protocol Evm Quote PayProof SingleNode.
From S2P Require Import NetFetch NetClient NetPayment NetBatch NetMerkle NetData.

Local Open Scope Z_scope.

Definition UPLOAD_WAVE_SIZE : nat := 64.
Definition DISK_SPACE_HEADROOM_PERCENT : Z := 10.

(** ** File operations with the client's errors *)

Abbreviation fio := (stres disk DataError.t).

Definition fio_error : DataError.t := DataError.Io "{e}".

(** A call of [std::fs] with the error it is turned into; by [?] into [Io]. *)
Definition fs_as {A} (e : DataError.t) (m : io A) : fio A := fun st =>
  let '(r, st') := m st in (map_err (fun _ => e) r, st').
Definition fs {A} (m : io A) : fio A := fs_as fio_error m.

Definition fs_len (p : path) : io Z :=
  io_call (fun m => match m !! p with Some f => (Ok (lenZ (data f)), m) | None => (Err io_error, m) end).

(** [create_dir] fails when the directory is there. *)
Definition fs_create_dir (dir : path) : io unit :=
  io_call (fun m => if existsb (fun kv : path * file => bool_decide (under dir kv.1)) (map_to_list m)
                    then (Err io_error, m) else (Ok tt, m)).

(** ** The spill *)

Record ChunkSpill := mkSpill {
  dir : path;
  spilled : list XorName;
  seen : gset XorName;
  total_bytes : Z
}.

Section Spill.
Context `{Blake3}.

(** [temp_dir] and [unique] make a name for the directory. *)
Definition spill_new (temp_dir : path) (unique : string) : fio ChunkSpill :=
  let dir := temp_dir ++ [unique] in
  _ ← fs (fs_create_dir dir);
  mret (mkSpill dir [] ∅ 0).

Definition spill_path (s : ChunkSpill) (address : XorName) : path := dir s ++ [hex_encode address].

Definition spill_push (s : ChunkSpill) (content : bytes) : fio ChunkSpill :=
  let address := compute_address content in
  if bool_decide (address ∈ seen s) then mret s
  else
    _ ← fs (fs_write (spill_path s address) content);
    mret (mkSpill (dir s) (spilled s ++ [address]) ({[address]} ∪ seen s) (wadd (total_bytes s) (lenZ content))).

Definition avg_chunk_size (s : ChunkSpill) : Z :=
  if bool_decide (spilled s = []) then 0 else total_bytes s / lenZ (spilled s).

Definition read_chunk (s : ChunkSpill) (address : XorName) : fio bytes :=
  fs_as (DataError.Io "reading spilled chunk {}: {e}") (fs_read (spill_path s address)).

Definition waves (s : ChunkSpill) : list (list XorName) :=
  chunks_of (length (spilled s)) UPLOAD_WAVE_SIZE (spilled s).

Definition read_wave (s : ChunkSpill) (wave_addrs : list XorName) : fio (list (bytes * XorName)) :=
  st_map (fun addr => content ← read_chunk s addr; mret (content, addr)) wave_addrs.

End Spill.

(** [available] is what [available_space] answers for the temporary directory. *)
Definition check_disk_space_for_spill (available : result string Z) (file_size : Z) : result DataError.t unit :=
  available ← map_err (fun _ => DataError.Io "failed to query disk space on {}: {e}") available;
  let headroom := file_size / DISK_SPACE_HEADROOM_PERCENT in
  let required := Z.min (file_size + headroom) u64_max in
  if available <? required then
    Err (DataError.InsufficientDiskSpace "need ~{req_mb} MB in temp dir ({}) but only {avail_mb} MB available")
  else Ok tt.

Record FileUploadResult := mkFileUpload {
  fu_data_map : DataMap;
  fu_chunks_stored : nat;
  fu_payment_mode_used : PaymentMode.t
}.

Section Encryption.
Context `{Config, Blake3, Aead, Brotli, !Codec bincode VersionedDataMap}.

(** ** Encrypting a file to the spill

    The blocking task and the receiver of its channel as one loop: the task only
    reads, so it does not matter how far it runs ahead.  A read that fails looks
    like the end of the data to the stream; the task looks for it after each chunk
    and at the end.  [None] when the fuel runs out. *)

Definition read_failed_at (fails : bool) (s : EncryptionStream) : bool := fails && input_complete s.

Fixpoint spill_chunks (fuel : nat) (fails : bool) (s : EncryptionStream) (spill : ChunkSpill) (st : disk)
    : option (result DataError.t (ChunkSpill * DataMap) * disk) :=
  match fuel with
  | O => None
  | S fuel =>
    match chunk_stream_next s with
    | None => None
    | Some (item, s) =>
      if read_failed_at fails s then Some (Err (DataError.Encryption "encryption failed: {e}"), st)
      else
        match item with
        | None =>
            Some (match datamap s with
                  | Some dm => Ok (spill, dm)
                  | None => Err (DataError.Encryption "encryption failed: no DataMap after encryption")
                  end, st)
        | Some (Err _) => Some (Err (DataError.Encryption "encryption failed: chunk encryption failed: {e}"), st)
        | Some (Ok (_, content)) =>
          match spill_push spill content st with
          | (Err e, st) => Some (Err e, st)
          | (Ok spill, st) => spill_chunks fuel fails s spill st
          end
        end
    end
  end.

(** The pieces that reading gives (of at most 8192 bytes), and after how many of
    them a read fails, if one does. *)
Record reader := mkReader { pieces : bytes -> list bytes; fails_after : option nat }.

Definition pieces_read (rd : reader) (b : bytes) : list bytes :=
  match fails_after rd with Some k => take k (pieces rd b) | None => pieces rd b end.
Definition read_fails (rd : reader) : bool := match fails_after rd with Some _ => true | None => false end.

(** The spill is removed when the encryption fails, if removing it works. *)
Definition drop_failed {A} (dir : path) (r : result DataError.t A * disk) : result DataError.t A * disk :=
  match r with (Ok a, st) => (Ok a, st) | (Err e, st) => (Err e, drop_dir dir st) end.

Definition fill_spill (fuel : nat) (rd : reader) (data_size : Z) (spill : ChunkSpill) (p : path) (st : disk)
    : option (result DataError.t (ChunkSpill * DataMap) * disk) :=
  let '(opened, st) := fs_read p st in
  match opened with
  | Err _ => Some (Err (DataError.Encryption "encryption failed: {e}"), st)
  | Ok contents =>
    match stream_encrypt data_size (pieces_read rd contents) with
    | Err _ => Some (Err (DataError.Encryption "encryption failed: stream_encrypt failed: {e}"), st)
    | Ok s => spill_chunks fuel (read_fails rd) s spill st
    end
  end.

Definition encrypt_file_to_spill (fuel : nat) (rd : reader) (temp_dir : path) (unique : string) (p : path) (st : disk)
    : option (result DataError.t (ChunkSpill * DataMap) * disk) :=
  let '(opened, st) := (data_size ← fs (fs_len p); spill ← spill_new temp_dir unique; mret (data_size, spill)) st in
  match opened with
  | Err e => Some (Err e, st)
  | Ok (data_size, spill) => drop_failed (dir spill) <$> fill_spill fuel rd data_size spill p st
  end.

End Encryption.

(** ** Uploading *)

Definition join_logs (l1 l2 : upload_log) : upload_log :=
  mkLog (paid l1 ++ paid l2) (put_to_peers l1 ++ put_to_peers l2) (wallet_calls l1 ++ wallet_calls l2).
Definition no_log : upload_log := mkLog [] [] [].

Section Upload.
Context `{Config, Blake3, Aead, Brotli, !Codec bincode VersionedDataMap}.
Context `{Evm, Dsa, !MerkleTrees, !Codec postcard ChunkMessage}.
Context `{!Codec rmp_serde PaymentQuote, !Codec rmp_serde PaymentProof}.
Context `{!Codec rmp_serde MerklePaymentCandidateNode, !Codec rmp_serde MerklePaymentProof}.
Context (calculate_price : QuotingMetrics -> Z) {EvmNetwork : Type}.
Context (get_market_price : EvmNetwork -> list QuotingMetrics -> result string (list Z)).
Context (c : Payer (EvmNetwork := EvmNetwork)) (config : ClientConfig) (net : network).
Context (quoting putting : runs).

(** The completion orders of the batch of each wave. *)
Fixpoint single_waves (orders : nat -> nat -> (nat -> nat) * (nat -> nat)) (spill : ChunkSpill)
    (waves : list (list XorName)) (total_stored : nat) (st : disk)
    : result DataError.t nat * upload_log * disk :=
  match waves with
  | [] => (Ok total_stored, no_log, st)
  | wave_addrs :: waves =>
    match st_map (read_chunk spill) wave_addrs st with
    | (Err e, st) => (Err e, no_log, st)
    | (Ok wave_data, st) =>
      match batch_upload_chunks calculate_price get_market_price c config net quoting putting (orders 0%nat) wave_data with
      | (Err e, log) => (Err e, log, st)
      | (Ok addresses, log) =>
          let '(r, log', st) :=
            single_waves (fun k => orders (S k)) spill waves (total_stored + length addresses) st in
          (r, join_logs log log', st)
      end
    end
  end.

Definition upload_waves_single (orders : nat -> nat -> (nat -> nat) * (nat -> nat)) (spill : ChunkSpill) (st : disk)
    : result DataError.t nat * upload_log * disk := single_waves orders spill (waves spill) 0 st.

Fixpoint merkle_waves (put_orders : nat -> nat -> nat) (spill : ChunkSpill) (batch_result : MerkleBatchPaymentResult)
    (waves : list (list XorName)) (total_stored : nat) : fio nat :=
  match waves with
  | [] => mret total_stored
  | wave_addrs :: waves =>
    wave ← read_wave spill wave_addrs;
    stored ← st_lift (merkle_upload_chunks net config putting (put_orders 0%nat) wave.*1 wave.*2 batch_result);
    merkle_waves (fun k => put_orders (S k)) spill batch_result waves (total_stored + stored)
  end.

Definition upload_waves_merkle (put_orders : nat -> nat -> nat) (spill : ChunkSpill)
    (batch_result : MerkleBatchPaymentResult) : fio nat :=
  merkle_waves put_orders spill batch_result (waves spill) 0.

(** What the environment gives to an upload: the reader, the space left, where the
    spill goes, the completion orders and the merkle payments. *)
Record upload_env := mkUploadEnv {
  rd : reader;
  available : result string Z;
  temp_dir : path;
  unique : string;
  wave_orders : nat -> nat -> (nat -> nat) * (nat -> nat);
  merkle_orders : nat -> nat -> nat;
  payments_env : nat -> payment_env
}.

(** The upload of the spilled chunks: Phase 2. *)
Definition upload_spill (env : upload_env) (mode : PaymentMode.t) (spill : ChunkSpill) (data_map : DataMap) (st : disk)
    : result DataError.t FileUploadResult * upload_effects * disk :=
  let single (payments : list merkle_payment) st :=
    let '(r, log, st) := upload_waves_single (wave_orders env) spill st in
    ((fun stored => mkFileUpload data_map stored PaymentMode.Single) <$> r, (log, payments), st) in
  if should_use_merkle (length (spilled spill)) mode then
    match pay_for_merkle_batch c net (payments_env env) (spilled spill) DATA_TYPE_CHUNK (avg_chunk_size spill) with
    | (Ok batch_result, payments) =>
        let '(r, st) := upload_waves_merkle (merkle_orders env) spill batch_result st in
        ((fun stored => mkFileUpload data_map stored PaymentMode.Merkle) <$> r, (no_log, payments), st)
    | (Err e, payments) =>
        match e, mode with
        | DataError.InsufficientPeers _, PaymentMode.Auto => single payments st
        | _, _ => (Err e, (no_log, payments), st)
        end
    end
  else single [] st.

(** The size of the file and the space for its spill, before anything else. *)
Definition preflight (env : upload_env) (p : path) : fio unit :=
  file_size ← fs (fs_len p);
  st_lift (check_disk_space_for_spill (available env) file_size).

(** The spill is removed when the function returns, if removing it works. *)
Definition file_upload_with_mode (fuel : nat) (env : upload_env) (p : path) (mode : PaymentMode.t) (st : disk)
    : option (result DataError.t FileUploadResult * upload_effects * disk) :=
  let failed e st := Some (Err e, (no_log, []), st) in
  match preflight env p st with
  | (Err e, st) => failed e st
  | (Ok _, st) =>
    match encrypt_file_to_spill fuel (rd env) (temp_dir env) (unique env) p st with
    | None => None
    | Some (Err e, st) => failed e st
    | Some (Ok (spill, data_map), st) =>
        let '(r, effects, st) := upload_spill env mode spill data_map st in
        Some (r, effects, drop_dir (dir spill) st)
    end
  end.

Definition file_upload (fuel : nat) (env : upload_env) (p : path) (st : disk) :=
  file_upload_with_mode fuel env p PaymentMode.Auto st.

(** The loop over the spilled chunks of [file_prepare_upload]. *)
Fixpoint prepare_spilled (spill : ChunkSpill) (addresses : list XorName) (prepared : list PreparedChunk)
    : fio (list PreparedChunk) :=
  match addresses with
  | [] => mret prepared
  | addr :: addresses =>
    content ← read_chunk spill addr;
    chunk ← st_lift (prepare_chunk_payment calculate_price get_market_price c config net quoting content);
    prepare_spilled spill addresses (match chunk with Some chunk => prepared ++ [chunk] | None => prepared end)
  end.

Definition file_prepare_upload (fuel : nat) (env : upload_env) (p : path) (st : disk)
    : option (result DataError.t PreparedUpload * disk) :=
  match preflight env p st with
  | (Err e, st) => Some (Err e, st)
  | (Ok _, st) =>
    match encrypt_file_to_spill fuel (rd env) (temp_dir env) (unique env) p st with
    | None => None
    | Some (Err e, st) => Some (Err e, st)
    | Some (Ok (spill, data_map), st) =>
        let '(r, st) := prepare_spilled spill (spilled spill) [] st in
        Some ((fun prepared => mkPreparedUpload data_map prepared (from_prepared_chunks prepared)) <$> r,
              drop_dir (dir spill) st)
    end
  end.

(** Phase 2 of an upload whose payment another signer made. *)
Definition finalize_upload (order : nat -> nat) (prepared : PreparedUpload) (tx_hash_map : gmap bytes bytes)
    : result DataError.t FileUploadResult :=
  paid_chunks ← finalize_batch_payment (prepared_chunks prepared) tx_hash_map;
  stored ← store_paid_chunks config net putting order paid_chunks;
  Ok (mkFileUpload (pu_data_map prepared) (length stored) PaymentMode.Single).

End Upload.

(** ** Downloading *)

Section Download.
Context `{Config, Blake3, Aead, Brotli, !Codec bincode VersionedDataMap}.
Context `{!Codec postcard ChunkMessage, !Lru XorName bytes}.

(** The fetches of a batch, all at once; the results in the order in which they
    complete, up to the first failure. *)
Fixpoint unordered_gets (fuel : nat) (net : network) (sched : nat -> nat) (c : Client)
    (futures : list (Z * (XorName * getting))) (results : list (Z * bytes))
    : option (result Error (list (Z * bytes)) * Client) :=
  match futures with
  | [] => Some (Ok results, c)
  | _ =>
    match fuel with
    | O => None
    | S fuel =>
      match next_completed (sched 0%nat) futures with
      | None => None
      | Some ((idx, (a, g)), others) =>
        let '(g, c) := get_step net a c g in
        match g with
        | Got (Err _) => Some (Err (Generic "Network fetch failed for {addr_hex}: {e}"), c)
        | Got (Ok None) => Some (Err (Generic "Chunk not found: {addr_hex}"), c)
        | Got (Ok (Some chunk)) =>
            unordered_gets fuel net (fun k => sched (S k)) c others (results ++ [(idx, content chunk)])
        | _ => unordered_gets fuel net (fun k => sched (S k)) c ((idx, (a, g)) :: others) results
        end
      end
    end
  end.

(** What a batch finds: the client at the time it is asked for and the schedule of
    its fetches.  A batch is asked for at most once in a download. *)
Record batch_env := mkBatchEnv {
  client_at : list (Z * XorName) -> Client;
  sched_of : list (Z * XorName) -> nat -> nat
}.

(** The callback of [streaming_decrypt]; the fuel is one for each step of each
    fetch. *)
Definition fetch_batch (net : network) (be : batch_env) (batch : list (Z * XorName)) : result Error (list (Z * bytes)) :=
  let c := client_at be batch in
  match unordered_gets (length batch * get_steps (config c)) net (sched_of be batch) c
          ((fun q => (q.1, (q.2, Looking))) <$> batch) [] with
  | Some (r, _) => r
  | None => Err (Generic "out of fuel")
  end.

(** The loop that writes the decrypted chunks. *)
Fixpoint write_stream (fuel : nat) (B : Z) (get : list (Z * XorName) -> result Error (list (Z * bytes)))
    (tmp_path : path) (s : DecryptionStream) (bytes_written : Z) (st : disk)
    : option (result DataError.t Z * disk) :=
  match fuel with
  | O => None
  | S fuel =>
    let '(item, s) := next_chunk B get s in
    match item with
    | None => Some (Ok bytes_written, st)
    | Some (Err _) => Some (Err (DataError.Encryption "decryption failed: {e}"), st)
    | Some (Ok chunk_bytes) =>
      match fs (fs_append tmp_path chunk_bytes) st with
      | (Err e, st) => Some (Err e, st)
      | (Ok _, st) => write_stream fuel B get tmp_path s (wadd bytes_written (lenZ chunk_bytes)) st
      end
    end
  end.

(** [output.parent()] joined with a fresh name. *)
Definition file_download (fuel : nat) (B : Z) (net : network) (be : batch_env) (unique : string)
    (data_map : DataMap) (parent : path) (name : string) (st : disk) : option (result DataError.t Z * disk) :=
  let output := parent ++ [name] in
  let tmp_path := parent ++ [unique] in
  let get := fetch_batch net be in
  match streaming_decrypt get data_map with
  | Err _ => Some (Err (DataError.Encryption "streaming decrypt failed: {e}"), st)
  | Ok s =>
    let written :=
      match fs (fs_write tmp_path []) st with
      | (Err e, st) => Some (Err e, st)
      | (Ok _, st) =>
        match write_stream fuel B get tmp_path s 0 st with
        | Some (Ok bytes_written, st) => let '(r, st) := fs fs_other st in Some ((fun _ => bytes_written) <$> r, st)
        | other => other
        end
      end in
    match written with
    | None => None
    | Some (write_result, st) =>
      let '(r, st) :=
        match write_result with
        | Ok bytes_written => let '(r, st) := fs (fs_rename tmp_path output) st in ((fun _ => bytes_written) <$> r, st)
        | Err e => (Err e, st)
        end in
      match r with
      | Ok n => Some (Ok n, st)
      | Err e => Some (Err e, (io_ignore (fs_remove_file tmp_path) st).2)
      end
    end
  end.

End Download.
(** ** The disk *)

Definition agree_outside (P : path -> Prop) (st st' : disk) : Prop :=
  forall q, ~ P q -> files st' !! q = files st !! q.

#[export] Instance agree_outside_preorder P : PreOrder (agree_outside P).
Proof. split; [by intros st q|]. intros x y z H1 H2 q Hq. rewrite (H2 q Hq). by apply H1. Qed.

Lemma agree_same P st st' : files st' = files st -> agree_outside P st st'.
Proof. intros E q _. by rewrite E. Qed.


Lemma agree_drop_dir dir st : agree_outside (under dir) st (drop_dir dir st).
Proof. intros q Hq. by apply lookup_drop_dir. Qed.

(** When the disk works, it goes on working. *)
Definition calm {A} (m : disk -> A * disk) : Prop := forall st, faults st = [] -> faults (m st).2 = [].

Lemma calm_call {A} (act : gmap path file -> result NodeError A * gmap path file) : calm (io_call act).
Proof. intros st Hst. unfold io_call, next_fault. rewrite Hst. by destruct (act (files st)). Qed.


Lemma calm_as {A} e (m : io A) : calm m -> calm (fs_as e m).
Proof. intros Hm st Hst. specialize (Hm st Hst). unfold fs_as. by destruct (m st). Qed.

Lemma calm_bind {A B} (m : fio A) (k : A -> fio B) : calm m -> (forall a, calm (k a)) -> calm (x ← m; k x).
Proof.
  intros Hm Hk st Hst. unfold mbind, stres_bind. specialize (Hm st Hst). destruct (m st) as [[a|e] st']; [by apply Hk | done].
Qed.

Lemma calm_ret {A} (a : A) : calm (mret (M := fio) a).
Proof. by intros st. Qed.


Lemma calm_map {A B} (f : A -> fio B) l : (forall a, calm (f a)) -> calm (st_map f l).
Proof.
  intros Hf. induction l as [|a l IH]; [apply calm_ret|]. cbn [st_map]. apply calm_bind; [done|]. intros b.
  apply calm_bind; [done|]. intros bs. apply calm_ret.
Qed.

Lemma fs_as_spec {A} e (m : io A) st Q :
  wp m st Q -> exists r st', fs_as e m st = (map_err (fun _ => e) r, st') /\ Q r st'.
Proof. unfold wp, fs_as. destruct (m st) as [r st']. eauto. Qed.


(** ** The spill *)

Section Spilling.
Context `{Blake3}.

Record spill_wf (s : ChunkSpill) (st : disk) : Prop := {
  wf_nodup : NoDup (spilled s);
  wf_seen : forall a, a ∈ seen s <-> a ∈ spilled s;
  wf_files : forall a, a ∈ spilled s -> exists f, files st !! spill_path s a = Some f /\ compute_address (data f) = a
}.



Lemma spill_wf_same s st st' : files st' = files st -> spill_wf s st -> spill_wf s st'.
Proof. intros E [H1 H2 H3]. split; [done..|]. intros a Ha. rewrite E. by apply H3. Qed.




(** Reading spilled chunks back. *)
Lemma read_chunks_spec s addrs : forall st, spill_wf s st -> addrs ⊆ spilled s ->
  let '(r, st') := st_map (read_chunk s) addrs st in
  files st' = files st /\ forall contents, r = Ok contents -> compute_address <$> contents = addrs.
Proof.
  induction addrs as [|a addrs IH]; intros st Hwf Hsub; cbn [st_map].
  { split; [done|]. by intros contents [= <-]. }
  destruct (wf_files s st Hwf a) as (f & Hf & Ha); [apply Hsub; left|].
  unfold mbind, stres_bind, read_chunk at 1.
  destruct (fs_as_spec (DataError.Io "reading spilled chunk {}: {e}") (fs_read (spill_path s a)) st
    (fun r st' => files st' = files st /\ forall b, r = Ok b -> b = data f)) as (r & st1 & -> & Hs & Hr).
  { apply wp_read; [done|]. intros st' f' E Hf'. split; [done|]. intros b [= <-]. congruence. }
  destruct r as [b|e]; cbn [map_err]; [|split; [done|discriminate]]. specialize (Hr b eq_refl) as ->.
  specialize (IH st1 (spill_wf_same _ _ _ Hs Hwf)). destruct (st_map _ addrs st1) as [r st2].
  destruct IH as [Hs2 Hr2]; [intros x Hx; apply Hsub; by right|].
  destruct r as [bs|e]; cbn; [|split; [congruence|discriminate]]. split; [congruence|].
  intros contents [= <-]. rewrite fmap_cons, Ha. f_equal. by apply Hr2.
Qed.

Lemma calm_read_chunks s addrs : calm (st_map (read_chunk s) addrs).
Proof. apply calm_map. intros a. apply calm_as, calm_call. Qed.


End Spilling.

(** ** Encrypting to the spill *)

Section Encrypting.
Context `{Config, Blake3, Aead, Brotli, !Codec bincode VersionedDataMap}.













Context (HM : 1 <= MAX_CHUNK_SIZE).
Context (fuel : nat) (rd : reader) (temp_dir : path) (unique : string) (p : path) (st : disk).
Abbreviation spill_dir := (temp_dir ++ [unique]).



End Encrypting.

(** ** Uploading the spill *)

Section Uploading.
Context `{Config, Blake3, Aead, Brotli, !Codec bincode VersionedDataMap}.
Context `{Evm, Dsa, !MerkleTrees, !Codec postcard ChunkMessage}.
Context `{!Codec rmp_serde PaymentQuote, !Codec rmp_serde PaymentProof}.
Context `{!Codec rmp_serde MerklePaymentCandidateNode, !Codec rmp_serde MerklePaymentProof}.
Context (price : QuotingMetrics -> Z) {EvmNetwork : Type}.
Context (market : EvmNetwork -> list QuotingMetrics -> result string (list Z)).
Context (c : Payer (EvmNetwork := EvmNetwork)) (config : ClientConfig) (net : network).
Context (quoting putting : runs) (Hconc : (1 <= chunk_concurrency config)%nat).

Abbreviation done := (chunk_done price market c config net quoting putting).

Lemma chunk_done_mono log log' u : paid log ⊆ paid log' -> done log u -> done log' u.
Proof. intros Hsub [Hn|(pc & Hpc & Hrest)]; [by left|]. right. exists pc. split; [by apply Hsub | exact Hrest]. Qed.


(** An address that the network holds now, by the account of the batch. *)
Definition address_done (log : upload_log) (a : XorName) : Prop := exists u, compute_address u = a /\ done log u.

(** Accounts of uploads of different addresses, one after the other. *)
Lemma account_mono log addresses addresses' ok :
  addresses ⊆ addresses' -> account_ok log addresses ok -> account_ok log addresses' ok.
Proof. intros Hs (Hp & Hn & Ha & Hl). split; [done|]. split; [done|]. split; [by transitivity addresses | done]. Qed.

Lemma account_join log log' addresses addresses' ok :
  (forall a, a ∈ addresses -> a ∉ addresses') -> account_ok log addresses true -> account_ok log' addresses' ok ->
  account_ok (join_logs log log') (addresses ++ addresses') ok.
Proof.
  intros Hdisj (Hp & Hn & Ha & lost & Hasked & _ & Hl) (Hp' & Hn' & Ha' & lost' & Hasked' & Hlast' & Hl').
  rewrite (Hl eq_refl), app_nil_r in Hasked.
  assert (asked (wallet_calls (join_logs log log')) = asked (wallet_calls log) ++ asked (wallet_calls log')) as E
    by apply bind_app.
  split; [cbn [join_logs paid put_to_peers]; by rewrite Hp, Hp', fmap_app|]. rewrite E. split; [|split].
  - apply NoDup_app. split; [done|]. split; [|done]. intros x Hx Hx'. exact (Hdisj x (Ha x Hx) (Ha' x Hx')).
  - intros x [Hx|Hx]%elem_of_app; apply elem_of_app; auto.
  - exists lost'. cbn [join_logs paid wallet_calls]. rewrite Hasked, Hasked', fmap_app, app_assoc. split; [done|].
    split; [|exact Hl']. destruct Hlast' as [Hlt|Hlt]; [by left | right]. rewrite last_app.
    by destruct (last (wallet_calls log')).
Qed.

(** The waves of a spill pay for no address twice; when they succeed every chunk is
    done. *)
Lemma single_waves_spec spill orders waves : forall total st,
  spill_wf spill st -> concat waves ⊆ spilled spill -> NoDup (concat waves) ->
  let '(r, log, st') := single_waves price market c config net quoting putting orders spill waves total st in
  files st' = files st /\ (faults st = [] -> faults st' = []) /\ account_ok log (concat waves) (is_ok r) /\
  forall stored, r = Ok stored -> stored = (total + length (concat waves))%nat /\
    forall a, a ∈ concat waves -> address_done log a.
Proof.
  revert orders. induction waves as [|w waves IH]; intros orders total st Hwf Hsub Hnd; cbn [single_waves concat].
  { split; [reflexivity|]. split; [done|]. split; [apply account_nil|].
    intros stored [= <-]. cbn. split; [lia|]. intros a Ha. by apply not_elem_of_nil in Ha. }
  cbn [concat] in Hsub, Hnd. apply NoDup_app in Hnd as (Hnd1 & Hdisj & Hnd2).
  pose proof (read_chunks_spec spill w st Hwf ltac:(intros x Hx; apply Hsub, elem_of_app; by left)) as Hr.
  pose proof (calm_read_chunks spill w st) as Hcalm.
  destruct (st_map (read_chunk spill) w st) as [[contents|e] st1]; destruct Hr as [Hs Hc].
  2: { split; [exact Hs|]. split; [exact Hcalm|]. split; [apply account_nil | discriminate]. }
  specialize (Hc contents eq_refl).
  destruct (batch_upload_chunks price market c config net quoting putting (orders 0%nat) contents) as [r log] eqn:Eb.
  apply batch_upload_spec in Eb as (Hacc & sent & Hpays & Hsent & Hok); [|exact Hconc].
  rewrite Hc in Hacc. destruct r as [addrs|e].
  2: { split; [exact Hs|]. split; [exact Hcalm|]. split; [|discriminate].
       eapply account_mono; [|exact Hacc]. intros x Hx. apply elem_of_app. by left. }
  destruct (Hok addrs eq_refl) as [Hperm Hdone].
  specialize (IH (fun k => orders (S k)) (total + length addrs)%nat st1 (spill_wf_same _ _ _ Hs Hwf)
    ltac:(intros x Hx; apply Hsub, elem_of_app; by right) Hnd2).
  destruct (single_waves _ _ _ _ _ _ _ _ _ _ _ _) as [[r log'] st2].
  destruct IH as (Hs2 & Hcalm2 & Hacc2 & Hok2). split; [congruence|]. split; [by auto|].
  split; [by apply account_join|]. intros stored Hst. destruct (Hok2 stored Hst) as [-> Hd]. split.
  - apply Permutation_length in Hperm. rewrite length_fmap in Hperm. apply (f_equal length) in Hc.
    rewrite length_fmap in Hc. rewrite length_app. lia.
  - intros a [Ha|Ha]%elem_of_app.
    + rewrite <- Hc in Ha. apply list_elem_of_fmap in Ha as (b & -> & Hb). destruct (Hdone b Hb) as (u & _ & Hu & Hd').
      exists u. split; [exact Hu|]. eapply chunk_done_mono; [|exact Hd'].
      intros x Hx. apply elem_of_app. by left.
    + destruct (Hd a Ha) as (u & Hu & Hd'). exists u. split; [exact Hu|].
      eapply chunk_done_mono; [|exact Hd']. intros x Hx. apply elem_of_app. by right.
Qed.







Lemma waves_concat spill : concat (waves spill) = spilled spill.
Proof. apply chunks_of_concat; unfold UPLOAD_WAVE_SIZE; lia. Qed.



(** When the merkle way fails for want of peers after some of its slices were paid
    for, nothing comes of these payments: the upload goes on as if there were none, so
    every chunk of a successful one is held by the network, or paid for once more. *)
Lemma fallback_pays_again env spill dm st e payments : spill_wf spill st ->
  should_use_merkle (length (spilled spill)) PaymentMode.Auto = true ->
  pay_for_merkle_batch c net (payments_env env) (spilled spill) DATA_TYPE_CHUNK (avg_chunk_size spill)
    = (Err (DataError.InsufficientPeers e), payments) ->
  let '(r, effects, _) := upload_spill price market c config net quoting putting env PaymentMode.Auto spill dm st in
  effects.2 = payments /\ forall res, r = Ok res -> forall a, a ∈ spilled spill -> address_done effects.1 a.
Proof.
  intros Hwf Hm Hp. unfold upload_spill, upload_waves_single. rewrite Hm, Hp.
  pose proof (single_waves_spec spill (wave_orders env) (waves spill) 0 st Hwf
    ltac:(by rewrite waves_concat) ltac:(rewrite waves_concat; apply Hwf)) as Hs. rewrite waves_concat in Hs.
  destruct (single_waves _ _ _ _ _ _ _ _ _ _ _ _) as [[r log] st1]. destruct Hs as (_ & _ & _ & Hok).
  split; [reflexivity|]. intros res Hres. destruct r as [stored|]; [|discriminate]. by apply (Hok stored).
Qed.


End Uploading.

(** ** Fetching a batch *)

Section Fetching.
Context `{Blake3, !Codec postcard ChunkMessage, !Lru XorName bytes}.
Context (cfg : ClientConfig) (net : network).
Context (I : Client -> Prop) (Q : XorName -> getting -> Prop).
Context (I_config : forall c, I c -> config c = cfg).
Context (Q_step : forall a c g, I c -> Q a g -> pending (a, g) = true ->
  I (get_step net a c g).2 /\ Q a (get_step net a c g).1).






End Fetching.

(** ** Writing what a stream yields *)

Section Writing.
Context `{Config, Blake3, Aead, Brotli, !Codec bincode VersionedDataMap}.
Context (B : Z) (HB : 1 <= B) (get : list (Z * XorName) -> result Error (list (Z * bytes))).
Context (tmp : path).

Lemma wadd_assoc_r a b d : wadd (wadd a b) d = wadd a (b + d).
Proof. unfold wadd. rewrite Zplus_mod_idemp_l. f_equal. lia. Qed.

Definition put_at (m : gmap path file) (b : bytes) : Prop := exists f, m !! tmp = Some f /\ data f = b.

Lemma fs_append_spec b st :
  exists r st', fs (fs_append tmp b) st = (r, st') /\ agree_outside (eq tmp) st st' /\
    (is_ok r = true -> forall old, put_at (files st) old -> put_at (files st') (old ++ b)) /\
    (faults st = [] -> is_ok r = true /\ faults st' = []).
Proof.
  unfold fs, fs_as, fs_append. destruct (next_fault st) as [f st1] eqn:Ef. apply next_fault_files in Ef as Hf.
  assert (forall b, agree_outside (eq tmp) st (set_files st1 (put_data (files st1) tmp b))) as Hout.
  { intros b' q Hq. cbn. rewrite Hf. apply put_data_ne. by intros ->. }
  unfold next_fault in Ef. destruct f; eexists _, _; (split; [reflexivity|]).
  - split; [apply Hout|]. split.
    + intros _ old (f0 & Hf0 & <-). rewrite Hf, Hf0. apply put_data_same.
    + intros Hn. rewrite Hn in Ef. injection Ef as <-. by split.
  - split; [by apply agree_same|]. split; [discriminate|]. intros Hn. by rewrite Hn in Ef.
  - split; [apply Hout|]. split; [discriminate|]. intros Hn. by rewrite Hn in Ef.
Qed.

(** The loop writes what the stream comes to, or stops at a failure; without
    failures of the disk it fails only where the stream does. *)
Lemma write_stream_spec fuel : forall s n old st, put_at (files st) old -> 0 <= n < 2 ^ 64 ->
  stream_started s -> (left s < fuel)%nat ->
  exists r st', write_stream fuel B get tmp s n st = Some (r, st') /\ agree_outside (eq tmp) st st' /\
    (forall m, r = Ok m -> exists b, stream_contents B get fuel s = Some (Ok b) /\ m = wadd n (lenZ b) /\
       put_at (files st') (old ++ b)) /\
    (faults st = [] -> faults st' = [] /\ forall b, stream_contents B get fuel s = Some (Ok b) -> is_ok r = true).
Proof.
  induction fuel as [|fuel IH]; intros s n old st Hold Hn Hs Hl; [lia|]. cbn [write_stream stream_contents].
  destruct (next_chunk B get s) as [[[chunk|e]|] s1] eqn:En.
  - destruct (next_chunk_left B HB get _ _ _ Hs En) as [Hs1 Hlt].
    destruct (fs_append_spec chunk st) as (r & st1 & -> & Hout & Hput & Hok). destruct r as [u|e].
    + specialize (Hput eq_refl old Hold).
      destruct (IH s1 (wadd n (lenZ chunk)) (old ++ chunk) st1 Hput) as (r & st2 & -> & Hout2 & Hres & Hf).
      { apply Z.mod_pos_bound. reflexivity. } { exact Hs1. } { lia. }
      exists r, st2. split; [reflexivity|]. split; [by etransitivity|]. split.
      * intros m Hm. destruct (Hres m Hm) as (b & -> & -> & Hb). exists (chunk ++ b). split; [reflexivity|].
        rewrite wadd_assoc_r, lenZ_app. split; [reflexivity|]. by rewrite app_assoc.
      * intros Hnf. destruct (Hok Hnf) as [_ Hnf1]. destruct (Hf Hnf1) as [Hnf2 Hr]. split; [exact Hnf2|].
        intros b. destruct (stream_contents B get fuel s1) as [[b'|e]|]; [|discriminate..]. intros _. by apply (Hr b').
    + exists (Err e), st1. split; [reflexivity|]. split; [exact Hout|]. split; [discriminate|].
      intros Hnf. by destruct (Hok Hnf).
  - eexists _, st. split; [reflexivity|]. split; [reflexivity|]. split; [discriminate|]. by intros Hnf.
  - exists (Ok n), st. split; [reflexivity|]. split; [reflexivity|]. split.
    + intros m [= <-]. exists []. split; [reflexivity|]. rewrite app_nil_r. split; [|exact Hold].
      unfold wadd. change (lenZ (@nil byte)) with 0. rewrite Z.add_0_r, Z.mod_small by (unfold usize_modulus in *; lia). reflexivity.
    + intros Hnf. split; [exact Hnf|]. done.
Qed.

End Writing.

Section Downloading.
Context `{Config, Blake3, Aead, Brotli, !Codec bincode VersionedDataMap}.
Context `{!Codec postcard ChunkMessage, !Lru XorName bytes}.
Context (B : Z) (HB : 1 <= B) (net : network) (be : batch_env) (dm : DataMap).
Context (parent : path) (unique name : string) (Hname : unique <> name).

Abbreviation output := (parent ++ [name]).
Abbreviation tmp_path := (parent ++ [unique]).

Lemma tmp_ne_output : tmp_path <> output.
Proof. by intros [_ ?]%app_inj_tail_iff. Qed.

(** The stream that a download reads, drained. *)
Definition download_contents (fuel : nat) : option (result Error bytes) :=
  match streaming_decrypt (fetch_batch net be) dm with
  | Ok s => stream_contents B (fetch_batch net be) fuel s
  | Err e => Some (Err e)
  end.

Definition download_fuel : nat :=
  match streaming_decrypt (fetch_batch net be) dm with Ok s => S (length (StreamDec.chunk_infos s)) | Err _ => 0 end.

(** The part up to the temporary file. *)
Lemma write_tmp_spec fuel s st : streaming_decrypt (fetch_batch net be) dm = Ok s -> (left s < fuel)%nat ->
  stream_started s ->
  exists r st', (match fs (fs_write tmp_path []) st with
      | (Err e, st) => Some (Err e, st)
      | (Ok _, st) =>
        match write_stream fuel B (fetch_batch net be) tmp_path s 0 st with
        | Some (Ok bytes_written, st) => let '(r, st) := fs fs_other st in Some ((fun _ => bytes_written) <$> r, st)
        | other => other
        end
      end) = Some (r, st') /\ agree_outside (eq tmp_path) st st' /\
    (forall m, r = Ok m -> exists b, stream_contents B (fetch_batch net be) fuel s = Some (Ok b) /\
       m = wadd 0 (lenZ b) /\ put_at tmp_path (files st') b) /\
    (faults st = [] -> faults st' = [] /\
       forall b, stream_contents B (fetch_batch net be) fuel s = Some (Ok b) -> is_ok r = true).
Proof.
  intros Es Hl Hs. unfold fs at 1, fs_as, fs_write.
  assert (next_fault st = (Works, st) \/ faults st <> []) as Hnf
    by (unfold next_fault; destruct (faults st); [by left | by right]).
  destruct (next_fault st) as [f st1] eqn:Ef. apply next_fault_files in Ef as Hf.
  assert (forall b, agree_outside (eq tmp_path) st (set_files st1 (put_data (files st1) tmp_path b))) as Hout.
  { intros b' q Hq. cbn. rewrite Hf. apply put_data_ne. by intros ->. }
  assert (agree_outside (eq tmp_path) st st1) as Hst1 by (by apply agree_same).
  destruct f; cbn [map_err];
    [|eexists _, _; split; [reflexivity|]; split; [first [exact Hst1 | apply Hout]|];
      split; [discriminate|]; intros Hn; destruct Hnf as [Hnf|Hnf]; [discriminate Hnf | contradiction]..].
  destruct (write_stream_spec B HB (fetch_batch net be) tmp_path fuel s 0 [] (set_files st1 (put_data (files st1) tmp_path [])))
    as (r & st2 & -> & Hout2 & Hres & Hw); [apply put_data_same | lia | exact Hs | exact Hl |].
  assert (agree_outside (eq tmp_path) st st2) as Hout3 by (etransitivity; [apply Hout | exact Hout2]).
  assert (faults st = [] -> faults st2 = [] /\
    forall b, stream_contents B (fetch_batch net be) fuel s = Some (Ok b) -> is_ok r = true) as Hw2.
  { intros Hn. apply Hw. cbn. destruct Hnf as [Hnf|Hnf]; [injection Hnf as ->; exact Hn | contradiction]. }
  destruct r as [m|e]; [|eexists _, st2; split; [reflexivity|]; split; [exact Hout3|]; split; [discriminate | exact Hw2]].
  unfold fs, fs_as, fs_other, io_call. destruct (next_fault st2) as [f st3] eqn:Ef2.
  apply next_fault_files in Ef2 as Hf2. destruct f; cbn [map_err];
    (eexists _, _; split; [reflexivity|]; split; [etransitivity; [exact Hout3 | by apply agree_same]|]; split;
     [try discriminate|]).
  - intros m' [= <-]. destruct (Hres m eq_refl) as (b & Hb & -> & Hp). exists b. cbn. rewrite Hf2. auto.
  - intros Hn. destruct (Hw2 Hn) as [Hn2 _]. unfold next_fault in Ef2. rewrite Hn2 in Ef2. injection Ef2 as <-. auto.
  - intros Hn. destruct (Hw2 Hn) as [Hn2 _]. unfold next_fault in Ef2. by rewrite Hn2 in Ef2.
  - intros Hn. destruct (Hw2 Hn) as [Hn2 _]. unfold next_fault in Ef2. by rewrite Hn2 in Ef2.
Qed.

(** The removal of the temporary file after a failure. *)
Lemma cleanup_spec st st2 : agree_outside (eq tmp_path) st st2 ->
  let st' := (io_ignore (fs_remove_file tmp_path) st2).2 in
  agree_outside (eq tmp_path) st st' /\ (faults st2 = [] -> files st !! tmp_path = None -> files st' = files st).
Proof.
  intros Ha. unfold io_ignore, mbind, io_bind, io_try.
  pose proof (wp_remove tmp_path st2 (fun _ st' => agree_outside (eq tmp_path) st st')) as Hrm. unfold wp in Hrm.
  destruct (fs_remove_file tmp_path st2) as [r2 st3] eqn:Erm.
  assert (agree_outside (eq tmp_path) st st3) as Ha3.
  { apply Hrm; intros st' Hst'; (transitivity st2; [exact Ha|]); [by apply agree_same|].
    intros q Hq. rewrite Hst'. by apply lookup_delete_ne. }
  cbn. split; [exact Ha3|]. intros Hn Hnone. apply map_eq. intros q.
  destruct (decide (q = tmp_path)) as [->|Hq]; [|apply Ha3; congruence].
  rewrite Hnone. revert Erm. unfold fs_remove_file, io_call, next_fault. rewrite Hn.
  destruct (files st2 !! tmp_path) as [f|] eqn:Ef; intros [= _ <-]; cbn; [apply lookup_delete_eq | exact Ef].
Qed.

(** The whole of a download. *)
Lemma file_download_spec fuel st : (download_fuel <= fuel)%nat ->
  exists r st', file_download fuel B net be unique dm parent name st = Some (r, st') /\
    (forall q, q <> tmp_path -> q <> output -> files st' !! q = files st !! q) /\
    (forall n, r = Ok n -> exists b, download_contents fuel = Some (Ok b) /\ n = lenZ b mod 2 ^ 64 /\
       files st' !! tmp_path = None /\ exists f, files st' !! output = Some f /\ data f = b) /\
    (is_ok r = false -> files st' !! output = files st !! output) /\
    (faults st = [] -> files st !! tmp_path = None ->
       (forall b, download_contents fuel = Some (Ok b) -> is_ok r = true) /\ (is_ok r = false -> files st' = files st)).
Proof.
  unfold download_fuel, download_contents, file_download. pose proof tmp_ne_output as Hne.
  destruct (streaming_decrypt (fetch_batch net be) dm) as [s|e] eqn:Es.
  2: { intros _. eexists _, st. split; [reflexivity|]. split; [done|]. split; [discriminate|]. split; [done|]. by split. }
  intros Hl. destruct (streaming_decrypt_started _ _ _ Es) as [Hs Hleft].
  destruct (write_tmp_spec fuel s st Es ltac:(lia) Hs) as (r & st1 & E & Hout & Hres & Hw). rewrite E. clear E.
  destruct r as [m|e].
  2: { destruct (cleanup_spec st st1 Hout) as [A1 A2]. eexists _, _. split; [reflexivity|].
       split; [intros q Hq _; apply A1; congruence|]. split; [discriminate|]. split; [intros _; apply A1; congruence|].
       intros Hn Hnone. destruct (Hw Hn) as [Hn1 Hb]. split; [intros b Eb; by specialize (Hb b Eb) | intros _; by apply A2]. }
  destruct (Hres m eq_refl) as (b & Hb & -> & f & Hf & Hd).
  unfold fs, fs_as, fs_rename, io_call. destruct (next_fault st1) as [fl st2] eqn:Ef.
  apply next_fault_files in Ef as Hf2.
  assert (fl = Works \/ faults st <> []) as Hnf.
  { destruct (faults st) as [|x l] eqn:En; [left | by right]. destruct (Hw eq_refl) as [Hn1 _].
    unfold next_fault in Ef. rewrite Hn1 in Ef. by injection Ef as <-. }
  destruct fl; [rewrite Hf2, Hf|..]; cbn [map_err].
  2, 3: destruct Hnf as [Hnf|Hnf]; [discriminate|];
    destruct (cleanup_spec st st2 ltac:(etransitivity; [exact Hout | by apply agree_same])) as [A1 A2];
    eexists _, _; (split; [reflexivity|]); (split; [intros q Hq _; apply A1; congruence|]);
    (split; [discriminate|]); (split; [intros _; apply A1; congruence|]); done.
  eexists _, _. split; [reflexivity|]. cbn [files set_files]. split; [|split; [|split; [discriminate|]]].
  - intros q Hq1 Hq2. rewrite lookup_delete_ne, lookup_insert_ne by congruence. apply Hout. congruence.
  - intros n [= <-]. exists b. split; [exact Hb|]. split; [unfold wadd; by rewrite Z.add_0_l|].
    split; [apply lookup_delete_eq|]. exists f. rewrite lookup_delete_ne, lookup_insert_eq by congruence. auto.
  - intros _ _. split; [done | discriminate].
Qed.

End Downloading.

(** ** Downloading a file *)



Section Batches.
Context `{Config, Blake3, !Codec postcard ChunkMessage, !Lru XorName bytes, !LruLaws XorName bytes}.
Context (data : bytes) (cs : list bytes) (Hl : lenZ cs = get_num_chunks (lenZ data)).
Context (net : network) (be : batch_env).

Abbreviation n := (get_num_chunks (lenZ data)).





End Batches.

Section Files.
Context `{Config, Blake3, Aead, Brotli, !Codec bincode VersionedDataMap}.
Context `{!Blake3Laws, !AeadLaws, !BrotliLaws, !CodecLaws bincode VersionedDataMap, !DataMapSize}.
Context `{!Codec postcard ChunkMessage, !Lru XorName bytes, !LruLaws XorName bytes}.
Context (HM : 1 <= MAX_CHUNK_SIZE) (data : bytes) (dm : DataMap) (cs : list bytes).
Context (He : encrypt data = Some (Ok (dm, cs))).
Context (Hshape : get_num_chunks (lenZ data) <= 3 \/
  one_level (get_num_chunks (lenZ data)) /\ NoDup (content_hash <$> cs)).
Context (net : network) (be : batch_env).

Abbreviation get := (fetch_batch net be).





End Files.

(** ** Properties *)

(** C35: A download appears at its output in one step or not at all.  Whatever the
    network and the disk do, [file_download] ends; it touches no file but the
    output and its temporary file; when it fails the output is what it was, and when
    it succeeds the output holds exactly what the decryption stream yields, the
    returned count is its length, and the temporary file is gone.  When no call of
    the disk fails, it fails only where the stream does, and then leaves nothing
    behind. *)
Theorem downloads_are_atomic
    `{Config, Blake3, Aead, Brotli, !Codec bincode VersionedDataMap}
    `{!Codec postcard ChunkMessage, !Lru XorName bytes}
    (B : Z) (net : network) (be : batch_env) (dm : DataMap) (parent : path) (unique name : string)
    (fuel : nat) (st : disk)
    (HB : 1 <= B) (Hname : unique <> name) (Hfuel : (download_fuel net be dm <= fuel)%nat) :
  let output := parent ++ [name] in
  let tmp_path := parent ++ [unique] in
  exists r st', file_download fuel B net be unique dm parent name st = Some (r, st') /\
    (forall q, q <> tmp_path -> q <> output -> files st' !! q = files st !! q) /\
    (forall n, r = Ok n -> exists b, download_contents B net be dm fuel = Some (Ok b) /\ n = lenZ b mod 2 ^ 64 /\
       files st' !! tmp_path = None /\ exists f, files st' !! output = Some f /\ data f = b) /\
    (is_ok r = false -> files st' !! output = files st !! output) /\
    (faults st = [] -> files st !! tmp_path = None ->
       (forall b, download_contents B net be dm fuel = Some (Ok b) -> is_ok r = true) /\
       (is_ok r = false -> files st' = files st)).
Proof. exact (file_download_spec B HB net be dm parent unique name Hname fuel st Hfuel). Qed.


(** ** A file of three chunks *)

#[local] Existing Instance sample_wire.
#[local] Existing Instance batch_quote_codec.
#[local] Existing Instance batch_proof_codec.
#[local] Existing Instance toy_trees.
#[local] Existing Instance sample_candidates.
#[local] Existing Instance sample_proofs.
#[local] Instance small_chunks : Config := {| MAX_CHUNK_SIZE := 180 |}.




(** A client that has the given chunks in its cache; its fetches complete in an
    order of their own. *)
Definition caching_env (cs : list bytes) : batch_env :=
  mkBatchEnv (fun _ => mkClient (ClientConfig_default (Some 4))
    (foldr (fun b l => lru_put l (compute_address b) b) (cache_create 0) cs) 1) (fun _ _ => 5%nat).





(** The same download with a disk that fills up: its second write is cut short, and
    a file that was at the output stays. *)
Lemma downloads_are_atomic_witness :
  exists dm cs r st', encrypt (sample_file 300) = Some (Ok (dm, cs)) /\
    let full := mkDisk {[ ["out"%string; "copy"%string] := mkFile [x01] DEFAULT_MODE ]} [Works; Works; Partial 7] in
    file_download 10 2 storing_network (caching_env cs) "part" dm ["out"%string] "copy" full = Some (r, st') /\
    is_ok r = false /\ files st' !! ["out"%string; "copy"%string] = Some (mkFile [x01] DEFAULT_MODE).
Proof.
  set (full := mkDisk _ _).
  assert (match encrypt (sample_file 300) with
    | Some (Ok (dm, cs)) => Nat.leb (download_fuel storing_network (caching_env cs) dm) 10 = true /\
        (is_ok ∘ fst) <$> file_download 10 2 storing_network (caching_env cs) "part" dm ["out"%string] "copy" full = Some false
    | _ => False end) as He by (vm_compute; split; reflexivity).
  destruct (encrypt (sample_file 300)) as [[[dm cs]|e]|]; try contradiction. destruct He as [Hl Hd].
  apply Nat.leb_le in Hl.
  destruct (downloads_are_atomic 2 storing_network (caching_env cs) dm ["out"%string] "part"%string "copy"%string 10 full
    ltac:(lia) ltac:(discriminate) Hl) as (r & st' & Hr & _ & _ & Hsame & _).
  exists dm, cs, r, st'. split; [reflexivity|]. cbv zeta. split; [exact Hr|]. rewrite Hr in Hd. injection Hd as Hd.
  split; [exact Hd | exact (Hsame Hd)].
Defined.
