(* ===== verification/Upload.v ===== *)
(** * An upload, from the client to the nodes' stores

    The native client of [NetClient] and [NetPayment] against nodes running the
    handler of [Handler]: a chunk the client has paid for is stored by a majority
    of its close group.  The contract and the network are the hypotheses. *)

From Stdlib Require Import ZArith Lia Strings.Byte.
From stdpp Require Import base list strings gmap.
From S2P Require Import Prelude Interfaces Cipher Reference Protocol Evm Metrics Storage PayCache.
From S2P Require Import Quote PayProof SingleNode Verifier Handler NetFetch NetClient NetPayment.

Local Open Scope Z_scope.

(** One peer of the close group: the node behind it, what happens at it while it
    serves the quote request and the put request, and the quote it makes. *)
Section Upload.
Context `{Blake3, Evm, Dsa, PeerIds}.
Context `{!Lru XorName unit, !Lru bytes OnChainPaymentInfo}.
Context `{!Codec rmp_serde PaymentProof, !Codec rmp_serde MerklePaymentProof}.
Context `{!Codec rmp_serde PersistedMetrics, !Codec rmp_serde PaymentQuote}.
Context `{!Codec rmp_serde MerklePaymentCandidateNode, !Codec postcard ChunkMessage}.
Context `{!LruLaws XorName unit, !LruLaws bytes OnChainPaymentInfo}.
Context `{!CodecLaws rmp_serde PaymentProof, !CodecLaws rmp_serde PaymentQuote}.
Context `{!CodecLaws postcard ChunkMessage, !DsaLaws, !EvmLaws}.

Record host := mkHost {
  h_peer : peer;
  h_node : AntProtocol;
  h_quote_env : env;
  h_put_env : env;
  h_quote : PaymentQuote;
  h_quote_bytes : bytes
}.

(** What the node behind a peer does with a message, put or other. *)
Definition host_serve (h : host) (m : bytes) : result NodeError (option bytes) * AntProtocol :=
  match decode_message m with
  | Ok (mkMessage _ (PutRequest _)) => try_handle_request (h_put_env h) (h_node h) m
  | _ => try_handle_request (h_quote_env h) (h_node h) m
  end.

(** The network brings a message to the peer and its reply back in time. *)
Definition connected (net : network) (h : host) : Prop := forall m reply,
  (host_serve h m).1 = Ok (Some reply) ->
  exchange net (h_peer h) m = (Ok tt, [MessageEvent CHUNK_PROTOCOL_ID (peer_id (h_peer h)) reply]).

(** A node set up as the program sets it up, whose peer id is that of its key,
    that does not hold the chunk yet and makes the quote [h_quote] for it. *)
Record quotes_chunk (content : bytes) (h : host) : Prop := {
  qc_signer : exists g pk sk, dsa_keypair pk sk /\
    wire_ml_dsa_signer g (pk, sk) = Ok (quote_generator (h_node h)) /\
    peer_id_from_public_key_bytes pk = Ok (peer_id (h_peer h));
  qc_rewards : g_rewards_address (quote_generator (h_node h)) =
    local_rewards_address (v_config (payment_verifier (h_node h)));
  qc_quote : create_quote (quote_generator (h_node h)) (now (e_world (h_quote_env h)))
    (instant (h_quote_env h)) (compute_address content) (lenZ content) CHUNK_DATA_TYPE = Ok (h_quote h);
  qc_bytes : ser rmp_serde (h_quote h) = Some (h_quote_bytes h);
  qc_addressed : content_addressed (db (storage (h_node h)));
  qc_new : db (storage (h_node h)) !! compute_address content = None
}.

(** A quote made by a wired generator satisfies what the verifier asks of it. *)
Lemma quotes_chunk_valid content h :
  quotes_chunk content h ->
  q_content (h_quote h) = compute_address content /\
  peer_id_from_public_key_bytes (q_pub_key (h_quote h)) = Ok (peer_id (h_peer h)) /\
  verify_quote_signature (h_quote h) = true /\
  rewards_address (h_quote h) = local_rewards_address (v_config (payment_verifier (h_node h))) /\
  timestamp (h_quote h) = now (e_world (h_quote_env h)).
Proof.
  intros [(g & pk & sk & Hkeys & Hw & Hid) Hr Hq _ _ _].
  destruct (wired_sign _ _ _ _ Hkeys Hw) as (Hpk & _ & _ & sign & Hsign & Hver).
  unfold create_quote in Hq. rewrite Hsign in Hq. cbn in Hq.
  destruct (lenZ (sign _) =? 0) eqn:Ez in Hq; [discriminate|]. b2p.
  destruct (Hver _ Ez) as [Hv1 Hv2]. injection Hq as <-.
  destruct (dsa_keypair_spec _ _ Hkeys) as [_ Hvalid].
  unfold verify_quote_signature. cbn. rewrite Hpk, Hvalid, Hv1, bytes_for_sig_spec. cbn.
  rewrite Hv2. auto.
Qed.

(** ** One exchange *)

(** A message of a length the wire takes. *)
Definition fits (m : ChunkMessage) : Prop :=
  exists b, encode_message m = Ok b /\ lenZ b <= MAX_WIRE_MESSAGE_SIZE.

Lemma fits_decode m : fits m -> exists b, encode_message m = Ok b /\ decode_message b = Ok m.
Proof. intros (b & He & Hl). exists b. eauto using decode_encode_message. Qed.

Lemma await_reply {T E} id_peer id reply b (f : ChunkMessageBody -> option (result E T)) se te r :
  decode_message reply = Ok (mkMessage id b) -> f b = Some r ->
  send_and_await_chunk_response id_peer id (Ok tt)
    [MessageEvent CHUNK_PROTOCOL_ID id_peer reply] f se te = r.
Proof.
  intros Hd Hf. unfold send_and_await_chunk_response. cbn.
  rewrite !bool_decide_true by reflexivity. cbn. rewrite Hd. cbn.
  rewrite Z.eqb_refl. cbn. rewrite Hf. reflexivity.
Qed.

(** The reply a host gives to an encoded request, in the environment of its kind. *)
Lemma host_reply e h id req b b' p' :
  encode_message (mkMessage id req) = Ok b -> decode_message b = Ok (mkMessage id req) ->
  e = match req with PutRequest _ => h_put_env h | _ => h_quote_env h end ->
  handle_body e (h_node h) req = (Some b', p') -> fits (mkMessage id b') ->
  exists reply, host_serve h b = (Ok (Some reply), p') /\ decode_message reply = Ok (mkMessage id b').
Proof.
  intros He Hd -> Hb Hf. destruct (fits_decode _ Hf) as (reply & Her & Hdr). exists reply.
  split; [|exact Hdr]. unfold host_serve. rewrite Hd.
  assert (forall e, handle_body e (h_node h) req = (Some b', p') ->
    try_handle_request e (h_node h) b = (Ok (Some reply), p')) as Ht.
  { intros e Hbe. unfold try_handle_request. rewrite Hd. cbn [body request_id]. rewrite Hbe, Her.
    reflexivity. }
  destruct req; apply Ht; exact Hb.
Qed.

(** ** The quotes *)

Definition quote_request (content : bytes) (id : Z) : ChunkMessage :=
  mkMessage id (QuoteRequest (mkQuoteRequest (compute_address content) (lenZ content) CHUNK_DATA_TYPE)).

Definition quote_reply (h : host) (id : Z) : ChunkMessage :=
  mkMessage id (QuoteResponse (QuoteSuccess (h_quote_bytes h) false)).

Lemma handle_quote_new content h :
  quotes_chunk content h -> lenZ content <= MAX_CHUNK_BYTES ->
  handle_quote (h_quote_env h) (h_node h)
    (mkQuoteRequest (compute_address content) (lenZ content) CHUNK_DATA_TYPE) =
  QuoteSuccess (h_quote_bytes h) false.
Proof.
  intros [_ _ Hq Hb _ Hn] Hl. unfold handle_quote. cbn [quote_address Protocol.data_size Protocol.data_type].
  destruct (MAX_CHUNK_BYTES <? lenZ content) eqn:E; [b2p; lia|]. rewrite Hq, Hb. f_equal.
  unfold exists_chunk, call. destruct (exists_fails _ ReadTxn); [reflexivity|]. cbn.
  destruct (exists_fails _ ReadGet); [reflexivity|]. cbn. rewrite Hn. reflexivity.
Qed.

Lemma quote_exchange price net content h id :
  connected net h -> quotes_chunk content h -> lenZ content <= MAX_CHUNK_BYTES ->
  fits (quote_request content id) -> fits (quote_reply h id) ->
  request_quote price net id (compute_address content) (lenZ content) CHUNK_DATA_TYPE (h_peer h) =
  Some (h_peer h, Ok (h_quote h, price (quoting_metrics (h_quote h)))).
Proof.
  intros Hnet Hq Hl Hreq Hrep. unfold request_quote.
  destruct (fits_decode _ Hreq) as (b & He & Hd). unfold quote_request in He, Hd. rewrite He.
  assert (handle_body (h_quote_env h) (h_node h)
    (QuoteRequest (mkQuoteRequest (compute_address content) (lenZ content) CHUNK_DATA_TYPE)) =
    (Some (QuoteResponse (QuoteSuccess (h_quote_bytes h) false)), h_node h)) as Hb.
  { cbn [handle_body]. rewrite (handle_quote_new _ _ Hq Hl). reflexivity. }
  destruct (host_reply _ h _ _ _ _ _ He Hd eq_refl Hb Hrep) as (reply & Hs & Hr).
  rewrite (Hnet b reply) by (rewrite Hs; reflexivity). do 2 f_equal.
  apply (await_reply _ _ _ _ _ _ _ _ Hr). cbn. rewrite (ser_de _ _ (qc_bytes _ _ Hq)). reflexivity.
Qed.

Definition host_quote (price : QuotingMetrics -> Z) (h : host) : store_quote :=
  (h_peer h, h_quote h, price (quoting_metrics (h_quote h))).

(** The messages of the quotes, for every id that is drawn. *)
Definition quotes_fit (content : bytes) (ids : nat -> Z) (hosts : list host) : Prop :=
  forall k, fits (quote_request content (ids k)) /\ Forall (fun h => fits (quote_reply h (ids k))) hosts.

Lemma hosts_answers price net content ids hosts :
  Forall (connected net) hosts -> Forall (quotes_chunk content) hosts ->
  lenZ content <= MAX_CHUNK_BYTES -> quotes_fit content ids hosts ->
  omap id (imap (fun k p => request_quote price net (ids k) (compute_address content) (lenZ content)
                              CHUNK_DATA_TYPE p) (h_peer <$> hosts)) =
  (fun h => (h_peer h, Ok (h_quote h, price (quoting_metrics (h_quote h))))) <$> hosts.
Proof.
  intros Hnet Hq Hl. revert ids. induction hosts as [|h hosts IH]; intros ids Hf; [reflexivity|].
  apply Forall_cons in Hnet as [Hn Hnet]. apply Forall_cons in Hq as [Hqh Hq].
  rewrite !fmap_cons, imap_cons. cbn [omap list_omap].
  destruct (Hf 0%nat) as [Hreq Hrep]. apply Forall_cons in Hrep as [Hrep _].
  rewrite (quote_exchange price net content h _ Hn Hqh Hl Hreq Hrep). cbn [id]. f_equal.
  apply (IH Hnet Hq (fun k => ids (S k))). intros k. destruct (Hf (S k)) as [Hr Hs].
  apply Forall_cons in Hs as [_ Hs]. auto.
Qed.

Lemma hosts_quoted price hosts :
  quoted ((fun h => (h_peer h, Ok (h_quote h, price (quoting_metrics (h_quote h))))) <$> hosts) =
  host_quote price <$> hosts.
Proof.
  induction hosts as [|h hosts IH]; [reflexivity|]. rewrite !fmap_cons. cbn beta.
  rewrite quoted_ok, IH. reflexivity.
Qed.

(** ** The put *)

Definition put_request_of (content proof : bytes) : ChunkPutRequest :=
  ChunkPutRequest.with_payment (compute_address content) content proof.

(** A peer accepts exactly when the handler of its node acknowledges. *)
Lemma put_exchange net content proof h id r p' :
  connected net h -> handle_put (h_put_env h) (h_node h) (put_request_of content proof) = (r, p') ->
  fits (mkMessage id (PutRequest (put_request_of content proof))) ->
  fits (mkMessage id (PutResponse r)) ->
  is_ok (chunk_put_with_proof net id content proof (h_peer h)) = bool_decide (is_Some (acknowledged r)) /\
  exists m, encode_message (mkMessage id (PutRequest (put_request_of content proof))) = Ok m /\
    (host_serve h m).2 = p'.
Proof.
  intros Hnet Hp Hreq Hrep. unfold chunk_put_with_proof. fold (put_request_of content proof).
  destruct (fits_decode _ Hreq) as (b & He & Hd). rewrite He. cbn [map_err mbind result_bind].
  assert (handle_body (h_put_env h) (h_node h) (PutRequest (put_request_of content proof)) =
    (Some (PutResponse r), p')) as Hb by (cbn [handle_body]; rewrite Hp; reflexivity).
  destruct (host_reply _ h _ _ _ _ _ He Hd eq_refl Hb Hrep) as (reply & Hs & Hr).
  rewrite (Hnet b reply) by (rewrite Hs; reflexivity).
  split; [|exists b; rewrite Hs; split; reflexivity].
  assert (exists x, put_handler (PutResponse r) = Some x /\
    is_ok x = bool_decide (is_Some (acknowledged r))) as (x & Hx & <-)
    by (destruct r; eexists; (split; [reflexivity | vm_compute; reflexivity])).
  rewrite (await_reply _ _ _ _ _ _ _ _ Hr Hx). reflexivity.
Qed.

(** A node that acknowledges a chunk it did not hold has stored it. *)
Lemma acknowledged_stored e p content proof r p' :
  content_addressed (db (storage p)) -> db (storage p) !! compute_address content = None ->
  handle_put e p (put_request_of content proof) = (r, p') -> is_Some (acknowledged r) ->
  db (storage p') !! compute_address content = Some content.
Proof.
  intros Hc Hn Hp [x Hx]. assert (handle_body e p (PutRequest (put_request_of content proof)) =
    (Some (PutResponse r), p')) as Hb by (cbn [handle_body]; rewrite Hp; reflexivity).
  apply handle_put_cases in Hp. cbn [put_request_of put_address put_content] in Hp.
  destruct Hp as [(_ & Ha) | (_ & _ & pr & v & _ & [(_ & Ha) | (_ & sr & s & Hs & _ & <- & Ha)])].
  - destruct (Ha x Hx) as (_ & _ & Hs). cbn in Hs. rewrite Hn in Hs. destruct Hs. discriminate.
  - congruence.
  - apply put_cases in Hs as (_ & _ & Hd & Hin); [|exact Hc]. destruct Ha as [(Hok & _) | (_ & Ha & _)].
    + destruct Hd as [Hd | (Hd & _)]; rewrite Hd in Hin |- *.
      * destruct (Hin Hok) as [y Hy]. pose proof (eq_trans (eq_sym Hn) Hy). discriminate.
      * apply lookup_insert_eq.
    + congruence.
Qed.

(** What a node needs to store the chunk when it is put: its store works and has
    room, its clock is near those of the quoting nodes, and the task that checks
    signatures is not lost. *)
Record can_accept (hosts : list host) (h : host) : Prop := {
  ca_exists : forall c, exists_fails (h_put_env h) c = false;
  ca_store : forall c, op_fails (h_put_env h) c = false;
  ca_room : has_room (max_chunks (Storage.config (storage (h_node h)))) (db (storage (h_node h))) = true;
  ca_task : sig_task_lost (e_world (h_put_env h)) = false;
  ca_clock : Forall (fun q => fresh (now (e_world (h_put_env h))) (h_quote q)) hosts
}.

Lemma paid_put_stored hosts h content proof p txs :
  quotes_chunk content h -> can_accept hosts h -> lenZ content <= MAX_CHUNK_BYTES ->
  32 <= lenZ proof <= 262144 -> deserialize_proof proof = Ok (p, txs) ->
  valid_evm_payment (local_rewards_address (v_config (payment_verifier (h_node h))))
    (e_world (h_put_env h)) (compute_address content) p ->
  exists p', handle_put (h_put_env h) (h_node h) (put_request_of content proof) =
    (PutSuccess (compute_address content), p').
Proof.
  intros Hq Ha Hl Hs Hd Hv. unfold handle_put. cbn [put_request_of put_address put_content payment_proof
    ChunkPutRequest.with_payment].
  destruct (MAX_CHUNK_BYTES <? lenZ content) eqn:E; [b2p; lia|].
  rewrite bool_decide_true by reflexivity. cbn [negb].
  unfold exists_chunk, call. rewrite !(ca_exists _ _ Ha). cbn [mbind result_bind].
  rewrite (bool_decide_false (is_Some _)) by (rewrite (qc_new _ _ Hq); apply is_Some_None).
  destruct (verify_payment _ _ _ _) as [r v] eqn:Ev.
  assert (exists st, r = Ok st /\ can_store st = true) as (st & -> & Hst).
  { apply verify_payment_spec in Ev as (_ & _ & _ & Hcached & Hnew & _).
    destruct (holds _ _); [rewrite Hcached by reflexivity; exists CachedAsVerified; auto|].
    destruct (Hnew eq_refl) as [[_ Hok] _]. exists PaymentVerified. split; [|reflexivity]. apply Hok.
    exists proof. split; [reflexivity|]. split; [exact Hs|]. left. split; [exact (ca_task _ _ Ha)|].
    exists p, txs. auto. }
  rewrite Hst. cbn [with_verifier storage].
  destruct (put _ _ _ _) as [stored s] eqn:Ep. pose proof (qc_addressed _ _ Hq) as Hca.
  apply (put_refines _ _ _ _ _ _ Hca) in Ep as (_ & _ & Hcase). cbn [spec] in Hcase.
  rewrite bool_decide_true in Hcase by reflexivity. cbn [negb] in Hcase.
  rewrite (bool_decide_false (is_Some _)), (ca_room _ _ Ha) in Hcase
    by (rewrite (qc_new _ _ Hq); apply is_Some_None).
  destruct Hcase as [[He _] | (_ & (c & Hf) & _)]; [|rewrite (ca_store _ _ Ha) in Hf; discriminate].
  cbn [fst] in He. injection He as ->. eauto.
Qed.

(** ** The payment *)

Lemma deserialize_serialized p bs :
  serialize_single_node_proof p = Some bs ->
  deserialize_proof bs = Ok (proof_of_payment p, PayProof.tx_hashes p).
Proof.
  unfold serialize_single_node_proof, deserialize_proof.
  destruct (ser rmp_serde p) as [b|] eqn:E; [|discriminate]. intros [= <-]. cbn [head tail].
  rewrite bool_decide_true by reflexivity. cbn. rewrite (ser_de _ _ E). reflexivity.
Qed.

Lemma from_quotes_pays (qs : list (PaymentQuote * Z)) payment :
  from_quotes qs = Ok payment -> Forall (fun q => 0 < q.2) qs ->
  Exists (fun q => 0 < amount q) (quotes payment).
Proof.
  intros Hf Hp. assert (length qs = CLOSE_GROUP_SIZE) as Hl.
  { unfold from_quotes in Hf. case_bool_decide as E; [exact E | discriminate]. }
  assert (length (by_price qs) = CLOSE_GROUP_SIZE) as Hl'
    by (unfold by_price; rewrite length_sort_by_key; exact Hl).
  destruct (five_elements _ Hl') as (a & b & c & d & e & Hs).
  rewrite (from_quotes_five qs _ _ _ _ _ Hs) in Hf. unfold checked_mul in Hf.
  destruct (_ <? _); [|discriminate]. injection Hf as <-.
  rewrite <- (sort_by_key_perm snd qs) in Hp. unfold by_price in Hs. rewrite Hs in Hp.
  pose proof (Forall_lookup_1 _ _ 2%nat c Hp eq_refl) as Hc. cbn in Hc.
  do 2 apply Exists_cons_tl. apply Exists_cons_hd. cbn. lia.
Qed.

Context {EvmNetwork : Type}.
Context (get_market_price : EvmNetwork -> list QuotingMetrics -> result string (list Z)).

Definition triples (payment : SingleNodePayment) : list (bytes * bytes * Z) :=
  (fun q => (i_quote_hash q, i_rewards_address q, amount q)) <$> quotes payment.

(** The payment contract, seen from a node: it finds valid the payment that the
    program makes of some quotes at the contract's own prices, once the wallet has
    made it. *)
Definition contract_honours (w : Wallet EvmNetwork) (n : EvmNetwork) (wd : world) : Prop :=
  forall p prices payment hashes,
    get_market_price n ((fun pq => quoting_metrics pq.2) <$> peer_quotes p) = Ok prices ->
    from_quotes (zip_with (fun pq price => (pq.2, price)) (peer_quotes p) prices) = Ok payment ->
    pay_for_quotes w (triples payment) = Ok hashes ->
    Exists (fun q => 0 < amount q) (quotes payment) ->
    exists results, rpc_verify_payment wd (payment_digest p) = Ok results /\
      Exists (fun r => 0 < amountPaid r) results /\
      Forall (fun r => 0 < amountPaid r -> isValid r = true) results.

(** [ProofOfPayment::digest] has an entry for each quote. *)
Definition digest_of_quotes : Prop := forall p, length (payment_digest p) = length (peer_quotes p).

Lemma price_quotes_inv c n store_quotes pq payment :
  require_evm_network c = Ok n -> price_quotes get_market_price c store_quotes = Ok (pq, payment) ->
  pq = (fun q : store_quote => (peer_id q.1.1, q.1.2)) <$> store_quotes /\
  exists prices, length prices = length pq /\
    get_market_price n ((fun pq => quoting_metrics pq.2) <$> pq) = Ok prices /\
    from_quotes (zip_with (fun pq price => (pq.2, price)) pq prices) = Ok payment.
Proof.
  intros Hn. unfold price_quotes. rewrite Hn. cbn [mbind result_bind].
  destruct (get_market_price n _) as [prices|] eqn:Eg; [|discriminate]. cbn [map_err mbind result_bind].
  case_bool_decide as El; [|discriminate]. cbn [negb].
  destruct (from_quotes _) as [pm|] eqn:Ef; [|discriminate]. cbn. intros [= <- <-].
  split; [reflexivity|]. exists prices. rewrite length_fmap. split; [exact El|].
  rewrite <- list_fmap_compose, zip_with_fmap_l. split; [exact Eg | exact Ef].
Qed.

Lemma paid_proof_valid price hosts content w c n store_quotes pq payment txs h :
  length hosts = CLOSE_GROUP_SIZE -> NoDup ((fun h => peer_id (h_peer h)) <$> hosts) ->
  Forall (quotes_chunk content) hosts -> store_quotes ≡ₚ host_quote price <$> hosts ->
  require_evm_network c = Ok n -> (forall ms ps, get_market_price n ms = Ok ps -> Forall (Z.lt 0) ps) ->
  price_quotes get_market_price c store_quotes = Ok (pq, payment) ->
  pay payment (pay_for_quotes w) = Ok txs -> digest_of_quotes ->
  contract_honours w n (e_world (h_put_env h)) -> h ∈ hosts -> can_accept hosts h ->
  valid_evm_payment (local_rewards_address (v_config (payment_verifier (h_node h))))
    (e_world (h_put_env h)) (compute_address content) (mkProofOfPayment pq).
Proof.
  intros Hfive Hdistinct Hq Hperm Hn Hpos Hp Hpay Hdigest Hchain Hin Hacc.
  destruct (price_quotes_inv _ _ _ _ _ Hn Hp) as (Hpq & prices & Hlen & Hm & Hf).
  assert (pq ≡ₚ (fun h => (peer_id (h_peer h), h_quote h)) <$> hosts) as Hpq'
    by (rewrite Hpq, Hperm, <- list_fmap_compose; reflexivity).
  apply Permutation_length in Hpq' as Hlpq. rewrite length_fmap in Hlpq.
  split; cbn [peer_quotes].
  - congruence.
  - rewrite Hpq', <- list_fmap_compose. exact Hdistinct.
  - rewrite Hpq', Forall_fmap. rewrite Forall_forall in Hq |- *. intros h' Hh'. cbn.
    destruct (quotes_chunk_valid _ _ (Hq h' Hh')) as (H1' & H2' & H3' & _).
    split; [exact H1'|]. split; [|split; [exact H2' | exact H3']].
    exact (proj1 (Forall_forall _ _) (ca_clock _ _ Hacc) h' Hh').
  - rewrite Hpq', Exists_fmap, Exists_exists. exists h. split; [exact Hin|].
    rewrite Forall_forall in Hq. apply (quotes_chunk_valid content h (Hq h Hin)).
  - intros Hd. pose proof (Hdigest (mkProofOfPayment pq)) as Hl. rewrite Hd in Hl. cbn in Hl.
    rewrite <- Hl in Hlpq. rewrite <- Hlpq in Hfive. discriminate.
  - assert (exists hashes, pay_for_quotes w (triples payment) = Ok hashes) as [hashes Hw].
    { unfold pay in Hpay. fold (triples payment) in Hpay.
      destruct (pay_for_quotes w (triples payment)); [eauto | discriminate]. }
    apply (Hchain (mkProofOfPayment pq) prices payment hashes Hm Hf Hw).
    apply (from_quotes_pays _ _ Hf). specialize (Hpos _ _ Hm).
    clear -Hpos. revert pq. induction Hpos as [|x ps Hx _ IH]; intros [|q pq]; cbn; constructor; auto.
Qed.

(** ** The hosts that accept *)

Definition accepts (content proof : bytes) (h : host) : bool :=
  bool_decide (is_Some (acknowledged
    (handle_put (h_put_env h) (h_node h) (put_request_of content proof)).1)).

(** The messages of the puts, for every id that is drawn. *)
Definition puts_fit (content proof : bytes) (ids : nat -> Z) (hosts : list host) : Prop :=
  forall k, fits (mkMessage (ids k) (PutRequest (put_request_of content proof))) /\
    Forall (fun h => fits (mkMessage (ids k) (PutResponse
      (handle_put (h_put_env h) (h_node h) (put_request_of content proof)).1))) hosts.

Lemma hosts_accepted net content proof ids hosts :
  Forall (connected net) hosts -> puts_fit content proof ids hosts ->
  accepted (imap (fun k p => chunk_put_with_proof net (ids k) content proof p) (h_peer <$> hosts)) =
  length (filter (fun h => accepts content proof h = true) hosts).
Proof.
  intros Hnet. revert ids. induction hosts as [|h hosts IH]; intros ids Hf; [reflexivity|].
  apply Forall_cons in Hnet as [Hn Hnet]. destruct (Hf 0%nat) as [Hreq Hrep].
  apply Forall_cons in Hrep as [Hrep _]. rewrite fmap_cons, imap_cons.
  destruct (handle_put (h_put_env h) (h_node h) (put_request_of content proof)) as [r p'] eqn:E.
  destruct (put_exchange net content proof h (ids 0%nat) r p' Hn E Hreq Hrep) as [Hok _].
  assert (accepts content proof h = bool_decide (is_Some (acknowledged r))) as Ha
    by (unfold accepts; rewrite E; reflexivity).
  rewrite <- Ha in Hok. specialize (IH Hnet (fun k => ids (S k))). unfold compose.
  assert (puts_fit content proof (fun k => ids (S k)) hosts) as Hf'.
  { intros k. destruct (Hf (S k)) as [Hr Hs]. apply Forall_cons in Hs as [_ Hs]. auto. }
  specialize (IH Hf'). destruct (chunk_put_with_proof net (ids 0%nat) content proof (h_peer h));
    cbn [is_ok] in Hok; symmetry in Hok.
  - rewrite accepted_ok, filter_cons_True by exact Hok. cbn [length]. f_equal. exact IH.
  - rewrite accepted_err, filter_cons_False by congruence. exact IH.
Qed.

(** What the node behind the [k]-th peer asked does with the put. *)
Definition holds_after (content proof : bytes) (ids : nat -> Z) (asked : list peer) (h : host) : Prop :=
  exists k m, asked !! k = Some (h_peer h) /\
    encode_message (mkMessage (ids k) (PutRequest (put_request_of content proof))) = Ok m /\
    db (storage (host_serve h m).2) !! compute_address content = Some content.

Lemma accepts_holds net content proof ids hosts n k h :
  connected net h -> quotes_chunk content h -> puts_fit content proof ids hosts ->
  take n hosts !! k = Some h -> accepts content proof h = true ->
  holds_after content proof ids (take n (h_peer <$> hosts)) h.
Proof.
  intros Hnet Hq Hf Hk Ha. destruct (Hf k) as [Hreq Hrep].
  pose proof Hk as Hin. apply lookup_take_Some in Hin as [Hin%list_elem_of_lookup_2 _].
  rewrite Forall_forall in Hrep. specialize (Hrep h Hin). cbn beta in Hrep.
  destruct (handle_put (h_put_env h) (h_node h) (put_request_of content proof)) as [r p'] eqn:E.
  destruct (put_exchange net content proof h (ids k) r p' Hnet E Hreq Hrep) as (_ & m & Hm & Hp').
  exists k, m. split; [rewrite <- fmap_take, list_lookup_fmap, Hk; reflexivity|]. split; [exact Hm|].
  rewrite Hp'. apply (acknowledged_stored _ _ _ _ _ _ (qc_addressed _ _ Hq) (qc_new _ _ Hq) E).
  unfold accepts in Ha. rewrite E in Ha. exact (bool_decide_eq_true_1 _ Ha).
Qed.

(** ** The whole upload *)

Lemma pay_for_storage_inv price c cfg net ids order address size type w proof peers :
  wallet c = Some w ->
  pay_for_storage price get_market_price c cfg net ids order address size type = Ok (proof, peers) ->
  exists store_quotes pq payment txs,
    get_store_quotes price cfg net ids order address size type = Ok store_quotes /\
    price_quotes get_market_price c store_quotes = Ok (pq, payment) /\
    pay payment (pay_for_quotes w) = Ok txs /\
    serialize_single_node_proof (mkPaymentProof (mkProofOfPayment pq) txs) = Some proof /\
    peers = (fun q : store_quote => q.1.1) <$> store_quotes.
Proof.
  intros Hw. unfold pay_for_storage, require_wallet. rewrite Hw. cbn [ok_or mbind result_bind].
  destruct (get_store_quotes _ _ _ _ _ _ _ _) as [qs|]; [|discriminate]. cbn [mbind result_bind].
  destruct (price_quotes _ _ _) as [[pq payment]|] eqn:Ep; [|discriminate]. cbn [mbind result_bind].
  destruct (pay _ _) as [txs|] eqn:Et; [|discriminate]. cbn [map_err mbind result_bind].
  destruct (serialize_single_node_proof _) as [bs|] eqn:Es; [|discriminate]. cbn. intros [= <- <-].
  exists qs, pq, payment, txs. auto.
Qed.

Lemma hosts_store_quotes price cfg net ids order content hosts store_quotes :
  close_group_peers cfg net (compute_address content) = Ok (h_peer <$> hosts) ->
  length hosts = CLOSE_GROUP_SIZE -> Forall (connected net) hosts ->
  Forall (quotes_chunk content) hosts -> lenZ content <= MAX_CHUNK_BYTES ->
  quotes_fit content ids hosts ->
  get_store_quotes price cfg net ids order (compute_address content) (lenZ content) CHUNK_DATA_TYPE =
    Ok store_quotes ->
  store_quotes ≡ₚ host_quote price <$> hosts.
Proof.
  intros Hpeers Hfive Hnet Hq Hl Hfit Hok.
  destruct (get_store_quotes_spec price cfg net ids order _ (lenZ content) CHUNK_DATA_TYPE _ Hpeers)
    as (qs & Hperm & _ & Hr); [rewrite length_fmap; lia|].
  rewrite take_ge in Hperm by (rewrite length_fmap; lia).
  rewrite (hosts_answers price net content ids hosts Hnet Hq Hl Hfit), hosts_quoted in Hperm.
  rewrite Hr in Hok. case_bool_decide; [discriminate|]. case_bool_decide; [|discriminate].
  injection Hok as <-. exact Hperm.
Qed.

Lemma filter_submseteq_all {A} (P : A -> Prop) `{!forall x, Decision (P x)} (l1 l2 : list A) :
  l1 ⊆+ l2 -> Forall P l1 -> (length l1 <= length (filter P l2))%nat.
Proof.
  intros (k & ->)%submseteq_Permutation Hp. rewrite filter_app, length_app.
  induction Hp as [|x l1 Hx _ IH]; cbn [app]; [cbn; lia|].
  rewrite filter_cons_True by exact Hx. cbn [length]. lia.
Qed.

(** When three of the hosts accept, the puts end with the chunk on three. *)
Lemma hosts_replicate net content proof ids order hosts hosts' good :
  hosts' ≡ₚ hosts -> Forall (connected net) hosts -> Forall (quotes_chunk content) hosts ->
  puts_fit content proof ids hosts -> good ⊆+ hosts -> (CLOSE_GROUP_MAJORITY <= length good)%nat ->
  Forall (fun h => accepts content proof h = true) good ->
  exists asked stored,
    chunk_put_to_close_group net ids order content proof (h_peer <$> hosts') =
      Some (Ok (compute_address content), asked) /\
    stored ⊆+ hosts /\ length stored = CLOSE_GROUP_MAJORITY /\
    Forall (holds_after content proof ids asked) stored.
Proof.
  intros Hperm Hnet Hq Hf Hg Hm Ha. rewrite <- Hperm in Hnet, Hq, Hg.
  assert (puts_fit content proof ids hosts') as Hf'
    by (intros k; destruct (Hf k) as [Hr Hs]; rewrite Hperm; auto).
  destruct (put_to_close_group_outcome net ids order content proof (h_peer <$> hosts'))
    as (r & n & -> & Hn & Hcase).
  assert (Forall (connected net) (take n hosts') /\ puts_fit content proof ids (take n hosts')) as [Ht1 Ht2].
  { split; [apply Forall_take, Hnet|]. intros k. destruct (Hf' k) as [Hr Hs]. auto using Forall_take. }
  destruct Hcase as [(-> & Hacc & _) | (_ & _ & Hacc)].
  - rewrite <- imap_take, <- fmap_take, (hosts_accepted _ _ _ _ _ Ht1 Ht2) in Hacc.
    exists (take n (h_peer <$> hosts')), (filter (fun h => accepts content proof h = true) (take n hosts')).
    split; [reflexivity|]. split; [|split; [exact Hacc|]].
    + rewrite <- Hperm. etransitivity; [apply sublist_submseteq, sublist_filter|].
      apply sublist_submseteq, sublist_take.
    + apply Forall_forall. intros h [Hh Hin]%list_elem_of_filter.
      apply list_elem_of_lookup_1 in Hin as [k Hk].
      assert (h ∈ hosts') as Hin
        by (apply lookup_take_Some in Hk as [Hk _]; exact (list_elem_of_lookup_2 _ _ _ Hk)).
      rewrite Forall_forall in Hnet, Hq. eapply accepts_holds; eauto.
  - rewrite (hosts_accepted _ _ _ _ _ Hnet Hf') in Hacc. exfalso.
    pose proof (filter_submseteq_all _ _ _ Hg Ha). lia.
Qed.

End Upload.

(** C27: A chunk a client has paid for ends up on a majority of its close group.
    The five closest peers run the program, do not hold the chunk and quote it;
    the client's payment went through, in whatever order the quotes arrived; and
    at three of the nodes at least, when the chunk is put, the store works and has
    room, the clock is near those of the others and the contract honours the
    payment.  Then in whatever order the puts complete [chunk_put] returns the
    address, and a majority of the close group, three of its nodes, hold the chunk. *)
Theorem paid_upload_is_replicated
    `{Blake3, Evm, Dsa, PeerIds, !Lru XorName unit, !Lru bytes OnChainPaymentInfo}
    `{!Codec rmp_serde PaymentProof, !Codec rmp_serde MerklePaymentProof}
    `{!Codec rmp_serde PersistedMetrics, !Codec rmp_serde PaymentQuote}
    `{!Codec rmp_serde MerklePaymentCandidateNode, !Codec postcard ChunkMessage}
    `{!LruLaws XorName unit, !LruLaws bytes OnChainPaymentInfo}
    `{!CodecLaws rmp_serde PaymentProof, !CodecLaws rmp_serde PaymentQuote}
    `{!CodecLaws postcard ChunkMessage, !DsaLaws, !EvmLaws}
    (price : QuotingMetrics -> Z) {EvmNetwork : Type}
    (market : EvmNetwork -> list QuotingMetrics -> result string (list Z))
    (c : Payer) (cfg : ClientConfig) (net : network) (quote_ids put_ids : nat -> Z)
    (quote_order put_order : nat -> nat) (content proof : bytes) (peers : list peer)
    (w : Wallet EvmNetwork) (n : EvmNetwork) (hosts good : list host)
    (Hpeers : close_group_peers cfg net (compute_address content) = Ok (h_peer <$> hosts))
    (Hfive : length hosts = CLOSE_GROUP_SIZE)
    (Hdistinct : NoDup ((fun h => peer_id (h_peer h)) <$> hosts))
    (Hnet : Forall (connected net) hosts) (Hquote : Forall (quotes_chunk content) hosts)
    (Hsize : lenZ content <= MAX_CHUNK_BYTES)
    (Hqfit : quotes_fit content quote_ids hosts) (Hpfit : puts_fit content proof put_ids hosts)
    (Hpay : pay_for_storage price market c cfg net quote_ids quote_order (compute_address content)
              (lenZ content) CHUNK_DATA_TYPE = Ok (proof, peers))
    (Hproof : 32 <= lenZ proof <= 262144)
    (Hw : wallet c = Some w) (Hn : require_evm_network c = Ok n)
    (Hprices : forall ms ps, market n ms = Ok ps -> Forall (Z.lt 0) ps) (Hdigest : digest_of_quotes)
    (Hgood : good ⊆+ hosts) (Hmajority : (CLOSE_GROUP_MAJORITY <= length good)%nat)
    (Haccept : Forall (can_accept hosts) good)
    (Hchain : Forall (fun h => contract_honours market w n (e_world (h_put_env h))) good) :
  exists asked stored,
    chunk_put price market c cfg net quote_ids put_ids quote_order put_order content =
      Some (Ok (compute_address content), asked) /\
    stored ⊆+ hosts /\ length stored = CLOSE_GROUP_MAJORITY /\
    Forall (holds_after content proof put_ids asked) stored.
Proof.
  destruct (pay_for_storage_inv market price c cfg net quote_ids quote_order _ _ _ w _ _ Hw Hpay)
    as (store_quotes & pq & payment & txs & Hq & Hp & Htx & Hser & Hps).
  assert (store_quotes ≡ₚ host_quote price <$> hosts) as Hperm
    by exact (hosts_store_quotes price cfg net quote_ids quote_order content hosts store_quotes
                Hpeers Hfive Hnet Hquote Hsize Hqfit Hq).
  destruct (Permutation_map_inv (host_quote price) hosts Hperm) as (hosts' & Hmap & Hhosts).
  unfold chunk_put. rewrite Hpay, Hps, Hmap, <- list_fmap_compose.
  apply (hosts_replicate net content proof put_ids put_order hosts hosts' good); auto.
  { symmetry. exact Hhosts. }
  apply deserialize_serialized in Hser. rewrite Forall_forall in Haccept, Hchain, Hquote |- *.
  intros h Hh. assert (h ∈ hosts) as Hin by (eapply elem_of_submseteq; eauto).
  destruct (paid_put_stored hosts h content proof (mkProofOfPayment pq) txs) as [p' Hput]; auto.
  { eapply paid_proof_valid; eauto. apply Forall_forall. exact Hquote. }
  unfold accepts. rewrite Hput. reflexivity.
Qed.

(** ** A concrete upload *)

Definition upload_content : bytes := [x01; x02; x03].

Definition upload_world (t : Z) : world :=
  mkWorld t false (fun _ => Ok [mkPaid 30 true]) (fun _ => Err "no such pool"%string).

Definition upload_env (t : Z) : env := mkEnv (upload_world t) 0 no_faults no_faults Written Written.

(** Cheap signatures, hashes and peer ids, of the lengths the interfaces ask for. *)
#[local] Instance upload_dsa : Dsa := {|
  dsa_keypair pk sk := pk = sk /\ lenZ pk = 1952;
  dsa_pk_valid pk := lenZ pk =? 1952;
  dsa_sk_valid sk := true;
  dsa_sig_valid sg := lenZ sg =? 3309;
  dsa_sign sk m := Some (pad_to 3309 (take 1 sk ++ take 1 m));
  dsa_verify pk m sg := bool_decide (sg = pad_to 3309 (take 1 pk ++ take 1 m))
|}.

#[local] Instance upload_dsa_laws : DsaLaws.
Proof.
  split; cbn [dsa_keypair dsa_pk_valid dsa_sign dsa_verify dsa_sig_valid upload_dsa].
  - intros pk sk [_ Hl]. rewrite Hl. split; reflexivity.
  - intros pk sk m sg [-> _] [= <-]. rewrite lenZ_pad_to. split; [reflexivity|].
    apply bool_decide_eq_true_2. reflexivity.
  - intros pk sk _. reflexivity.
  - intros pk sk m sg _ [= <-]. rewrite lenZ_pad_to. reflexivity.
Qed.

#[local] Instance upload_peer_ids : PeerIds := {| peer_id_from_public_key_bytes pk := Ok (take 1 pk) |}.

#[local] Instance upload_evm : Evm := {|
  quote_bytes_for_signing content ts m rewards := content ++ rewards;
  quote_bytes_for_sig q := q_content q ++ rewards_address q;
  quote_hash q := take 1 (q_pub_key q);
  payment_digest p :=
    (fun '(_, q) => (take 1 (q_pub_key q), quoting_metrics q, rewards_address q)) <$> peer_quotes p;
  candidate_bytes_to_sign m rewards ts := rewards;
  winner_pool_hash p := midpoint_proof (winner_pool p);
  midpoint_root p := p;
  verify_merkle_proof _ _ _ _ _ _ := Err "no proofs"%string
|}.

#[local] Instance upload_evm_laws : EvmLaws.
Proof. split. reflexivity. Qed.

Definition sample_host (b : byte) (name : string) : host :=
  let g := generator_new [b] (tracker_new 1000 0 0) in
  let g := match wire_ml_dsa_signer g (sample_key b, sample_key b) with Ok g => g | Err _ => g end in
  {| h_peer := mkPeer [b] [name];
     h_node := fresh_node (mkStorageConfig "" true 10 0) (mkVerifierConfig 100 [b]) g None;
     h_quote_env := upload_env 1000000000;
     h_put_env := upload_env 2000000000;
     h_quote :=
       match create_quote g 1000000000 0 (compute_address upload_content) 3 0 with
       | Ok q => q
       | Err _ => sample_quote b
       end;
     h_quote_bytes := [b] |}.

Definition upload_hosts : list host :=
  [sample_host x0a "a"; sample_host x0b "b"; sample_host x0c "c"; sample_host x0d "d"; sample_host x0e "e"].

#[local] Instance upload_quote_codec : Codec rmp_serde PaymentQuote :=
  table_codec ((fun h => (h_quote h, h_quote_bytes h)) <$> upload_hosts).

Definition upload_payment : PaymentProof :=
  mkPaymentProof (mkProofOfPayment ((fun h => (peer_id (h_peer h), h_quote h)) <$> upload_hosts)) [[xff]].

#[local] Instance upload_proof_codec : Codec rmp_serde PaymentProof :=
  table_codec [(upload_payment, replicate 40 x55)].

Definition upload_proof : bytes := PROOF_TAG_SINGLE_NODE :: replicate 40 x55.

#[local] Instance upload_candidate_codec : Codec rmp_serde MerklePaymentCandidateNode := table_codec [].

#[local] Instance upload_postcard : Codec postcard ChunkMessage :=
  table_codec ([(quote_request upload_content 1, [x01]);
                (mkMessage 2 (PutRequest (put_request_of upload_content upload_proof)), [x02]);
                (mkMessage 2 (PutResponse (PutSuccess (compute_address upload_content))), [x03])] ++
               ((fun h => (quote_reply h 1, h_quote_bytes h)) <$> upload_hosts)).

Definition upload_network : network :=
  mkNetwork [x00] (fun _ count => Ok (take count (h_peer <$> upload_hosts))) []
    (fun p m =>
       match List.find (fun h => bool_decide (addresses (h_peer h) = addresses p)) upload_hosts with
       | Some h =>
         match (host_serve h m).1 with
         | Ok (Some reply) => (Ok tt, [MessageEvent CHUNK_PROTOCOL_ID (peer_id p) reply])
         | _ => (Err "no answer"%string, [])
         end
       | None => (Err "unreachable"%string, [])
       end).

Definition upload_wallet : Wallet unit :=
  mkWallet _ tt (fun infos => Ok (list_to_map ((fun i => (i.1.1, [xff])) <$> infos))).

Definition upload_market (_ : unit) (ms : list QuotingMetrics) : result string (list Z) :=
  Ok ((fun _ => 10) <$> ms).

Definition upload_config : ClientConfig := ClientConfig_default (Some 8).

Lemma upload_pays :
  pay_for_storage (fun _ => 7) upload_market (with_wallet upload_wallet) upload_config upload_network
    (fun _ => 1) (fun _ => 0%nat) (compute_address upload_content) (lenZ upload_content) CHUNK_DATA_TYPE =
  Ok (upload_proof, h_peer <$> upload_hosts).
Proof. vm_compute. reflexivity. Qed.

#[local] Instance upload_quote_laws : CodecLaws rmp_serde PaymentQuote.
Proof. apply table_codec_laws. apply (bool_decide_unpack _). vm_compute. exact I. Qed.
#[local] Instance upload_proof_laws : CodecLaws rmp_serde PaymentProof.
Proof. apply table_codec_laws. apply NoDup_singleton. Qed.
#[local] Instance upload_postcard_laws : CodecLaws postcard ChunkMessage.
Proof. apply table_codec_laws. apply (bool_decide_unpack _). vm_compute. exact I. Qed.

(** A property of every host is a property of the one made for each name. *)
Lemma upload_hosts_all (P : host -> Prop) :
  (forall b name, (b, name) ∈ [(x0a, "a"); (x0b, "b"); (x0c, "c"); (x0d, "d"); (x0e, "e")]%string ->
     P (sample_host b name)) -> Forall P upload_hosts.
Proof. intros Hp. repeat (apply Forall_cons_2; [apply Hp; set_solver|]). apply Forall_nil_2. Qed.

Ltac each_host :=
  apply upload_hosts_all; intros b name Hb;
  repeat (apply elem_of_cons in Hb as [[= -> ->] | Hb]); [.. | destruct (not_elem_of_nil _ Hb)].

Lemma upload_quotes : Forall (quotes_chunk upload_content) upload_hosts.
Proof.
  each_host; (split;
    [ eexists (generator_new _ (tracker_new 1000 0 0)), (sample_key _), (sample_key _);
      split; [split; [reflexivity | vm_compute; reflexivity]|]; split; [reflexivity | reflexivity]
    | reflexivity | vm_compute; reflexivity | vm_compute; reflexivity | apply map_Forall_empty
    | reflexivity ]).
Qed.

Lemma upload_connected : Forall (connected upload_network) upload_hosts.
Proof.
  each_host; intros m reply Hr;
    match goal with |- exchange _ (h_peer ?h) _ = _ =>
      change (match (host_serve h m).1 with
        | Ok (Some reply) => (Ok tt, [MessageEvent CHUNK_PROTOCOL_ID (peer_id (h_peer h)) reply])
        | _ => (Err "no answer"%string, [])
        end = (Ok tt, [MessageEvent CHUNK_PROTOCOL_ID (peer_id (h_peer h)) reply]))
    end; rewrite Hr; reflexivity.
Qed.

Lemma upload_fits m : match encode_message m with Ok b => lenZ b <=? MAX_WIRE_MESSAGE_SIZE | Err _ => false end = true -> fits m.
Proof.
  intros Hm. destruct (encode_message m) as [b|]eqn:E; [|discriminate]. exists b. b2p. auto.
Qed.

Lemma upload_quotes_fit : quotes_fit upload_content (fun _ => 1) upload_hosts.
Proof.
  intros k. split; [apply upload_fits; vm_compute; reflexivity|].
  each_host; apply upload_fits; vm_compute; reflexivity.
Qed.

Lemma upload_puts_fit : puts_fit upload_content upload_proof (fun _ => 2) upload_hosts.
Proof.
  intros k. split; [apply upload_fits; vm_compute; reflexivity|].
  each_host; apply upload_fits; vm_compute; reflexivity.
Qed.

Lemma upload_can_accept : Forall (can_accept upload_hosts) upload_hosts.
Proof.
  assert (Forall (fun h => now (e_world (h_quote_env h)) = 1000000000) upload_hosts) as Hnow
    by (each_host; reflexivity).
  assert (Forall (fun h => fresh 2000000000 (h_quote h)) upload_hosts) as Hclock.
  { apply Forall_forall. intros h Hh.
    pose proof (proj1 (Forall_forall _ _) upload_quotes h Hh) as Hq.
    destruct (quotes_chunk_valid _ _ Hq) as (_ & _ & _ & _ & Ht). unfold fresh.
    rewrite Ht, (proj1 (Forall_forall _ _) Hnow h Hh). split; vm_compute; congruence. }
  each_host; (split; [reflexivity | reflexivity | reflexivity | reflexivity | exact Hclock]).
Qed.

Lemma paid_upload_is_replicated_witness :
  exists asked stored,
    chunk_put (fun _ => 7) upload_market (with_wallet upload_wallet) upload_config upload_network
      (fun _ => 1) (fun _ => 2) (fun _ => 0%nat) (fun k => 5 * k + 1)%nat upload_content =
      Some (Ok (compute_address upload_content), asked) /\
    stored ⊆+ upload_hosts /\ length stored = 3%nat /\
    Forall (holds_after upload_content upload_proof (fun _ => 2) asked) stored.
Proof.
  apply (paid_upload_is_replicated (fun _ => 7) upload_market (with_wallet upload_wallet) upload_config
    upload_network (fun _ => 1) (fun _ => 2) (fun _ => 0%nat) (fun k => 5 * k + 1)%nat upload_content
    upload_proof (h_peer <$> upload_hosts) upload_wallet tt upload_hosts upload_hosts).
  - vm_compute. reflexivity.
  - reflexivity.
  - apply (bool_decide_unpack _). vm_compute. exact I.
  - exact upload_connected.
  - exact upload_quotes.
  - vm_compute. discriminate.
  - exact upload_quotes_fit.
  - exact upload_puts_fit.
  - exact upload_pays.
  - split; vm_compute; discriminate.
  - reflexivity.
  - reflexivity.
  - intros ms ps [= <-]. apply Forall_fmap, Forall_forall. intros x _. cbn. lia.
  - intros p. cbn. by rewrite length_fmap.
  - reflexivity.
  - cbn. lia.
  - exact upload_can_accept.
  - each_host; intros p prices payment hashes _ _ _ _; exists [mkPaid 30 true];
      (split; [reflexivity|]); (split; [apply Exists_cons_hd; cbn; lia|]);
      apply Forall_singleton; reflexivity.
Defined.
